(* ===== verification/_CoqProject ===== *)
-Q . S2P
Prelude.v
Sorting.v
GoStrings.v
GoTime.v
GoDuration.v
Json.v
LedgerDomain.v
TraceContext.v
LedgerDB.v
Cursor.v
LedgerService.v
LedgerCommands.v
LedgerInvariant.v
LedgerRetry.v
LedgerTx.v
LedgerLocks.v
LedgerView.v
LedgerConcurrency.v
LedgerPages.v
Auth.v
LedgerServer.v
Outbox.v
ConsolidationDomain.v
Projection.v
ProjectionInvariant.v
ProjectionRetry.v
ProjectionClosing.v
Query.v
PendingStore.v
Consumer.v
ConsumerQueue.v
ConsumerSession.v
EventSchema.v
EndToEnd.v
Reconciliation.v
Reprocess.v
GrpcSecurity.v
Jwks.v
KrakendConfig.v
TopologyMigration.v
BrokerSession.v
Redact.v
Migrations.v
ClientCredentials.v
Lifecycle.v
Startup.v
HttpSurface.v
GrpcClient.v
Processes.v
BddSource.v
RepositoryPolicy.v
GraphSearch.v
GoAst.v
StepGuard.v
StepGuardSound.v
Exposition.v
HttpTrace.v
TestIssuer.v
Fixture.v
PostgresTest.v
NoRedirect.v
