(* ===== verification/Prelude.v ===== *)
(** * Cash-flow ledger and consolidation: verification library

    The repository holds two services and what lets them talk.  The Ledger
    (src/services/ledger) accepts credits, debits and reversals, gives every
    entry the next position of its merchant and writes an event for it in the
    same transaction; its outbox publisher hands those events to RabbitMQ.  The
    Consolidation (src/services/consolidation) applies each event once to a
    merchant's daily totals and closing balances, answers queries with a
    statement of how complete they are, isolates what it cannot apply, and
    reconciles itself with the Ledger.  Behind both stand the platform packages
    (src/internal/platform): authentication, the private gRPC surface, the
    signing keys, trace contexts, the policy of the edge and log redaction.

    This library models that Go code, proves what makes it correct, and proves
    where it is not.  A definition keeps its Go name and reads in source order;
    a Go error is a value of [error], a method over mutable state is a function
    of the state, and whatever the machine decides (clocks, entropy, failing
    statements, network answers) is an argument called an environment.

    ** Files

    Shared ground
    - Prelude: errors with wrapping, the result and state monads, 64-bit
      wrap-around, tactics, the hint database and lemmas on lists.
    - Sorting: ORDER BY as a stable sort.  GoStrings, GoTime,
      GoDuration, Json: the parts of strings, strconv, hex, fmt, time and
      encoding/json the sources use.

    The Ledger
    - LedgerDomain: internal/domain (identifiers, BRL money, the merchant
      calendar, entries).  TraceContext: application/traceparent.go and
      platform/observability/tracecontext.
    - LedgerDB: adapters/outbound/postgres/repository.go over the tables and
      constraints of migrations/*.up.sql.  Cursor: application/cursor.go.
      LedgerService: application/service.go.
    - LedgerCommands, LedgerInvariant, LedgerRetry, LedgerPages: the effect of
      every command on the database, the invariant of the databases that can be
      reached, what a retry gets, and reading page by page.
    - LedgerTx, LedgerLocks, LedgerView, LedgerConcurrency: the callbacks of
      service.go as programs over the statements of repository.go, what each
      statement locks, what a READ COMMITTED transaction sees, and the
      interleavings of concurrent transactions.
    - LedgerServer: adapters/inbound/grpc and observability/metrics.go.
    - Outbox: internal/outbox/{model,store,worker,rabbitmq,metrics}.go.
      TopologyMigration: internal/outbox/topology_migration.go and the
      declarations of publisher and consumer.  BrokerSession: what the
      publisher's broker keeps between publications.
    - Migrations: the migration runners of both services, with the Ledger's
      checksums and legacy tracker.

    The Consolidation
    - ConsolidationDomain: internal/domain.  Projection: the transaction of
      adapters/outbound/postgres/store.go and application/projector.go.
      ProjectionInvariant, ProjectionRetry, ProjectionClosing: what every
      reachable projection satisfies, redelivery, and closing balances.
    - Query: application/query.go and the gRPC handler.  PendingStore:
      pending_store.go.  Consumer: adapters/inbound/rabbitmq.  ConsumerQueue:
      the consumer against its queue.  ConsumerSession: its connections.
    - Reconciliation: internal/reconciliation/worker.go.  Reprocess:
      internal/reconciliation/dlq.go and cmd/reconciliation-worker.
    - EventSchema: the JSON Schema of the event, which both services ask.
      EndToEnd: the Ledger's event through the publisher into the consumer.

    The platform
    - Auth: platform/auth, platform/tenancy and auth/httpauth.  GrpcSecurity:
      platform/grpcsecurity, its client side in GrpcClient.  Jwks:
      platform/auth/jwks.go.  KrakendConfig: platform/edge/krakendconfig.
      Redact: platform/observability/redact.  ClientCredentials:
      platform/auth/clientcredentials.
    - HttpSurface: platform/runtimeobs and platform/identityruntime, the
      surfaces of the two APIs.  Startup: the settings of publisher, consumer
      and topology command and what is built from them.  Lifecycle: the
      runtimes of publisher and consumer from start to joined error.
      Processes: the main packages, from the settings to the shutdown.
    - HttpTrace: the middleware's spans and log line and the tracer provider of
      platform/runtimeobs.  Exposition: the metrics text of every process, its
      management listener, and a scrape that reads it back.
    - TestIssuer: platform/auth/authtest against the verifier and the key cache.
      Fixture: consolidation/acceptance.  PostgresTest: internal/postgrestest.
      NoRedirect: the edge's HTTP client plugin.
    - BddSource: internal/bddsource and internal/bddcatalog, the fingerprint
      of the acceptance scenarios.  RepositoryPolicy: cmd/workflowpolicy,
      cmd/securitypolicy and internal/bddrunner.
    - StepGuard: internal/bddguard, over the syntax trees of GoAst and the
      searches of GraphSearch; StepGuardSound: what it accepts.

    How they fit: LedgerService calls LedgerDomain, LedgerDB and Cursor, and
    LedgerServer calls it behind Auth.  Outbox reads the rows LedgerService
    wrote in LedgerDB.  EndToEnd feeds the messages of Outbox to Consumer, which
    calls ConsolidationDomain, Projection and PendingStore; Query and
    Reconciliation read the same Projection, and Reprocess calls Projection and
    PendingStore again.  GrpcSecurity calls the verifier of Auth, whose keys
    come from Jwks, and its client side the token source of ClientCredentials.
    HttpSurface puts the middleware of Auth before the Ledger's and the
    Consolidation's handlers and configures GrpcSecurity; Startup builds the
    settings that Outbox, Consumer and TopologyMigration check; Lifecycle and
    ConsumerSession run the workers they define; Processes puts HttpSurface,
    ClientCredentials, Startup and Lifecycle together.

    ** What the theorems show

    - Ledger commands (LedgerCommands, LedgerInvariant, LedgerRetry): a command
      changes nothing, or adds exactly one entry with the next position, its
      outbox event and its idempotency record; every reachable database keeps
      positions without gaps, one event per entry and at most one reversal of
      an entry; a retry gets the stored answer or a conflict; a well-formed
      command on a healthy database succeeds.
    - Concurrency (LedgerConcurrency): whatever transactions interleave, the
      database and the answers are those of the committed commands run one
      after the other in the order of their commits, and no set of
      transactions deadlocks.
    - Reads (LedgerPages, Cursor, LedgerServer): pages read one after the other
      are the entries the first could see, each once; cursors round-trip; the
      internal stream is complete up to its cut.
    - Delivery (Outbox, TopologyMigration, ConsumerQueue, EndToEnd): a row is
      leased to one worker at a time, the worker drains the table and refines
      at-least-once delivery, only checked messages leave; migrating the
      topology ends, and loses no message wherever it is cut off; the consumer
      loses no message and its retries end; an event the Ledger writes is the
      event the Consolidation stores, and the schema both ask stands in the
      way of none (EventSchema, EndToEnd); the consumer's sessions leave
      nothing open (ConsumerSession), and the publisher's broker has one
      connection at most (BrokerSession).
    - Schema (Migrations): a migration that succeeds brings the database to
      the scripts' state and records each once, a schema of the first release
      is adopted only if trusted, an altered script is refused
      before anything changes, and what a revert deletes.
    - Projection (ProjectionInvariant, ProjectionRetry, ProjectionClosing,
      Query): totals are those of the events received; an event counts once;
      closing balances are the running sums within the recompute span, and
      what goes wrong beyond it; a definitive answer is one, and the race in
      which it is not.
    - Reconciliation and reprocessing: the comparison is equality of the two
      sets, and where its totals go past the cut; outcomes only move forward;
      every dead letter taken has its fate, and what a drain can leave
      behind or delete unread.
    - Platform: the verifier accepts exactly the tokens of its specification;
      no handler behind the middleware or the private surface runs without the
      scope, tenant and certificate it asks for; a served key is recent and
      published under its id, and the race in which the refresh rate is
      exceeded; the edge policy accepts
      exactly the configurations of its specification; no log depends on a
      sensitive value or holds a credential; a service token handed out is one
      the issuer granted and still fresh.
    - Processes (HttpSurface, Startup, Lifecycle, Processes): the public
      surfaces reach the services only through a guarded route and their
      counters tell refusals apart; settings that are accepted are within the
      bounds their workers ask for; a process listens only with every setting
      it requires, and what it then serves is guarded; a runtime that stops
      closes its brokers, returns the errors it was answered and no others, and
      joins what it waits for, and what it leaves running when the deadline
      passes.
    - Observability (Exposition, HttpTrace): a scrape reads back every sample
      a process exposes, up to the write that failed; the log line of an
      exchange names the caller's trace and nothing of headers or bodies.
    - Tests (TestIssuer): a minted token verifies as the identity asked for, a
      forged one does not, and the published key set is the signing key; what
      a scenario sets up is a state the consolidation reaches (Fixture); a test
      server comes up whole or leaves nothing, and when it does not
      (PostgresTest).
    - Edge plugin (NoRedirect): the browser gets the backend's own redirect.
    - Scenario fingerprint (BddSource): parsing loses no meaningful line, equal
      digests mean equal texts, and a blessed set of scenarios that passes the
      continuous integration is the text of the planning artifacts.
    - Repository (RepositoryPolicy): the workflows that pass are those of a
      specification, and two that should not pass do; a scan or a run of the
      acceptance suite passes only for what it looked at.
    - Step-source guard (StepGuardSound): it accepts exactly the sources whose
      registered handlers can be resolved and have an effect it can observe.

    ** Fuel and bounds

    Recursion that is not structural carries fuel, and each use fixes it from
    its input: the length of a string in GoStrings, the length of the claimed
    batch or of the queue in Outbox and TopologyMigration, the days of the span
    in Projection, the number of outstanding blocks in ProjectionClosing.  The
    theorems about these functions are stated for enough fuel and conclude
    that there is a result; none says only what holds if there is one.
    Integers that can overflow are wrapped to 64 bits where Go wraps them.

    ** What stands outside

    Third-party code and the system are arguments, with documented behaviour as
    hypotheses where a theorem needs it: SHA-256 and HMAC, RSA verification,
    the JSON parser and schema validator, time-zone data, URL parsing,
    PostgreSQL's input conversions and text forms, the effect of a migration
    script, key and certificate files (the class [tls_files]), the generated
    gateway, the Gherkin parser, and RabbitMQ, which TopologyMigration sees
    through the classes [AMQP] and [AMQPLaws].  The
    tables, constraints and statements of PostgreSQL are modelled from the SQL
    of the sources; the statements of concurrent Ledger commands interleave
    (LedgerConcurrency), a statement taking effect at the moment it has the
    keys it waits for; the other transactions run one after the other where an
    advisory lock or row locks serialise them, and the reads that are not
    protected are given a database each.

    ** Not modelled

    Generated code (gen/go); sockets, the goroutines of the runtime below the
    step relations and the row locks between concurrent transactions of the
    Consolidation; the text of log lines; the mock servers; the generator of local secrets; the step
    definitions and simulators under test/.  They are
    generated, glue, or outside what the services promise. *)

From Stdlib Require Import ZArith Lia String Ascii.
From stdpp Require Export base list gmap strings option.
Open Scope Z_scope.

(** ** Go errors

    [errors.New] values stored in package variables are compared by identity,
    so a sentinel is named by its variable.  [fmt.Errorf] with [%w] wraps,
    [errors.Join] collects, and the typed errors are the ones the sources
    retrieve with [errors.As]. *)
Inductive error : Type :=
  | ESentinel (var : string)
  | EMsg (text : string)
  | EWrap (context : string) (cause : error)
  | EJoin (causes : list error)
  | EValidation (field reason : string)
  | EConflict (reason : string)
  | EPg (code constraint : string).

(** [errors.Is err target] for a sentinel target: follow wrapping and joins. *)
Fixpoint errors_is (e : error) (target : string) : bool :=
  match e with
  | ESentinel v => String.eqb v target
  | EWrap _ c => errors_is c target
  | EJoin cs => existsb (fun c => errors_is c target) cs
  | _ => false
  end.

(** [errors.As err &target]: the first error of the chain that [f] accepts. *)
Fixpoint errors_as {A} (f : error -> option A) (e : error) : option A :=
  match f e with
  | Some a => Some a
  | None =>
      match e with
      | EWrap _ c => errors_as f c
      | EJoin cs =>
          (fix first (l : list error) : option A :=
             match l with
             | [] => None
             | c :: l' => match errors_as f c with Some a => Some a | None => first l' end
             end) cs
      | _ => None
      end
  end.

(** ** Results and the state-with-errors monad *)
Inductive result (A : Type) : Type :=
  | Ok (a : A)
  | Err (e : error).
Arguments Ok {A} a.
Arguments Err {A} e.

Definition is_ok {A} (r : result A) : bool := match r with Ok _ => true | Err _ => false end.

#[global] Instance result_ret : MRet result := fun A a => Ok a.
#[global] Instance result_bind : MBind result :=
  fun A B f r => match r with Ok a => f a | Err e => Err e end.
#[global] Instance result_fmap : FMap result :=
  fun A B f r => match r with Ok a => Ok (f a) | Err e => Err e end.

(** A Go method over mutable state: the state survives an error return. *)
Definition St (S A : Type) : Type := S -> result A * S.

#[global] Instance st_ret {S} : MRet (St S) := fun A a s => (Ok a, s).
#[global] Instance st_bind {S} : MBind (St S) :=
  fun A B f m s => match m s with (Ok a, s') => f a s' | (Err e, s') => (Err e, s') end.

Definition lift {S A} (r : result A) : St S A := fun s => (r, s).
Definition throw {S A} (e : error) : St S A := fun s => (Err e, s).
Definition get {S} : St S S := fun s => (Ok s, s).
Definition put {S} (s : S) : St S unit := fun _ => (Ok tt, s).

(** [if err != nil { return fmt.Errorf("ctx: %w", err) }] *)
Definition wrap_err {A} (ctx : string) (r : result A) : result A :=
  match r with Ok a => Ok a | Err e => Err (EWrap ctx e) end.
Definition wrap_st {S A} (ctx : string) (m : St S A) : St S A :=
  fun s => let '(r, s') := m s in (wrap_err ctx r, s').

(** Early return on a failed guard. *)
Definition guard_or (b : bool) (e : error) : result unit := if b then Ok tt else Err e.

(** ** Machine integers *)
Definition int64_max : Z := 9223372036854775807.
Definition int64_min : Z := -9223372036854775808.
Definition in_int64 (z : Z) : bool := (int64_min <=? z) && (z <=? int64_max).

(** Two's complement wrap-around of a Go [int64] and [uint64] operation. *)
Definition wrap64 (z : Z) : Z := (z + 9223372036854775808) mod 18446744073709551616 - 9223372036854775808.
Definition wrapu64 (z : Z) : Z := z mod 18446744073709551616.

Lemma in_int64_spec z : in_int64 z = true <-> int64_min <= z <= int64_max.
Proof. unfold in_int64. rewrite andb_true_iff, !Z.leb_le. tauto. Qed.

Lemma wrap64_id z : int64_min <= z <= int64_max -> wrap64 z = z.
Proof.
  unfold wrap64, int64_min, int64_max. intros H.
  rewrite Z.mod_small; lia.
Qed.

Lemma wrap64_range z : int64_min <= wrap64 z <= int64_max.
Proof.
  unfold wrap64, int64_min, int64_max.
  pose proof (Z.mod_pos_bound (z + 9223372036854775808) 18446744073709551616 eq_refl). lia.
Qed.

(** ** Tactics *)

(** Case analysis on the scrutinee of a [match] or [if] in the goal or a
    hypothesis, keeping its equation. *)
Ltac case_goal :=
  match goal with
  | |- context [match ?x with _ => _ end] => destruct x eqn:?
  end.
Ltac case_hyp H :=
  match type of H with
  | context [match ?x with _ => _ end] => destruct x eqn:?
  end.

(** Turn boolean tests in the context into propositions. *)
Ltac bool_to_prop :=
  repeat match goal with
  | H : _ && _ = true |- _ => apply andb_true_iff in H as [? ?]
  | H : _ || _ = false |- _ => apply orb_false_iff in H as [? ?]
  | H : negb _ = true |- _ => apply negb_true_iff in H
  | H : negb _ = false |- _ => apply negb_false_iff in H
  | H : (_ <? _) = true |- _ => apply Z.ltb_lt in H
  | H : (_ <? _) = false |- _ => apply Z.ltb_ge in H
  | H : (_ <=? _) = true |- _ => apply Z.leb_le in H
  | H : (_ <=? _) = false |- _ => apply Z.leb_gt in H
  | H : (_ =? _) = true |- _ => apply Z.eqb_eq in H
  | H : (_ =? _) = false |- _ => apply Z.eqb_neq in H
  | H : String.eqb _ _ = true |- _ => apply String.eqb_eq in H
  | H : String.eqb _ _ = false |- _ => apply String.eqb_neq in H
  end.

(** Split conjunctions, and nothing else. *)
Ltac splits := repeat match goal with |- _ /\ _ => split end.

(** Linear arithmetic with [/] and [mod] by constants. *)
Ltac dlia := Z.div_mod_to_equations; lia.

(** Open a chain of result binds known to succeed. *)
Ltac inv_ok H :=
  repeat (cbn in H; first [discriminate H | injection H as H | case_hyp H]).

Create HintDb keyrus discriminated.
#[export] Hint Resolve wrap64_range : keyrus.

(** ** Lists *)
Lemma existsb_false_forall {A} (f : A -> bool) l : existsb f l = false -> forall x, x ∈ l -> f x = false.
Proof.
  intros H x Hx. apply not_true_iff_false. intros E. rewrite <- not_true_iff_false in H. destruct H.
  apply existsb_exists. exists x. by rewrite <- list_elem_of_In.
Qed.

Fixpoint sumZ {A} (f : A -> Z) (l : list A) : Z :=
  match l with [] => 0 | a :: l' => f a + sumZ f l' end.

Lemma sumZ_app {A} (f : A -> Z) l k : sumZ f (l ++ k) = sumZ f l + sumZ f k.
Proof. induction l as [|a l IH]; cbn; [done|]. rewrite IH. lia. Qed.

Lemma sumZ_perm {A} (f : A -> Z) l k : l ≡ₚ k -> sumZ f l = sumZ f k.
Proof. induction 1; cbn; lia. Qed.

Lemma sumZ_map {A B} (f : B -> Z) (g : A -> B) l : sumZ f (map g l) = sumZ (fun a => f (g a)) l.
Proof. induction l as [|a l IH]; cbn; [done|]. by rewrite IH. Qed.

Lemma sumZ_nonneg {A} (f : A -> Z) l : (forall a, a ∈ l -> 0 <= f a) -> 0 <= sumZ f l.
Proof.
  induction l as [|a l IH]; intros H; cbn; [lia|].
  pose proof (H a ltac:(left)). pose proof (IH ltac:(intros; apply H; right; done)). lia.
Qed.

Lemma sumZ_ext {A} (f g : A -> Z) l : (forall a, a ∈ l -> f a = g a) -> sumZ f l = sumZ g l.
Proof.
  induction l as [|a l IH]; intros H; cbn; [done|].
  rewrite (H a) by left. rewrite IH; [done|]. intros; apply H; right; done.
Qed.

Lemma flat_map_nil {A B} (f : A -> list B) l : flat_map f l = [] <-> forall x, x ∈ l -> f x = [].
Proof.
  induction l as [|x l IH]; cbn; [split; [by intros _ ? ?%elem_of_nil|done]|]. rewrite app_nil, IH. split.
  - intros [H1 H2] y [-> | Hy]%elem_of_cons; auto.
  - intros H. split; [apply H; left|intros y Hy; apply H; by right].
Qed.

Lemma NoDup_snoc {A} (l : list A) a : NoDup l -> a ∉ l -> NoDup (l ++ [a]).
Proof.
  intros Hl Ha. apply list.NoDup_app. splits; [done| |apply list.NoDup_singleton].
  intros x Hx Hxa%list_elem_of_singleton. by subst.
Qed.

Lemma NoDup_map_inj {A B} (f : A -> B) l x y : NoDup (map f l) -> x ∈ l -> y ∈ l -> f x = f y -> x = y.
Proof.
  induction l as [|a l IH]; cbn; [intros _ H; by apply elem_of_nil in H|].
  intros [Ha Hl]%list.NoDup_cons [-> | Hx]%elem_of_cons [-> | Hy]%elem_of_cons E; [done| | |by apply IH];
    destruct Ha; [rewrite E|rewrite <- E]; apply list_elem_of_In, List.in_map; by apply list_elem_of_In.
Qed.

Lemma find_unique {A} (f : A -> bool) l x : x ∈ l -> f x = true -> (forall y, y ∈ l -> f y = true -> y = x) ->
  List.find f l = Some x.
Proof.
  intros Hx Hf Hu. destruct (List.find f l) as [y|] eqn:E.
  - apply List.find_some in E as [E1%list_elem_of_In E2]. by rewrite (Hu y).
  - apply list_elem_of_In in Hx. by rewrite (List.find_none _ _ E x Hx) in Hf.
Qed.

Lemma find_none_all {A} (f : A -> bool) l x : List.find f l = None -> x ∈ l -> f x = false.
Proof. intros H Hx%list_elem_of_In. by apply (List.find_none _ _ H). Qed.

Lemma filter_filter {A} (f g : A -> bool) l :
  List.filter f (List.filter g l) = List.filter (fun x => g x && f x) l.
Proof. induction l as [|a l IH]; cbn; [done|]. destruct (g a); cbn; [destruct (f a)|]; by rewrite IH. Qed.

Lemma filter_ext_eq {A} (f g : A -> bool) l : (forall x, x ∈ l -> f x = g x) ->
  List.filter f l = List.filter g l.
Proof. intros H. apply List.filter_ext_in. intros x Hx. apply H. by apply list_elem_of_In. Qed.

Lemma in_filter_iff {A} (f : A -> bool) l x : x ∈ List.filter f l <-> x ∈ l /\ f x = true.
Proof. by rewrite !list_elem_of_In, List.filter_In. Qed.

Lemma NoDup_map_filter {A B} (g : A -> B) (f : A -> bool) l : NoDup (map g l) -> NoDup (map g (List.filter f l)).
Proof.
  induction l as [|a l IH]; cbn; [done|]. intros [Ha Hl]%list.NoDup_cons.
  destruct (f a); [|by apply IH]. cbn. apply list.NoDup_cons. split; [|by apply IH].
  intros (x & Hx & Hin)%list_elem_of_fmap. apply in_filter_iff in Hin as [Hin _]. apply Ha. rewrite Hx.
  apply list_elem_of_In, List.in_map. by apply list_elem_of_In.
Qed.

Lemma filter_map_comm {A B} (g : A -> B) (f : B -> bool) l :
  map g (List.filter (fun x => f (g x)) l) = List.filter f (map g l).
Proof. induction l as [|a l IH]; cbn; [done|]. destruct (f (g a)); cbn; by rewrite IH. Qed.

(** A boolean property of the integers below a bound, checked one by one. *)
Lemma below_forall (n : nat) (p : Z -> bool) :
  forallb p (map Z.of_nat (seq 0 n)) = true -> forall x, 0 <= x < Z.of_nat n -> p x = true.
Proof.
  intros H x Hx. rewrite forallb_forall in H. apply H. apply in_map_iff.
  exists (Z.to_nat x). rewrite in_seq. lia.
Qed.

(** ** Reflexive transitive closure and invariants of step relations *)
Section Steps.
Context {S : Type} (step : S -> S -> Prop).

Inductive steps : S -> S -> Prop :=
  | steps_refl s : steps s s
  | steps_cons s t u : step s t -> steps t u -> steps s u.

Lemma steps_snoc s t u : steps s t -> step t u -> steps s u.
Proof. induction 1; intros; econstructor; eauto using steps. Qed.

Lemma steps_trans s t u : steps s t -> steps t u -> steps s u.
Proof. induction 1; eauto using steps. Qed.

Lemma steps_invariant (P : S -> Prop) :
  (forall s t, P s -> step s t -> P t) -> forall s t, P s -> steps s t -> P t.
Proof. intros Hpres s t Hs Hst. induction Hst; eauto. Qed.
End Steps.

Arguments steps {S} step _ _.

(** ** Sums over lists *)
Lemma sum_insert {A} (f : A -> nat) l i p q : l !! i = Some p ->
  (sum_list_with f (<[i := q]> l) + f p = sum_list_with f l + f q)%nat.
Proof.
  revert i. induction l as [|x l IH]; intros [|i]; [done|done| |].
  - intros [= ->]. cbn. lia.
  - intros Hi. change (<[S i := q]> (x :: l)) with (x :: <[i := q]> l). cbn [sum_list_with]. specialize (IH i Hi). lia.
Qed.

Lemma sum_le {A} (f g : A -> nat) l : (forall x, f x <= g x)%nat -> (sum_list_with f l <= sum_list_with g l)%nat.
Proof. intros H. induction l as [|x l IH]; cbn; [lia|]. specialize (H x). lia. Qed.

(** ** Successful runs of the state monad *)
Section Runs.
Context {S : Type}.

Lemma st_bind_ok {A B} (m : St S A) (k : A -> St S B) s b s' :
  (m ≫= k) s = (Ok b, s') -> exists a t, m s = (Ok a, t) /\ k a t = (Ok b, s').
Proof. unfold mbind, st_bind. destruct (m s) as [[a|e] t]; [eauto|done]. Qed.

Lemma lift_ok {A} (r : result A) (s s' : S) a : lift r s = (Ok a, s') -> r = Ok a /\ s' = s.
Proof. unfold lift. by intros [= -> ->]. Qed.

Lemma ret_ok {A} (a b : A) (s s' : S) : (mret a : St S A) s = (Ok b, s') -> a = b /\ s' = s.
Proof. unfold mret, st_ret. by intros [= -> ->]. Qed.

Lemma wrap_ok {A} ctx (m : St S A) s a s' : wrap_st ctx m s = (Ok a, s') -> m s = (Ok a, s').
Proof. unfold wrap_st. destruct (m s) as [[x|e] t]; [by intros [= -> ->]|done]. Qed.

Lemma st_bind_run {A B} (m : St S A) (k : A -> St S B) s a t :
  m s = (Ok a, t) -> (m ≫= k) s = k a t.
Proof. unfold mbind, st_bind. by intros ->. Qed.

Lemma st_bind_err {A B} (m : St S A) (k : A -> St S B) s e t :
  m s = (Err e, t) -> (m ≫= k) s = (Err e, t).
Proof. unfold mbind, st_bind. by intros ->. Qed.

Lemma wrap_run {A} ctx (m : St S A) s a t : m s = (Ok a, t) -> wrap_st ctx m s = (Ok a, t).
Proof. unfold wrap_st. by intros ->. Qed.
End Runs.

(** Open a successful run statement by statement; every named run is left to
    its own lemma. *)
Ltac run_inv H :=
  lazymatch type of H with
  | (_ ≫= _) _ = (Ok _, _) =>
      let x := fresh "x" in let t := fresh "t" in let H1 := fresh "R" in
      apply st_bind_ok in H as (x & t & H1 & H); run_inv H1; run_inv H
  | lift _ _ = (Ok _, _) => apply lift_ok in H as [H ?]; subst
  | wrap_st _ _ _ = (Ok _, _) => apply wrap_ok in H; run_inv H
  | mret _ _ = (Ok _, _) => apply ret_ok in H as [? ?]; subst
  | throw _ _ = (Ok _, _) => discriminate H
  | _ => idtac
  end.
