(* ===== verification/Sorting.v ===== *)
(** * ORDER BY

    A stable insertion sort by any strict weak order, and the facts the queries
    need: it permutes its input, sorts it, and commutes with filters. *)

From S2P Require Import Prelude.

Section Sort.
Context {A : Type} (before : A -> A -> bool).

Fixpoint insert_by (a : A) (l : list A) : list A :=
  match l with
  | [] => [a]
  | q :: l' => if before q a then q :: insert_by a l' else a :: l
  end.
Definition sort_by (l : list A) : list A := fold_right insert_by [] l.

(** Nothing is before an earlier element. *)
Fixpoint ordered (l : list A) : Prop :=
  match l with [] => True | a :: l' => (forall q, q ∈ l' -> before q a = false) /\ ordered l' end.

Lemma insert_by_perm a l : insert_by a l ≡ₚ a :: l.
Proof. induction l as [|q l IH]; cbn; [done|]. destruct (before q a); [|done]. rewrite IH. constructor. Qed.

Lemma sort_by_perm l : sort_by l ≡ₚ l.
Proof. induction l as [|a l IH]; cbn; [done|]. by rewrite insert_by_perm, IH. Qed.

Lemma sort_by_in l x : x ∈ sort_by l <-> x ∈ l.
Proof. by rewrite sort_by_perm. Qed.

Lemma sort_by_length l : length (sort_by l) = length l.
Proof. apply Permutation_length, sort_by_perm. Qed.

Lemma sort_by_id l : ordered l -> sort_by l = l.
Proof.
  induction l as [|a l IH]; [done|]. intros [Ha Hl]. change (insert_by a (sort_by l) = a :: l). rewrite IH by done.
  destruct l as [|q l]; [done|]. cbn. by rewrite Ha by left.
Qed.

Class StrictWeakOrder : Prop := {
  swo_asym : forall a b, before a b = true -> before b a = false;
  swo_split : forall a b c, before a c = true -> before a b = true \/ before b c = true }.

Context {swo : StrictWeakOrder}.

Lemma insert_by_ordered a l : ordered l -> ordered (insert_by a l).
Proof.
  induction l as [|q l IH]; cbn; intros Ho; [split; [by intros q ?%elem_of_nil|done]|]. destruct Ho as [Hq Ho].
  destruct (before q a) eqn:E; cbn.
  - split; [|by apply IH]. intros r Hr. rewrite insert_by_perm in Hr. apply elem_of_cons in Hr as [-> | Hr].
    + by apply swo_asym.
    + by apply Hq.
  - split; [|done]. intros r [-> | Hr]%elem_of_cons; [done|]. apply not_true_iff_false. intros Hra.
    destruct (swo_split r q a Hra) as [H|H]; [by rewrite (Hq r Hr) in H|congruence].
Qed.

Lemma sort_by_ordered l : ordered (sort_by l).
Proof. induction l as [|a l IH]; cbn; [done|]. by apply insert_by_ordered. Qed.

Lemma insert_by_filter (f : A -> bool) a l : ordered l ->
  List.filter f (insert_by a l) = if f a then insert_by a (List.filter f l) else List.filter f l.
Proof.
  induction l as [|q l IH]; cbn; intros Ho; [by destruct (f a)|]. destruct Ho as [Hq Ho].
  destruct (before q a) eqn:E; cbn.
  - rewrite IH by done. destruct (f q), (f a); cbn; try done. by rewrite E.
  - destruct (f a) eqn:Fa; [|done]. destruct (f q) eqn:Fq; cbn; [by rewrite E|].
    destruct (List.filter f l) as [|r k] eqn:El; [done|]. cbn.
    assert (r ∈ l) as Hr by (eapply list_elem_of_In, List.filter_In; rewrite El; by left).
    destruct (before r a) eqn:Era; [|done]. destruct (swo_split r q a Era) as [H|H]; [|congruence].
    by rewrite (Hq r Hr) in H.
Qed.

Lemma sort_by_filter (f : A -> bool) l : sort_by (List.filter f l) = List.filter f (sort_by l).
Proof.
  induction l as [|a l IH]; [done|]. change (sort_by (a :: l)) with (insert_by a (sort_by l)).
  rewrite insert_by_filter by apply sort_by_ordered. rewrite <- IH. cbn [List.filter]. by destruct (f a).
Qed.
End Sort.

Arguments StrictWeakOrder {A} before.
