(* ===== verification/GoStrings.v ===== *)
(** * The parts of Go's [strings], [strconv], [encoding/hex] and [fmt] the sources use

    Go strings are byte sequences, as Stdlib strings are.  [to_lower],
    [trim_space] and [fields] work on bytes and treat the multi-byte runes
    that matter: the two non-ASCII runes whose lower case is ASCII and the
    Unicode white space.  Every other non-ASCII rune is left as it is, so each
    comparison of a result with ASCII text is exact. *)

From S2P Require Import Prelude.
From Stdlib Require Import ZArith Lia String Ascii.
Open Scope string_scope.
Open Scope Z_scope.
#[global] Arguments String.append : simpl nomatch.

Definition slen (s : string) : Z := Z.of_nat (String.length s).
Definition code (c : ascii) : Z := Z.of_N (N_of_ascii c).
Definition chr (z : Z) : ascii := ascii_of_N (Z.to_N z).

Lemma code_range c : 0 <= code c < 256.
Proof. unfold code. pose proof (N_ascii_bounded c). lia. Qed.

Lemma chr_code c : chr (code c) = c.
Proof. unfold chr, code. rewrite N2Z.id. apply ascii_N_embedding. Qed.

Lemma code_chr z : 0 <= z < 256 -> code (chr z) = z.
Proof. intros. unfold chr, code. rewrite N_ascii_embedding by lia. lia. Qed.

(** [value[i]] and [value[i:j]]; the sources check the length first. *)
Definition char_at (i : nat) (s : string) : option ascii := String.get i s.
Definition slice (i j : nat) (s : string) : string := String.substring i (j - i) s.

Definition has_prefix (p s : string) : bool := String.prefix p s.

Fixpoint has_char (c : ascii) (s : string) : bool :=
  match s with
  | "" => false
  | String d s' => Ascii.eqb c d || has_char c s'
  end.

Fixpoint forall_chars (p : ascii -> bool) (s : string) : bool :=
  match s with
  | "" => true
  | String c s' => p c && forall_chars p s'
  end.

(** [strings.Split(s, sep)] for a one-byte separator: never empty. *)
Fixpoint split (sep : ascii) (s : string) : list string :=
  match s with
  | "" => [""]
  | String c s' =>
      if Ascii.eqb c sep then "" :: split sep s'
      else match split sep s' with
           | [] => [String c ""]
           | p :: ps => String c p :: ps
           end
  end.

Fixpoint join (sep : ascii) (ps : list string) : string :=
  match ps with
  | [] => ""
  | [p] => p
  | p :: ps' => p +:+ String sep (join sep ps')
  end.

(** [strings.Contains(s, sub)] *)
Fixpoint contains_sub (sub s : string) : bool :=
  has_prefix sub s || match s with "" => false | String _ s' => contains_sub sub s' end.

(** ** Character classes *)
Definition is_digit (c : ascii) : bool := (48 <=? code c) && (code c <=? 57).
Definition is_lower_hex (c : ascii) : bool := is_digit c || ((97 <=? code c) && (code c <=? 102)).
Definition is_hex (c : ascii) : bool := is_lower_hex c || ((65 <=? code c) && (code c <=? 70)).
Definition is_upper (c : ascii) : bool := (65 <=? code c) && (code c <=? 90).

Definition lower_ascii (c : ascii) : ascii := if is_upper c then chr (code c + 32) else c.
Definition is_byte (z : Z) (c : ascii) : bool := code c =? z.

(** [strings.ToLower]: U+0130 (C4 B0) becomes i and U+212A (E2 84 AA) becomes k. *)
Fixpoint to_lower (s : string) : string :=
  match s with
  | "" => ""
  | String c1 r1 =>
      match r1 with
      | "" => String (lower_ascii c1) ""
      | String c2 r2 =>
          if is_byte 196 c1 && is_byte 176 c2 then String "i" (to_lower r2)
          else match r2 with
               | "" => String (lower_ascii c1) (to_lower r1)
               | String c3 r3 =>
                   if is_byte 226 c1 && is_byte 132 c2 && is_byte 170 c3
                   then String "k" (to_lower r3)
                   else String (lower_ascii c1) (to_lower r1)
               end
      end
  end.

(** [strings.ToUpper] on the lower-case ASCII literals it is applied to. *)
Definition upper_ascii (c : ascii) : ascii :=
  if (97 <=? code c) && (code c <=? 122) then chr (code c - 32) else c.
Fixpoint to_upper_ascii (s : string) : string :=
  match s with "" => "" | String c s' => String (upper_ascii c) (to_upper_ascii s') end.

(** [strings.EqualFold(s, t)] for an ASCII [t] without i, k and s. *)
Fixpoint ascii_lower (s : string) : string :=
  match s with "" => "" | String c s' => String (lower_ascii c) (ascii_lower s') end.
Definition equal_fold (s t : string) : bool := String.eqb (ascii_lower s) (ascii_lower t).

(** ** White space *)
Definition is_ascii_space (c : ascii) : bool :=
  (code c =? 32) || ((9 <=? code c) && (code c <=? 13)).

(** The rest after one leading white-space rune. *)
Definition space_rune (s : string) : option string :=
  match s with
  | String c1 r1 =>
      if is_ascii_space c1 then Some r1
      else match r1 with
      | String c2 r2 =>
          if is_byte 194 c1 && (is_byte 133 c2 || is_byte 160 c2) then Some r2
          else match r2 with
          | String c3 r3 =>
              if (is_byte 225 c1 && is_byte 154 c2 && is_byte 128 c3)
                 || (is_byte 226 c1 && is_byte 128 c2
                     && (((128 <=? code c3) && (code c3 <=? 138)) || is_byte 168 c3
                         || is_byte 169 c3 || is_byte 175 c3))
                 || (is_byte 226 c1 && is_byte 129 c2 && is_byte 159 c3)
                 || (is_byte 227 c1 && is_byte 128 c2 && is_byte 128 c3)
              then Some r3 else None
          | "" => None
          end
      | "" => None
      end
  | "" => None
  end.

Fixpoint trim_left_fuel (fuel : nat) (s : string) : string :=
  match fuel with
  | O => s
  | S n => match space_rune s with Some r => trim_left_fuel n r | None => s end
  end.
Definition trim_left (s : string) : string := trim_left_fuel (String.length s) s.

Fixpoint trim_right (s : string) : string :=
  match s with
  | "" => ""
  | String c s' => if String.eqb (trim_left s) "" then "" else String c (trim_right s')
  end.
Definition trim_space (s : string) : string := trim_right (trim_left s).

(** [strings.Fields]: the maximal runs without white space. *)
Fixpoint fields_fuel (fuel : nat) (cur s : string) : list string :=
  let flush rest := if String.eqb cur "" then rest else cur :: rest in
  match fuel with
  | O => flush []
  | S n =>
      match space_rune s with
      | Some r => flush (fields_fuel n "" r)
      | None => match s with
                | "" => flush []
                | String c s' => fields_fuel n (cur +:+ String c "") s'
                end
      end
  end.
Definition fields (s : string) : list string := fields_fuel (S (String.length s)) "" s.

(** [strings.Cut(s, sep)] for a one-byte separator. *)
Fixpoint cut (sep : ascii) (s : string) : string * string * bool :=
  match s with
  | "" => ("", "", false)
  | String c s' =>
      if Ascii.eqb c sep then ("", s', true)
      else let '(a, b, found) := cut sep s' in (String c a, b, found)
  end.

(** ** Decimal numbers *)
Definition digit_val (c : ascii) : Z := code c - 48.
Definition digit_chr (d : Z) : ascii := chr (48 + d).

(** The value of a string of digits, continuing from [acc]. *)
Fixpoint digits_val (acc : Z) (s : string) : option Z :=
  match s with
  | "" => Some acc
  | String c s' => if is_digit c then digits_val (acc * 10 + digit_val c) s' else None
  end.

(** [strconv.ParseInt(s, 10, 64)] on an unsigned digit string. *)
Definition parse_int64 (s : string) : result Z :=
  if String.eqb s "" then Err (EMsg "strconv.ParseInt: invalid syntax")
  else match digits_val 0 s with
       | Some v => if v <=? int64_max then Ok v else Err (EMsg "strconv.ParseInt: value out of range")
       | None => Err (EMsg "strconv.ParseInt: invalid syntax")
       end.

Fixpoint dec_go (fuel : nat) (z : Z) (acc : string) : string :=
  match fuel with
  | O => acc
  | S n => let acc' := String (digit_chr (z mod 10)) acc in
           if z <? 10 then acc' else dec_go n (z / 10) acc'
  end.

(** [fmt.Sprintf("%d", z)] *)
Definition fmt_nat (z : Z) : string := dec_go (S (Z.to_nat (Z.log2 z))) z "".
Definition fmt_d (z : Z) : string :=
  if z <? 0 then String "-" (fmt_nat (- z)) else fmt_nat z.

(** [%0wd] for a non-negative number below [10^w]. *)
Fixpoint pad_dec (w : nat) (z : Z) : string :=
  match w with
  | O => ""
  | S n => pad_dec n (z / 10) +:+ String (digit_chr (z mod 10)) ""
  end.

(** ** Hexadecimal *)
Definition hex_val (c : ascii) : option Z :=
  if is_digit c then Some (code c - 48)
  else if (97 <=? code c) && (code c <=? 102) then Some (code c - 87)
  else if (65 <=? code c) && (code c <=? 70) then Some (code c - 55)
  else None.

(** [hex.DecodeString]: bytes, or None for a bad digit or an odd length. *)
Fixpoint hex_decode (s : string) : option (list Z) :=
  match s with
  | "" => Some []
  | String a s1 =>
      match s1 with
      | "" => None
      | String b s2 =>
          match hex_val a, hex_val b, hex_decode s2 with
          | Some x, Some y, Some l => Some (x * 16 + y :: l)
          | _, _, _ => None
          end
      end
  end.

Definition hex_digit (d : Z) : ascii := if d <? 10 then chr (48 + d) else chr (87 + d).

(** [%x] of a byte slice: two lower-case digits per byte. *)
Fixpoint hex_encode (l : list Z) : string :=
  match l with
  | [] => ""
  | b :: l' => String (hex_digit (b / 16)) (String (hex_digit (b mod 16)) (hex_encode l'))
  end.

(** ** UTF-8 *)
Definition in_range (lo hi : Z) (c : ascii) : bool := (lo <=? code c) && (code c <=? hi).
Definition cont (c : ascii) : bool := in_range 128 191 c.

(** The width of the first rune; an invalid byte counts as one rune. *)
Definition rune_width (s : string) : nat :=
  match s with
  | String a (String b r) =>
      if in_range 194 223 a && cont b then 2%nat
      else match r with
      | String c r' =>
          if ((is_byte 224 a && in_range 160 191 b)
              || ((in_range 225 236 a || in_range 238 239 a) && cont b)
              || (is_byte 237 a && in_range 128 159 b)) && cont c then 3%nat
          else match r' with
          | String d _ =>
              if ((is_byte 240 a && in_range 144 191 b) || (in_range 241 243 a && cont b)
                  || (is_byte 244 a && in_range 128 143 b)) && cont c && cont d
              then 4%nat else 1%nat
          | "" => 1%nat
          end
      | "" => 1%nat
      end
  | _ => 1%nat
  end.

Fixpoint drop_chars (n : nat) (s : string) : string :=
  match n, s with S k, String _ s' => drop_chars k s' | _, _ => s end.

(** [utf8.RuneCountInString] *)
Fixpoint rune_count_fuel (fuel : nat) (s : string) : Z :=
  match fuel, s with
  | S k, String _ _ => 1 + rune_count_fuel k (drop_chars (rune_width s) s)
  | _, _ => 0
  end.
Definition rune_count (s : string) : Z := rune_count_fuel (String.length s) s.

(** ** Lemmas *)
Lemma string_length_app s t : String.length (s +:+ t) = (String.length s + String.length t)%nat.
Proof. induction s as [|c s IH]; cbn; [done|]. by rewrite IH. Qed.

Lemma string_app_assoc s t u : (s +:+ t) +:+ u = s +:+ (t +:+ u).
Proof. induction s as [|c s IH]; cbn; [done|]. by rewrite IH. Qed.

Lemma string_app_nil_r s : s +:+ "" = s.
Proof. induction s as [|c s IH]; cbn; [done|]. by rewrite IH. Qed.

Lemma slen_app s t : slen (s +:+ t) = slen s + slen t.
Proof. unfold slen. rewrite string_length_app. lia. Qed.

Lemma forall_chars_app p s t : forall_chars p (s +:+ t) = forall_chars p s && forall_chars p t.
Proof. induction s as [|c s IH]; cbn; [done|]. by rewrite IH, andb_assoc. Qed.

Lemma digit_chr_spec d : 0 <= d < 10 ->
  is_digit (digit_chr d) = true /\ digit_val (digit_chr d) = d.
Proof.
  intros H. unfold is_digit, digit_val, digit_chr. rewrite code_chr by lia.
  rewrite andb_true_iff, !Z.leb_le. lia.
Qed.

Lemma digits_val_app acc s t :
  digits_val acc (s +:+ t) = match digits_val acc s with Some v => digits_val v t | None => None end.
Proof. revert acc. induction s as [|c s IH]; intros acc; cbn; [done|]. case_goal; auto. Qed.

Lemma dec_go_val fuel z acc : 0 <= z < 10 ^ Z.of_nat fuel -> (0 < fuel)%nat ->
  digits_val 0 (dec_go fuel z acc) = digits_val z acc.
Proof.
  revert z acc. induction fuel as [|n IH]; intros z acc Hz Hf; [lia|]. cbn.
  assert (0 <= z mod 10 < 10) as Hm by (apply Z.mod_pos_bound; lia).
  destruct (digit_chr_spec _ Hm) as [Hd Hv].
  case_goal; bool_to_prop.
  - cbn. rewrite Hd, Hv. by rewrite Z.mod_small by lia.
  - assert (0 < n)%nat.
    { destruct n; [change (10 ^ Z.of_nat 1) with 10 in Hz|]; lia. }
    rewrite IH; cbn; [rewrite Hd, Hv; f_equal; dlia| |done].
    rewrite Nat2Z.inj_succ, Z.pow_succ_r in Hz by lia.
    split; [apply Z.div_pos|apply Z.div_lt_upper_bound]; lia.
Qed.

Lemma log2_fuel z : 0 <= z -> z < 10 ^ Z.of_nat (S (Z.to_nat (Z.log2 z))).
Proof.
  intros Hz. rewrite Nat2Z.inj_succ, Z2Nat.id by apply Z.log2_nonneg.
  destruct (decide (z = 0)) as [->|]; [done|].
  destruct (Z.log2_spec z) as [_ Hlt]; [lia|].
  eapply Z.lt_le_trans; [exact Hlt|]. apply Z.pow_le_mono_l. lia.
Qed.

Lemma fmt_nat_val z : 0 <= z -> digits_val 0 (fmt_nat z) = Some z.
Proof.
  intros Hz. unfold fmt_nat. rewrite dec_go_val; [done| |lia].
  split; [done|]. by apply log2_fuel.
Qed.

Lemma digits_val_digits s acc v : digits_val acc s = Some v -> forall_chars is_digit s = true.
Proof. revert acc. induction s as [|c s IH]; intros acc; cbn; [done|]. case_goal; [cbn; eauto|done]. Qed.

Lemma digits_val_total s acc : forall_chars is_digit s = true -> is_Some (digits_val acc s).
Proof.
  revert acc. induction s as [|c s IH]; intros acc; cbn; [eauto|]. intros H. bool_to_prop.
  rewrite H. auto.
Qed.

Lemma digits_val_nonneg s acc v : 0 <= acc -> digits_val acc s = Some v -> 0 <= v.
Proof.
  revert acc. induction s as [|c s IH]; intros acc Ha; cbn; [intros [=]; lia|].
  case_goal; [|done]. apply IH. unfold is_digit, digit_val in *. bool_to_prop. lia.
Qed.

Lemma dec_go_nonempty fuel z acc : (0 < fuel)%nat -> dec_go fuel z acc <> "".
Proof.
  assert (forall n y a, a <> "" -> dec_go n y a <> "") as Haux.
  { induction n as [|n IH]; intros y a Ha; cbn; [done|]. case_goal; [done|]. by apply IH. }
  destruct fuel; intros; [lia|]. cbn. case_goal; [done|]. by apply Haux.
Qed.

Lemma fmt_nat_nonempty z : fmt_nat z <> "".
Proof. apply dec_go_nonempty. lia. Qed.

Lemma pad_dec_val w z : 0 <= z < 10 ^ Z.of_nat w -> digits_val 0 (pad_dec w z) = Some z.
Proof.
  revert z. induction w as [|n IH]; intros z Hz; [change (10 ^ Z.of_nat 0) with 1 in Hz; cbn; f_equal; lia|].
  cbn. rewrite Nat2Z.inj_succ, Z.pow_succ_r in Hz by lia.
  assert (0 <= z mod 10 < 10) as Hm by (apply Z.mod_pos_bound; lia).
  destruct (digit_chr_spec _ Hm) as [Hd Hv].
  rewrite digits_val_app, IH; [cbn; rewrite Hd, Hv; f_equal; dlia|].
  split; [apply Z.div_pos; lia|apply Z.div_lt_upper_bound; lia].
Qed.

Lemma pad_dec_length w z : String.length (pad_dec w z) = w.
Proof. revert z. induction w as [|n IH]; intros z; cbn; [done|]. rewrite string_length_app, IH. cbn. lia. Qed.

Lemma pad_dec_digits w z : 0 <= z -> forall_chars is_digit (pad_dec w z) = true.
Proof.
  revert z. induction w as [|n IH]; intros z Hz; cbn; [done|].
  rewrite forall_chars_app, IH by (apply Z.div_pos; lia). cbn.
  assert (0 <= z mod 10 < 10) as Hm by (apply Z.mod_pos_bound; lia).
  by rewrite (proj1 (digit_chr_spec _ Hm)).
Qed.

(** Splitting at a byte that a part does not contain. *)
Lemma split_no_sep sep s : forall_chars (fun c => negb (Ascii.eqb c sep)) s = true -> split sep s = [s].
Proof.
  induction s as [|c s IH]; cbn; [done|]. intros H. bool_to_prop. rewrite H, IH; done.
Qed.

Lemma split_app sep s t : forall_chars (fun c => negb (Ascii.eqb c sep)) s = true ->
  split sep (s +:+ String sep t) = s :: split sep t.
Proof.
  induction s as [|c s IH]; cbn.
  - by rewrite Ascii.eqb_refl.
  - intros H. bool_to_prop. rewrite H, IH; done.
Qed.

Lemma split_nonempty sep s : split sep s <> [].
Proof. induction s as [|c s IH]; cbn; [done|]. case_goal; [done|]. case_goal; done. Qed.

Lemma join_split sep s : join sep (split sep s) = s.
Proof.
  induction s as [|c s IH]; cbn; [done|]. case_goal.
  - apply Ascii.eqb_eq in Heqb as ->. pose proof (split_nonempty sep s) as Hne.
    destruct (split sep s) as [|p ps] eqn:E; [done|]. cbn in *. by rewrite IH.
  - pose proof (split_nonempty sep s) as Hne.
    destruct (split sep s) as [|p ps] eqn:E; [done|]. rewrite <- IH. cbn. destruct ps; done.
Qed.

Lemma digits_no_char c s : is_digit c = false -> forall_chars is_digit s = true ->
  forall_chars (fun d => negb (Ascii.eqb d c)) s = true.
Proof.
  intros Hc. induction s as [|d s IH]; cbn; [done|]. intros H. bool_to_prop.
  rewrite IH by done. rewrite andb_true_r. apply negb_true_iff, Ascii.eqb_neq. congruence.
Qed.

Lemma hex_val_spec c : is_Some (hex_val c) <-> is_hex c = true.
Proof.
  unfold hex_val, is_hex, is_lower_hex. rewrite !orb_true_iff.
  destruct (is_digit c); [split; eauto|].
  destruct ((97 <=? code c) && _); [split; eauto|].
  destruct ((65 <=? code c) && _); [split; eauto|].
  split; [intros [? [=]]|intros [[|]|]; done].
Qed.

Lemma hex_val_range c x : hex_val c = Some x -> 0 <= x < 16.
Proof.
  unfold hex_val, is_digit. repeat case_goal; intros [= <-]; bool_to_prop; lia.
Qed.

Lemma hex_digit_spec d : 0 <= d < 16 ->
  is_lower_hex (hex_digit d) = true /\ hex_val (hex_digit d) = Some d.
Proof.
  intros H. unfold hex_digit, is_lower_hex, hex_val, is_digit.
  destruct (Z.ltb_spec d 10); rewrite code_chr by lia.
  - replace ((48 <=? 48 + d) && (48 + d <=? 57)) with true by lia. split; [done|f_equal; lia].
  - replace ((48 <=? 87 + d) && (87 + d <=? 57)) with false by lia.
    replace ((97 <=? 87 + d) && (87 + d <=? 102)) with true by lia. split; [done|f_equal; lia].
Qed.

Lemma hex_decode_encode l : Forall (fun b => 0 <= b < 256) l -> hex_decode (hex_encode l) = Some l.
Proof.
  induction 1 as [|b l Hb Hl IH]; cbn; [done|].
  rewrite (proj2 (hex_digit_spec (b / 16) ltac:(split; [apply Z.div_pos|apply Z.div_lt_upper_bound]; lia))).
  rewrite (proj2 (hex_digit_spec (b mod 16) ltac:(apply Z.mod_pos_bound; lia))), IH.
  do 2 f_equal. dlia.
Qed.

Lemma hex_encode_hex l : Forall (fun b => 0 <= b < 256) l -> forall_chars is_lower_hex (hex_encode l) = true.
Proof.
  induction 1 as [|b l Hb Hl IH]; cbn; [done|].
  rewrite (proj1 (hex_digit_spec (b / 16) ltac:(split; [apply Z.div_pos|apply Z.div_lt_upper_bound]; lia))).
  by rewrite (proj1 (hex_digit_spec (b mod 16) ltac:(apply Z.mod_pos_bound; lia))), IH.
Qed.

(** Slices of a concatenation. *)
Lemma substring_app_r a i m b : String.substring (String.length a + i) m (a +:+ b) = String.substring i m b.
Proof. induction a as [|c a IH]; cbn; [done|]. apply IH. Qed.

Lemma substring_app_l a b : String.substring 0 (String.length a) (a +:+ b) = a.
Proof. induction a as [|c a IH]; cbn; [by destruct b|]. by rewrite IH. Qed.

Lemma slice_mid a b c i j : i = String.length a -> j = (i + String.length b)%nat ->
  slice i j (a +:+ (b +:+ c)) = b.
Proof.
  intros -> ->. unfold slice. replace (_ + _ - _)%nat with (String.length b) by lia.
  rewrite <- (Nat.add_0_r (String.length a)), substring_app_r. apply substring_app_l.
Qed.

Lemma slice_end a b i j : i = String.length a -> j = (i + String.length b)%nat -> slice i j (a +:+ b) = b.
Proof.
  intros Hi Hj. pose proof (slice_mid a b "" i j Hi Hj) as H. by rewrite string_app_nil_r in H.
Qed.

Lemma char_at_app a c b i : i = String.length a -> char_at i (a +:+ String c b) = Some c.
Proof. intros ->. unfold char_at. induction a as [|d a IH]; cbn; [done|]. apply IH. Qed.

Lemma forall_chars_impl (p q : ascii -> bool) s : (forall c, p c = true -> q c = true) ->
  forall_chars p s = true -> forall_chars q s = true.
Proof. intros Hpq. induction s as [|c s IH]; cbn; [done|]. intros H. bool_to_prop. rewrite Hpq; auto. Qed.

(** White space in ASCII text: nothing to trim. *)
Definition no_space (c : ascii) : bool := (code c <? 128) && negb (is_ascii_space c).

Lemma space_rune_none c s : no_space c = true -> space_rune (String c s) = None.
Proof.
  unfold no_space. intros H. bool_to_prop. unfold space_rune, is_byte.
  repeat match goal with E : is_ascii_space c = false |- _ => rewrite E; clear E end.
  rewrite !(proj2 (Z.eqb_neq (code c) _)) by lia. cbn. destruct s as [|? [|? ?]]; done.
Qed.

Lemma trim_left_id s : forall_chars no_space s = true -> trim_left s = s.
Proof.
  destruct s as [|c t]; [done|]. intros Ht. cbn in Ht. bool_to_prop.
  unfold trim_left. cbn [String.length trim_left_fuel]. by rewrite space_rune_none.
Qed.

Lemma trim_right_id s : forall_chars no_space s = true -> trim_right s = s.
Proof.
  intros H. induction s as [|c s IH]; [done|]. cbn [trim_right].
  rewrite trim_left_id by done. change (String.eqb (String c s) "") with false. cbn iota.
  f_equal. apply IH. cbn in H. by bool_to_prop.
Qed.

Lemma trim_space_id s : forall_chars no_space s = true -> trim_space s = s.
Proof. intros H. unfold trim_space. by rewrite trim_left_id, trim_right_id. Qed.

Lemma lower_hex_no_space c : is_lower_hex c = true -> no_space c = true.
Proof.
  unfold is_lower_hex, is_digit, no_space, is_ascii_space. intros H.
  apply orb_true_iff in H as [H|H]; bool_to_prop; rewrite andb_true_iff, negb_true_iff, orb_false_iff,
    andb_false_iff, Z.ltb_lt, Z.eqb_neq, !Z.leb_gt; lia.
Qed.

Lemma hex_decode_hex s l : hex_decode s = Some l -> forall_chars is_hex s = true.
Proof.
  revert l. induction s as [s IH] using (induction_ltof1 _ String.length). intros l H.
  destruct s as [|a [|b s]]; [done|done|]. cbn in H.
  destruct (hex_val a) eqn:Ea; [|done]. destruct (hex_val b) eqn:Eb; [|done].
  destruct (hex_decode s) eqn:Es; [|done]. cbn.
  rewrite !(proj1 (hex_val_spec _)) by eauto. eapply IH; [|exact Es]. unfold ltof. cbn. lia.
Qed.

Lemma string_split_at n s c : char_at n s = Some c ->
  s = String.substring 0 n s +:+ String c (drop_chars (S n) s).
Proof.
  revert s. induction n as [|n IH]; intros [|d s] H; cbn in *; try done.
  - by injection H as ->.
  - f_equal. by apply IH.
Qed.

Lemma substring_drop i n s : String.substring i n s = String.substring 0 n (drop_chars i s).
Proof. revert s. induction i as [|i IH]; intros [|c s]; cbn; try done; try (by destruct n); try apply IH. Qed.

Lemma drop_drop i j s : drop_chars i (drop_chars j s) = drop_chars (j + i) s.
Proof. revert s. induction j as [|j IH]; intros [|c s]; cbn; try done; try (by destruct i); try apply IH. Qed.

Lemma char_at_drop i j s : char_at i (drop_chars j s) = char_at (j + i) s.
Proof. revert s. induction j as [|j IH]; intros [|c s]; cbn; try done; try (by destruct i); try apply IH. Qed.

Lemma drop_length i s : String.length (drop_chars i s) = (String.length s - i)%nat.
Proof. revert s. induction i as [|i IH]; intros [|c s]; cbn; try done; try apply IH. Qed.

Lemma substring_all s n : (String.length s <= n)%nat -> String.substring 0 n s = s.
Proof.
  revert n. induction s as [|c s IH]; intros [|n] H; cbn in *; [done..|lia|].
  rewrite IH; [done|lia].
Qed.

Lemma substring_length i n s : (i + n <= String.length s)%nat -> String.length (String.substring i n s) = n.
Proof.
  rewrite substring_drop. intros H. pose proof (drop_length i s) as Hd. revert Hd.
  generalize (drop_chars i s). intros t Hd. assert (n <= String.length t)%nat as Hn by lia. clear -Hn.
  revert n Hn. induction t as [|c t IH]; intros [|n] Hn; cbn in *; try lia. rewrite IH; lia.
Qed.

Lemma is_hex_ascii c : is_hex c = true -> (code c <? 128) = true.
Proof.
  unfold is_hex, is_lower_hex, is_digit. intros H. apply Z.ltb_lt.
  rewrite !orb_true_iff, !andb_true_iff, !Z.leb_le in H. lia.
Qed.

Definition is_ascii (s : string) : bool := forall_chars (fun c => code c <? 128) s.

(** ** Lower case *)
Lemma lower_ascii_idem c : lower_ascii (lower_ascii c) = lower_ascii c.
Proof. destruct c as [[] [] [] [] [] [] [] []]; reflexivity. Qed.

Lemma ascii_lower_idem s : ascii_lower (ascii_lower s) = ascii_lower s.
Proof. induction s as [|c s IH]; cbn; [done|]. by rewrite lower_ascii_idem, IH. Qed.

Lemma to_lower_cons c1 c2 c3 r : to_lower (String c1 (String c2 (String c3 r))) =
  if is_byte 196 c1 && is_byte 176 c2 then String "i" (to_lower (String c3 r))
  else if is_byte 226 c1 && is_byte 132 c2 && is_byte 170 c3 then String "k" (to_lower r)
  else String (lower_ascii c1) (to_lower (String c2 (String c3 r))).
Proof. reflexivity. Qed.

(** On ASCII, lowering goes byte by byte. *)
Lemma to_lower_ascii s : is_ascii s = true -> to_lower s = ascii_lower s.
Proof.
  assert (forall c n, 128 <= n -> (code c <? 128) = true -> is_byte n c = false) as Hb.
  { intros c n Hn Hc%Z.ltb_lt. unfold is_byte. apply Z.eqb_neq. lia. }
  induction s as [|c1 s IH]; [done|]. intros H. cbn in H. apply andb_true_iff in H as [H1 H].
  specialize (IH H). destruct s as [|c2 [|c3 r]].
  - done.
  - cbn. by rewrite (Hb c1 196).
  - rewrite to_lower_cons, (Hb c1 196), (Hb c1 226), IH by done. done.
Qed.
