(* ===== verification/GoTime.v ===== *)
(** * Go's [time] package as the sources use it

    An instant is the number of nanoseconds since the zero [time.Time],
    0001-01-01T00:00:00Z, so [t.IsZero()] is [t = 0]; a date is the number of
    days since the same epoch, in the proleptic Gregorian calendar.  The
    layouts are the two the sources use: [DateLayout] "2006-01-02" and
    [time.RFC3339Nano].  Time-zone data comes from the operating system, so a
    location is its offset function. *)

From S2P Require Import Prelude.
From S2P Require Import GoStrings.
From Stdlib Require String.
From Stdlib Require Import ZArith Lia Ascii.
Open Scope string_scope.
Open Scope Z_scope.

(** Instants and durations in nanoseconds. *)
Definition second : Z := 1000000000.
Definition microsecond : Z := 1000.
Definition millisecond : Z := 1000000.
Definition minute : Z := 60 * second.
Definition day_ns : Z := 86400 * second.

Definition is_zero_time (t : Z) : bool := t =? 0.

(** 1970-01-01 is day 719162, for [UnixMilli]. *)
Definition unix_epoch : Z := 719162 * day_ns.
Definition unix_milli (t : Z) : Z := (t - unix_epoch) / millisecond.

(** PostgreSQL's timestamptz keeps microseconds. *)
Definition truncate_us (t : Z) : Z := t - t mod microsecond.

(** ** The civil calendar *)
Definition is_leap (y : Z) : bool :=
  (y mod 4 =? 0) && (negb (y mod 100 =? 0) || (y mod 400 =? 0)).
Definition days_in_month (y m : Z) : Z :=
  if m =? 2 then (if is_leap y then 29 else 28)
  else if (m =? 4) || (m =? 6) || (m =? 9) || (m =? 11) then 30 else 31.
Definition days_before_year (y : Z) : Z :=
  365 * (y - 1) + (y - 1) / 4 - (y - 1) / 100 + (y - 1) / 400.

(** Days of year [y] before month [m]: a scan with [m] as fuel. *)
Fixpoint days_before_month (y : Z) (m : nat) : Z :=
  match m with
  | O => 0
  | S O => 0
  | S k => days_before_month y k + days_in_month y (Z.of_nat k)
  end.

Definition days_of_civil (y m d : Z) : Z :=
  days_before_year y + days_before_month y (Z.to_nat m) + (d - 1).

Definition year_of_days (n : Z) : Z :=
  let y := n * 400 / 146097 + 1 in
  if n <? days_before_year y then y - 1
  else if n <? days_before_year (y + 1) then y else y + 1.

(** Month and day from the day of the year, from month [m] on. *)
Fixpoint month_scan (fuel : nat) (y m doy : Z) : Z * Z :=
  match fuel with
  | O => (m, doy + 1)
  | S k => if doy <? days_in_month y m then (m, doy + 1)
           else month_scan k y (m + 1) (doy - days_in_month y m)
  end.

Definition civil_of_days (n : Z) : Z * Z * Z :=
  let y := year_of_days n in
  let '(m, d) := month_scan 11 y 1 (n - days_before_year y) in
  (y, m, d).

Definition valid_civil (y m d : Z) : bool :=
  (1 <=? m) && (m <=? 12) && (1 <=? d) && (d <=? days_in_month y m).

(** ** Formatting *)
Definition fmt_year (y : Z) : string :=
  if y <? 0 then String "-" (pad_dec 4 (- y))
  else if y <? 10000 then pad_dec 4 y else fmt_nat y.

Definition format_date (n : Z) : string :=
  let '(y, m, d) := civil_of_days n in
  fmt_year y +:+ String "-" (pad_dec 2 m +:+ String "-" (pad_dec 2 d)).

Fixpoint trim_zeros (s : string) : string :=
  match s with
  | "" => ""
  | String c s' =>
      let r := trim_zeros s' in
      if String.eqb r "" && Ascii.eqb c "0" then "" else String c r
  end.

Definition fmt_frac (ns : Z) : string :=
  if ns =? 0 then "" else String "." (trim_zeros (pad_dec 9 ns)).

(** [t.UTC().Format(time.RFC3339Nano)] *)
Definition format_rfc3339 (t : Z) : string :=
  let r := t mod day_ns in
  format_date (t / day_ns) +:+ String "T"
    (pad_dec 2 (r / (3600 * second)) +:+ String ":"
    (pad_dec 2 (r / (60 * second) mod 60) +:+ String ":"
    (pad_dec 2 (r / second mod 60) +:+ (fmt_frac (r mod second) +:+ "Z")))).

(** ** Parsing *)
Definition bad_time {A} : result A := Err (EMsg "parsing time").

(** [time.getnum]: two digits, or one when not [fixed]. *)
Definition getnum (fixed : bool) (s : string) : result (Z * string) :=
  match s with
  | String a r =>
      if negb (is_digit a) then bad_time
      else match r with
           | String b r' =>
               if is_digit b then Ok (digit_val a * 10 + digit_val b, r')
               else if fixed then bad_time else Ok (digit_val a, r)
           | "" => if fixed then bad_time else Ok (digit_val a, r)
           end
  | "" => bad_time
  end.

Definition get_year (s : string) : result (Z * string) :=
  match s with
  | String a (String b (String c (String d r))) =>
      match digits_val 0 (String a (String b (String c (String d "")))) with
      | Some y => Ok (y, r)
      | None => bad_time
      end
  | _ => bad_time
  end.

Definition expect (c : ascii) (s : string) : result string :=
  match s with
  | String d r => if Ascii.eqb c d then Ok r else bad_time
  | "" => bad_time
  end.

(** Year, month and day with the separators; the day is checked at the end. *)
Definition get_date (s : string) : result (Z * Z * Z * string) :=
  '(y, s1) ← get_year s; s2 ← expect "-" s1;
  '(m, s3) ← getnum true s2; s4 ← expect "-" s3;
  '(d, s5) ← getnum true s4;
  Ok (y, m, d, s5).

(** [time.Parse(DateLayout, value)], as a day number. *)
Definition parse_date (s : string) : result Z :=
  '(y, m, d, r) ← get_date s;
  if String.eqb r "" && valid_civil y m d then Ok (days_of_civil y m d) else bad_time.

(** The digits of a fraction, at most nine counted. *)
Fixpoint span_digits (s : string) : string * string :=
  match s with
  | String c r => if is_digit c then let '(a, b) := span_digits r in (String c a, b) else ("", s)
  | "" => ("", "")
  end.

Definition get_frac (s : string) : result (Z * string) :=
  match s with
  | String p (String c r) =>
      if (Ascii.eqb p "." || Ascii.eqb p ",") && is_digit c then
        let '(ds, rest) := span_digits (String c r) in
        let kept := String.substring 0 9 ds in
        match digits_val 0 kept with
        | Some v => Ok (v * 10 ^ (9 - slen kept), rest)
        | None => bad_time
        end
      else Ok (0, s)
  | _ => Ok (0, s)
  end.

(** "Z07:00": the offset in seconds east of UTC. *)
Definition get_zone (s : string) : result (Z * string) :=
  match s with
  | String c r =>
      if Ascii.eqb c "Z" then Ok (0, r)
      else if Ascii.eqb c "+" || Ascii.eqb c "-" then
        '(hh, r1) ← getnum true r; r2 ← expect ":" r1; '(mm, r3) ← getnum true r2;
        if (hh <=? 24) && (mm <=? 60)
        then Ok ((if Ascii.eqb c "-" then -1 else 1) * (hh * 3600 + mm * 60), r3)
        else bad_time
      else bad_time
  | "" => bad_time
  end.

(** [time.Parse(time.RFC3339Nano, value)] *)
Definition parse_rfc3339 (s : string) : result Z :=
  '(y, m, d, s1) ← get_date s; s2 ← expect "T" s1;
  '(hh, s3) ← getnum false s2; s4 ← expect ":" s3;
  '(mi, s5) ← getnum true s4; s6 ← expect ":" s5;
  '(ss, s7) ← getnum true s6; '(ns, s8) ← get_frac s7; '(off, s9) ← get_zone s8;
  if String.eqb s9 "" && valid_civil y m d && (hh <? 24) && (mi <? 60) && (ss <? 60)
  then Ok (days_of_civil y m d * day_ns + (hh * 3600 + mi * 60 + ss - off) * second + ns)
  else bad_time.

(** [BusinessDateFromTime]'s date of an instant in UTC. *)
Definition date_of_time (t : Z) : Z := t / day_ns.

(** [t.AddDate(0, 0, n)] on a UTC instant. *)
Definition add_days (t n : Z) : Z := t + n * day_ns.

(** ** The calendar is a bijection between day numbers and valid dates *)
Lemma days_before_year_succ y :
  days_before_year (y + 1) = days_before_year y + (if is_leap y then 366 else 365).
Proof.
  unfold days_before_year, is_leap.
  destruct (Z.eqb_spec (y mod 4) 0), (Z.eqb_spec (y mod 100) 0), (Z.eqb_spec (y mod 400) 0); cbn; dlia.
Qed.

Lemma year_of_days_spec n :
  days_before_year (year_of_days n) <= n < days_before_year (year_of_days n + 1).
Proof.
  unfold year_of_days. set (y := n * 400 / 146097 + 1).
  assert (days_before_year (y - 1) <= n < days_before_year (y + 1 + 1)) as Hb
    by (subst y; unfold days_before_year; dlia).
  case_goal; bool_to_prop; [replace (y - 1 + 1) with y by lia; lia|].
  case_goal; bool_to_prop; lia.
Qed.

Lemma days_before_year_mono y y' : y < y' -> days_before_year (y + 1) <= days_before_year y'.
Proof. intros. unfold days_before_year. dlia. Qed.

Lemma year_of_days_unique n y :
  days_before_year y <= n < days_before_year (y + 1) -> year_of_days n = y.
Proof.
  intros H. pose proof (year_of_days_spec n) as Hs.
  destruct (Z.lt_trichotomy (year_of_days n) y) as [Hlt|[Heq|Hlt]]; [|done|];
    pose proof (days_before_year_mono _ _ Hlt); lia.
Qed.

Lemma valid_civil_spec y m d :
  valid_civil y m d = true <-> 1 <= m <= 12 /\ 1 <= d <= days_in_month y m.
Proof. unfold valid_civil. rewrite !andb_true_iff, !Z.leb_le. lia. Qed.

Lemma days_in_month_pos y m : 28 <= days_in_month y m <= 31.
Proof. unfold days_in_month. repeat case_goal; lia. Qed.

Lemma days_before_month_succ y m : 1 <= m ->
  days_before_month y (Z.to_nat (m + 1)) = days_before_month y (Z.to_nat m) + days_in_month y m.
Proof.
  intros Hm. replace (Z.to_nat (m + 1)) with (S (Z.to_nat m)) by lia.
  destruct (Z.to_nat m) as [|k] eqn:E; [lia|].
  change (days_before_month y (S (S k))) with (days_before_month y (S k) + days_in_month y (Z.of_nat (S k))).
  do 2 f_equal. lia.
Qed.

Lemma days_before_month_mono y (k : nat) m : 1 <= m ->
  days_before_month y (Z.to_nat m) + days_in_month y m
  <= days_before_month y (Z.to_nat (m + 1 + Z.of_nat k)).
Proof.
  intros Hm. induction k as [|k IH].
  - rewrite Z.add_0_r, days_before_month_succ by done. lia.
  - replace (m + 1 + Z.of_nat (S k)) with (m + 1 + Z.of_nat k + 1) by lia.
    rewrite days_before_month_succ by lia. pose proof (days_in_month_pos y (m + 1 + Z.of_nat k)). lia.
Qed.

Lemma year_length y :
  days_before_month y 12 + days_in_month y 12 = if is_leap y then 366 else 365.
Proof. cbn. unfold days_in_month. cbn. destruct (is_leap y); reflexivity. Qed.

Lemma month_scan_spec fuel y m doy : 1 <= m -> m + Z.of_nat fuel = 12 -> 0 <= doy ->
  days_before_month y (Z.to_nat m) + doy < (if is_leap y then 366 else 365) ->
  let p := month_scan fuel y m doy in
  valid_civil y p.1 p.2 = true /\
  days_before_month y (Z.to_nat p.1) + (p.2 - 1) = days_before_month y (Z.to_nat m) + doy.
Proof.
  revert m doy. induction fuel as [|n IH]; intros m doy Hm Hf Hd Hlt; cbn [month_scan].
  - replace m with 12 in * by lia. pose proof (year_length y). cbn [fst snd].
    rewrite valid_civil_spec. change (Z.to_nat 12) with 12%nat in *. lia.
  - destruct (Z.ltb_spec doy (days_in_month y m)).
    + cbn [fst snd]. rewrite valid_civil_spec. lia.
    + pose proof (days_before_month_succ y m Hm).
      destruct (IH (m + 1) (doy - days_in_month y m)) as [Hv He]; [lia..|]. split; [done|lia].
Qed.

Lemma month_day_unique y m d m' d' :
  valid_civil y m d = true -> valid_civil y m' d' = true ->
  days_before_month y (Z.to_nat m) + (d - 1) = days_before_month y (Z.to_nat m') + (d' - 1) ->
  m = m' /\ d = d'.
Proof.
  rewrite !valid_civil_spec. intros Hv Hv' He.
  assert (forall a b e f, 1 <= a -> a < b -> 1 <= e <= days_in_month y a -> 1 <= f ->
    days_before_month y (Z.to_nat a) + (e - 1) <> days_before_month y (Z.to_nat b) + (f - 1)) as Hne.
  { intros a b e f Ha Hab He' Hf'.
    pose proof (days_before_month_mono y (Z.to_nat (b - a - 1)) a Ha) as Hm.
    replace (a + 1 + Z.of_nat (Z.to_nat (b - a - 1))) with b in Hm by lia. lia. }
  destruct (Z.lt_trichotomy m m') as [Hlt|[->|Hlt]]; [|lia|].
  - destruct (Hne m m' d d'); lia.
  - destruct (Hne m' m d' d); lia.
Qed.

Lemma civil_of_days_spec n :
  let '(y, m, d) := civil_of_days n in
  valid_civil y m d = true /\ days_of_civil y m d = n /\ y = year_of_days n.
Proof.
  unfold civil_of_days, days_of_civil. set (y := year_of_days n).
  pose proof (year_of_days_spec n) as Hy. fold y in Hy. rewrite days_before_year_succ in Hy.
  destruct (month_scan_spec 11 y 1 (n - days_before_year y)) as [Hv He];
    [lia|lia|lia|change (days_before_month y (Z.to_nat 1)) with 0; lia|].
  destruct (month_scan _ _ _ _) as [m d]; cbn [fst snd] in *.
  change (days_before_month y (Z.to_nat 1)) with 0 in He. split; [done|split; [lia|done]].
Qed.

Lemma year_of_civil y m d : valid_civil y m d = true -> year_of_days (days_of_civil y m d) = y.
Proof.
  rewrite valid_civil_spec. intros [Hm Hd]. apply year_of_days_unique.
  rewrite days_before_year_succ, <- year_length. unfold days_of_civil.
  assert (0 <= days_before_month y (Z.to_nat m)).
  { destruct (decide (m = 1)) as [->|]; [done|].
    pose proof (days_before_month_mono y (Z.to_nat (m - 2)) 1 ltac:(lia)) as Hm1.
    replace (1 + 1 + Z.of_nat (Z.to_nat (m - 2))) with m in Hm1 by lia.
    change (days_before_month y (Z.to_nat 1)) with 0 in Hm1. pose proof (days_in_month_pos y 1). lia. }
  assert (days_before_month y (Z.to_nat m) + days_in_month y m
          <= days_before_month y 12 + days_in_month y 12).
  { destruct (decide (m = 12)) as [->|]; [done|].
    pose proof (days_before_month_mono y (Z.to_nat (11 - m)) m ltac:(lia)) as Hm2.
    replace (m + 1 + Z.of_nat (Z.to_nat (11 - m))) with 12 in Hm2 by lia.
    change (Z.to_nat 12) with 12%nat in Hm2. pose proof (days_in_month_pos y 12). lia. }
  lia.
Qed.

Lemma civil_of_days_of_civil y m d : valid_civil y m d = true ->
  civil_of_days (days_of_civil y m d) = (y, m, d).
Proof.
  intros Hv. pose proof (civil_of_days_spec (days_of_civil y m d)) as Hs.
  destruct (civil_of_days _) as [[y' m'] d'] eqn:E. destruct Hs as (Hv' & Hd & Hy).
  rewrite year_of_civil in Hy by done. subst y'.
  destruct (month_day_unique y m' d' m d) as [-> ->]; [done..| |done].
  unfold days_of_civil in Hd. lia.
Qed.

(** ** Parsing what was formatted *)
Definition printable_date (n : Z) : Prop := 0 <= year_of_days n <= 9999.

Lemma getnum_pad fixed z r : 0 <= z < 100 -> getnum fixed (pad_dec 2 z +:+ r) = Ok (z, r).
Proof.
  intros Hz. cbn [pad_dec String.append getnum].
  destruct (digit_chr_spec (z / 10 mod 10)) as [H1 H2]; [apply Z.mod_pos_bound; lia|].
  destruct (digit_chr_spec (z mod 10)) as [H3 H4]; [apply Z.mod_pos_bound; lia|].
  cbn. rewrite H1, H2, H3, H4. cbn. do 2 f_equal. dlia.
Qed.

Lemma get_year_pad y r : 0 <= y <= 9999 -> get_year (pad_dec 4 y +:+ r) = Ok (y, r).
Proof.
  intros Hy.
  pose proof (pad_dec_val 4 y ltac:(change (10 ^ Z.of_nat 4) with 10000; lia)) as Hv.
  cbn [pad_dec String.append] in Hv. cbn [pad_dec String.append get_year]. by rewrite Hv.
Qed.

#[global] Arguments getnum : simpl never.
#[global] Arguments get_year : simpl never.
#[global] Arguments pad_dec : simpl never.

Lemma get_date_format n r : printable_date n ->
  let '(y, m, d) := civil_of_days n in
  get_date (format_date n +:+ r) = Ok (y, m, d, r).
Proof.
  intros Hp. unfold format_date. pose proof (civil_of_days_spec n) as Hs.
  destruct (civil_of_days n) as [[y m] d]. destruct Hs as (Hv & _ & ->).
  unfold printable_date in Hp. apply valid_civil_spec in Hv as [Hm Hd].
  pose proof (days_in_month_pos (year_of_days n) m).
  unfold fmt_year. rewrite (proj2 (Z.ltb_ge _ _)), (proj2 (Z.ltb_lt _ _)) by lia.
  rewrite string_app_assoc. unfold get_date. rewrite get_year_pad by lia. cbn.
  rewrite string_app_assoc, getnum_pad by lia. cbn. rewrite getnum_pad by lia. done.
Qed.

Lemma parse_format_date n : printable_date n -> parse_date (format_date n) = Ok n.
Proof.
  intros Hp. pose proof (get_date_format n "" Hp) as Hg. pose proof (civil_of_days_spec n) as Hs.
  destruct (civil_of_days n) as [[y m] d]. destruct Hs as (Hv & Hn & _).
  rewrite string_app_nil_r in Hg. unfold parse_date. rewrite Hg. cbn. rewrite Hv. by rewrite Hn.
Qed.


Lemma trim_zeros_val s a v : digits_val a s = Some v ->
  exists v', digits_val a (trim_zeros s) = Some v' /\
    v = v' * 10 ^ (slen s - slen (trim_zeros s)) /\ slen (trim_zeros s) <= slen s.
Proof.
  revert a. induction s as [|c s IH]; intros a H; cbn in *.
  { exists a. split; [done|]. injection H as ->.
    change (slen "" - slen "") with 0. lia. }
  destruct (is_digit c) eqn:Hc; [|done].
  destruct (IH _ H) as (v' & Hv' & He & Hl).
  destruct (String.eqb (trim_zeros s) "" && Ascii.eqb c "0") eqn:Hz.
  - bool_to_prop. apply Ascii.eqb_eq in H1 as ->.
    match goal with E : trim_zeros s = "" |- _ => rewrite E in * end.
    cbn in Hv'. injection Hv' as <-. exists a. split; [done|].
    unfold slen in *. cbn [String.length] in *. cbn [digit_val] in *.
    change (digit_val "0") with 0 in *.
    rewrite Nat2Z.inj_succ, Z.sub_0_r, Z.pow_succ_r by lia.
    rewrite Z.sub_0_r in *. split; [subst v; ring|lia].
  - exists v'. cbn. rewrite Hc. split; [done|]. unfold slen in *. cbn [String.length].
    rewrite !Nat2Z.inj_succ.
    replace (Z.succ _ - Z.succ _) with
      (Z.of_nat (String.length s) - Z.of_nat (String.length (trim_zeros s))) by lia.
    split; [done|lia].
Qed.

Lemma span_digits_app ds c r : forall_chars is_digit ds = true -> is_digit c = false ->
  span_digits (ds +:+ String c r) = (ds, String c r).
Proof.
  intros Hd Hc. induction ds as [|a ds IH]; cbn in *; [by rewrite Hc|].
  bool_to_prop. rewrite H. by rewrite IH.
Qed.

Lemma get_frac_format f : 0 <= f < second -> get_frac (fmt_frac f +:+ "Z") = Ok (f, "Z").
Proof.
  intros Hf. unfold fmt_frac. destruct (Z.eqb_spec f 0) as [->|Hn]; [done|].
  pose proof (pad_dec_val 9 f ltac:(change (10 ^ Z.of_nat 9) with second; done)) as Hp.
  destruct (trim_zeros_val _ _ _ Hp) as (v' & Hv & He & Hl).
  pose proof (digits_val_digits _ _ _ Hv) as Hd.
  assert (slen (pad_dec 9 f) = 9) as H9 by (unfold slen; rewrite pad_dec_length; done).
  rewrite H9 in *. destruct (trim_zeros (pad_dec 9 f)) as [|c r] eqn:Et.
  { cbn in Hv. injection Hv as <-. lia. }
  assert (is_digit c = true) as Hc by (cbn in Hd; bool_to_prop; done).
  cbn [String.append get_frac Ascii.eqb]. rewrite Hc. cbn [andb orb Bool.eqb].
  change (String c (r +:+ "Z")) with (String c r +:+ "Z").
  rewrite span_digits_app by done. rewrite substring_all by (unfold slen in Hl; lia).
  rewrite Hv. by rewrite He.
Qed.

(** Printing an instant of the years 0 to 9999 and parsing it back gives it back. *)
Lemma parse_format_rfc3339 t : printable_date (t / day_ns) ->
  parse_rfc3339 (format_rfc3339 t) = Ok t.
Proof.
  intros Hp. unfold format_rfc3339, parse_rfc3339.
  pose proof (fun r => get_date_format _ r Hp) as Hg.
  pose proof (civil_of_days_spec (t / day_ns)) as Hs.
  destruct (civil_of_days (t / day_ns)) as [[y m] d]. destruct Hs as (Hv & Hn & _).
  set (r := t mod day_ns). assert (0 <= r < day_ns) as Hr by (apply Z.mod_pos_bound; done).
  unfold day_ns, second in Hr.
  rewrite Hg. cbn [mbind result_bind expect Ascii.eqb Bool.eqb].
  rewrite getnum_pad by (unfold second; dlia). cbn [mbind result_bind expect Ascii.eqb Bool.eqb].
  rewrite getnum_pad by dlia. cbn [mbind result_bind expect Ascii.eqb Bool.eqb].
  rewrite getnum_pad by dlia. cbn [mbind result_bind].
  rewrite get_frac_format by (apply Z.mod_pos_bound; done).
  cbn [mbind result_bind get_zone Ascii.eqb Bool.eqb]. rewrite Hv.
  rewrite !(proj2 (Z.ltb_lt _ _)) by (unfold second; dlia). cbn. f_equal. rewrite Hn.
  replace t with (t / day_ns * day_ns + r) at 2 by (subst r; unfold day_ns, second; dlia).
  unfold day_ns, second in *. dlia.
Qed.


(** Dates print as digits and hyphens. *)
Lemma digits_ascii s : forall_chars is_digit s = true -> is_ascii s = true.
Proof.
  apply forall_chars_impl. intros c H. apply is_hex_ascii. unfold is_hex, is_lower_hex. by rewrite H.
Qed.

Lemma fmt_nat_ascii z : 0 <= z -> is_ascii (fmt_nat z) = true.
Proof. intros H. eapply digits_ascii, digits_val_digits, fmt_nat_val, H. Qed.

Lemma fmt_year_ascii y : is_ascii (fmt_year y) = true.
Proof.
  unfold fmt_year. destruct (Z.ltb_spec y 0).
  - unfold is_ascii. cbn. apply digits_ascii, pad_dec_digits. lia.
  - destruct (y <? 10000); [apply digits_ascii, pad_dec_digits; lia|apply fmt_nat_ascii; lia].
Qed.

Lemma format_date_ascii n : is_ascii (format_date n) = true.
Proof.
  unfold format_date. pose proof (civil_of_days_spec n) as H.
  destruct (civil_of_days n) as [[y m] d]. destruct H as [Hv _].
  apply valid_civil_spec in Hv as [Hm Hd].
  pose proof (fmt_year_ascii y). pose proof (digits_ascii _ (pad_dec_digits 2 m ltac:(lia))).
  pose proof (digits_ascii _ (pad_dec_digits 2 d ltac:(lia))). unfold is_ascii in *.
  rewrite forall_chars_app. cbn. rewrite forall_chars_app. cbn. by repeat (rewrite andb_true_iff; split).
Qed.

(** A printed date never parses to another one: outside the years 0 to 9999
    it does not parse at all. *)
Lemma digits_val_bound s acc v : 0 <= acc -> digits_val acc s = Some v ->
  v < (acc + 1) * 10 ^ Z.of_nat (String.length s).
Proof.
  revert acc. induction s as [|c s IH]; intros acc Ha H; cbn [digits_val String.length] in *.
  - injection H as <-. change (10 ^ Z.of_nat 0) with 1. lia.
  - destruct (is_digit c) eqn:E; [|done]. unfold is_digit, digit_val in *. bool_to_prop.
    apply IH in H; [|lia]. rewrite Nat2Z.inj_succ, Z.pow_succ_r by lia.
    pose proof (Z.pow_pos_nonneg 10 (Z.of_nat (String.length s)) ltac:(lia) ltac:(lia)). nia.
Qed.

Lemma parse_date_digits s : forall_chars is_digit s = true -> (4 < String.length s)%nat -> forall t k,
  parse_date (s +:+ t) <> Ok k.
Proof.
  intros Hd Hl t k. do 5 (destruct s as [|? s]; [cbn in Hl; lia|]).
  cbn [forall_chars] in Hd. bool_to_prop. unfold parse_date, get_date. cbn [String.append].
  unfold get_year. destruct (digits_val 0 _) as [y|]; [|done].
  cbn [mbind result_bind expect].
  destruct (Ascii.eqb_spec "-" a3) as [<- |]; done.
Qed.

Lemma parse_format_date_inv n k : parse_date (format_date n) = Ok k -> k = n /\ printable_date n.
Proof.
  intros H. destruct (decide (printable_date n)) as [Hp|Hp].
  - rewrite parse_format_date in H by done. by injection H as <-.
  - exfalso. unfold printable_date in Hp. unfold format_date in H.
    pose proof (civil_of_days_spec n) as Hs. destruct (civil_of_days n) as [[y m] d].
    destruct Hs as (_ & _ & ->). unfold fmt_year in H. destruct (Z.ltb_spec (year_of_days n) 0).
    + unfold parse_date, get_date, get_year in H. cbn [String.append] in H.
      destruct (pad_dec 4 (- year_of_days n) +:+ _) as [|a [|b [|c r]]]; done.
    + destruct (Z.ltb_spec (year_of_days n) 10000); [lia|].
      pose proof (fmt_nat_val (year_of_days n) ltac:(lia)) as Hv.
      pose proof (digits_val_bound _ 0 _ ltac:(lia) Hv) as Hb.
      eapply parse_date_digits; [eapply digits_val_digits, Hv| |exact H].
      apply Nat.lt_nge. intros Hl. assert (10 ^ Z.of_nat (String.length (fmt_nat (year_of_days n))) <= 10 ^ 4).
      { apply Z.pow_le_mono_r; lia. } lia.
Qed.

Lemma pad_ascii w z : 0 <= z -> is_ascii (pad_dec w z) = true.
Proof. intros. by apply digits_ascii, pad_dec_digits. Qed.

Lemma format_rfc3339_ascii t : is_ascii (format_rfc3339 t) = true.
Proof.
  unfold format_rfc3339. set (r := t mod day_ns).
  assert (0 <= r < day_ns) as Hr by (apply Z.mod_pos_bound; done).
  unfold day_ns, second in Hr.
  pose proof (format_date_ascii (t / day_ns)).
  pose proof (pad_ascii 2 (r / (3600 * second)) ltac:(unfold second; dlia)).
  pose proof (pad_ascii 2 (r / (60 * second) mod 60) ltac:(dlia)).
  pose proof (pad_ascii 2 (r / second mod 60) ltac:(dlia)).
  assert (is_ascii (fmt_frac (r mod second)) = true) as Hf.
  { unfold fmt_frac. destruct (r mod second =? 0); [done|]. unfold is_ascii. cbn.
    pose proof (pad_dec_val 9 (r mod second) ltac:(change (10 ^ Z.of_nat 9) with second; apply Z.mod_pos_bound; done)) as Hv.
    destruct (trim_zeros_val _ _ _ Hv) as (v & Hv' & _). eapply digits_ascii, digits_val_digits, Hv'. }
  unfold is_ascii in *. repeat (rewrite forall_chars_app || cbn [forall_chars] || rewrite andb_true_iff || split);
    assumption || reflexivity.
Qed.

Lemma truncate_us_idem t : truncate_us (truncate_us t) = truncate_us t.
Proof. unfold truncate_us, microsecond. dlia. Qed.
