(* ===== verification/GoDuration.v ===== *)
(** * Durations as texts

    [time.ParseDuration] and [time.Duration.String], which the commands read
    their settings with, and [strconv.Atoi] and [strconv.ParseBool].  The
    fraction of a duration is scaled in float64 arithmetic. *)

From S2P Require Import Prelude.
From S2P Require Import GoStrings.
From S2P Require Import GoTime.
From Stdlib Require String.
From Stdlib Require Import ZArith Lia Ascii SpecFloat.
Open Scope string_scope.
Open Scope Z_scope.

Definition hour : Z := 3600 * second.
Definition bad_duration {A} : result A := Err (EMsg "time: invalid duration").

(** ** Parsing *)
(** [uint64(float64(f) * (float64(unit) / 10^digits))] *)
Definition float64_of (z : Z) : spec_float := binary_normalize 53 1024 z 0 false.
Definition float64_trunc (f : spec_float) : Z :=
  match f with S754_finite _ m e => Z.shiftl (Z.pos m) e | _ => 0 end.
Definition scaled_fraction (f unit digits : Z) : Z :=
  float64_trunc (SFmul 53 1024 (float64_of f) (SFdiv 53 1024 (float64_of unit) (float64_of (10 ^ digits)))).

Fixpoint leadingInt (x : Z) (s : string) : option (Z * string) :=
  match s with
  | "" => Some (x, s)
  | String c r =>
      if is_digit c then
        if 2 ^ 63 / 10 <? x then None
        else let x' := x * 10 + digit_val c in if 2 ^ 63 <? x' then None else leadingInt x' r
      else Some (x, s)
  end.

(** The digits kept of a fraction, how many they are, and the rest. *)
Fixpoint leadingFraction (x digits : Z) (overflow : bool) (s : string) : Z * Z * string :=
  match s with
  | "" => (x, digits, s)
  | String c r =>
      if is_digit c then
        if overflow || ((2 ^ 63 - 1) / 10 <? x) then leadingFraction x digits true r
        else let y := x * 10 + digit_val c in
             if 2 ^ 63 <? y then leadingFraction x digits true r else leadingFraction y (digits + 1) false r
      else (x, digits, s)
  end.

(** The longest prefix without a digit or a period, and the rest. *)
Fixpoint span_unit (s : string) : string * string :=
  match s with
  | "" => ("", "")
  | String c r => if Ascii.eqb c "." || is_digit c then ("", s) else let '(u, rest) := span_unit r in (String c u, rest)
  end.

Definition unitMap (u : string) : option Z :=
  if String.eqb u "ns" then Some 1
  else if String.eqb u "us" || String.eqb u (String (chr 194) (String (chr 181) "s"))
          || String.eqb u (String (chr 206) (String (chr 188) "s")) then Some microsecond
  else if String.eqb u "ms" then Some millisecond
  else if String.eqb u "s" then Some second
  else if String.eqb u "m" then Some minute
  else if String.eqb u "h" then Some hour
  else None.

(** One number with its unit at the head of [s]: its value and the rest. *)
Definition duration_term (s : string) : result (Z * string) :=
  match leadingInt 0 s with
  | None => bad_duration
  | Some (v, s1) =>
      let pre := negb (String.eqb s1 s) in
      let '(f, digits, s2, post) :=
        match s1 with
        | String "." r => let '(f, digits, s2) := leadingFraction 0 0 false r in (f, digits, s2, negb (String.eqb s2 r))
        | _ => (0, 0, s1, false)
        end in
      if negb pre && negb post then bad_duration
      else
        let '(u, rest) := span_unit s2 in
        match unitMap u with
        | None => bad_duration
        | Some unit =>
            if 2 ^ 63 / unit <? v then bad_duration
            else
              let v := v * unit + (if 0 <? f then scaled_fraction f unit digits else 0) in
              if 2 ^ 63 <? v then bad_duration else Ok (v, rest)
        end
  end.

(** The loop over the terms: [d] is a uint64.  Every term consumes bytes, so
    the length of the text is enough fuel. *)
Fixpoint duration_terms (fuel : nat) (d : Z) (s : string) : result Z :=
  match s with
  | "" => Ok d
  | String c _ =>
      match fuel with
      | O => bad_duration
      | S n =>
          if negb (Ascii.eqb c "." || is_digit c) then bad_duration
          else
            r ← duration_term s;
            let d := (d + fst r) mod 2 ^ 64 in
            if 2 ^ 63 <? d then bad_duration else duration_terms n d (snd r)
      end
  end.

Definition ParseDuration (text : string) : result Z :=
  let '(neg, s) := match text with
                   | String "-" r => (true, r)
                   | String "+" r => (false, r)
                   | _ => (false, text)
                   end in
  if String.eqb s "0" then Ok 0
  else if String.eqb s "" then bad_duration
  else
    d ← duration_terms (String.length s) 0 s;
    if (neg : bool) then Ok (wrap64 (- d)) else if 2 ^ 63 - 1 <? d then bad_duration else Ok d.

(** ** Printing *)
Definition fmtFrac (v : Z) (prec : nat) : string :=
  let frac := v mod 10 ^ Z.of_nat prec in
  if frac =? 0 then "" else String "." (trim_zeros (pad_dec prec frac)).
Definition duration_string (d : Z) : string :=
  let u := Z.abs d in
  let text :=
    if u =? 0 then "0s"
    else if u <? microsecond then fmt_nat u +:+ "ns"
    else if u <? millisecond then fmt_nat (u / microsecond) +:+ (fmtFrac u 3 +:+ String (chr 194) (String (chr 181) "s"))
    else if u <? second then fmt_nat (u / millisecond) +:+ (fmtFrac u 6 +:+ "ms")
    else
      let seconds := u / second in
      let minutes := seconds / 60 in
      let hours := minutes / 60 in
      (if 0 <? minutes
       then (if 0 <? hours then fmt_nat hours +:+ "h" else "") +:+ (fmt_nat (minutes mod 60) +:+ "m") else "") +:+
      (fmt_nat (seconds mod 60) +:+ (fmtFrac u 9 +:+ "s")) in
  if d <? 0 then String "-" text else text.

(** ** Integers and booleans *)
Definition Atoi (s : string) : result Z :=
  match s with
  | String "-" r =>
      if String.eqb r "" then Err (EMsg "strconv.Atoi: invalid syntax")
      else match digits_val 0 r with
           | Some v => if v <=? 2 ^ 63 then Ok (- v) else Err (EMsg "strconv.Atoi: value out of range")
           | None => Err (EMsg "strconv.Atoi: invalid syntax")
           end
  | String "+" r => parse_int64 r
  | _ => parse_int64 s
  end.
Definition ParseBool (s : string) : result bool :=
  if existsb (String.eqb s) ["1"; "t"; "T"; "true"; "TRUE"; "True"] then Ok true
  else if existsb (String.eqb s) ["0"; "f"; "F"; "false"; "FALSE"; "False"] then Ok false
  else Err (EMsg "strconv.ParseBool: invalid syntax").
Definition ParseUint (s : string) : result Z :=
  if String.eqb s "" then Err (EMsg "strconv.ParseUint: invalid syntax")
  else match digits_val 0 s with
       | Some v => if v <? 2 ^ 64 then Ok v else Err (EMsg "strconv.ParseUint: value out of range")
       | None => Err (EMsg "strconv.ParseUint: invalid syntax")
       end.

(** ** Facts *)
Lemma ParseDuration_range text d : ParseDuration text = Ok d -> int64_min <= d <= int64_max.
Proof.
  unfold ParseDuration. destruct (match text with String "-" r => _ | _ => _ end) as [neg s].
  destruct (String.eqb s "0"); [intros [= <-]; unfold int64_min, int64_max; lia|]. destruct (String.eqb s ""); [done|].
  assert (forall fuel d s v, 0 <= d -> duration_terms fuel d s = Ok v -> 0 <= v) as Hnn.
  { induction fuel as [|n IH]; intros d0 s0 v Hd; destruct s0 as [|c r]; cbn [duration_terms]; try done; try (by intros [= <-]).
    destruct (negb _); [done|]. destruct (duration_term _) as [[x rest]|]; [|done]. cbn [mbind result_bind fst snd].
    destruct (_ <? _); [done|]. apply IH. apply Z.mod_pos_bound. lia. }
  destruct (duration_terms _ _ _) as [v|] eqn:E; [|done]. cbn [mbind result_bind]. apply Hnn in E; [|lia].
  destruct neg; [intros [= <-]; apply wrap64_range|]. destruct (Z.ltb_spec (2 ^ 63 - 1) v); [done|]. intros [= <-].
  unfold int64_min, int64_max in *. lia.
Qed.

Example durations_parse :
  map ParseDuration ["30s"; "1h2m3.5s"; "250ms"; "-1.5h"; "+5us"; ".5s"; "5"; "1.s"; ""; "9223372036854775807ns"; "9223372036854775808ns"]
  = [Ok (30 * second); Ok (3723500 * millisecond); Ok (250 * millisecond); Ok (- 5400 * second); Ok (5 * microsecond);
     Ok (500 * millisecond); bad_duration; Ok second; bad_duration; Ok 9223372036854775807; bad_duration].
Proof. vm_compute. reflexivity. Qed.

Example durations_print :
  map (fun d => ParseDuration (duration_string d))
    [0; 1; 999; 1500; 999999; 1234567; 250 * millisecond; second; 90061000000001; - 7200 * second; int64_max]
  = map Ok [0; 1; 999; 1500; 999999; 1234567; 250 * millisecond; second; 90061000000001; - 7200 * second; int64_max].
Proof. vm_compute. reflexivity. Qed.
