(* ===== verification/Json.v ===== *)
(** * JSON documents as Go's [encoding/json] reads and writes them

    A document is the tree the text denotes: the sources only look documents
    up by key, compare them or hash their canonical text, and PostgreSQL's
    [jsonb] keeps exactly the tree.  Numbers are the integers the sources
    write; any other number is kept by its text. *)

From S2P Require Import Prelude.
From S2P Require Import GoStrings.
From S2P Require Import GoTime.
From Stdlib Require String.
From Stdlib Require Import ZArith Lia Ascii.
Open Scope string_scope.
Open Scope Z_scope.

Inductive json : Type :=
  | JNull
  | JBool (b : bool)
  | JInt (z : Z)
  | JNum (text : string)
  | JStr (s : string)
  | JArr (items : list json)
  | JObj (fields : list (string * json)).

(** The value a document gives the field tagged [key]: keys match as
    [json.Unmarshal] matches them, up to letter case, and the last one wins.
    Two corners of encoding/json are left out, for documents that name a field
    twice: a later null keeps the earlier value, and an earlier value of the
    wrong type is an error; and case folds for ASCII letters only. *)
Fixpoint jfield (key : string) (fields : list (string * json)) : option json :=
  match fields with
  | [] => None
  | (k, v) :: rest =>
      match jfield key rest with
      | Some w => Some w
      | None => if equal_fold k key then Some v else None
      end
  end.

Definition bad_json {A} : result A := Err (EMsg "json: cannot unmarshal").

(** Decoding into Go values: a missing or null field leaves the zero value. *)
Definition dec_string (j : option json) : result string :=
  match j with
  | None | Some JNull => Ok ""
  | Some (JStr s) => Ok s
  | Some _ => bad_json
  end.

Definition dec_int64 (j : option json) : result Z :=
  match j with
  | None | Some JNull => Ok 0
  | Some (JInt z) => if in_int64 z then Ok z else bad_json
  | Some _ => bad_json
  end.

Definition dec_time (j : option json) : result Z :=
  match j with
  | None | Some JNull => Ok 0
  | Some (JStr s) => parse_rfc3339 s
  | Some _ => bad_json
  end.

Definition dec_string_ptr (j : option json) : result (option string) :=
  match j with
  | None | Some JNull => Ok None
  | Some (JStr s) => Ok (Some s)
  | Some _ => bad_json
  end.

(** Encoding: [time.Time.MarshalJSON] refuses years outside 0 to 9999. *)
Definition enc_time (t : Z) : result json :=
  let y := year_of_days (t / day_ns) in
  if (0 <=? y) && (y <=? 9999) then Ok (JStr (format_rfc3339 t))
  else Err (EMsg "Time.MarshalJSON: year outside of range [0,9999]").

Definition enc_string_ptr (s : option string) : json :=
  match s with None => JNull | Some s => JStr s end.

(** [omitempty] string fields. *)
Definition omitempty (key s : string) : list (string * json) :=
  if String.eqb s "" then [] else [(key, JStr s)].

(** Invalid UTF-8 bytes are written as U+FFFD. *)
Fixpoint to_valid_fuel (fuel : nat) (s : string) : string :=
  match fuel, s with
  | S k, String c s' =>
      let w := rune_width s in
      if Nat.eqb w 1 && (128 <=? code c)
      then String (chr 239) (String (chr 191) (String (chr 189) (to_valid_fuel k s')))
      else String.substring 0 w s +:+ to_valid_fuel k (drop_chars w s)
  | _, _ => ""
  end.
Definition to_valid (s : string) : string := to_valid_fuel (String.length s) s.
Definition enc_string (s : string) : json := JStr (to_valid s).

(** ** Lemmas *)
Lemma enc_time_inv t j : enc_time t = Ok j ->
  j = JStr (format_rfc3339 t) /\ printable_date (t / day_ns).
Proof.
  unfold enc_time, printable_date. intros H. case_hyp H; [|done]. injection H as <-. bool_to_prop. done.
Qed.

Lemma dec_enc_time t j : enc_time t = Ok j -> dec_time (Some j) = Ok t.
Proof. intros [-> Hp]%enc_time_inv. by apply parse_format_rfc3339. Qed.

Lemma to_valid_fuel_ascii n s : forall_chars (fun c => code c <? 128) s = true ->
  (String.length s <= n)%nat -> to_valid_fuel n s = s.
Proof.
  revert s. induction n as [|n IH]; intros [|c s] Hs Hn; cbn in Hn; [done|lia|done|].
  cbn in Hs. bool_to_prop. cbn [to_valid_fuel].
  assert (rune_width (String c s) = 1%nat) as ->.
  { cbn [rune_width]. unfold in_range, is_byte.
    repeat match goal with |- context [?z <=? code c] =>
      lazymatch z with 128 => fail | _ => rewrite (proj2 (Z.leb_gt z (code c))) by lia end end.
    repeat match goal with |- context [code c =? ?z] => rewrite (proj2 (Z.eqb_neq (code c) z)) by lia end.
    destruct s as [|b [|d [|? ?]]]; done. }
  rewrite (proj2 (Z.leb_gt 128 (code c))) by lia. cbn. rewrite IH; [by destruct s|done|lia].
Qed.

Lemma to_valid_ascii s : forall_chars (fun c => code c <? 128) s = true -> to_valid s = s.
Proof. intros. by apply to_valid_fuel_ascii. Qed.

(** Look concrete keys up in a document whose keys are concrete. *)
#[global] Arguments equal_fold : simpl never.
Ltac jfields :=
  cbn [jfield app mbind result_bind];
  repeat match goal with
  | |- context [equal_fold ?a ?b] =>
      let v := eval vm_compute in (equal_fold a b) in change (equal_fold a b) with v
  end; cbn iota; cbn [dec_string dec_int64 dec_string_ptr mbind result_bind].
