(* ===== verification/LedgerDomain.v ===== *)
(** * Ledger domain: identifiers, money, the merchant calendar and entries

    services/ledger/internal/domain: errors.go, id.go, money.go, calendar.go,
    entry.go.  Each section holds one file: its data, its operations in source
    order and the lemmas the application service relies on. *)

From S2P Require Import Prelude.
From S2P Require Import GoStrings.
From S2P Require Import GoTime.
From Stdlib Require String.
From Stdlib Require Import ZArith Lia Ascii.
Open Scope string_scope.
Open Scope Z_scope.

(** ** errors.go *)
Definition ErrInvalidID : error := ESentinel "domain.ErrInvalidID".
Definition ErrInvalidMerchant : error := ESentinel "domain.ErrInvalidMerchant".
Definition ErrInvalidEntryType : error := ESentinel "domain.ErrInvalidEntryType".
Definition ErrInvalidAmount : error := ESentinel "domain.ErrInvalidAmount".
Definition ErrInvalidCurrency : error := ESentinel "domain.ErrInvalidCurrency".
Definition ErrInvalidBusinessDate : error := ESentinel "domain.ErrInvalidBusinessDate".
Definition ErrInvalidTimeZone : error := ESentinel "domain.ErrInvalidTimeZone".
Definition ErrDescriptionTooLong : error := ESentinel "domain.ErrDescriptionTooLong".
Definition ErrReversalNotAllowed : error := ESentinel "domain.ErrReversalNotAllowed".
Definition ErrOriginalEntryRequired : error := ESentinel "domain.ErrOriginalEntryRequired".

Module ID.
(** ** id.go *)

Definition hyphen_at (i : nat) (s : string) : bool :=
  match char_at i s with Some c => Ascii.eqb c "-" | None => false end.

Definition ParseID (value : string) : result string :=
  if negb (slen value =? 36) || negb (hyphen_at 8 value) || negb (hyphen_at 13 value)
     || negb (hyphen_at 18 value) || negb (hyphen_at 23 value)
  then Err ErrInvalidID
  else
    let compact := slice 0 8 value +:+ (slice 9 13 value +:+ (slice 14 18 value
                     +:+ (slice 19 23 value +:+ slice 24 36 value))) in
    match hex_decode compact with
    | None => Err ErrInvalidID
    | Some decoded =>
        if negb (Z.of_nat (length decoded) =? 16) then Err ErrInvalidID
        else if forallb (fun b => b =? 0) decoded then Err ErrInvalidID
        else Ok value
    end.

(** The 16 raw bytes after [rand.Read] filled them with [raw] and the
    timestamp, version and variant were written over them. *)
Definition uuid_bytes (millis : Z) (raw : list Z) : list Z :=
  let byte z := Z.land z 255 in
  let r i := byte (nth i raw 0) in
  [byte (Z.shiftr millis 40); byte (Z.shiftr millis 32); byte (Z.shiftr millis 24);
   byte (Z.shiftr millis 16); byte (Z.shiftr millis 8); byte millis;
   Z.lor (Z.land (r 6%nat) 15) 112; r 7%nat;
   Z.lor (Z.land (r 8%nat) 63) 128; r 9%nat;
   r 10%nat; r 11%nat; r 12%nat; r 13%nat; r 14%nat; r 15%nat].

Definition sub (i j : nat) (l : list Z) : list Z := take (j - i) (drop i l).

(** [entropy] is what [rand.Read] gave: 16 bytes or an error. *)
Definition NewUUIDv7 (now : Z) (entropy : result (list Z)) : result string :=
  match entropy with
  | Err e => Err (EWrap "generate uuid entropy" e)
  | Ok raw =>
      let b := uuid_bytes (wrapu64 (unix_milli now)) raw in
      Ok (hex_encode (sub 0 4 b) +:+ String "-" (hex_encode (sub 4 6 b) +:+ String "-"
           (hex_encode (sub 6 8 b) +:+ String "-" (hex_encode (sub 8 10 b) +:+ String "-"
           (hex_encode (sub 10 16 b))))))
  end.
End ID.

Module Money.
(** ** money.go *)

Definition CurrencyBRL : string := "BRL".

Record money : Type := Build_money { minor : Z }.

Definition NewMoney (amountMinor : Z) (currency : string) : result money :=
  if negb (String.eqb currency CurrencyBRL) then Err ErrInvalidCurrency
  else if amountMinor <=? 0 then Err ErrInvalidAmount
  else Ok (Build_money amountMinor).

Definition asciiDigits (value : string) : bool :=
  if String.eqb value "" then false else forall_chars is_digit value.

Definition ParseBRL (value : string) : result money :=
  if String.eqb value "" || has_prefix "+" value || has_prefix "-" value then Err ErrInvalidAmount
  else
    let parts := split "." value in
    let part0 := nth 0 parts "" in
    let part1 := nth 1 parts "" in
    let two := Nat.eqb (length parts) 2 in
    if Nat.ltb 2 (length parts) || String.eqb part0 ""
       || (two && ((slen part1 =? 0) || (2 <? slen part1)))
    then Err ErrInvalidAmount
    else if negb (asciiDigits part0) || (two && negb (asciiDigits part1)) then Err ErrInvalidAmount
    else
      match parse_int64 part0 with
      | Err _ => Err ErrInvalidAmount
      | Ok whole =>
          if whole <? 0 then Err ErrInvalidAmount
          else
            let fractionText := if slen part1 =? 1 then part1 +:+ "0" else part1 in
            match (if two then parse_int64 fractionText else Ok 0) with
            | Err _ => Err ErrInvalidAmount
            | Ok fraction =>
                if Z.quot (int64_max - fraction) 100 <? whole then Err ErrInvalidAmount
                else NewMoney (wrap64 (wrap64 (whole * 100) + fraction)) CurrencyBRL
            end
      end.

Definition AmountMinor (m : money) : Z := minor m.
Definition Currency (m : money) : string := CurrencyBRL.

(** [fmt.Sprintf("%d.%02d", a/100, a%100)], also used by the gRPC adapter. *)
Definition format_minor (a : Z) : string :=
  fmt_d (Z.quot a 100) +:+ String "." (pad_dec 2 (Z.rem a 100)).
Definition money_string (m : money) : string := format_minor (minor m).
End Money.

Module Calendar.
(** ** calendar.go *)

Definition MaximumBackdateDays : Z := 30.
Definition DefaultMerchantZone : string := "America/Fortaleza".

(** [value] is the instant of midnight UTC of the date. *)
Record business_date : Type := Build_business_date { value : Z }.

Definition ParseBusinessDate (text : string) : result business_date :=
  match parse_date text with
  | Err _ => Err (EWrap "parse business date" ErrInvalidBusinessDate)
  | Ok n => Ok (Build_business_date (n * day_ns))
  end.

(** A location is its offset from UTC at each instant. *)
Definition location : Type := Z -> Z.

(** [BusinessDateFromTime(t.In(loc))]: the civil date in the location. *)
Definition BusinessDateFromTime (loc : location) (t : Z) : business_date :=
  Build_business_date (date_of_time (t + loc t) * day_ns).

Definition date_string (d : business_date) : string := format_date (date_of_time (value d)).
Definition Before (d other : business_date) : bool := value d <? value other.
Definition After (d other : business_date) : bool := value other <? value d.

Definition UTC : location := fun _ => 0.

(** [load_location] is [time.LoadLocation] over the system's zone data. *)
Definition NewCalendar (load_location : string -> option location) (zone : string)
    : result location :=
  let zone := if String.eqb zone "" then DefaultMerchantZone else zone in
  match load_location zone with
  | None => Err (EWrap "load time zone" ErrInvalidTimeZone)
  | Some loc => Ok loc
  end.

Definition Today (c : location) (now : Z) : business_date := BusinessDateFromTime c now.

Definition Resolve (c : location) (now : Z) (requested : option business_date)
    : result business_date :=
  let today := Today c now in
  match requested with
  | None => Ok today
  | Some r =>
      let earliest := BusinessDateFromTime UTC (add_days (value today) (- MaximumBackdateDays)) in
      if Before r earliest || After r today then Err ErrInvalidBusinessDate else Ok r
  end.
End Calendar.

Module Entry.
(** ** entry.go *)

Definition EntryTypeCredit : string := "credit".
Definition EntryTypeDebit : string := "debit".

Definition ParseEntryType (value : string) : result string :=
  let typeValue := to_lower value in
  if negb (String.eqb typeValue EntryTypeCredit) && negb (String.eqb typeValue EntryTypeDebit)
  then Err ErrInvalidEntryType else Ok typeValue.

Definition Opposite (t : string) : string :=
  if String.eqb t EntryTypeCredit then EntryTypeDebit else EntryTypeCredit.

Record EntryData : Type := {
  d_ID : string; d_MerchantID : string; d_Position : Z; d_Type : string;
  d_Money : Money.money; d_BusinessDate : Calendar.business_date; d_Description : string;
  d_ConfirmedAt : Z; d_OriginalEntryID : option string }.

Record entry : Type := {
  id : string; merchantID : string; position : Z; entryType : string;
  money : Money.money; businessDate : Calendar.business_date; description : string;
  confirmedAt : Z; originalEntryID : option string }.

Definition NewEntry (data : EntryData) : result entry :=
  if String.eqb (d_ID data) "" then Err ErrInvalidID
  else if String.eqb (d_MerchantID data) "" then Err ErrInvalidMerchant
  else if d_Position data <=? 0 then Err ErrInvalidID
  else if negb (String.eqb (d_Type data) EntryTypeCredit)
          && negb (String.eqb (d_Type data) EntryTypeDebit) then Err ErrInvalidEntryType
  else if Money.minor (d_Money data) <=? 0 then Err ErrInvalidAmount
  else if is_zero_time (Calendar.value (d_BusinessDate data)) then Err ErrInvalidBusinessDate
  else if is_zero_time (d_ConfirmedAt data) then Err ErrInvalidBusinessDate
  else if 500 <? rune_count (d_Description data) then Err ErrDescriptionTooLong
  else Ok {| id := d_ID data; merchantID := d_MerchantID data; position := d_Position data;
             entryType := d_Type data; money := d_Money data;
             businessDate := d_BusinessDate data; description := d_Description data;
             confirmedAt := d_ConfirmedAt data; originalEntryID := d_OriginalEntryID data |}.

Definition NewReversal (newID : string) (pos : Z) (original : entry)
    (date : Calendar.business_date) (confirmed : Z) : result entry :=
  match originalEntryID original with
  | Some _ => Err ErrReversalNotAllowed
  | None =>
      NewEntry {| d_ID := newID; d_MerchantID := merchantID original; d_Position := pos;
                  d_Type := Opposite (entryType original); d_Money := money original;
                  d_BusinessDate := date; d_Description := ""; d_ConfirmedAt := confirmed;
                  d_OriginalEntryID := Some (id original) |}
  end.

(** The signed effect of an entry on its merchant's balance. *)
Definition signed_amount (e : entry) : Z :=
  if String.eqb (entryType e) EntryTypeCredit then Money.minor (money e) else - Money.minor (money e).
End Entry.

(** ** Money: the accepted texts and their values *)

(** The grammar [ParseBRL] documents: digits, then optionally a point and one
    or two digits; the second component is the amount in cents. *)
Inductive brl_text : string -> Z -> Prop :=
  | brl_whole w v : w <> "" -> digits_val 0 w = Some v -> brl_text w (v * 100)
  | brl_tenths w v c : w <> "" -> digits_val 0 w = Some v -> is_digit c = true ->
      brl_text (w +:+ String "." (String c "")) (v * 100 + digit_val c * 10)
  | brl_cents w v c d : w <> "" -> digits_val 0 w = Some v -> is_digit c = true ->
      is_digit d = true ->
      brl_text (w +:+ String "." (String c (String d ""))) (v * 100 + (digit_val c * 10 + digit_val d)).

Lemma digit_val_range c : is_digit c = true -> 0 <= digit_val c <= 9.
Proof. unfold is_digit, digit_val. intros. bool_to_prop. lia. Qed.

Lemma digits_no_sign w t c : w <> "" -> forall_chars is_digit w = true -> is_digit c = false ->
  has_prefix (String c "") (w +:+ t) = false.
Proof.
  intros Hne Hd Hc. destruct w as [|a w]; [done|]. cbn in *. bool_to_prop.
  unfold has_prefix. cbn. destruct (ascii_dec c a) as [->|]; [congruence|done].
Qed.

Lemma digits_split_dot w : forall_chars is_digit w = true -> split "." w = [w].
Proof. intros. apply split_no_sep. by apply digits_no_char. Qed.

Lemma digits_split_dot_app w t : forall_chars is_digit w = true -> forall_chars is_digit t = true ->
  split "." (w +:+ String "." t) = [w; t].
Proof.
  intros Hw Ht. rewrite split_app by (by apply digits_no_char). by rewrite digits_split_dot.
Qed.

(** The end of [ParseBRL], from the whole and fractional parts on. *)
Lemma brl_tail_spec v f : 0 <= v -> 0 <= f <= 99 ->
  (if Z.quot (int64_max - f) 100 <? v then Err ErrInvalidAmount
   else Money.NewMoney (wrap64 (wrap64 (v * 100) + f)) Money.CurrencyBRL)
  = if (0 <? v * 100 + f) && (v * 100 + f <=? int64_max)
    then Ok (Money.Build_money (v * 100 + f)) else Err ErrInvalidAmount.
Proof.
  intros Hv Hf. rewrite Z.quot_div_nonneg by (unfold int64_max; lia). unfold int64_max.
  destruct (Z.ltb_spec ((9223372036854775807 - f) / 100) v) as [H|H].
  - replace (v * 100 + f <=? 9223372036854775807) with false by (symmetry; apply Z.leb_gt; dlia).
    by rewrite andb_false_r.
  - assert (v * 100 + f <= 9223372036854775807) by dlia.
    rewrite !wrap64_id by (unfold int64_min, int64_max; rewrite ?wrap64_id; unfold int64_min, int64_max; lia).
    unfold Money.NewMoney. change (negb _) with false. cbn iota.
    destruct (Z.leb_spec (v * 100 + f) 9223372036854775807); [|lia].
    destruct (Z.leb_spec (v * 100 + f) 0), (Z.ltb_spec 0 (v * 100 + f)); try lia; done.
Qed.

Lemma parse_int64_digits s v : s <> "" -> digits_val 0 s = Some v ->
  parse_int64 s = if v <=? int64_max then Ok v else Err (EMsg "strconv.ParseInt: value out of range").
Proof. intros Hs Hv. unfold parse_int64. apply String.eqb_neq in Hs. by rewrite Hs, Hv. Qed.

Lemma ascii_digits_spec s : Money.asciiDigits s = true <-> s <> "" /\ forall_chars is_digit s = true.
Proof. unfold Money.asciiDigits. destruct (String.eqb_spec s ""); naive_solver. Qed.

Definition brl_result (n : Z) : result Money.money :=
  if (0 <? n) && (n <=? int64_max) then Ok (Money.Build_money n) else Err ErrInvalidAmount.

Lemma brl_result_big v f : int64_max < v -> 0 <= f -> brl_result (v * 100 + f) = Err ErrInvalidAmount.
Proof.
  intros. unfold brl_result. rewrite (proj2 (Z.leb_gt (v * 100 + f) int64_max)); [by rewrite andb_false_r|].
  unfold int64_max in *. lia.
Qed.

(** [ParseBRL] on digits alone and on digits with a fraction. *)
Lemma parse_brl_digits w v : w <> "" -> digits_val 0 w = Some v ->
  Money.ParseBRL w = brl_result (v * 100 + 0).
Proof.
  intros Hw Hv. pose proof (digits_val_digits _ _ _ Hv) as Hd.
  pose proof (digits_val_nonneg _ 0 _ ltac:(lia) Hv) as Hv0. unfold Money.ParseBRL.
  rewrite (proj2 (String.eqb_neq w "") Hw).
  rewrite <- (string_app_nil_r w) at 1 2. rewrite !digits_no_sign by done. cbn [orb].
  rewrite digits_split_dot by done. cbn [nth length Nat.eqb Nat.ltb Nat.leb andb orb].
  rewrite (proj2 (String.eqb_neq w "") Hw). cbn [orb].
  rewrite (proj2 (ascii_digits_spec w) (conj Hw Hd)). cbn [negb orb].
  rewrite (parse_int64_digits w v) by done. destruct (Z.leb_spec v int64_max).
  - rewrite (proj2 (Z.ltb_ge v 0)) by lia. by apply brl_tail_spec.
  - symmetry. by apply brl_result_big.
Qed.

Lemma parse_brl_point w v u f : w <> "" -> digits_val 0 w = Some v ->
  1 <= slen u <= 2 -> forall_chars is_digit u = true ->
  digits_val 0 (if slen u =? 1 then u +:+ "0" else u) = Some f -> 0 <= f <= 99 ->
  Money.ParseBRL (w +:+ String "." u) = brl_result (v * 100 + f).
Proof.
  intros Hw Hv Hu Hud Huv Hf. pose proof (digits_val_digits _ _ _ Hv) as Hd.
  pose proof (digits_val_nonneg _ 0 _ ltac:(lia) Hv) as Hv0. unfold Money.ParseBRL.
  assert (w +:+ String "." u <> "") as Hne by (destruct w; done).
  rewrite (proj2 (String.eqb_neq _ "") Hne), !digits_no_sign by done. cbn [orb].
  rewrite digits_split_dot_app by done. cbn [nth length Nat.eqb Nat.ltb Nat.leb andb orb].
  rewrite (proj2 (String.eqb_neq w "") Hw). cbn [orb].
  rewrite (proj2 (Z.eqb_neq (slen u) 0)), (proj2 (Z.ltb_ge 2 (slen u))) by lia. cbn [orb].
  assert (u <> "") as Hune by (intros ->; unfold slen in Hu; cbn in Hu; lia).
  rewrite (proj2 (ascii_digits_spec w) (conj Hw Hd)), (proj2 (ascii_digits_spec u) (conj Hune Hud)).
  cbn [negb orb]. rewrite (parse_int64_digits w v) by done. destruct (Z.leb_spec v int64_max).
  - rewrite (proj2 (Z.ltb_ge v 0)) by lia.
    rewrite (parse_int64_digits _ f); [|by case_goal; destruct u|done].
    rewrite (proj2 (Z.leb_le f int64_max)) by (unfold int64_max; lia). by apply brl_tail_spec.
  - symmetry. apply brl_result_big; lia.
Qed.

Lemma parse_brl_text s n : brl_text s n -> Money.ParseBRL s = brl_result n.
Proof.
  intros [w v Hw Hv|w v c Hw Hv Hc|w v c d Hw Hv Hc Hd].
  - rewrite <- (Z.add_0_r (v * 100)). by apply parse_brl_digits.
  - pose proof (digit_val_range _ Hc). apply parse_brl_point; try done; [cbn; by rewrite Hc| |lia].
    change (slen (String c "") =? 1) with true. cbn [String.append digits_val]. rewrite Hc. cbn.
    f_equal. change (digit_val "0") with 0. lia.
  - pose proof (digit_val_range _ Hc). pose proof (digit_val_range _ Hd).
    apply parse_brl_point; try done; [cbn; by rewrite Hc, Hd| |lia].
    change (slen (String c (String d "")) =? 1) with false. cbn [digits_val]. by rewrite Hc, Hd.
Qed.

(** The only texts that get through the checks are those of the grammar. *)
Lemma parse_brl_accepts s m : Money.ParseBRL s = Ok m -> exists n, brl_text s n.
Proof.
  unfold Money.ParseBRL. case_goal; [done|]. pose proof (join_split "." s) as Hs.
  destruct (split "." s) as [|p0 [|p1 [|p2 ps]]]; cbn [nth length Nat.eqb Nat.ltb Nat.leb andb orb join]; [done|..|done].
  - case_goal; [done|]. case_goal; [done|]. bool_to_prop.
    match goal with H : Money.asciiDigits p0 = true |- _ => apply ascii_digits_spec in H as [Hne Hd] end.
    destruct (digits_val_total _ 0 Hd) as [v Hv]. intros _. exists (v * 100). rewrite <- Hs. by apply brl_whole.
  - case_goal; [done|]. case_goal; [done|]. bool_to_prop.
    repeat match goal with H : Money.asciiDigits _ = true |- _ => apply ascii_digits_spec in H as [? ?] end.
    destruct (digits_val_total p0 0) as [v Hv]; [done|]. intros _. rewrite <- Hs.
    destruct p1 as [|c [|d [|e p1]]]; [done|..].
    + cbn in *. bool_to_prop. eexists. by apply brl_tenths.
    + cbn in *. bool_to_prop. eexists. by apply brl_cents.
    + exfalso. unfold slen in *. cbn [String.length] in *. lia.
Qed.

Lemma new_money_brl_inv v m : Money.NewMoney v Money.CurrencyBRL = Ok m -> m = Money.Build_money v /\ 0 < v.
Proof. unfold Money.NewMoney. change (negb _) with false. cbn iota. case_goal; [done|]. intros [= <-]. bool_to_prop. done. Qed.

Lemma ParseBRL_spec_text s a : brl_text s a -> 0 < a <= int64_max ->
  Money.ParseBRL s = Ok (Money.Build_money a).
Proof.
  intros Ht [H0 H1]. rewrite (parse_brl_text _ _ Ht). unfold brl_result.
  by rewrite (proj2 (Z.ltb_lt _ _) H0), (proj2 (Z.leb_le _ _) H1).
Qed.

(** C9: [ParseBRL] accepts exactly the texts made of digits with an optional
    point and one or two further digits whose amount in cents is positive and
    fits an int64, and yields that amount: no rounding and no overflow. *)
Theorem ParseBRL_spec s m :
  Money.ParseBRL s = Ok m <->
  brl_text s (Money.minor m) /\ 0 < Money.minor m <= int64_max.
Proof.
  split.
  - intros H. destruct (parse_brl_accepts s m H) as [n Hn].
    rewrite (parse_brl_text s n Hn) in H. unfold brl_result in H.
    case_hyp H; [|done]. injection H as <-. bool_to_prop. done.
  - intros [Ht Hr]. destruct m as [a]. by apply ParseBRL_spec_text.
Qed.

Lemma format_minor_text a : 0 < a -> brl_text (Money.format_minor a) a.
Proof.
  intros Ha. unfold Money.format_minor.
  rewrite Z.quot_div_nonneg, Z.rem_mod_nonneg by lia.
  assert (0 <= a / 100) as Hq by (apply Z.div_pos; lia).
  unfold fmt_d. rewrite (proj2 (Z.ltb_ge (a / 100) 0)) by lia.
  assert (0 <= a mod 100 < 100) as Hm by (apply Z.mod_pos_bound; lia).
  destruct (digit_chr_spec (a mod 100 / 10 mod 10)) as [H1 H2]; [apply Z.mod_pos_bound; lia|].
  destruct (digit_chr_spec (a mod 100 mod 10)) as [H3 H4]; [apply Z.mod_pos_bound; lia|].
  pose proof (brl_cents (fmt_nat (a / 100)) (a / 100) _ _ (fmt_nat_nonempty _) (fmt_nat_val _ Hq) H1 H3) as Hc.
  rewrite H2, H4 in Hc. unfold pad_dec.
  replace (a / 100 * 100 + (a mod 100 / 10 mod 10 * 10 + a mod 100 mod 10)) with a in Hc by dlia.
  exact Hc.
Qed.

(** Printing a positive amount with two decimals ([Money.String], and the
    amount field of the gRPC entry) and parsing it gives the same amount, for
    every positive int64. *)
Theorem money_roundtrip a : 0 < a <= int64_max ->
  Money.ParseBRL (Money.format_minor a) = Ok (Money.Build_money a).
Proof. intros Ha. apply ParseBRL_spec_text; [apply format_minor_text; lia|done]. Qed.

Lemma money_roundtrip_witness :
  0 < 1005 <= int64_max /\ Money.ParseBRL (Money.format_minor 1005) = Ok (Money.Build_money 1005).
Proof. split; [unfold int64_max; lia | apply (money_roundtrip 1005); unfold int64_max; lia]. Defined.

(** ** Identifiers *)
Lemma land_255 z : Z.land z 255 = z mod 256.
Proof. change 255 with (Z.ones 8). by rewrite Z.land_ones by lia. Qed.

Lemma uuid_version_byte z : Z.lor (Z.land z 15) 112 = 112 + z mod 16.
Proof.
  change 15 with (Z.ones 4). rewrite Z.land_ones by lia. change (2 ^ 4) with 16.
  apply Z.eqb_eq, (below_forall 16 (fun x => Z.lor x 112 =? 112 + x)); [done|].
  apply Z.mod_pos_bound. lia.
Qed.

Lemma uuid_variant_byte z : Z.lor (Z.land z 63) 128 = 128 + z mod 64.
Proof.
  change 63 with (Z.ones 6). rewrite Z.land_ones by lia. change (2 ^ 6) with 64.
  apply Z.eqb_eq, (below_forall 64 (fun x => Z.lor x 128 =? 128 + x)); [done|].
  apply Z.mod_pos_bound. lia.
Qed.

Definition is_id (s : string) : Prop := ID.ParseID s = Ok s.

Lemma hyphen_char i s : ID.hyphen_at i s = true -> char_at i s = Some "-"%char.
Proof. unfold ID.hyphen_at. destruct (char_at i s); [|done]. by intros ->%Ascii.eqb_eq. Qed.

(** The shape [ParseID] requires. *)
Lemma ParseID_shape s i : ID.ParseID s = Ok i -> exists a b c d e,
  s = a +:+ String "-" (b +:+ String "-" (c +:+ String "-" (d +:+ String "-" e))) /\
  Forall (fun t => forall_chars is_hex t = true) [a; b; c; d; e] /\ 
  map String.length [a;b;c;d;e] = [8;4;4;4;12]%nat.
Proof.
  unfold ID.ParseID. intros H. case_hyp H; [done|]. bool_to_prop.
  match goal with H1 : ID.hyphen_at 8 s = true, H2 : ID.hyphen_at 13 s = true, H3 : ID.hyphen_at 18 s = true, H4 : ID.hyphen_at 23 s = true |- _ => 
   apply hyphen_char in H1, H2, H3, H4; rename H1 into H8; rename H2 into H13; rename H3 into H18; rename H4 into H23 end.
  destruct (hex_decode _) eqn:E; [|done]. apply hex_decode_hex in E. rewrite !forall_chars_app in E. bool_to_prop.
  assert (String.length s = 36%nat) as HL by (unfold slen in *; lia).
  exists (slice 0 8 s), (slice 9 13 s), (slice 14 18 s), (slice 19 23 s), (slice 24 36 s).
  unfold slice in *. cbn [Nat.sub] in *.
  splits.
  - rewrite (string_split_at 8 s "-" H8) at 1. f_equal. f_equal.
    rewrite (string_split_at 4 (drop_chars 9 s) "-") at 1 by (by rewrite char_at_drop).
    rewrite drop_drop. cbn [Nat.add]. rewrite <- substring_drop. f_equal. f_equal.
    rewrite (string_split_at 4 (drop_chars 14 s) "-") at 1 by (by rewrite char_at_drop).
    rewrite drop_drop. cbn [Nat.add]. rewrite <- substring_drop. f_equal. f_equal.
    rewrite (string_split_at 4 (drop_chars 19 s) "-") at 1 by (by rewrite char_at_drop).
    rewrite drop_drop. cbn [Nat.add]. rewrite <- substring_drop. f_equal. f_equal.
    rewrite substring_drop. symmetry. apply substring_all. rewrite drop_length. lia.
  - repeat (apply List.Forall_cons; [assumption|]). apply List.Forall_nil.
  - cbn [map]. rewrite !substring_length by lia. done.
Qed.

Lemma is_id_ascii s : is_id s -> is_ascii s = true.
Proof.
  intros (a & b & c & d & e & -> & Hf & _)%ParseID_shape. decompose_Forall_hyps.
  unfold is_ascii. rewrite !forall_chars_app. cbn. rewrite !forall_chars_app. cbn. rewrite !forall_chars_app. cbn.
  rewrite !forall_chars_app. cbn. by rewrite !(forall_chars_impl is_hex _ _ is_hex_ascii).
Qed.

Definition is_byte_value (b : Z) : Prop := 0 <= b < 256.

Lemma uuid_bytes_range millis raw : Forall is_byte_value (ID.uuid_bytes millis raw).
Proof.
  unfold ID.uuid_bytes. rewrite !land_255, uuid_version_byte, uuid_variant_byte.
  pose proof (fun z => Z.mod_pos_bound z 256 ltac:(lia)) as Hm.
  pose proof (Z.mod_pos_bound (nth 6 raw 0 mod 256) 16 ltac:(lia)).
  pose proof (Z.mod_pos_bound (nth 8 raw 0 mod 256) 64 ltac:(lia)).
  repeat constructor; try apply Hm; lia.
Qed.

(** The hyphenated text of sixteen bytes. *)
Definition uuid_text (b : list Z) : string :=
  hex_encode (ID.sub 0 4 b) +:+ String "-" (hex_encode (ID.sub 4 6 b) +:+ String "-"
    (hex_encode (ID.sub 6 8 b) +:+ String "-" (hex_encode (ID.sub 8 10 b) +:+ String "-"
    (hex_encode (ID.sub 10 16 b))))).

Lemma list_16 {A} (l : list A) : length l = 16%nat ->
  exists a0 a1 a2 a3 a4 a5 a6 a7 a8 a9 a10 a11 a12 a13 a14 a15,
    l = [a0;a1;a2;a3;a4;a5;a6;a7;a8;a9;a10;a11;a12;a13;a14;a15].
Proof.
  intros H. do 16 (destruct l as [|? l]; [discriminate H|]).
  destruct l; [|discriminate H]. by repeat eexists.
Qed.

(** The digits of a UUID text, without the hyphens. *)
Lemma uuid_text_compact b : length b = 16%nat ->
  slice 0 8 (uuid_text b) +:+ (slice 9 13 (uuid_text b) +:+ (slice 14 18 (uuid_text b)
    +:+ (slice 19 23 (uuid_text b) +:+ slice 24 36 (uuid_text b)))) = hex_encode b /\
  slen (uuid_text b) = 36 /\ ID.hyphen_at 8 (uuid_text b) = true /\
  ID.hyphen_at 13 (uuid_text b) = true /\ ID.hyphen_at 18 (uuid_text b) = true /\
  ID.hyphen_at 23 (uuid_text b) = true.
Proof.
  intros H. destruct (list_16 b H) as
    (a0 & a1 & a2 & a3 & a4 & a5 & a6 & a7 & a8 & a9 & a10 & a11 & a12 & a13 & a14 & a15 & ->).
  repeat split.
Qed.

Lemma ParseID_uuid_text b : length b = 16%nat -> Forall is_byte_value b ->
  existsb (fun x => negb (x =? 0)) b = true -> ID.ParseID (uuid_text b) = Ok (uuid_text b).
Proof.
  intros Hl Hr Hnz. destruct (uuid_text_compact b Hl) as (Hc & H36 & H8 & H13 & H18 & H23).
  unfold ID.ParseID. rewrite H36, H8, H13, H18, H23. cbn [negb orb]. change (36 =? 36) with true.
  cbn [negb orb]. rewrite Hc, hex_decode_encode by done. rewrite Hl. change (negb _) with false at 1.
  cbn iota. destruct (forallb (fun x => x =? 0) b) eqn:E; [|done].
  apply existsb_exists in Hnz as (x & Hx & Hn). rewrite forallb_forall in E.
  rewrite (E x Hx) in Hn. done.
Qed.

Lemma NewUUIDv7_text now raw v : ID.NewUUIDv7 now (Ok raw) = Ok v ->
  v = uuid_text (ID.uuid_bytes (wrapu64 (unix_milli now)) raw).
Proof. by intros [= <-]. Qed.

Lemma NewUUIDv7_id now raw v : ID.NewUUIDv7 now (Ok raw) = Ok v -> is_id v.
Proof.
  intros ->%NewUUIDv7_text. set (b := ID.uuid_bytes (wrapu64 (unix_milli now)) raw).
  apply ParseID_uuid_text; [done|apply uuid_bytes_range|]. apply existsb_exists. exists (nth 6 b 0).
  split; [apply nth_In; cbn; lia|].
  change (nth 6 b 0) with (Z.lor (Z.land (Z.land (nth 6 raw 0) 255) 15) 112).
  rewrite uuid_version_byte. pose proof (Z.mod_pos_bound (Z.land (nth 6 raw 0) 255) 16 ltac:(lia)).
  apply negb_true_iff, Z.eqb_neq. lia.
Qed.

(** A minted identifier is in lower case, as PostgreSQL prints it. *)
Lemma hex_digit_lower d : 0 <= d < 16 -> lower_ascii (hex_digit d) = hex_digit d.
Proof.
  intros H. apply Ascii.eqb_eq.
  apply (below_forall 16 (fun d => Ascii.eqb (lower_ascii (hex_digit d)) (hex_digit d))); [reflexivity|exact H].
Qed.

Lemma hex_encode_lower l : Forall is_byte_value l -> ascii_lower (hex_encode l) = hex_encode l.
Proof.
  induction 1 as [|b l Hb _ IH]; cbn; [done|]. unfold is_byte_value in Hb.
  rewrite !hex_digit_lower, IH by dlia. done.
Qed.

Lemma ascii_lower_app s t : ascii_lower (s +:+ t) = ascii_lower s +:+ ascii_lower t.
Proof. induction s as [|c s IH]; cbn; [done|]. by rewrite IH. Qed.

Lemma uuid_text_lower b : Forall is_byte_value b -> ascii_lower (uuid_text b) = uuid_text b.
Proof.
  intros Hb. unfold uuid_text.
  assert (forall i j, ascii_lower (hex_encode (ID.sub i j b)) = hex_encode (ID.sub i j b)) as H
    by (intros i j; by apply hex_encode_lower, Forall_take, Forall_drop).
  repeat (rewrite ascii_lower_app; cbn [ascii_lower]; rewrite H). by rewrite H.
Qed.

Lemma NewUUIDv7_lower now raw v : ID.NewUUIDv7 now (Ok raw) = Ok v -> ascii_lower v = v.
Proof. intros ->%NewUUIDv7_text. apply uuid_text_lower, uuid_bytes_range. Qed.

(** C10: an identifier minted by [NewUUIDv7] passes [ParseID], carries the
    version digit 7 and an RFC 4122 variant digit, and its first 48 bits are
    the Unix time in milliseconds. *)
Theorem NewUUIDv7_valid now raw : exists uuid b,
    ID.NewUUIDv7 now (Ok raw) = Ok uuid /\ ID.ParseID uuid = Ok uuid /\
    char_at 14 uuid = Some "7"%char /\
    (exists c, char_at 19 uuid = Some c /\ c ∈ ["8"; "9"; "a"; "b"]%char) /\
    hex_decode (slice 0 8 uuid +:+ slice 9 13 uuid) = Some b /\
    fold_left (fun acc x => acc * 256 + x) b 0 = unix_milli now mod 2 ^ 48.
Proof.
  set (b := ID.uuid_bytes (wrapu64 (unix_milli now)) raw).
  pose proof (uuid_bytes_range (wrapu64 (unix_milli now)) raw) as Hb.
  set (r6 := Z.land (nth 6 raw 0) 255). set (r8 := Z.land (nth 8 raw 0) 255).
  exists (uuid_text b), (take 6 b). split; [done|].
  assert (length b = 16%nat) as Hlb by done.
  assert (nth 6 b 0 = 112 + r6 mod 16) as H6 by apply uuid_version_byte.
  assert (nth 8 b 0 = 128 + r8 mod 64) as H8 by apply uuid_variant_byte.
  pose proof (Z.mod_pos_bound (r6) 16 ltac:(lia)).
  pose proof (Z.mod_pos_bound (r8) 64 ltac:(lia)).
  split; [|split; [|split; [|split]]].
  - apply ParseID_uuid_text; [done..|]. apply existsb_exists. exists (nth 6 b 0).
    split; [apply nth_In; lia|]. rewrite H6. apply negb_true_iff, Z.eqb_neq. lia.
  - change (char_at 14 (uuid_text b)) with (Some (hex_digit (nth 6 b 0 / 16))).
    rewrite H6. replace ((112 + r6 mod 16) / 16) with 7 by dlia. done.
  - exists (hex_digit (nth 8 b 0 / 16)). split; [done|]. rewrite H8.
    set (x := r8 mod 64) in *.
    assert ((128 + x) / 16 = 8 \/ (128 + x) / 16 = 9 \/ (128 + x) / 16 = 10 \/ (128 + x) / 16 = 11)
      as [-> | [-> | [-> | ->]]] by dlia; cbn; set_solver.
  - change (slice 0 8 (uuid_text b) +:+ slice 9 13 (uuid_text b)) with (hex_encode (take 6 b)).
    apply hex_decode_encode. apply Forall_take, Hb.
  - subst b. unfold ID.uuid_bytes. cbn [take fold_left]. rewrite !land_255.
    rewrite !Z.shiftr_div_pow2 by lia. unfold wrapu64.
    set (u := unix_milli now mod 18446744073709551616).
    replace (unix_milli now mod 2 ^ 48) with (u mod 2 ^ 48) by (subst u; change (2^48) with 281474976710656; dlia).
    change (2 ^ 40) with 1099511627776. change (2 ^ 32) with 4294967296. change (2 ^ 24) with 16777216.
    change (2 ^ 16) with 65536. change (2 ^ 8) with 256. change (2 ^ 48) with 281474976710656. dlia.
Qed.


(** ** The merchant calendar *)
Lemma midnight_id n : date_of_time (n * day_ns) = n.
Proof. unfold date_of_time. apply Z.div_mul. done. Qed.

Lemma earliest_day n :
  Calendar.BusinessDateFromTime Calendar.UTC (add_days (n * day_ns) (- Calendar.MaximumBackdateDays))
  = Calendar.Build_business_date ((n - 30) * day_ns).
Proof.
  unfold Calendar.BusinessDateFromTime. f_equal. f_equal. rewrite <- (midnight_id (n - 30)). f_equal.
  unfold Calendar.UTC, Calendar.MaximumBackdateDays, add_days. lia.
Qed.

(** The business date of an entry is today in the merchant's zone, or a
    requested date between thirty days before today and today; any other
    request is refused with [ErrInvalidBusinessDate]. *)
Theorem Resolve_window c now :
  let today := date_of_time (now + c now) in
  Calendar.Resolve c now None = Ok (Calendar.Build_business_date (today * day_ns)) /\
  forall n, Calendar.Resolve c now (Some (Calendar.Build_business_date (n * day_ns))) =
    if (today - 30 <=? n) && (n <=? today)
    then Ok (Calendar.Build_business_date (n * day_ns)) else Err ErrInvalidBusinessDate.
Proof.
  intros today. split; [done|]. intros n. unfold Calendar.Resolve, Calendar.Today.
  change (Calendar.BusinessDateFromTime c now) with (Calendar.Build_business_date (today * day_ns)).
  cbn [Calendar.value].
  rewrite earliest_day. unfold Calendar.Before, Calendar.After. cbn [Calendar.value].
  unfold day_ns, second.
  destruct (Z.leb_spec (today - 30) n), (Z.leb_spec n today); cbn [andb];
    destruct (Z.ltb_spec (n * (86400 * 1000000000)) ((today - 30) * (86400 * 1000000000))),
      (Z.ltb_spec (today * (86400 * 1000000000)) (n * (86400 * 1000000000))); try lia; done.
Qed.

Lemma parse_date_string n : printable_date n ->
  Calendar.ParseBusinessDate (Calendar.date_string (Calendar.Build_business_date (n * day_ns)))
  = Ok (Calendar.Build_business_date (n * day_ns)).
Proof.
  intros Hp. unfold Calendar.ParseBusinessDate, Calendar.date_string. cbn [Calendar.value].
  rewrite midnight_id. by rewrite parse_format_date.
Qed.

(** ** Entries *)
Definition is_entry_type (t : string) : Prop := t = Entry.EntryTypeCredit \/ t = Entry.EntryTypeDebit.

Record wf_entry (e : Entry.entry) : Prop := {
  wf_id : Entry.id e <> "";
  wf_merchant : Entry.merchantID e <> "";
  wf_position : 0 < Entry.position e;
  wf_type : is_entry_type (Entry.entryType e);
  wf_amount : 0 < Money.minor (Entry.money e);
  wf_date : Calendar.value (Entry.businessDate e) <> 0;
  wf_confirmed : Entry.confirmedAt e <> 0;
  wf_description : rune_count (Entry.description e) <= 500 }.

(** The data [NewEntry] copies into the entry. *)
Definition entry_of (d : Entry.EntryData) : Entry.entry :=
  {| Entry.id := Entry.d_ID d; Entry.merchantID := Entry.d_MerchantID d;
     Entry.position := Entry.d_Position d; Entry.entryType := Entry.d_Type d;
     Entry.money := Entry.d_Money d; Entry.businessDate := Entry.d_BusinessDate d;
     Entry.description := Entry.d_Description d; Entry.confirmedAt := Entry.d_ConfirmedAt d;
     Entry.originalEntryID := Entry.d_OriginalEntryID d |}.

Lemma NewEntry_ok_iff d e : Entry.NewEntry d = Ok e <-> e = entry_of d /\ wf_entry (entry_of d).
Proof.
  unfold Entry.NewEntry. split.
  - intros H. repeat (case_hyp H; [done|]). injection H as <-. split; [done|].
    bool_to_prop. unfold is_zero_time in *. bool_to_prop. split; cbn; try done.
    unfold is_entry_type.
    match goal with H : negb _ && negb _ = false |- _ => apply andb_false_iff in H as [H|H] end;
      bool_to_prop; tauto.
  - intros [-> Hwf]. destruct Hwf as [H1 H2 H3 H4 H5 H6 H7 H8]. cbn in *.
    rewrite (proj2 (String.eqb_neq _ _) H1), (proj2 (String.eqb_neq _ _) H2).
    rewrite (proj2 (Z.leb_gt _ 0)) by done.
    assert (negb (String.eqb (Entry.d_Type d) Entry.EntryTypeCredit)
            && negb (String.eqb (Entry.d_Type d) Entry.EntryTypeDebit) = false) as ->
      by (destruct H4 as [-> | ->]; done).
    rewrite (proj2 (Z.leb_gt _ 0)) by done. unfold is_zero_time.
    rewrite (proj2 (Z.eqb_neq _ _) H6), (proj2 (Z.eqb_neq _ _) H7).
    by rewrite (proj2 (Z.ltb_ge 500 _)).
Qed.

Lemma opposite_signed e e' : is_entry_type (Entry.entryType e) ->
  Entry.entryType e' = Entry.Opposite (Entry.entryType e) -> Entry.money e' = Entry.money e ->
  Entry.signed_amount e' = - Entry.signed_amount e /\ is_entry_type (Entry.entryType e').
Proof.
  intros Ht Ht' Hm. unfold Entry.signed_amount. rewrite Ht', Hm.
  destruct Ht as [-> | ->]; cbn; split; try lia; [by right|by left].
Qed.

(** A reversal is refused when the original is itself a reversal;
    otherwise it is a well-formed entry of the same merchant that points at
    the original and cancels its effect on the balance exactly. *)
Theorem NewReversal_cancels o newID pos date t :
  wf_entry o -> newID <> "" -> 0 < pos -> Calendar.value date <> 0 -> t <> 0 ->
  (forall x, Entry.originalEntryID o = Some x ->
     Entry.NewReversal newID pos o date t = Err ErrReversalNotAllowed) /\
  (Entry.originalEntryID o = None -> exists r, Entry.NewReversal newID pos o date t = Ok r /\
     wf_entry r /\ Entry.merchantID r = Entry.merchantID o /\
     Entry.originalEntryID r = Some (Entry.id o) /\
     Entry.signed_amount o + Entry.signed_amount r = 0).
Proof.
  intros Ho Hid Hpos Hd Ht. unfold Entry.NewReversal. split; [by intros x ->|]. intros ->.
  eexists. split; [apply NewEntry_ok_iff; split; [done|]|]; cbn.
  - destruct Ho. split; cbn; try done. destruct wf_type0 as [-> | ->]; [by right|by left].
  - match goal with |- wf_entry ?r /\ _ =>
      destruct (opposite_signed o r (wf_type o Ho) eq_refl eq_refl) as [Hs Ht']
    end.
    split; [destruct Ho; split; cbn; done|]. repeat split; try done. lia.
Qed.

Definition sample_entry : Entry.entry :=
  {| Entry.id := "a"; Entry.merchantID := "m"; Entry.position := 1; Entry.entryType := "credit";
     Entry.money := Money.Build_money 1000; Entry.businessDate := Calendar.Build_business_date day_ns;
     Entry.description := "sale"; Entry.confirmedAt := day_ns; Entry.originalEntryID := None |}.

Lemma sample_entry_wf : wf_entry sample_entry.
Proof. split; cbn; try done. by left. Qed.

Lemma NewReversal_cancels_witness :
  exists r, Entry.NewReversal "b" 2 sample_entry (Calendar.Build_business_date day_ns) day_ns = Ok r /\
    Entry.signed_amount sample_entry + Entry.signed_amount r = 0.
Proof.
  destruct (proj2 (NewReversal_cancels sample_entry "b" 2 (Calendar.Build_business_date day_ns) day_ns
    sample_entry_wf ltac:(done) ltac:(lia) ltac:(done) ltac:(done)) eq_refl) as (r & H & _ & _ & _ & Hs).
  exists r. split; [exact H|exact Hs].
Defined.
