(* ===== verification/TraceContext.v ===== *)
(** * W3C trace context

    services/ledger/internal/application/traceparent.go (what the Ledger
    accepts with a command) and
    internal/platform/observability/tracecontext/tracecontext.go (what the edge
    keeps or replaces). *)

From S2P Require Import Prelude.
From S2P Require Import GoStrings.
From S2P Require Import GoTime.
From Stdlib Require String.
From Stdlib Require Import ZArith Lia Ascii.
Open Scope string_scope.
Open Scope Z_scope.

Module Ledger.
Definition ErrInvalidArgument : error := ESentinel "application.ErrInvalidArgument".

Definition lowerHex (value : string) : bool := forall_chars is_lower_hex value.
Definition allZeroHex (value : string) : bool := forall_chars (Ascii.eqb "0") value.

Definition dash_at (i : nat) (value : string) : bool :=
  match char_at i value with Some c => Ascii.eqb c "-" | None => false end.

Definition ValidateTraceparent (value : string) : result unit :=
  if negb (slen value =? 55) || negb (dash_at 2 value) || negb (dash_at 35 value)
     || negb (dash_at 52 value)
  then Err ErrInvalidArgument
  else
    let version := slice 0 2 value in
    let traceID := slice 3 35 value in
    let parentID := slice 36 52 value in
    let flags := slice 53 55 value in
    if negb (lowerHex version) || negb (lowerHex traceID) || negb (lowerHex parentID)
       || negb (lowerHex flags) || String.eqb version "ff" || allZeroHex traceID
       || allZeroHex parentID
       || (String.eqb version "00" && negb (String.eqb flags "00") && negb (String.eqb flags "01"))
    then Err ErrInvalidArgument
    else Ok tt.
End Ledger.

Module Edge.
Definition PublicTraceState : string := "cashflow=public-edge".
Definition ErrInvalidTraceParent : error := ESentinel "tracecontext.ErrInvalidTraceParent".

Record SpanContext : Type := Build_SpanContext { TraceID : string; SpanID : string; Flags : string }.

Definition span_string (s : SpanContext) : string :=
  "00-" +:+ (TraceID s +:+ String "-" (SpanID s +:+ String "-" (Flags s))).

Definition Sampled (s : SpanContext) : bool :=
  (slen (Flags s) =? 2) &&
  match char_at 1 (Flags s) with Some c => Z.land (code c) 1 =? 1 | None => false end.

Definition isLowerHex (value : string) (width : Z) : bool :=
  if negb (slen value =? width) then false else forall_chars is_lower_hex value.

(** [strings.Trim(value, "0") == ""] *)
Definition isAllZero (value : string) : bool := forall_chars (Ascii.eqb "0") value.

Definition ParseTraceParent (value : string) : result SpanContext :=
  match split "-" (trim_space value) with
  | [version; traceID; spanID; flags] =>
      if negb (String.eqb version "00") then Err ErrInvalidTraceParent
      else if negb (isLowerHex traceID 32) || isAllZero traceID then Err ErrInvalidTraceParent
      else if negb (isLowerHex spanID 16) || isAllZero spanID then Err ErrInvalidTraceParent
      else if negb (isLowerHex flags 2) then Err ErrInvalidTraceParent
      else Ok (Build_SpanContext traceID spanID flags)
  | _ => Err ErrInvalidTraceParent
  end.

(** [traceBytes] and [spanBytes] are what the two [rand.Read] calls gave. *)
Definition NewSpanContext (traceBytes spanBytes : result (list Z)) : result SpanContext :=
  t ← traceBytes; s ← spanBytes;
  Ok (Build_SpanContext (hex_encode t) (hex_encode s) "01").

Definition SanitizeTraceState (value : string) : string :=
  if String.eqb (trim_space value) PublicTraceState then PublicTraceState else "".

(** The span, whether the caller's value was kept, and the error. *)
Definition EnsureTraceParent (traceBytes spanBytes : result (list Z)) (value : string)
    : result (SpanContext * bool) :=
  match ParseTraceParent value with
  | Ok span => Ok (span, true)
  | Err _ => span ← NewSpanContext traceBytes spanBytes; Ok (span, false)
  end.

(** The transport-neutral carrier: [WithCarrier] stores it, [FromContext]
    reads it back when its traceparent still parses. *)
Record carrier : Type := { c_span : SpanContext; c_state : string }.
Definition WithCarrier (span : SpanContext) (state : string) : carrier :=
  {| c_span := span; c_state := SanitizeTraceState state |}.
Definition FromContext (stored : option carrier) : option (SpanContext * string) :=
  match stored with
  | None => None
  | Some c => match ParseTraceParent (span_string (c_span c)) with
              | Err _ => None
              | Ok _ => Some (c_span c, c_state c)
              end
  end.

(** The bridges to the OpenTelemetry SDK: what its context holds of a remote
    parent and of the active span.  [trace_id], [span_id] and [trace_state] are
    the SDK's parsers. *)
Record otel_span : Type := { o_trace : string; o_span : string; o_sampled : bool; o_state : string; o_remote : bool }.
Section Bridges.
Context (trace_id span_id trace_state : string -> result string).

Definition WithRemoteParent (ctx : option otel_span) (span : SpanContext) (state : string) : option otel_span :=
  match trace_id (TraceID span), span_id (SpanID span), trace_state (SanitizeTraceState state) with
  | Ok traceID, Ok spanID, Ok traceState =>
      Some {| o_trace := traceID; o_span := spanID; o_sampled := Sampled span; o_state := traceState; o_remote := true |}
  | _, _, _ => ctx
  end.
End Bridges.
(** [active] is the span of the context, if it is valid; [stored] the carrier
    it has. *)
Definition WithCurrentSpan (active : option otel_span) (stored : option carrier) (state : string) : option carrier :=
  match active with
  | None => stored
  | Some span => Some (WithCarrier {| TraceID := o_trace span; SpanID := o_span span; Flags := if o_sampled span then "01" else "00" |} state)
  end.
End Edge.

(** ** Lemmas *)
Record wf_span (s : Edge.SpanContext) : Prop := {
  ws_trace : slen (Edge.TraceID s) = 32 /\ forall_chars is_lower_hex (Edge.TraceID s) = true
             /\ Edge.isAllZero (Edge.TraceID s) = false;
  ws_span : slen (Edge.SpanID s) = 16 /\ forall_chars is_lower_hex (Edge.SpanID s) = true
            /\ Edge.isAllZero (Edge.SpanID s) = false;
  ws_flags : slen (Edge.Flags s) = 2 /\ forall_chars is_lower_hex (Edge.Flags s) = true }.

Lemma lower_hex_no_dash s : forall_chars is_lower_hex s = true ->
  forall_chars (fun c => negb (Ascii.eqb c "-")) s = true.
Proof.
  apply forall_chars_impl. intros c H. apply negb_true_iff, Ascii.eqb_neq. intros ->. done.
Qed.

Lemma isLowerHex_spec v w : Edge.isLowerHex v w = true <-> slen v = w /\ forall_chars is_lower_hex v = true.
Proof. unfold Edge.isLowerHex. destruct (Z.eqb_spec (slen v) w); cbn; naive_solver. Qed.

Lemma span_string_trim s : wf_span s -> trim_space (Edge.span_string s) = Edge.span_string s.
Proof.
  intros [(_ & Ht & _) (_ & Hs & _) (_ & Hf)]. apply trim_space_id.
  unfold Edge.span_string. rewrite !forall_chars_app. cbn. rewrite forall_chars_app. cbn.
  by rewrite !(forall_chars_impl _ _ _ lower_hex_no_space).
Qed.

Lemma span_string_split s : wf_span s ->
  split "-" (Edge.span_string s) = ["00"; Edge.TraceID s; Edge.SpanID s; Edge.Flags s].
Proof.
  intros [(_ & Ht & _) (_ & Hs & _) (_ & Hf)].
  unfold Edge.span_string. change ("00-" +:+ ?x) with ("00" +:+ String "-" x).
  rewrite !split_app by first [done | by apply lower_hex_no_dash].
  by rewrite split_no_sep by (by apply lower_hex_no_dash).
Qed.

Lemma parse_span_string s : wf_span s -> Edge.ParseTraceParent (Edge.span_string s) = Ok s.
Proof.
  intros Hw. unfold Edge.ParseTraceParent. rewrite span_string_trim, span_string_split by done.
  destruct Hw as [(? & ? & Ht) (? & ? & Hs) (? & ?)].
  change (String.eqb "00" "00") with true. cbn [negb].
  rewrite !(proj2 (isLowerHex_spec _ _)) by (by split). rewrite Ht, Hs. by destruct s.
Qed.

Lemma parse_traceparent_inv v s : Edge.ParseTraceParent v = Ok s ->
  wf_span s /\ trim_space v = Edge.span_string s.
Proof.
  unfold Edge.ParseTraceParent. rewrite <- (join_split "-" (trim_space v)) at 2.
  destruct (split "-" (trim_space v)) as [|a [|b [|c [|d [|]]]]]; try done.
  repeat (case_goal; [done|]). intros [= <-]. bool_to_prop.
  repeat match goal with H : Edge.isLowerHex _ _ = true |- _ => apply isLowerHex_spec in H as [? ?] end.
  subst a. split; [split; by repeat split|done].
Qed.

(** [ParseTraceParent] accepts exactly the version 00 texts with a
    non-zero 16-byte trace id, a non-zero 8-byte span id and one byte of flags
    in lower-case hexadecimal, white space around them aside, and printing the
    parsed span gives the trimmed text back. *)
Theorem ParseTraceParent_spec v s :
  Edge.ParseTraceParent v = Ok s <-> wf_span s /\ trim_space v = Edge.span_string s.
Proof.
  split; [apply parse_traceparent_inv|]. intros [Hw Ht].
  pose proof (parse_span_string s Hw) as Hp. unfold Edge.ParseTraceParent in *.
  rewrite Ht. by rewrite span_string_trim in Hp.
Qed.

Lemma validate_span_string s : wf_span s ->
  Ledger.ValidateTraceparent (Edge.span_string s) =
  if String.eqb (Edge.Flags s) "00" || String.eqb (Edge.Flags s) "01"
  then Ok tt else Err Ledger.ErrInvalidArgument.
Proof.
  intros [(Htl & Ht & Htz) (Hsl & Hs & Hsz) (Hfl & Hf)]. unfold Ledger.ValidateTraceparent.
  destruct s as [t p f]; unfold Edge.span_string; cbn [Edge.TraceID Edge.SpanID Edge.Flags] in *.
  unfold slen in Htl, Hsl, Hfl.
  set (v := "00-" +:+ _).
  assert (slen v = 55) as -> by (unfold v, slen; rewrite !string_length_app; cbn; rewrite string_length_app; cbn; lia).
  assert (Ledger.dash_at 2 v = true) as -> by done.
  assert (Ledger.dash_at 35 v = true) as ->.
  { unfold Ledger.dash_at, v. change ("00-" +:+ ?x) with ("00-" +:+ x). rewrite <- string_app_assoc.
    rewrite char_at_app; [done|]. rewrite string_length_app. cbn. lia. }
  assert (Ledger.dash_at 52 v = true) as ->.
  { unfold Ledger.dash_at, v. change (String "-" (p +:+ ?x)) with ("-" +:+ (p +:+ x)).
    rewrite <- !string_app_assoc. rewrite char_at_app; [done|]. rewrite !string_length_app. cbn. lia. }
  assert (slice 0 2 v = "00") as -> by done.
  assert (slice 3 35 v = t) as -> by (unfold v; rewrite slice_mid; cbn; lia || done).
  assert (slice 36 52 v = p) as ->.
  { unfold v. change (String "-" (p +:+ ?x)) with ("-" +:+ (p +:+ x)).
    rewrite <- (string_app_assoc t), <- string_app_assoc. apply slice_mid; [|lia].
    rewrite !string_length_app. cbn. lia. }
  assert (slice 53 55 v = f) as ->.
  { unfold v. change (String "-" (p +:+ String "-" f)) with ("-" +:+ (p +:+ ("-" +:+ f))).
    rewrite <- !string_app_assoc. apply slice_end; [|lia]. rewrite !string_length_app. cbn. lia. }
  cbn [negb orb]. change (55 =? 55) with true. unfold Ledger.lowerHex, Ledger.allZeroHex.
  unfold Edge.isAllZero in Htz, Hsz. rewrite Ht, Hs, Hf, Htz, Hsz. cbn.
  by destruct (String.eqb f "00"), (String.eqb f "01").
Qed.

(** Of the traceparents the edge keeps, the Ledger accepts exactly those
    whose flags are 00 or 01: the edge keeps any flags byte, so a caller that
    sets another W3C flag bit, for example 03, gets its command refused. *)
Theorem edge_traceparent_at_ledger v s : Edge.ParseTraceParent v = Ok s ->
  (Ledger.ValidateTraceparent (Edge.span_string s) = Ok tt <->
   Edge.Flags s = "00" \/ Edge.Flags s = "01") /\
  exists v' s', Edge.ParseTraceParent v' = Ok s' /\
    Ledger.ValidateTraceparent (Edge.span_string s') = Err Ledger.ErrInvalidArgument.
Proof.
  intros H. apply parse_traceparent_inv in H as [Hw _]. split.
  - rewrite validate_span_string by done.
    destruct (String.eqb_spec (Edge.Flags s) "00"), (String.eqb_spec (Edge.Flags s) "01"); cbn; naive_solver.
  - exists "00-4bf92f3577b34da6a3ce929d0e0e4736-00f067aa0ba902b7-03".
    eexists. split; vm_compute; reflexivity.
Qed.

Lemma edge_traceparent_at_ledger_witness :
  let v := "00-4bf92f3577b34da6a3ce929d0e0e4736-00f067aa0ba902b7-01" in
  let s := Edge.Build_SpanContext "4bf92f3577b34da6a3ce929d0e0e4736" "00f067aa0ba902b7" "01" in
  Edge.ParseTraceParent v = Ok s /\ Ledger.ValidateTraceparent (Edge.span_string s) = Ok tt.
Proof.
  intros v s. split; [vm_compute; reflexivity|].
  apply (proj1 (edge_traceparent_at_ledger v s ltac:(vm_compute; reflexivity))). by right.
Defined.

(** ** The sampled flag *)
(** The bit the W3C format means: the lowest of the flags byte. *)
Definition sampled_bit (flags : string) : bool :=
  match flags with String _ (String c "") => match hex_val c with Some v => Z.odd v | None => false end | _ => false end.

(** [Sampled] looks at the lowest bit of the character, not of the digit it
    stands for: of a parsed traceparent it is the sampled bit if the flags end
    in a decimal digit, and the opposite if they end in a letter. *)
Theorem Sampled_of_letters v s : Edge.ParseTraceParent v = Ok s -> exists a c, Edge.Flags s = String a (String c "") /\
  Edge.Sampled s = if is_digit c then sampled_bit (Edge.Flags s) else negb (sampled_bit (Edge.Flags s)).
Proof.
  intros [[_ _ [Hl Hh]] _]%parse_traceparent_inv. unfold Edge.Sampled. destruct (Edge.Flags s) as [|a [|c [|]]]; try done; [|cbn in Hl; unfold slen in Hl; cbn in Hl; lia].
  exists a, c. split; [done|]. cbn in Hh. apply andb_true_iff in Hh as [_ [Hc _]%andb_true_iff]. clear Hl.
  destruct c as [[] [] [] [] [] [] [] []]; vm_compute in Hc; try discriminate Hc; vm_compute; reflexivity.
Qed.

Lemma Sampled_of_letters_witness :
  let s := Edge.Build_SpanContext "4bf92f3577b34da6a3ce929d0e0e4736" "00f067aa0ba902b7" "0b" in
  Edge.Sampled s = false /\ sampled_bit (Edge.Flags s) = true.
Proof. vm_compute. split; reflexivity. Qed.

(** A sampled remote parent survives the bridges as sampled, and nothing else
    of its flags does. *)
Lemma bridged_parent trace_id span_id trace_state span state active : 
  (forall x, trace_id x = Ok x) -> (forall x, span_id x = Ok x) -> (forall x, trace_state x = Ok x) ->
  Edge.WithRemoteParent trace_id span_id trace_state active span state =
    Some {| Edge.o_trace := Edge.TraceID span; Edge.o_span := Edge.SpanID span; Edge.o_sampled := Edge.Sampled span;
            Edge.o_state := Edge.SanitizeTraceState state; Edge.o_remote := true |} /\
  Edge.WithCurrentSpan (Edge.WithRemoteParent trace_id span_id trace_state active span state) None state =
    Some (Edge.WithCarrier {| Edge.TraceID := Edge.TraceID span; Edge.SpanID := Edge.SpanID span;
                              Edge.Flags := if Edge.Sampled span then "01" else "00" |} state).
Proof. intros Ht Hs Hst. unfold Edge.WithRemoteParent. by rewrite Ht, Hs, Hst. Qed.
