(* ===== verification/LedgerDB.v ===== *)
(** * The Ledger's PostgreSQL repository

    services/ledger/internal/adapters/outbound/postgres/repository.go over the
    tables of services/ledger/migrations/*.up.sql, with the statements of
    application/ports.go.  A table is the list of its rows in insertion order;
    each SQL statement is the function its text describes, with the check,
    unique and foreign-key constraints of the schema in PostgreSQL's order.
    A statement may also fail for a reason outside the schema (a lost
    connection, a cancelled context): the state carries the outcome of every
    statement to come.  The uuid columns compare and print in lower case, date
    columns hold day numbers, timestamptz columns whole microseconds. *)

From S2P Require Import Prelude.
From S2P Require Import GoStrings.
From S2P Require Import GoTime.
From S2P Require Import Json.
From S2P Require Import LedgerDomain.
From Stdlib Require String.
From Stdlib Require Import ZArith Lia Ascii.
Open Scope string_scope.
Open Scope Z_scope.

(** ** application/errors.go *)
Definition ErrInvalidArgument : error := ESentinel "application.ErrInvalidArgument".
Definition ErrIdempotencyConflict : error := ESentinel "application.ErrIdempotencyConflict".
Definition ErrEntryNotFound : error := ESentinel "application.ErrEntryNotFound".
Definition ErrAlreadyReversed : error := ESentinel "application.ErrAlreadyReversed".
Definition ErrInvalidCursor : error := ESentinel "application.ErrInvalidCursor".
Definition ErrCursorScopeMismatch : error := ESentinel "application.ErrCursorScopeMismatch".

(** ** application/ports.go *)
Definition OperationCreate : string := "create_entry".
Definition OperationReverse : string := "reverse_entry".

Record IdempotencyAttempt : Type := {
  AttemptID : string; at_MerchantID : string; Operation : string;
  KeyHash : string; at_RequestHash : string }.

(** The payload is the stored jsonb, absent while the attempt is open. *)
Record IdempotencyRecord : Type := { RequestHash : string; ResponsePayload : option json }.

Record OutboxEvent : Type := {
  EventID : string; EntryID : string; ev_MerchantID : string; ev_Position : Z;
  EventType : string; OccurredAt : Z; Payload : json }.

Record EntrySortKey : Type := {
  k_BusinessDate : Calendar.business_date; k_ConfirmedAt : Z; k_ID : string }.
(** [HighWater] is the ordering point's position. *)
Record ListScope : Type := { HighWater : option Z; After : option EntrySortKey }.
Record ListFilter : Type := { From : option Calendar.business_date; To : option Calendar.business_date }.
Record StoredEntry : Type := { Stored : Entry.entry; ReversalEntryID : option string }.
Record StoredPage : Type := {
  sp_Entries : list StoredEntry; sp_HighWater : option Z; HasMore : bool }.

(** ** The tables *)
Record entry_row : Type := {
  e_id : string; e_merchant : string; e_position : Z; e_type : string; e_amount : Z;
  e_currency : string; e_date : Z; e_description : option string; e_confirmed : Z;
  e_original : option string }.

Record idem_row : Type := {
  i_attempt : string; i_merchant : string; i_operation : string; i_key : string;
  i_request : string; i_entry : option string; i_response : option json;
  i_completed : option Z }.

Record outbox_row : Type := {
  o_event : string; o_aggregate : string; o_merchant : string; o_position : Z;
  o_type : string; o_payload : json; o_occurred : Z; o_created : Z; o_available : Z;
  o_published : option Z; o_attempts : Z; o_last_error : option string;
  o_lease : option (string * Z) }.

Record ledger_db : Type := {
  positions : gmap string Z;
  entries : list entry_row;
  idempotency : list idem_row;
  outbox : list outbox_row }.

Definition empty_db : ledger_db :=
  {| positions := ∅; entries := []; idempotency := []; outbox := [] |}.

(** The canonical form of a uuid, as [id::text] prints it. *)
Definition pg_uuid (s : string) : string := ascii_lower s.
#[global] Arguments pg_uuid : simpl never.

(** Text columns hold valid UTF-8 without NUL. *)
Fixpoint utf8_fuel (fuel : nat) (s : string) : bool :=
  match fuel, s with
  | _, "" => true
  | S k, String c _ =>
      let w := rune_width s in
      if Nat.eqb w 1 && (128 <=? code c) then false else utf8_fuel k (drop_chars w s)
  | O, _ => false
  end.
Definition pg_text (s : string) : bool :=
  utf8_fuel (String.length s) s && forall_chars (fun c => negb (is_byte 0 c)) s.

(** A transaction: the database it sees, the outcomes of its statements (an
    exhausted list is a healthy database) and PostgreSQL's clock. *)
Record txs : Type := { t_db : ledger_db; t_faults : list (option error); t_clock : Z }.

Definition with_db (s : txs) (db : ledger_db) (faults : list (option error)) : txs :=
  {| t_db := db; t_faults := faults; t_clock := t_clock s |}.

Definition stmt {A} (f : ledger_db -> Z -> result A * ledger_db) : St txs A := fun s =>
  match t_faults s with
  | Some e :: fs => (Err e, with_db s (t_db s) fs)
  | None :: fs => let '(r, db) := f (t_db s) (t_clock s) in (r, with_db s db fs)
  | [] => let '(r, db) := f (t_db s) (t_clock s) in (r, with_db s db [])
  end.

(** A query leaves the tables alone. *)
Definition query {A} (f : ledger_db -> result A) : St txs A := stmt (fun db _ => (f db, db)).

Definition unique_violation (constraint : string) : error := EPg "23505" constraint.
Definition fk_violation (constraint : string) : error := EPg "23503" constraint.
Definition check_violation (constraint : string) : error := EPg "23514" constraint.
Definition ErrNoRows : error := ESentinel "pgx.ErrNoRows".

Definition opt_eqb (a b : option string) : bool :=
  match a, b with
  | Some x, Some y => String.eqb x y
  | None, None => true
  | _, _ => false
  end.

(** ** ClaimIdempotency *)
Definition same_scope (m op key : string) (r : idem_row) : bool :=
  String.eqb (i_merchant r) m && String.eqb (i_operation r) op && String.eqb (i_key r) key.

(** INSERT ... ON CONFLICT (merchant_id, operation, key_hash) DO NOTHING: the
    number of rows inserted. *)
Definition insert_idempotency (a : IdempotencyAttempt) (db : ledger_db) (_ : Z)
    : result Z * ledger_db :=
  let m := pg_uuid (at_MerchantID a) in
  let row := {| i_attempt := pg_uuid (AttemptID a); i_merchant := m; i_operation := Operation a;
                i_key := KeyHash a; i_request := at_RequestHash a; i_entry := None;
                i_response := None; i_completed := None |} in
  if negb (String.eqb (Operation a) OperationCreate || String.eqb (Operation a) OperationReverse)
  then (Err (check_violation "idempotency_record_operation_check"), db)
  else if existsb (same_scope m (Operation a) (KeyHash a)) (idempotency db) then (Ok 0, db)
  else if existsb (fun r => String.eqb (i_attempt r) (pg_uuid (AttemptID a))) (idempotency db)
  then (Err (unique_violation "idempotency_record_pkey"), db)
  else (Ok 1, {| positions := positions db; entries := entries db;
                 idempotency := idempotency db ++ [row]; outbox := outbox db |}).

Definition select_idempotency (m op key : string) (db : ledger_db) : result IdempotencyRecord :=
  match List.find (same_scope (pg_uuid m) op key) (idempotency db) with
  | Some r => Ok {| RequestHash := i_request r; ResponsePayload := i_response r |}
  | None => Err ErrNoRows
  end.

(** The record, and whether this attempt claimed the key. *)
Definition ClaimIdempotency (a : IdempotencyAttempt) : St txs (IdempotencyRecord * bool) :=
  rows ← wrap_st "claim idempotency" (stmt (insert_idempotency a));
  if rows =? 1 then mret ({| RequestHash := ""; ResponsePayload := None |}, true)
  else
    record ← wrap_st "read idempotency"
      (query (select_idempotency (at_MerchantID a) (Operation a) (KeyHash a)));
    mret (record, false).

(** ** CompleteIdempotency *)
(** WHERE attempt_id = $1 AND completed_at IS NULL *)
Definition attempt_open (attempt : string) (r : idem_row) : bool :=
  String.eqb (i_attempt r) (pg_uuid attempt) &&
  match i_completed r with None => true | Some _ => false end.

Definition update_idempotency (attempt entry : string) (response : json) (at_ : Z)
    (db : ledger_db) (_ : Z) : result Z * ledger_db :=
  let hit := attempt_open attempt in
  let complete r := if hit r then
      {| i_attempt := i_attempt r; i_merchant := i_merchant r; i_operation := i_operation r;
         i_key := i_key r; i_request := i_request r; i_entry := Some (pg_uuid entry);
         i_response := Some response; i_completed := Some (truncate_us at_) |} else r in
  let bad r := hit r && negb (existsb (fun e => String.eqb (e_merchant e) (i_merchant r) &&
                                          String.eqb (e_id e) (pg_uuid entry)) (entries db)) in
  if existsb bad (idempotency db)
  then (Err (fk_violation "idempotency_record_entry_same_merchant_fk"), db)
  else (Ok (Z.of_nat (length (List.filter hit (idempotency db)))),
        {| positions := positions db; entries := entries db;
           idempotency := map complete (idempotency db); outbox := outbox db |}).

Definition CompleteIdempotency (attempt entry : string) (response : json) (completedAt : Z)
    : St txs unit :=
  rows ← wrap_st "complete idempotency" (stmt (update_idempotency attempt entry response completedAt));
  if negb (rows =? 1) then throw (EMsg "idempotency attempt was not completed") else mret tt.

(** ** NextPosition *)
Definition upsert_position (merchant : string) (db : ledger_db) (_ : Z) : result Z * ledger_db :=
  let m := pg_uuid merchant in
  let next := match positions db !! m with None => 1 | Some p => p + 1 end in
  if int64_max <? next then (Err (EPg "22003" ""), db)
  else (Ok next, {| positions := <[m := next]> (positions db); entries := entries db;
                    idempotency := idempotency db; outbox := outbox db |}).

Definition NextPosition (merchant : string) : St txs Z :=
  wrap_st "advance merchant position" (stmt (upsert_position merchant)).

(** ** InsertEntry *)
Definition row_of_entry (e : Entry.entry) : entry_row :=
  {| e_id := pg_uuid (Entry.id e); e_merchant := pg_uuid (Entry.merchantID e);
     e_position := Entry.position e; e_type := Entry.entryType e;
     e_amount := Money.AmountMinor (Entry.money e); e_currency := Money.Currency (Entry.money e);
     e_date := date_of_time (Calendar.value (Entry.businessDate e));
     e_description := if String.eqb (Entry.description e) "" then None else Some (Entry.description e);
     e_confirmed := truncate_us (Entry.confirmedAt e);
     e_original := option_map pg_uuid (Entry.originalEntryID e) |}.

Definition entry_checks (r : entry_row) : option error :=
  if negb (pg_text (default "" (e_description r))) then Some (EPg "22021" "")
  else if negb (0 <? e_amount r) then Some (check_violation "ledger_entry_amount_minor_check")
  else if negb (String.eqb (e_currency r) "BRL") then Some (check_violation "ledger_entry_currency_check")
  else if 500 <? rune_count (default "" (e_description r))
  then Some (check_violation "ledger_entry_description_check")
  else if negb (String.eqb (e_type r) "credit" || String.eqb (e_type r) "debit")
  then Some (check_violation "ledger_entry_entry_type_check")
  else if opt_eqb (e_original r) (Some (e_id r))
  then Some (check_violation "ledger_entry_original_not_self")
  else if negb (0 <? e_position r) then Some (check_violation "ledger_entry_position_check")
  else None.

Definition entry_constraints (r : entry_row) (rows : list entry_row) : option error :=
  if existsb (fun x => String.eqb (e_id x) (e_id r)) rows
  then Some (unique_violation "ledger_entry_pkey")
  else if existsb (fun x => String.eqb (e_merchant x) (e_merchant r) && (e_position x =? e_position r)) rows
  then Some (unique_violation "ledger_entry_merchant_position_unique")
  else
    match e_original r with
    | None => None
    | Some o =>
        if existsb (fun x => opt_eqb (e_original x) (Some o)) rows
        then Some (unique_violation "ledger_entry_one_reversal_per_original")
        else if existsb (fun x => String.eqb (e_merchant x) (e_merchant r) && String.eqb (e_id x) o)
                        (rows ++ [r])
        then None
        else Some (fk_violation "ledger_entry_original_same_merchant_fk")
    end.

Definition insert_entry (r : entry_row) (db : ledger_db) (_ : Z) : result unit * ledger_db :=
  match entry_checks r with
  | Some e => (Err e, db)
  | None =>
      match entry_constraints r (entries db) with
      | Some e => (Err e, db)
      | None => (Ok tt, {| positions := positions db; entries := entries db ++ [r];
                           idempotency := idempotency db; outbox := outbox db |})
      end
  end.

Definition as_pg (e : error) : option (string * string) :=
  match e with EPg code name => Some (code, name) | _ => None end.

Definition InsertEntry (e : Entry.entry) : St txs unit := fun s =>
  match stmt (insert_entry (row_of_entry e)) s with
  | (Ok _, s') => (Ok tt, s')
  | (Err err, s') =>
      match errors_as as_pg err with
      | Some (code, name) =>
          if String.eqb code "23505" && String.eqb name "ledger_entry_one_reversal_per_original"
          then (Err ErrAlreadyReversed, s')
          else (Err (EWrap "insert ledger entry" err), s')
      | None => (Err (EWrap "insert ledger entry" err), s')
      end
  end.

(** ** Reading rows back *)
Definition restoreEntry (idText merchantText : string) (position : Z) (typeText : string)
    (amountMinor : Z) (currency : string) (businessDate : Z) (description : string)
    (confirmedAt : Z) (originalText : option string) : result Entry.entry :=
  id ← ID.ParseID idText;
  merchantID ← ID.ParseID merchantText;
  entryType ← Entry.ParseEntryType typeText;
  money ← Money.NewMoney amountMinor currency;
  date ← Calendar.ParseBusinessDate (format_date businessDate);
  originalID ← match originalText with
               | None => Ok None
               | Some t => parsed ← ID.ParseID t; Ok (Some parsed)
               end;
  Entry.NewEntry {| Entry.d_ID := id; Entry.d_MerchantID := merchantID; Entry.d_Position := position;
    Entry.d_Type := entryType; Entry.d_Money := money; Entry.d_BusinessDate := date;
    Entry.d_Description := description; Entry.d_ConfirmedAt := confirmedAt;
    Entry.d_OriginalEntryID := originalID |}.

Definition scanEntry (r : entry_row) : result Entry.entry :=
  restoreEntry (e_id r) (e_merchant r) (e_position r) (e_type r) (e_amount r) (e_currency r)
    (e_date r) (default "" (e_description r)) (e_confirmed r) (e_original r).

Definition scanStoredEntry (p : entry_row * option entry_row) : result StoredEntry :=
  let '(r, rev) := p in
  entry ← scanEntry r;
  match rev with
  | None => Ok {| Stored := entry; ReversalEntryID := None |}
  | Some v => reversalID ← ID.ParseID (e_id v);
              Ok {| Stored := entry; ReversalEntryID := Some reversalID |}
  end.

(** ** EntryForUpdate *)
Definition select_entry (merchant id : string) (db : ledger_db) : result Entry.entry :=
  match List.find (fun r => String.eqb (e_merchant r) (pg_uuid merchant) &&
                            String.eqb (e_id r) (pg_uuid id)) (entries db) with
  | None => Err ErrNoRows
  | Some r => scanEntry r
  end.

Definition exists_reversal (id : string) (db : ledger_db) : result bool :=
  Ok (existsb (fun r => opt_eqb (e_original r) (Some (pg_uuid id))) (entries db)).

(** [errors.Is(err, pgx.ErrNoRows)] maps to the application's error. *)
Definition no_rows_or {A} (ctx : string) (m : St txs A) : St txs A := fun s =>
  match m s with
  | (Ok a, s') => (Ok a, s')
  | (Err e, s') => (Err (if errors_is e "pgx.ErrNoRows" then ErrEntryNotFound else EWrap ctx e), s')
  end.

Definition EntryForUpdate (merchant id : string) : St txs Entry.entry :=
  entry ← no_rows_or "lock ledger entry" (query (select_entry merchant id));
  exists_ ← wrap_st "check existing reversal" (query (exists_reversal id));
  if (exists_ : bool) then throw ErrAlreadyReversed else mret entry.

(** ** InsertOutbox *)
Definition insert_outbox (ev : OutboxEvent) (db : ledger_db) (clock : Z) : result unit * ledger_db :=
  let row := {| o_event := pg_uuid (EventID ev); o_aggregate := pg_uuid (EntryID ev);
                o_merchant := pg_uuid (ev_MerchantID ev); o_position := ev_Position ev;
                o_type := EventType ev; o_payload := Payload ev;
                o_occurred := truncate_us (OccurredAt ev); o_created := truncate_us (OccurredAt ev);
                o_available := truncate_us clock; o_published := None; o_attempts := 0;
                o_last_error := None; o_lease := None |} in
  if negb (0 <? ev_Position ev) then (Err (check_violation "outbox_event_merchant_position_check"), db)
  else if existsb (fun x => String.eqb (o_event x) (o_event row)) (outbox db)
  then (Err (unique_violation "outbox_event_pkey"), db)
  else if existsb (fun x => String.eqb (o_aggregate x) (o_aggregate row) &&
                            String.eqb (o_type x) (o_type row)) (outbox db)
  then (Err (unique_violation "outbox_event_aggregate_type_unique"), db)
  else if negb (existsb (fun e => String.eqb (e_merchant e) (o_merchant row) &&
                 String.eqb (e_id e) (o_aggregate row) && (e_position e =? o_position row)) (entries db))
  then (Err (fk_violation "outbox_event_entry_correlation_fk"), db)
  else (Ok tt, {| positions := positions db; entries := entries db;
                  idempotency := idempotency db; outbox := outbox db ++ [row] |}).

Definition InsertOutbox (ev : OutboxEvent) : St txs unit :=
  wrap_st "insert outbox event" (stmt (insert_outbox ev)).

(** ** Execute *)

(** What COMMIT does: it succeeds, fails and leaves nothing, or takes effect
    while the client is told it failed. *)
Inductive commit_outcome : Type :=
  | CommitOk
  | CommitFailed (e : error)
  | CommitUnknown (e : error).

Record tx_env : Type := {
  begin_fault : option error; statements : list (option error);
  commit : commit_outcome; pg_clock : Z }.

Definition Execute {A} (env : tx_env) (callback : St txs A) (db : ledger_db)
    : result A * ledger_db :=
  match begin_fault env with
  | Some e => (Err (EWrap "begin ledger transaction" e), db)
  | None =>
      match callback {| t_db := db; t_faults := statements env; t_clock := pg_clock env |} with
      | (Err e, _) => (Err e, db)
      | (Ok a, s) =>
          match commit env with
          | CommitOk => (Ok a, t_db s)
          | CommitFailed e => (Err (EWrap "commit ledger transaction" e), db)
          | CommitUnknown e => (Err (EWrap "commit ledger transaction" e), t_db s)
          end
      end
  end.

(** ** Reads outside a command *)
Definition run_read {A} (env : tx_env) (m : St txs A) (db : ledger_db) : result A :=
  fst (m {| t_db := db; t_faults := statements env; t_clock := pg_clock env |}).

(** LEFT JOIN ledger_entry reversal ON reversal.original_entry_id = entry.id,
    limited to the reversals [visible]. *)
Definition left_join (visible : entry_row -> bool) (all : list entry_row) (r : entry_row)
    : list (entry_row * option entry_row) :=
  match List.filter (fun v => opt_eqb (e_original v) (Some (e_id r)) && visible v) all with
  | [] => [(r, None)]
  | vs => map (fun v => (r, Some v)) vs
  end.

Definition select_stored (merchant id : string) (db : ledger_db) : result StoredEntry :=
  let hits := List.filter (fun r => String.eqb (e_merchant r) (pg_uuid merchant) &&
                                    String.eqb (e_id r) (pg_uuid id)) (entries db) in
  match flat_map (left_join (fun _ => true) (entries db)) hits with
  | [] => Err ErrNoRows
  | p :: _ => scanStoredEntry p
  end.

Definition GetEntry (env : tx_env) (db : ledger_db) (merchant id : string) : result StoredEntry :=
  run_read env (no_rows_or "get ledger entry" (query (select_stored merchant id))) db.

Definition select_owner (id : string) (db : ledger_db) : result string :=
  match List.find (fun r => String.eqb (e_id r) (pg_uuid id)) (entries db) with
  | None => Err ErrNoRows
  | Some r => Ok (e_merchant r)
  end.

Definition OwnerOf (env : tx_env) (db : ledger_db) (id : string) : result string :=
  run_read env (no_rows_or "get ledger entry owner" (query (select_owner id))) db.

Definition last_position (merchant : string) (db : ledger_db) : Z :=
  default 0 (positions db !! pg_uuid merchant).

Definition SourcePosition (env : tx_env) (db : ledger_db) (merchant : string) : result Z :=
  run_read env (wrap_st "read merchant position" (query (fun db => Ok (last_position merchant db)))) db.

(** ** ListEntries *)
Fixpoint str_ltb (s t : string) : bool :=
  match s, t with
  | _, "" => false
  | "", String _ _ => true
  | String a s', String b t' => (code a <? code b) || ((code a =? code b) && str_ltb s' t')
  end.

(** Row comparison (business_date, confirmed_at, id) < (...). *)
Definition key_ltb (a b : Z * Z * string) : bool :=
  let '(d1, t1, i1) := a in
  let '(d2, t2, i2) := b in
  (d1 <? d2) || ((d1 =? d2) && ((t1 <? t2) || ((t1 =? t2) && str_ltb i1 i2))).

Definition row_key (r : entry_row) : Z * Z * string := (e_date r, e_confirmed r, e_id r).
Definition pair_key (p : entry_row * option entry_row) : Z * Z * string := row_key (fst p).

(** ORDER BY business_date DESC, confirmed_at DESC, id DESC *)
Fixpoint insert_desc (p : entry_row * option entry_row) (l : list (entry_row * option entry_row)) :=
  match l with
  | [] => [p]
  | q :: l' => if key_ltb (pair_key p) (pair_key q) then q :: insert_desc p l' else p :: l
  end.
Definition order_desc (l : list (entry_row * option entry_row)) := fold_right insert_desc [] l.

Definition in_filter (from to : option Z) (r : entry_row) : bool :=
  match from with None => true | Some d => d <=? e_date r end &&
  match to with None => true | Some d => e_date r <=? d end.

Definition after_key (after : option (Z * Z * string)) (r : entry_row) : bool :=
  match after with None => true | Some k => key_ltb (row_key r) k end.

Definition select_page (merchant : string) (from to : option Z) (highWater : Z)
    (after : option (Z * Z * string)) (db : ledger_db) : list (entry_row * option entry_row) :=
  order_desc
    (flat_map (left_join (fun v => e_position v <=? highWater) (entries db))
      (List.filter (fun r => String.eqb (e_merchant r) (pg_uuid merchant) && in_filter from to r &&
                             (e_position r <=? highWater) && after_key after r) (entries db))).

Fixpoint scan_all (l : list (entry_row * option entry_row)) : result (list StoredEntry) :=
  match l with
  | [] => Ok []
  | p :: l' => e ← wrap_err "scan ledger list" (scanStoredEntry p); es ← scan_all l'; Ok (e :: es)
  end.

Definition date_arg (d : option Calendar.business_date) : option Z :=
  option_map (fun d => date_of_time (Calendar.value d)) d.
Definition after_arg (k : option EntrySortKey) : option (Z * Z * string) :=
  option_map (fun k => (date_of_time (Calendar.value (k_BusinessDate k)),
                        truncate_us (k_ConfirmedAt k), pg_uuid (k_ID k))) k.

(** The rest of [ListEntries] once the high-water mark is known. *)
Definition list_page (merchant : string) (filter : ListFilter) (limit highWater : Z)
    (after : option EntrySortKey) : St txs StoredPage :=
  rows ← wrap_st "list ledger entries" (query (fun db => Ok (take (Z.to_nat (limit + 1))
           (select_page merchant (date_arg (From filter)) (date_arg (To filter)) highWater
              (after_arg after) db))));
  entries ← lift (scan_all rows);
  let hasMore := limit <? Z.of_nat (length entries) in
  _ ← wrap_st "commit ledger list" (query (fun _ => Ok tt));
  mret {| sp_Entries := if hasMore then take (Z.to_nat limit) entries else entries;
          sp_HighWater := Some highWater; HasMore := hasMore |}.

Definition list_entries (merchant : string) (filter : ListFilter) (limit : Z) (scope : ListScope)
    : St txs StoredPage :=
  match HighWater scope with
  | Some hw => list_page merchant filter limit hw (After scope)
  | None =>
      position ← wrap_st "read ledger high-water mark" (query (fun db => Ok (last_position merchant db)));
      if position =? 0 then
        _ ← wrap_st "commit empty ledger list" (query (fun _ => Ok tt));
        mret {| sp_Entries := []; sp_HighWater := None; HasMore := false |}
      else list_page merchant filter limit position (After scope)
  end.

Definition ListEntries (env : tx_env) (db : ledger_db) (merchant : string) (filter : ListFilter)
    (limit : Z) (scope : ListScope) : result StoredPage :=
  match begin_fault env with
  | Some e => Err (EWrap "begin ledger list" e)
  | None => run_read env (list_entries merchant filter limit scope) db
  end.

(** ** Ready: ping, then one query that is true when the schema is there and
    writable; [probe] is what that query returned. *)
Definition Ready (ping : result unit) (probe : result bool) : result unit :=
  _ ← wrap_err "ping ledger database" ping;
  ready ← wrap_err "probe ledger schema" probe;
  if (ready : bool) then Ok tt else Err (EMsg "ledger schema is absent or not writable").
