(* ===== verification/Cursor.v ===== *)
(** * Page cursors

    services/ledger/internal/application/cursor.go: a cursor is the JSON of
    its payload and an HMAC-SHA256 of that JSON, both in unpadded URL base64.
    [hmac secret message] is HMAC-SHA256, [json_text] and [json_parse] are
    json.Marshal and json.Unmarshal between texts and documents. *)

From S2P Require Import Prelude.
From S2P Require Import GoStrings.
From S2P Require Import Json.
From S2P Require Import LedgerDB.
From Stdlib Require String.
From Stdlib Require Import ZArith Lia Ascii.
Open Scope string_scope.
Open Scope Z_scope.

(** ** encoding/base64.RawURLEncoding *)
Definition b64_chr (d : Z) : ascii :=
  if d <? 26 then chr (65 + d) else if d <? 52 then chr (71 + d)
  else if d <? 62 then chr (d - 4) else if d =? 62 then chr 45 else chr 95.

Definition b64_val (c : ascii) : option Z :=
  let z := code c in
  if (65 <=? z) && (z <=? 90) then Some (z - 65)
  else if (97 <=? z) && (z <=? 122) then Some (z - 71)
  else if (48 <=? z) && (z <=? 57) then Some (z + 4)
  else if z =? 45 then Some 62 else if z =? 95 then Some 63 else None.

Fixpoint b64_encode (s : string) : string :=
  match s with
  | "" => ""
  | String a "" => String (b64_chr (code a / 4)) (String (b64_chr (code a mod 4 * 16)) "")
  | String a (String b "") =>
      String (b64_chr (code a / 4)) (String (b64_chr (code a mod 4 * 16 + code b / 16))
        (String (b64_chr (code b mod 16 * 4)) ""))
  | String a (String b (String c r)) =>
      String (b64_chr (code a / 4)) (String (b64_chr (code a mod 4 * 16 + code b / 16))
        (String (b64_chr (code b mod 16 * 4 + code c / 64)) (String (b64_chr (code c mod 64))
          (b64_encode r))))
  end.

(** The decoder skips line breaks and ignores the spare bits of the last digit. *)
Fixpoint no_breaks (s : string) : string :=
  match s with
  | "" => ""
  | String c s' => if is_byte 10 c || is_byte 13 c then no_breaks s' else String c (no_breaks s')
  end.

Fixpoint b64_digits (s : string) : option string :=
  match s with
  | "" => Some ""
  | String a r =>
      match b64_val a, r with
      | Some x, String b r2 =>
          match b64_val b, r2 with
          | Some y, "" => Some (String (chr (x * 4 + y / 16)) "")
          | Some y, String c r3 =>
              match b64_val c, r3 with
              | Some z, "" => Some (String (chr (x * 4 + y / 16)) (String (chr (y mod 16 * 16 + z / 4)) ""))
              | Some z, String d r4 =>
                  match b64_val d, b64_digits r4 with
                  | Some w, Some t =>
                      Some (String (chr (x * 4 + y / 16)) (String (chr (y mod 16 * 16 + z / 4))
                        (String (chr (z mod 4 * 64 + w)) t)))
                  | _, _ => None
                  end
              | None, _ => None
              end
          | None, _ => None
          end
      | _, _ => None
      end
  end.
Definition b64_decode (s : string) : option string := b64_digits (no_breaks s).

(** ** The payload *)
Record cursorPayload : Type := {
  Version : Z; MerchantID : string; p_From : string; p_To : string; p_Limit : Z;
  HighWaterPosition : Z; LastDate : string; LastTime : string; LastID : string }.

Definition marshal_payload (p : cursorPayload) : json :=
  JObj ([("v", JInt (Version p)); ("merchant_id", enc_string (MerchantID p))]
        ++ omitempty "from" (to_valid (p_From p)) ++ omitempty "to" (to_valid (p_To p))
        ++ [("limit", JInt (p_Limit p)); ("high_water_position", JInt (HighWaterPosition p));
            ("last_date", enc_string (LastDate p)); ("last_time", enc_string (LastTime p));
            ("last_id", enc_string (LastID p))])%list.

Definition unmarshal_payload (j : json) : result cursorPayload :=
  match j with
  | JObj f =>
      v ← dec_int64 (jfield "v" f); m ← dec_string (jfield "merchant_id" f);
      from ← dec_string (jfield "from" f); to ← dec_string (jfield "to" f);
      limit ← dec_int64 (jfield "limit" f); hw ← dec_int64 (jfield "high_water_position" f);
      date ← dec_string (jfield "last_date" f); t ← dec_string (jfield "last_time" f);
      id ← dec_string (jfield "last_id" f);
      Ok {| Version := v; MerchantID := m; p_From := from; p_To := to; p_Limit := limit;
            HighWaterPosition := hw; LastDate := date; LastTime := t; LastID := id |}
  | JNull => Ok {| Version := 0; MerchantID := ""; p_From := ""; p_To := ""; p_Limit := 0;
                   HighWaterPosition := 0; LastDate := ""; LastTime := ""; LastID := "" |}
  | _ => bad_json
  end.

Section Codec.
Context (hmac : string -> string -> string).
Context (json_text : json -> string) (json_parse : string -> result json).

(** The codec keeps a copy of the secret. *)
Definition NewCursorCodec (secret : string) : result string :=
  if slen secret <? 32 then Err ErrInvalidArgument else Ok secret.

Definition encode (secret : string) (payload : cursorPayload) : result string :=
  let encodedPayload := json_text (marshal_payload payload) in
  let signature := hmac secret encodedPayload in
  Ok (b64_encode encodedPayload +:+ String "." (b64_encode signature)).

Definition decode (secret : string) (token : string) : result cursorPayload :=
  match split "." token with
  | [p0; p1] =>
      match b64_decode p0, b64_decode p1 with
      | Some payloadBytes, Some signature =>
          if negb (String.eqb signature (hmac secret payloadBytes)) then Err ErrInvalidCursor
          else
            match (j ← json_parse payloadBytes; unmarshal_payload j) with
            | Ok payload => if negb (Version payload =? 1) then Err ErrInvalidCursor else Ok payload
            | Err _ => Err ErrInvalidCursor
            end
      | _, _ => Err ErrInvalidCursor
      end
  | _ => Err ErrInvalidCursor
  end.
End Codec.

(** ** Lemmas *)
Lemma b64_chr_spec d : 0 <= d < 64 ->
  b64_val (b64_chr d) = Some d /\ (is_byte 10 (b64_chr d) || is_byte 13 (b64_chr d)) = false /\
  Ascii.eqb (b64_chr d) "." = false.
Proof.
  intros H.
  pose proof (below_forall 64 (fun d => match b64_val (b64_chr d) with Some x => x =? d | None => false end &&
    (negb (is_byte 10 (b64_chr d) || is_byte 13 (b64_chr d)) && negb (Ascii.eqb (b64_chr d) "."))) eq_refl d H) as Hb.
  cbn beta in Hb. destruct (b64_val (b64_chr d)); [|done].
  apply andb_true_iff in Hb as [H1 H2]. apply andb_true_iff in H2 as [H2 H3].
  apply Z.eqb_eq in H1 as ->. apply negb_true_iff in H2, H3. done.
Qed.

(** Induction by groups of three characters. *)
Lemma string_ind3 (P : string -> Prop) :
  P "" -> (forall a, P (String a "")) -> (forall a b, P (String a (String b ""))) ->
  (forall a b c s, P s -> P (String a (String b (String c s)))) -> forall s, P s.
Proof.
  intros H0 H1 H2 H3. fix IH 1. intros [|a [|b [|c s]]]; [done|apply H1|apply H2|apply H3, IH].
Qed.

Ltac sextets :=
  repeat match goal with
  | |- context [b64_chr ?d] =>
      let H1 := fresh in let H2 := fresh in let H3 := fresh in
      destruct (b64_chr_spec d ltac:(dlia)) as (H1 & H2 & H3);
      generalize dependent (b64_chr d); intros
  end.

Lemma b64_no_breaks s : no_breaks (b64_encode s) = b64_encode s /\
  forall_chars (fun c => negb (Ascii.eqb c ".")) (b64_encode s) = true.
Proof.
  induction s as [|a|a b|a b c s [IH1 IH2]] using string_ind3; cbn [b64_encode]; [done|..];
    try pose proof (code_range a); try pose proof (code_range b); try pose proof (code_range c);
    sextets; cbn [no_breaks forall_chars];
    repeat match goal with
    | H : (_ || _) = false |- _ => rewrite H; clear H
    | H : Ascii.eqb _ "." = false |- _ => rewrite H; clear H
    end; cbn; rewrite ?IH1, ?IH2; done.
Qed.

Lemma b64_roundtrip s : b64_decode (b64_encode s) = Some s.
Proof.
  unfold b64_decode. rewrite (proj1 (b64_no_breaks s)).
  induction s as [|a|a b|a b c s IH] using string_ind3; [done|..];
    try pose proof (code_range a); try pose proof (code_range b); try pose proof (code_range c);
    cbn [b64_encode b64_digits];
    repeat match goal with |- context [b64_val (b64_chr ?d)] =>
      rewrite (proj1 (b64_chr_spec d ltac:(dlia))) end; rewrite ?IH; repeat f_equal.
  all: match goal with |- chr ?z = ?c => transitivity (chr (code c)); [f_equal; dlia | apply chr_code] end.
Qed.

(** A payload with valid text survives its JSON document. *)
Lemma payload_document p : in_int64 (Version p) = true -> in_int64 (p_Limit p) = true ->
  in_int64 (HighWaterPosition p) = true ->
  Forall (fun s => to_valid s = s) [MerchantID p; p_From p; p_To p; LastDate p; LastTime p; LastID p] ->
  unmarshal_payload (marshal_payload p) = Ok p.
Proof.
  intros Hv Hl Hh Ht. decompose_Forall_hyps.
  destruct p as [v m f t l h d lt i]; cbn [Version p_Limit HighWaterPosition MerchantID p_From p_To LastDate LastTime LastID] in *.
  unfold marshal_payload, enc_string, omitempty, unmarshal_payload.
  cbn [Version p_Limit HighWaterPosition MerchantID p_From p_To LastDate LastTime LastID].
  repeat match goal with H : to_valid ?x = ?x |- _ => rewrite H; clear H end.
  destruct (String.eqb_spec f ""), (String.eqb_spec t ""); subst; jfields; by rewrite Hv, Hl, Hh.
Qed.

(** A token of a payload whose document survives the JSON text decodes to it. *)
Lemma decode_encoded hmac json_text json_parse secret p :
  Version p = 1 -> in_int64 (p_Limit p) = true -> in_int64 (HighWaterPosition p) = true ->
  Forall (fun s => to_valid s = s) [MerchantID p; p_From p; p_To p; LastDate p; LastTime p; LastID p] ->
  json_parse (json_text (marshal_payload p)) = Ok (marshal_payload p) ->
  decode hmac json_parse secret (b64_encode (json_text (marshal_payload p)) +:+
    String "." (b64_encode (hmac secret (json_text (marshal_payload p))))) = Ok p.
Proof.
  intros Hv Hl Hh Ht Hj. unfold decode.
  rewrite split_app by apply b64_no_breaks. rewrite split_no_sep by apply b64_no_breaks.
  rewrite !b64_roundtrip, String.eqb_refl. cbn [negb]. rewrite Hj. cbn [mbind result_bind].
  rewrite payload_document by (rewrite ?Hv; done). by rewrite Hv.
Qed.

(** C8: a cursor the Ledger issues decodes to its payload, and a token is
    only ever accepted when its signature part is the HMAC of its payload
    part under the server's secret. *)
Theorem cursor_roundtrip hmac json_text json_parse secret p :
  Version p = 1 -> in_int64 (p_Limit p) = true -> in_int64 (HighWaterPosition p) = true ->
  Forall (fun s => to_valid s = s) [MerchantID p; p_From p; p_To p; LastDate p; LastTime p; LastID p] ->
  json_parse (json_text (marshal_payload p)) = Ok (marshal_payload p) ->
  (exists token, encode hmac json_text secret p = Ok token /\
                 decode hmac json_parse secret token = Ok p) /\
  (forall token q, decode hmac json_parse secret token = Ok q ->
     exists bytes p0 p1, split "." token = [p0; p1] /\ b64_decode p0 = Some bytes /\
       b64_decode p1 = Some (hmac secret bytes) /\ Version q = 1).
Proof.
  intros Hv Hl Hh Ht Hj. split.
  - eexists. split; [reflexivity|]. by apply decode_encoded.
  - intros token q H. unfold decode in H.
    destruct (split "." token) as [|p0 [|p1 [|]]] eqn:Es; try done.
    destruct (b64_decode p0) as [bytes|] eqn:E0; [|done].
    destruct (b64_decode p1) as [sig|] eqn:E1; [|done].
    do 3 (case_hyp H; [done|] || (case_hyp H; [|done])). injection H as <-. bool_to_prop. subst sig.
    by exists bytes, p0, p1.
Qed.

Definition sample_payload : cursorPayload :=
  {| Version := 1; MerchantID := "m"; p_From := ""; p_To := "2026-01-31"; p_Limit := 50;
     HighWaterPosition := 7; LastDate := "2026-01-30"; LastTime := "2026-01-30T12:00:00Z"; LastID := "e" |}.

Lemma cursor_roundtrip_witness :
  let hmac := fun k m => k +:+ m in
  let json_text := fun _ : json => "{}" in
  let json_parse := fun _ : string => Ok (marshal_payload sample_payload) in
  exists token, encode hmac json_text "secret" sample_payload = Ok token /\
    decode hmac json_parse "secret" token = Ok sample_payload.
Proof.
  intros hmac json_text json_parse.
  apply (proj1 (cursor_roundtrip hmac json_text json_parse "secret" sample_payload
    eq_refl eq_refl eq_refl ltac:(repeat (apply List.Forall_cons; [reflexivity|]); apply List.Forall_nil) eq_refl)).
Defined.
