(* ===== verification/LedgerService.v ===== *)
(** * The Ledger application service

    services/ledger/internal/application/service.go over the repository of
    LedgerDB.v and the cursors of Cursor.v.  One command is one run of
    [CreateEntry] or [ReverseEntry]; what it reads from outside (three clock
    readings, the entropy of three identifiers, the outcomes of its database
    statements) is its environment.  [sha256] is crypto/sha256, [json_text]
    and [json_parse] are json.Marshal and json.Unmarshal between texts and
    documents, [load_location] is time.LoadLocation. *)

From S2P Require Import Prelude.
From S2P Require Import GoStrings.
From S2P Require Import GoTime.
From S2P Require Import Json.
From S2P Require Import LedgerDomain.
From S2P Require Import TraceContext.
From S2P Require Import LedgerDB.
From S2P Require Import Cursor.
From Stdlib Require String.
From Stdlib Require Import ZArith Lia Ascii.
Open Scope string_scope.
Open Scope Z_scope.

Definition DefaultPageLimit : Z := 50.
Definition MaximumPageLimit : Z := 100.
Definition entryEventType : string := "ledger.entry.confirmed.v1".
Definition EntryStateConfirmed : string := "confirmed".
Definition EntryStateReversed : string := "reversed".

(** [systemClock.Now] over the machine's clock reading. *)
Definition systemClock (reading : Z) : Z := truncate_us reading.

Record CreateEntryInput : Type := {
  c_MerchantID : string; c_IdempotencyKey : string; c_Type : string; c_AmountMinor : Z;
  c_Currency : string; c_BusinessDate : option string; c_Description : string;
  c_TimeZone : string; c_Traceparent : string }.

Record ReverseEntryInput : Type := {
  r_MerchantID : string; r_OriginalEntryID : string; r_IdempotencyKey : string;
  r_TimeZone : string; r_Traceparent : string }.

Record EntryResult : Type := {
  x_ID : string; x_MerchantID : string; x_Position : Z; x_Type : string; x_AmountMinor : Z;
  x_Currency : string; x_BusinessDate : string; x_Description : string; x_ConfirmedAt : Z;
  x_OriginalEntryID : string; x_ReversalEntryID : string; x_State : string }.

Record ListEntriesInput : Type := {
  l_MerchantID : string; l_From : option string; l_To : option string; l_Limit : Z; l_Cursor : string }.
Record EntryPage : Type := { pg_Entries : list EntryResult; NextCursor : string }.

(** ** The stored response *)
Definition marshal_result (r : EntryResult) : result json :=
  t ← enc_time (x_ConfirmedAt r);
  Ok (JObj ([("entry_id", enc_string (x_ID r)); ("merchant_id", enc_string (x_MerchantID r));
             ("position", JInt (x_Position r)); ("entry_type", enc_string (x_Type r));
             ("amount_minor", JInt (x_AmountMinor r)); ("currency", enc_string (x_Currency r));
             ("business_date", enc_string (x_BusinessDate r))]
            ++ omitempty "description" (to_valid (x_Description r))
            ++ [("confirmed_at", t)]
            ++ omitempty "original_entry_id" (to_valid (x_OriginalEntryID r))
            ++ omitempty "reversal_entry_id" (to_valid (x_ReversalEntryID r))
            ++ [("state", enc_string (x_State r))])%list).

Definition unmarshal_result (j : json) : result EntryResult :=
  match j with
  | JObj f =>
      id ← dec_string (jfield "entry_id" f); m ← dec_string (jfield "merchant_id" f);
      p ← dec_int64 (jfield "position" f); ty ← dec_string (jfield "entry_type" f);
      a ← dec_int64 (jfield "amount_minor" f); c ← dec_string (jfield "currency" f);
      d ← dec_string (jfield "business_date" f); desc ← dec_string (jfield "description" f);
      t ← dec_time (jfield "confirmed_at" f); o ← dec_string (jfield "original_entry_id" f);
      rv ← dec_string (jfield "reversal_entry_id" f); st ← dec_string (jfield "state" f);
      Ok {| x_ID := id; x_MerchantID := m; x_Position := p; x_Type := ty; x_AmountMinor := a;
            x_Currency := c; x_BusinessDate := d; x_Description := desc; x_ConfirmedAt := t;
            x_OriginalEntryID := o; x_ReversalEntryID := rv; x_State := st |}
  | JNull => Ok {| x_ID := ""; x_MerchantID := ""; x_Position := 0; x_Type := ""; x_AmountMinor := 0;
                   x_Currency := ""; x_BusinessDate := ""; x_Description := ""; x_ConfirmedAt := 0;
                   x_OriginalEntryID := ""; x_ReversalEntryID := ""; x_State := "" |}
  | _ => bad_json
  end.

(** ** Helpers *)
Definition parseMerchant (value : string) : result string :=
  match ID.ParseID value with Err _ => Err ErrInvalidMerchant | Ok id => Ok id end.

Definition optionalDate (value : option string) : result (option Calendar.business_date) :=
  match value with
  | None => Ok None
  | Some v => parsed ← Calendar.ParseBusinessDate v; Ok (Some parsed)
  end.

Definition parseFilter (fromText toText : option string) : result ListFilter :=
  from ← optionalDate fromText;
  to ← optionalDate toText;
  match from, to with
  | Some f, Some t => if Calendar.After f t then Err ErrInvalidArgument
                      else Ok {| From := from; To := to |}
  | _, _ => Ok {| From := from; To := to |}
  end.

Definition scopeFromCursor (payload : cursorPayload) : result ListScope :=
  if HighWaterPosition payload <=? 0 then Err ErrInvalidCursor
  else
    match Calendar.ParseBusinessDate (LastDate payload), parse_rfc3339 (LastTime payload),
          ID.ParseID (LastID payload) with
    | Ok lastDate, Ok lastTime, Ok lastID =>
        Ok {| HighWater := Some (HighWaterPosition payload);
              After := Some {| k_BusinessDate := lastDate; k_ConfirmedAt := lastTime; k_ID := lastID |} |}
    | _, _, _ => Err ErrInvalidCursor
    end.

Definition resultFromEntry (e : Entry.entry) : EntryResult :=
  {| x_ID := Entry.id e; x_MerchantID := Entry.merchantID e; x_Position := Entry.position e;
     x_Type := Entry.entryType e; x_AmountMinor := Money.AmountMinor (Entry.money e);
     x_Currency := Money.Currency (Entry.money e);
     x_BusinessDate := Calendar.date_string (Entry.businessDate e);
     x_Description := Entry.description e; x_ConfirmedAt := Entry.confirmedAt e;
     x_OriginalEntryID := default "" (Entry.originalEntryID e);
     x_ReversalEntryID := ""; x_State := EntryStateConfirmed |}.

Definition resultFromStored (s : StoredEntry) : EntryResult :=
  let r := resultFromEntry (Stored s) in
  match ReversalEntryID s with
  | None => r
  | Some v =>
      {| x_ID := x_ID r; x_MerchantID := x_MerchantID r; x_Position := x_Position r;
         x_Type := x_Type r; x_AmountMinor := x_AmountMinor r; x_Currency := x_Currency r;
         x_BusinessDate := x_BusinessDate r; x_Description := x_Description r;
         x_ConfirmedAt := x_ConfirmedAt r; x_OriginalEntryID := x_OriginalEntryID r;
         x_ReversalEntryID := v; x_State := EntryStateReversed |}
  end.

Definition optionalDateString (d : option Calendar.business_date) : string :=
  match d with None => "" | Some d => Calendar.date_string d end.

(** ** What a command reads from outside *)
Record cmd_env : Type := {
  now_attempt : Z; now_create : Z; now_complete : Z;
  rnd_attempt : result (list Z); rnd_entry : result (list Z); rnd_event : result (list Z);
  db_env : tx_env }.

Definition uuidGenerator (now : Z) (entropy : result (list Z)) : result string :=
  ID.NewUUIDv7 now entropy.

Section Service.
Context (sha256 : string -> string) (json_text : json -> string).
Context (load_location : string -> option Calendar.location).

Definition hashJSON (document : json) : string := sha256 (json_text document).

Definition create_content (input : CreateEntryInput) : json :=
  JObj [("type", enc_string (c_Type input)); ("amount_minor", JInt (c_AmountMinor input));
        ("currency", enc_string (c_Currency input));
        ("business_date", match c_BusinessDate input with None => JNull | Some d => enc_string d end);
        ("description", enc_string (c_Description input))].

Definition reverse_content (input : ReverseEntryInput) : json :=
  JObj [("original_entry_id", enc_string (r_OriginalEntryID input))].

(** ** insertOutbox *)
Definition event_payload (eventID : string) (entry : Entry.entry) (now : Z) (traceparent : string)
    : result json :=
  occurred ← enc_time now;
  confirmed ← enc_time (Entry.confirmedAt entry);
  Ok (JObj [("event_id", enc_string eventID); ("event_type", enc_string entryEventType);
            ("occurred_at", occurred); ("merchant_id", enc_string (Entry.merchantID entry));
            ("merchant_position", JInt (Entry.position entry));
            ("entry_id", enc_string (Entry.id entry)); ("entry_type", enc_string (Entry.entryType entry));
            ("amount_minor", JInt (Money.AmountMinor (Entry.money entry)));
            ("currency", enc_string (Money.Currency (Entry.money entry)));
            ("business_date", enc_string (Calendar.date_string (Entry.businessDate entry)));
            ("confirmed_at", confirmed);
            ("original_entry_id", enc_string_ptr (Entry.originalEntryID entry));
            ("traceparent", enc_string traceparent)]).

Definition insertOutbox (env : cmd_env) (entry : Entry.entry) (now : Z) (traceparent : string)
    : St txs unit :=
  eventID ← lift (uuidGenerator now (rnd_event env));
  payload ← lift (event_payload eventID entry now traceparent);
  InsertOutbox {| EventID := eventID; EntryID := Entry.id entry; ev_MerchantID := Entry.merchantID entry;
                  ev_Position := Entry.position entry; EventType := entryEventType;
                  OccurredAt := now; Payload := payload |}.

(** ** The callbacks of CreateEntry and ReverseEntry *)
Definition create_entry (env : cmd_env) (input : CreateEntryInput) (merchantID : string)
    : St txs EntryResult :=
  entryType ← lift (Entry.ParseEntryType (c_Type input));
  money ← lift (Money.NewMoney (c_AmountMinor input) (c_Currency input));
  requestedDate ← lift (optionalDate (c_BusinessDate input));
  calendar ← lift (Calendar.NewCalendar load_location (c_TimeZone input));
  let now := systemClock (now_create env) in
  businessDate ← lift (Calendar.Resolve calendar now requestedDate);
  position ← NextPosition merchantID;
  entryID ← lift (uuidGenerator now (rnd_entry env));
  entry ← lift (Entry.NewEntry {| Entry.d_ID := entryID; Entry.d_MerchantID := merchantID;
    Entry.d_Position := position; Entry.d_Type := entryType; Entry.d_Money := money;
    Entry.d_BusinessDate := businessDate; Entry.d_Description := c_Description input;
    Entry.d_ConfirmedAt := now; Entry.d_OriginalEntryID := None |});
  _ ← InsertEntry entry;
  _ ← insertOutbox env entry now (c_Traceparent input);
  mret (resultFromEntry entry).

Definition reverse_entry (env : cmd_env) (input : ReverseEntryInput) (merchantID originalID : string)
    : St txs EntryResult :=
  calendar ← lift (Calendar.NewCalendar load_location (r_TimeZone input));
  let now := systemClock (now_create env) in
  businessDate ← lift (Calendar.Resolve calendar now None);
  original ← EntryForUpdate merchantID originalID;
  _ ← lift (match Entry.originalEntryID original with
            | Some _ => Err ErrReversalNotAllowed | None => Ok tt end);
  position ← NextPosition merchantID;
  reversalID ← lift (uuidGenerator now (rnd_entry env));
  reversal ← lift (Entry.NewReversal reversalID position original businessDate now);
  _ ← InsertEntry reversal;
  _ ← insertOutbox env reversal now (r_Traceparent input);
  mret (resultFromEntry reversal).

(** ** executeIdempotent *)
Definition claimed_body (env : cmd_env) (attemptID : string) (create : St txs EntryResult)
    : St txs EntryResult :=
  result ← create;
  response ← lift (marshal_result result);
  entryID ← lift (ID.ParseID (x_ID result));
  _ ← CompleteIdempotency attemptID entryID response (systemClock (now_complete env));
  mret result.

Definition replay (record : IdempotencyRecord) (requestHash : string) : result EntryResult :=
  if negb (String.eqb (RequestHash record) requestHash) then Err ErrIdempotencyConflict
  else
    match ResponsePayload record with
    | None => Err (EMsg "idempotency record has no completed response")
    | Some payload =>
        match unmarshal_result payload with
        | Err _ => Err (EMsg "idempotency record has no completed response")
        | Ok r => Ok r
        end
    end.

Definition idempotent_body (env : cmd_env) (attempt : IdempotencyAttempt) (create : St txs EntryResult)
    : St txs EntryResult :=
  claim ← ClaimIdempotency attempt;
  let '(record, claimed) := (claim : IdempotencyRecord * bool) in
  if claimed then claimed_body env (AttemptID attempt) create
  else lift (replay record (at_RequestHash attempt)).

Definition executeIdempotent (env : cmd_env) (merchantID operation key requestHash : string)
    (create : St txs EntryResult) (db : ledger_db) : result EntryResult * ledger_db :=
  let now := systemClock (now_attempt env) in
  match uuidGenerator now (rnd_attempt env) with
  | Err e => (Err e, db)
  | Ok attemptID =>
      Execute (db_env env)
        (idempotent_body env {| AttemptID := attemptID; at_MerchantID := merchantID;
                                Operation := operation; KeyHash := sha256 key;
                                at_RequestHash := requestHash |} create) db
  end.

(** ** The commands *)
Definition create_guards (input : CreateEntryInput) : result string :=
  merchantID ← parseMerchant (c_MerchantID input);
  _ ← (if String.eqb (c_IdempotencyKey input) "" then Err (EWrap "idempotency key" ErrInvalidArgument)
       else Ok tt);
  _ ← wrap_err "traceparent" (Ledger.ValidateTraceparent (c_Traceparent input));
  Ok merchantID.

Definition CreateEntry (env : cmd_env) (input : CreateEntryInput) (db : ledger_db)
    : result EntryResult * ledger_db :=
  match create_guards input with
  | Err e => (Err e, db)
  | Ok merchantID =>
      executeIdempotent env merchantID OperationCreate (c_IdempotencyKey input)
        (hashJSON (create_content input)) (create_entry env input merchantID) db
  end.

Definition reverse_guards (input : ReverseEntryInput) : result (string * string) :=
  merchantID ← parseMerchant (r_MerchantID input);
  originalID ← ID.ParseID (r_OriginalEntryID input);
  _ ← (if String.eqb (r_IdempotencyKey input) "" then Err (EWrap "idempotency key" ErrInvalidArgument)
       else Ok tt);
  _ ← wrap_err "traceparent" (Ledger.ValidateTraceparent (r_Traceparent input));
  Ok (merchantID, originalID).

Definition ReverseEntry (env : cmd_env) (input : ReverseEntryInput) (db : ledger_db)
    : result EntryResult * ledger_db :=
  match reverse_guards input with
  | Err e => (Err e, db)
  | Ok (merchantID, originalID) =>
      executeIdempotent env merchantID OperationReverse (r_IdempotencyKey input)
        (hashJSON (reverse_content input)) (reverse_entry env input merchantID originalID) db
  end.

(** ** Queries *)
Definition GetEntry (env : tx_env) (db : ledger_db) (merchantIDText entryIDText : string)
    : result EntryResult :=
  merchantID ← parseMerchant merchantIDText;
  entryID ← ID.ParseID entryIDText;
  entry ← LedgerDB.GetEntry env db merchantID entryID;
  Ok (resultFromStored entry).

Definition OwnerOf (env : tx_env) (db : ledger_db) (entryIDText : string) : result string :=
  entryID ← ID.ParseID entryIDText;
  LedgerDB.OwnerOf env db entryID.

Definition SourcePosition (env : tx_env) (db : ledger_db) (merchantIDText : string) : result Z :=
  merchantID ← parseMerchant merchantIDText;
  LedgerDB.SourcePosition env db merchantID.

Section List.
Context (hmac : string -> string -> string) (json_parse : string -> result json) (secret : string).

Definition cursor_scope (input : ListEntriesInput) (merchantID : string) (filter : ListFilter)
    (limit : Z) : result ListScope :=
  if String.eqb (l_Cursor input) "" then Ok {| HighWater := None; After := None |}
  else
    payload ← decode hmac json_parse secret (l_Cursor input);
    if negb (String.eqb (MerchantID payload) merchantID) || negb (p_Limit payload =? limit)
       || negb (String.eqb (p_From payload) (optionalDateString (From filter)))
       || negb (String.eqb (p_To payload) (optionalDateString (To filter)))
    then Err ErrCursorScopeMismatch
    else scopeFromCursor payload.

Definition page_payload (merchantID : string) (filter : ListFilter) (limit highWater : Z)
    (last : Entry.entry) : cursorPayload :=
  {| Version := 1; MerchantID := merchantID; p_From := optionalDateString (From filter);
     p_To := optionalDateString (To filter); p_Limit := limit; HighWaterPosition := highWater;
     LastDate := Calendar.date_string (Entry.businessDate last);
     LastTime := format_rfc3339 (Entry.confirmedAt last); LastID := Entry.id last |}.

Definition ListEntries (env : tx_env) (db : ledger_db) (input : ListEntriesInput) : result EntryPage :=
  merchantID ← parseMerchant (l_MerchantID input);
  filter ← parseFilter (l_From input) (l_To input);
  let limit := if l_Limit input =? 0 then DefaultPageLimit else l_Limit input in
  _ ← (if (limit <? 1) || (MaximumPageLimit <? limit) then Err ErrInvalidArgument else Ok tt);
  scope ← cursor_scope input merchantID filter limit;
  stored ← LedgerDB.ListEntries env db merchantID filter limit scope;
  let page := map resultFromStored (sp_Entries stored) in
  match HasMore stored, list.last (sp_Entries stored), sp_HighWater stored with
  | true, Some e, Some hw =>
      next ← encode hmac json_text secret (page_payload merchantID filter limit hw (Stored e));
      Ok {| pg_Entries := page; NextCursor := next |}
  | _, _, _ => Ok {| pg_Entries := page; NextCursor := "" |}
  end.
End List.
End Service.
