(* ===== verification/LedgerCommands.v ===== *)
(** * What the Ledger's commands do to the database

    The effect of [CreateEntry] and [ReverseEntry] for every environment:
    nothing at all, or exactly one entry with its position, its outbox event
    and its completed idempotency record.  From it: atomicity, idempotent
    replay, the refusals of a reversal, and the invariant of every database
    the commands can reach. *)

From S2P Require Import Prelude.
From S2P Require Import GoStrings.
From S2P Require Import GoTime.
From S2P Require Import Json.
From S2P Require Import LedgerDomain.
From S2P Require Import TraceContext.
From S2P Require Import LedgerDB.
From S2P Require Import LedgerService.
From Stdlib Require String.
From Stdlib Require Import ZArith Lia Ascii.
Open Scope string_scope.
Open Scope Z_scope.

(** One command's contribution: the entry, its event and its idempotency record. *)
Definition extend (db : ledger_db) (e : Entry.entry) (o : outbox_row) (i : idem_row) : ledger_db :=
  {| positions := <[pg_uuid (Entry.merchantID e) := Entry.position e]> (positions db);
     entries := entries db ++ [row_of_entry e];
     idempotency := idempotency db ++ [i];
     outbox := outbox db ++ [o] |}.

(** An identifier [NewUUIDv7] made. *)
Definition minted (id : string) : Prop := exists now entropy, uuidGenerator now entropy = Ok id.

(** The event of an entry, whatever its delivery state. *)
Record describes (e : Entry.entry) (o : outbox_row) : Prop := {
  eo_aggregate : o_aggregate o = pg_uuid (Entry.id e);
  eo_merchant_id : is_id (Entry.merchantID e);
  eo_merchant : o_merchant o = pg_uuid (Entry.merchantID e);
  eo_position : o_position o = Entry.position e;
  eo_type : o_type o = entryEventType;
  eo_entry : minted (Entry.id e) /\ truncate_us (Entry.confirmedAt e) = Entry.confirmedAt e;
  eo_amount : in_int64 (Entry.position e) = true;
  eo_occurred : o_occurred o = Entry.confirmedAt e;
  eo_wf : wf_entry e;
  eo_original : forall id, Entry.originalEntryID e = Some id -> is_id id;
  eo_payload : exists eventID traceparent, minted eventID /\ o_event o = pg_uuid eventID /\
    Ledger.ValidateTraceparent traceparent = Ok tt /\
    event_payload eventID e (Entry.confirmedAt e) traceparent = Ok (o_payload o) }.

Definition event_of (e : Entry.entry) (o : outbox_row) : Prop :=
  describes e o /\ o_published o = None /\ o_attempts o = 0 /\ o_lease o = None.

Record record_of (merchant operation key request : string) (e : Entry.entry) (i : idem_row) : Prop := {
  ro_scope : same_scope (pg_uuid merchant) operation key i = true;
  ro_merchant : i_merchant i = pg_uuid (Entry.merchantID e);
  ro_request : i_request i = request;
  ro_entry : i_entry i = Some (pg_uuid (Entry.id e));
  ro_completed : is_Some (i_completed i);
  ro_response : exists j, i_response i = Some j /\ marshal_result (resultFromEntry e) = Ok j }.

(** The constraints the new rows met. *)
Record admitted (db : ledger_db) (e : Entry.entry) (o : outbox_row) (i : idem_row) : Prop := {
  ad_position : Entry.position e = last_position (Entry.merchantID e) db + 1;
  ad_bound : Entry.position e <= int64_max;
  ad_checks : entry_checks (row_of_entry e) = None;
  ad_constraints : entry_constraints (row_of_entry e) (entries db) = None;
  ad_event : existsb (fun x => String.eqb (o_event x) (o_event o)) (outbox db) = false;
  ad_scope : existsb (same_scope (i_merchant i) (i_operation i) (i_key i)) (idempotency db) = false;
  ad_attempt : existsb (fun r => String.eqb (i_attempt r) (i_attempt i)) (idempotency db) = false }.

(** ** Statements *)
Lemma stmt_ok {A} (f : ledger_db -> Z -> result A * ledger_db) s a s' :
  stmt f s = (Ok a, s') -> f (t_db s) (t_clock s) = (Ok a, t_db s') /\ t_clock s' = t_clock s.
Proof.
  unfold stmt. destruct (t_faults s) as [|[e|] fs]; [|done|];
    destruct (f (t_db s) (t_clock s)) as [r db]; intros [= -> <-]; by split.
Qed.

Lemma query_ok {A} (f : ledger_db -> result A) s a s' :
  query f s = (Ok a, s') -> f (t_db s) = Ok a /\ t_db s' = t_db s /\ t_clock s' = t_clock s.
Proof. intros [[= H1 H2] H3]%stmt_ok. by repeat split. Qed.

Lemma NextPosition_ok m s p s' : NextPosition m s = (Ok p, s') ->
  p = last_position m (t_db s) + 1 /\ p <= int64_max /\
  t_db s' = {| positions := <[pg_uuid m := p]> (positions (t_db s)); entries := entries (t_db s);
               idempotency := idempotency (t_db s); outbox := outbox (t_db s) |}.
Proof.
  unfold NextPosition. intros [H _]%wrap_ok%stmt_ok. unfold upsert_position in H.
  assert (match positions (t_db s) !! pg_uuid m with None => 1 | Some q => q + 1 end
          = last_position m (t_db s) + 1) as E
    by (unfold last_position; by destruct (positions (t_db s) !! pg_uuid m)).
  rewrite E in H. destruct (Z.ltb_spec int64_max (last_position m (t_db s) + 1)); [done|].
  injection H as <- H. done.
Qed.

Lemma InsertEntry_ok e s s' : InsertEntry e s = (Ok tt, s') ->
  entry_checks (row_of_entry e) = None /\
  entry_constraints (row_of_entry e) (entries (t_db s)) = None /\
  t_db s' = {| positions := positions (t_db s); entries := entries (t_db s) ++ [row_of_entry e];
               idempotency := idempotency (t_db s); outbox := outbox (t_db s) |}.
Proof.
  unfold InsertEntry. destruct (stmt _ s) as [[[]|err] t] eqn:E; intros H.
  - injection H as <-. apply stmt_ok in E as [E _]. unfold insert_entry in E.
    destruct (entry_checks _); [done|]. destruct (entry_constraints _ _); [done|].
    injection E as <-. done.
  - repeat (case_hyp H; try done).
Qed.

Lemma EntryForUpdate_ok m id s e s' : EntryForUpdate m id s = (Ok e, s') ->
  select_entry m id (t_db s) = Ok e /\ exists_reversal id (t_db s) = Ok false /\ t_db s' = t_db s.
Proof.
  unfold EntryForUpdate. intros H. run_inv H.
  unfold no_rows_or in R. destruct (query _ s) as [[y|] t1] eqn:E; [|done]. injection R as -> ->.
  apply query_ok in E as (? & E & _). apply query_ok in R0 as (R0 & E0 & _).
  destruct x0; [done|]. run_inv H. rewrite E in *. by repeat split.
Qed.

(** What the commands know of the entry whose event they write at [now]. *)
Record stamped (e : Entry.entry) (now : Z) (traceparent : string) : Prop := {
  sd_minted : minted (Entry.id e); sd_merchant : is_id (Entry.merchantID e);
  sd_original : forall id, Entry.originalEntryID e = Some id -> is_id id;
  sd_confirmed : Entry.confirmedAt e = now; sd_micros : truncate_us now = now;
  sd_trace : Ledger.ValidateTraceparent traceparent = Ok tt }.

Lemma insertOutbox_ok env e now tp s s' : stamped e now tp -> wf_entry e -> in_int64 (Entry.position e) = true ->
  insertOutbox env e now tp s = (Ok tt, s') ->
  exists o, event_of e o /\
    existsb (fun x => String.eqb (o_event x) (o_event o)) (outbox (t_db s)) = false /\
    t_db s' = {| positions := positions (t_db s); entries := entries (t_db s);
                 idempotency := idempotency (t_db s); outbox := outbox (t_db s) ++ [o] |}.
Proof.
  intros [Hid Hmid Horig <- Ht Htp] Hw Hp. unfold insertOutbox. intros H. run_inv H. unfold InsertOutbox in H.
  apply wrap_ok, stmt_ok in H as [H _]. unfold insert_outbox in H. cbn [o_event] in H.
  repeat (case_hyp H; [done|]). injection H as <-. eexists. split; [|split; [|reflexivity]]; [|done].
  split; [|done]. split; try done. exists x, tp. splits; try done. by do 2 eexists.
Qed.

(** ** The stored response reads back as the response *)
Lemma rune_width_le c s : (rune_width (String c s) <= String.length (String c s))%nat.
Proof.
  cbn [rune_width]. destruct s as [|b [|d [|f s]]]; repeat case_match; cbn; lia.
Qed.

Lemma substring_drop_all w s : (w <= String.length s)%nat -> String.substring 0 w s +:+ drop_chars w s = s.
Proof.
  revert w. induction s as [|c s IH]; intros [|w] H; cbn in *; try done; try lia. f_equal. apply IH. lia.
Qed.

Lemma utf8_to_valid n s : utf8_fuel n s = true -> (String.length s <= n)%nat -> to_valid_fuel n s = s.
Proof.
  revert s. induction n as [|n IH]; intros [|c s] H Hn; try done. cbn [utf8_fuel to_valid_fuel] in *.
  destruct (Nat.eqb (rune_width (String c s)) 1 && (128 <=? code c)); [done|].
  pose proof (rune_width_le c s).
  assert (rune_width (String c s) <> 0)%nat as Hz by (cbn [rune_width]; repeat case_match; lia).
  rewrite IH; [by apply substring_drop_all|done|]. rewrite drop_length. cbn in *. lia.
Qed.

Lemma pg_text_valid s : pg_text s = true -> to_valid s = s.
Proof. unfold pg_text. intros H. bool_to_prop. by apply utf8_to_valid. Qed.

Definition valid_result (r : EntryResult) : Prop :=
  in_int64 (x_Position r) = true /\ in_int64 (x_AmountMinor r) = true /\
  Forall (fun s => to_valid s = s)
    [x_ID r; x_MerchantID r; x_Type r; x_Currency r; x_BusinessDate r; x_Description r;
     x_OriginalEntryID r; x_ReversalEntryID r; x_State r].

Lemma result_document r j : valid_result r -> marshal_result r = Ok j -> unmarshal_result j = Ok r.
Proof.
  intros (Hp & Ha & Ht) H. decompose_Forall_hyps. destruct r as [i m p ty a c d desc t o rv st].
  cbn [x_ID x_MerchantID x_Position x_Type x_AmountMinor x_Currency x_BusinessDate x_Description
       x_ConfirmedAt x_OriginalEntryID x_ReversalEntryID x_State] in *.
  unfold marshal_result, enc_string, omitempty in H.
  cbn [x_ID x_MerchantID x_Position x_Type x_AmountMinor x_Currency x_BusinessDate x_Description
       x_ConfirmedAt x_OriginalEntryID x_ReversalEntryID x_State] in H.
  destruct (enc_time t) as [jt|] eqn:Et; [|done]. cbn [mbind result_bind] in H. injection H as <-.
  apply dec_enc_time in Et. repeat match goal with E : to_valid ?x = ?x |- _ => rewrite E; clear E end.
  unfold unmarshal_result.
  destruct (String.eqb_spec desc ""), (String.eqb_spec o ""), (String.eqb_spec rv ""); subst;
    jfields; rewrite Hp, Ha; cbn [mbind result_bind]; by rewrite Et.
Qed.

(** A completed callback: the entry and its event, nothing else. *)
Definition written (db db' : ledger_db) (e : Entry.entry) (o : outbox_row) : Prop :=
  wf_entry e /\ event_of e o /\
  Entry.position e = last_position (Entry.merchantID e) db + 1 /\ Entry.position e <= int64_max /\
  entry_checks (row_of_entry e) = None /\ entry_constraints (row_of_entry e) (entries db) = None /\
  existsb (fun x => String.eqb (o_event x) (o_event o)) (outbox db) = false /\
  db' = {| positions := <[pg_uuid (Entry.merchantID e) := Entry.position e]> (positions db);
           entries := entries db ++ [row_of_entry e];
           idempotency := idempotency db; outbox := outbox db ++ [o] |}.

Lemma write_ok env m e now tp p s1 s2 s3 s4 : stamped e now tp ->
  pg_uuid (Entry.merchantID e) = pg_uuid m -> Entry.position e = p -> wf_entry e ->
  NextPosition m s1 = (Ok p, s2) -> InsertEntry e s2 = (Ok tt, s3) ->
  insertOutbox env e now tp s3 = (Ok tt, s4) ->
  exists o, written (t_db s1) (t_db s4) e o.
Proof.
  intros Hst Hm Hp Hw (Hn & Hb & H1)%NextPosition_ok (Hc & Hk & H2)%InsertEntry_ok HO.
  assert (in_int64 (Entry.position e) = true) as Hrange.
  { apply in_int64_spec. pose proof (wf_position _ Hw). unfold int64_min. lia. }
  destruct (insertOutbox_ok _ _ _ _ _ _ Hst Hw Hrange HO) as (o & Ho & Hf & H3).
  exists o. unfold last_position in *. rewrite H2, H1 in *. cbn in *. rewrite <- Hm in *. subst p. splits; done.
Qed.

(** ** The callbacks *)
Definition created_from (input : CreateEntryInput) (m : string) (e : Entry.entry) : Prop :=
  Entry.merchantID e = m /\ is_id m /\ Entry.ParseEntryType (c_Type input) = Ok (Entry.entryType e) /\
  Money.NewMoney (c_AmountMinor input) (c_Currency input) = Ok (Entry.money e) /\
  Entry.description e = c_Description input /\ Entry.originalEntryID e = None.

Lemma create_entry_ok ll env input m s r s' : is_id m ->
  Ledger.ValidateTraceparent (c_Traceparent input) = Ok tt -> create_entry ll env input m s = (Ok r, s') ->
  exists e o, r = resultFromEntry e /\ written (t_db s) (t_db s') e o /\ created_from input m e.
Proof.
  unfold create_entry. intros Hid Htp H. run_inv H.
  match goal with HE : Entry.NewEntry _ = Ok ?e |- _ => apply NewEntry_ok_iff in HE as [-> HE] end.
  match goal with HE : wf_entry ?e, HN : NextPosition m _ = _, HI : InsertEntry _ _ = (Ok ?u, _),
    HO : insertOutbox _ _ ?now _ _ = (Ok ?v, _), HU : uuidGenerator _ _ = Ok ?id |- _ =>
    assert (stamped e now (c_Traceparent input)) as Hst
      by (split; [eexists _, _; exact HU|exact Hid|done|reflexivity|apply truncate_us_idem|exact Htp]);
    destruct u, v; destruct (write_ok env m e _ _ _ _ _ _ _ Hst eq_refl eq_refl HE HN HI HO) as [o Ho]
  end.
  do 2 eexists. split; [reflexivity|]. split; [exact Ho|]. splits; done.
Qed.

Definition reversal_from (original e : Entry.entry) : Prop :=
  Entry.merchantID e = Entry.merchantID original /\ is_id (Entry.merchantID original) /\
  is_id (Entry.id original) /\ Entry.originalEntryID original = None /\
  Entry.originalEntryID e = Some (Entry.id original) /\ Entry.money e = Entry.money original /\
  Entry.entryType e = Entry.Opposite (Entry.entryType original).

Lemma NewReversal_ok id p original d t e : is_id (Entry.merchantID original) -> is_id (Entry.id original) ->
  Entry.NewReversal id p original d t = Ok e ->
  wf_entry e /\ reversal_from original e /\ Entry.position e = p /\ Entry.id e = id /\ Entry.confirmedAt e = t.
Proof.
  unfold Entry.NewReversal. intros Hm Hi. destruct (Entry.originalEntryID original) eqn:E; [done|].
  intros [-> Hw]%NewEntry_ok_iff. splits; done.
Qed.

Lemma ParseID_ok v i : ID.ParseID v = Ok i -> i = v.
Proof. unfold ID.ParseID. intros H. repeat (case_hyp H; try done). by injection H. Qed.

Lemma pg_uuid_idem s : pg_uuid (pg_uuid s) = pg_uuid s.
Proof. unfold pg_uuid. induction s as [|c s IH]; cbn; [done|]. by rewrite lower_ascii_idem, IH. Qed.

Lemma find_some_in {A} (f : A -> bool) l x : List.find f l = Some x -> x ∈ l /\ f x = true.
Proof. intros [? ?]%List.find_some. by rewrite list_elem_of_In. Qed.

(** What a row read back says about the entry. *)
Lemma scanEntry_ok r e : scanEntry r = Ok e ->
  Entry.id e = e_id r /\ Entry.merchantID e = e_merchant r /\ Entry.position e = e_position r /\
  Entry.originalEntryID e = e_original r /\ Money.minor (Entry.money e) = e_amount r /\
  Entry.confirmedAt e = e_confirmed r /\ Entry.description e = default "" (e_description r) /\
  wf_entry e /\ is_id (e_id r) /\ is_id (e_merchant r) /\
  Entry.businessDate e = Calendar.Build_business_date (e_date r * day_ns) /\ printable_date (e_date r).
Proof.
  unfold scanEntry, restoreEntry. intros H.
  destruct (ID.ParseID (e_id r)) as [i|] eqn:E1; [|done].
  destruct (ID.ParseID (e_merchant r)) as [m|] eqn:E2; [|done].
  pose proof (ParseID_ok _ _ E1). pose proof (ParseID_ok _ _ E2). subst i m. cbn [mbind result_bind] in H.
  destruct (Entry.ParseEntryType (e_type r)); [|done]. cbn [mbind result_bind] in H.
  destruct (Money.NewMoney (e_amount r) (e_currency r)) as [mo|] eqn:E3; [|done]. cbn [mbind result_bind] in H.
  destruct (Calendar.ParseBusinessDate (format_date (e_date r))) as [bd|] eqn:E5; [|done].
  cbn [mbind result_bind] in H. unfold Calendar.ParseBusinessDate in E5.
  destruct (parse_date (format_date (e_date r))) as [k|] eqn:E6; [|done].
  apply parse_format_date_inv in E6 as [-> Hpd]. injection E5 as <-.
  assert (Money.minor mo = e_amount r) as Hmo.
  { unfold Money.NewMoney in E3. repeat (case_hyp E3; [done|]). by injection E3 as <-. }
  destruct (e_original r) as [o|] eqn:Eo.
  - destruct (ID.ParseID o) as [o'|] eqn:E4; [|done]. apply ParseID_ok in E4 as ->.
    cbn [mbind result_bind] in H. apply NewEntry_ok_iff in H as [-> Hw]. splits; done.
  - cbn [mbind result_bind] in H. apply NewEntry_ok_iff in H as [-> Hw]. splits; done.
Qed.

Lemma scanEntry_type r e : is_entry_type (e_type r) -> scanEntry r = Ok e -> Entry.entryType e = e_type r.
Proof.
  unfold scanEntry, restoreEntry. intros Ht H.
  destruct (ID.ParseID (e_id r)); [|done]. destruct (ID.ParseID (e_merchant r)); [|done].
  assert (Entry.ParseEntryType (e_type r) = Ok (e_type r)) as E by (destruct Ht as [-> | ->]; done).
  rewrite E in H. unfold mbind, result_bind in H. do 2 (case_hyp H; [|done]).
  case_hyp H; [|done]. by apply NewEntry_ok_iff in H as [-> _].
Qed.

Lemma select_entry_ok m id db e : select_entry m id db = Ok e ->
  exists row, row ∈ entries db /\ e_merchant row = pg_uuid m /\ e_id row = pg_uuid id /\ scanEntry row = Ok e.
Proof.
  unfold select_entry. destruct (List.find _ _) as [row|] eqn:E; [|done]. intros H.
  apply find_some_in in E as [? Hb]. bool_to_prop. by exists row.
Qed.

Lemma reverse_entry_ok ll env input m oid s r s' :
  Ledger.ValidateTraceparent (r_Traceparent input) = Ok tt -> reverse_entry ll env input m oid s = (Ok r, s') ->
  exists e o original, r = resultFromEntry e /\ written (t_db s) (t_db s') e o /\
    select_entry m oid (t_db s) = Ok original /\ reversal_from original e /\
    pg_uuid (Entry.merchantID e) = pg_uuid m.
Proof.
  unfold reverse_entry. intros Htp H. run_inv H.
  match goal with HF : EntryForUpdate _ _ _ = _ |- _ => apply EntryForUpdate_ok in HF as (Hs & _ & Hd) end.
  destruct (select_entry_ok _ _ _ _ Hs) as (row & _ & Hm & _ & Hscan).
  apply scanEntry_ok in Hscan as (Hi' & Hm' & _ & _ & _ & _ & _ & _ & Hri & Hrm & _).
  match goal with HE : Entry.NewReversal _ _ _ _ _ = Ok ?e |- _ =>
    apply NewReversal_ok in HE as (Hw & Hr & Hp & Hei & Hec); [|congruence..] end.
  match goal with HN : NextPosition m _ = _, HI : InsertEntry ?e _ = (Ok ?u, _),
    HO : insertOutbox _ _ ?now _ _ = (Ok ?v, _), HU : uuidGenerator _ _ = Ok ?id |- _ =>
    assert (stamped e now (r_Traceparent input)) as Hst;
      [destruct Hr as (Hr1 & Hr2 & Hr3 & _ & Hr5 & _);
       split; [rewrite Hei; eexists _, _; exact HU|by rewrite Hr1|rewrite Hr5; by intros ? [= <-]|exact Hec|apply truncate_us_idem|exact Htp]|];
    assert (pg_uuid (Entry.merchantID e) = pg_uuid m) as Hme
      by (rewrite (proj1 Hr), Hm', Hm; apply pg_uuid_idem);
    destruct u, v; destruct (write_ok env m e _ _ _ _ _ _ _ Hst Hme Hp Hw HN HI HO) as [o Ho]
  end.
  rewrite Hd in Ho. do 3 eexists. splits; done.
Qed.

(** ** Idempotent execution *)
Definition open_record (a : IdempotencyAttempt) : idem_row :=
  {| i_attempt := pg_uuid (AttemptID a); i_merchant := pg_uuid (at_MerchantID a);
     i_operation := Operation a; i_key := KeyHash a; i_request := at_RequestHash a;
     i_entry := None; i_response := None; i_completed := None |}.

Lemma ClaimIdempotency_ok a s r b s' : ClaimIdempotency a s = (Ok (r, b), s') ->
  if (b : bool) then
    existsb (same_scope (pg_uuid (at_MerchantID a)) (Operation a) (KeyHash a)) (idempotency (t_db s)) = false /\
    existsb (fun x => String.eqb (i_attempt x) (pg_uuid (AttemptID a))) (idempotency (t_db s)) = false /\
    t_db s' = {| positions := positions (t_db s); entries := entries (t_db s);
                 idempotency := idempotency (t_db s) ++ [open_record a]; outbox := outbox (t_db s) |}
  else t_db s' = t_db s /\
    select_idempotency (at_MerchantID a) (Operation a) (KeyHash a) (t_db s) = Ok r.
Proof.
  unfold ClaimIdempotency. intros H. run_inv H. apply stmt_ok in R as [R _].
  unfold insert_idempotency in R. destruct (Z.eqb_spec x 1) as [->|Hx].
  - repeat (case_hyp R; [done|]). apply ret_ok in H as [[= <- <-] <-]. by injection R as <-.
  - run_inv H. simplify_eq. apply query_ok in R0 as (R0 & Hd & _).
    repeat (case_hyp R; try done); simplify_eq. rewrite Hd. split; [|by rewrite <- H0 in R0]. done.
Qed.

Lemma complete_open db a entry resp t l s s' :
  idempotency (t_db s) = (l ++ [open_record a])%list -> db = t_db s ->
  existsb (fun x => String.eqb (i_attempt x) (pg_uuid (AttemptID a))) l = false ->
  CompleteIdempotency (AttemptID a) entry resp t s = (Ok tt, s') ->
  t_db s' = {| positions := positions db; entries := entries db;
    idempotency := l ++ [{| i_attempt := pg_uuid (AttemptID a); i_merchant := pg_uuid (at_MerchantID a);
       i_operation := Operation a; i_key := KeyHash a; i_request := at_RequestHash a;
       i_entry := Some (pg_uuid entry); i_response := Some resp; i_completed := Some (truncate_us t) |}];
    outbox := outbox db |}.
Proof.
  intros Hl -> Hfresh H. unfold CompleteIdempotency in H. run_inv H. apply stmt_ok in R as [R _].
  case_hyp H; [done|]. apply ret_ok in H as [_ ->].
  unfold update_idempotency, attempt_open in R. case_hyp R; [done|]. injection R as _ <-. f_equal.
  rewrite Hl, map_app. cbn. rewrite String.eqb_refl. cbn. f_equal.
  rewrite <- (map_id l) at 2. apply map_ext_in. intros y Hy.
  destruct (String.eqb (i_attempt y) (pg_uuid (AttemptID a))) eqn:E; [|done].
  rewrite <- not_true_iff_false in Hfresh. destruct Hfresh. apply existsb_exists. by exists y.
Qed.

(** A successful execution: a replay that changes nothing, or a new entry. *)
Lemma idempotent_body_ok env a create (from : Entry.entry -> Prop) s r s' :
  (forall t t' x, entries (t_db t) = entries (t_db s) -> create t = (Ok x, t') ->
     exists e o, x = resultFromEntry e /\ written (t_db t) (t_db t') e o /\
       pg_uuid (Entry.merchantID e) = pg_uuid (at_MerchantID a) /\ from e) ->
  idempotent_body env a create s = (Ok r, s') ->
  (t_db s' = t_db s /\ exists rec,
     select_idempotency (at_MerchantID a) (Operation a) (KeyHash a) (t_db s) = Ok rec /\
     replay rec (at_RequestHash a) = Ok r) \/
  (exists e o i, r = resultFromEntry e /\ wf_entry e /\ from e /\ event_of e o /\
     record_of (at_MerchantID a) (Operation a) (KeyHash a) (at_RequestHash a) e i /\
     is_id (Entry.id e) /\ admitted (t_db s) e o i /\ t_db s' = extend (t_db s) e o i).
Proof.
  intros Hcreate H. unfold idempotent_body in H. apply st_bind_ok in H as ([rec claimed] & t & Hc & H).
  apply ClaimIdempotency_ok in Hc. destruct claimed.
  - right. destruct Hc as (Hscope & Hatt & Ht). unfold claimed_body in H. run_inv H.
    match goal with HM : marshal_result _ = Ok _, HP : ID.ParseID _ = Ok _, HC : create _ = _,
        HQ : CompleteIdempotency _ _ _ _ _ = (Ok ?u, _) |- _ => destruct u;
      pose proof HM as Hj; pose proof HC as Hrun; rename HQ into Hdone; pose proof HP as Hid; apply ParseID_ok in HP; subst end.
    destruct (Hcreate _ _ _ ltac:(by rewrite Ht) Hrun)
      as (e & o & -> & (Hw & Ho & Hp & Hb & Hck & Hk & Hf & Hd) & Hm & Hfrom).
    eapply complete_open in Hdone; [|rewrite Hd, Ht; reflexivity|reflexivity|exact Hatt].
    rewrite Hd, Ht in Hdone. rewrite Ht in Hp, Hk, Hf. cbn in Hdone, Hp, Hk, Hf.
    exists e, o. eexists. do 4 (split; [done|]). split; [|split; [exact Hid|split; [|exact Hdone]]].
    + split; try done; [|by eexists]. unfold same_scope. cbn. by rewrite !String.eqb_refl.
    + split; try done.
  - left. destruct Hc as [Ht Hsel]. apply lift_ok in H as [H ->]. split; [done|]. by exists rec.
Qed.

(** The whole effect of a command of merchant [m]: a new entry satisfying
    [from], or nothing; and what the caller is told in each case. *)
Definition command_effect (m operation key request : string) (env : cmd_env)
    (from : Entry.entry -> Prop) (db : ledger_db) (r : result EntryResult) (db' : ledger_db) : Prop :=
  (exists e o i, wf_entry e /\ from e /\ event_of e o /\ record_of m operation key request e i /\
     is_id (Entry.id e) /\ admitted db e o i /\ db' = extend db e o i /\
     (r = Ok (resultFromEntry e) \/
      exists ce, commit (db_env env) = CommitUnknown ce /\ r = Err (EWrap "commit ledger transaction" ce))) \/
  (db' = db /\ forall x, r = Ok x -> exists rec,
     select_idempotency m operation key db = Ok rec /\ replay rec request = Ok x).

Lemma executeIdempotent_effect sha256 env m op key request create from db :
  (forall s s' x, entries (t_db s) = entries db -> create s = (Ok x, s') ->
     exists e o, x = resultFromEntry e /\ written (t_db s) (t_db s') e o /\
       pg_uuid (Entry.merchantID e) = pg_uuid m /\ from e) ->
  let '(r, db') := executeIdempotent sha256 env m op key request create db in
  command_effect m op (sha256 key) request env from db r db'.
Proof.
  intros Hcreate. unfold executeIdempotent.
  destruct (uuidGenerator _ _) as [attemptID|] eqn:Ea; [|right; done].
  unfold Execute. destruct (begin_fault (db_env env)); [right; done|].
  match goal with |- context [idempotent_body env ?a create ?s] =>
    destruct (idempotent_body env a create s) as [[x|] s'] eqn:Eb; [|right; done];
    apply (idempotent_body_ok env a create from) in Eb; [|exact Hcreate]
  end.
  cbn in Eb. destruct Eb as [[Hd Hrec] | (e & o & i & -> & Hw & Hf & Ho & Hi & Hid & Ha & Hd)].
  - rewrite Hd. destruct (commit (db_env env)); right; (split; [done|]); [|done..].
    by intros y [= <-].
  - destruct (commit (db_env env)) eqn:Ec; [left|right; done|left];
      exists e, o, i; splits; try done; [by left|]. right. by exists e0.
Qed.

Definition reversal_in (db : ledger_db) (m originalID : string) (e : Entry.entry) : Prop :=
  exists original, select_entry m originalID db = Ok original /\ reversal_from original e.

(** The guards only let parsed identifiers and traceparents of the W3C shape through. *)
Lemma create_guards_ok input m : create_guards input = Ok m ->
  m = c_MerchantID input /\ is_id m /\ Ledger.ValidateTraceparent (c_Traceparent input) = Ok tt.
Proof.
  unfold create_guards, parseMerchant. intros Eg. destruct (ID.ParseID _) eqn:E; [|done].
  pose proof (ParseID_ok _ _ E). subst a. unfold mbind, result_bind in Eg. case_hyp Eg; [|done].
  destruct (Ledger.ValidateTraceparent (c_Traceparent input)) as [[]|]; [|done]. by injection Eg as <-.
Qed.

Lemma reverse_guards_ok input m oid : reverse_guards input = Ok (m, oid) ->
  m = r_MerchantID input /\ oid = r_OriginalEntryID input /\ is_id m /\ is_id oid /\
  Ledger.ValidateTraceparent (r_Traceparent input) = Ok tt.
Proof.
  unfold reverse_guards, parseMerchant. intros Eg.
  destruct (ID.ParseID (r_MerchantID input)) eqn:E; [|done].
  destruct (ID.ParseID (r_OriginalEntryID input)) eqn:E'; [|done].
  pose proof (ParseID_ok _ _ E). pose proof (ParseID_ok _ _ E'). subst a a0. unfold mbind, result_bind in Eg.
  case_hyp Eg; [|done]. destruct (Ledger.ValidateTraceparent (r_Traceparent input)) as [[]|]; [|done]. by injection Eg as <- <-.
Qed.

Lemma CreateEntry_run sha256 json_text ll env input db :
  let '(r, db') := CreateEntry sha256 json_text ll env input db in
  command_effect (c_MerchantID input) OperationCreate (sha256 (c_IdempotencyKey input))
    (hashJSON sha256 json_text (create_content input)) env
    (created_from input (c_MerchantID input)) db r db'.
Proof.
  unfold CreateEntry. destruct (create_guards input) as [m|] eqn:Eg; [|right; done].
  destruct (create_guards_ok _ _ Eg) as (-> & Hid & Htp).
  apply executeIdempotent_effect. intros s s' x _ (e & o & -> & Hw & Hf)%create_entry_ok; [|done..].
  exists e, o. splits; try done. by rewrite (proj1 Hf).
Qed.

(** C1: [CreateEntry], whatever its input, clock, entropy and database
    failures, either leaves every table as it was, or adds exactly one entry
    with the input's merchant, type, money and description at the merchant's
    next position, its one unpublished outbox event and its completed
    idempotency record, all together.  A
    success is either that new entry or the stored answer of an earlier
    command with the same content; an error after a change is only possible
    when the commit itself is in doubt. *)
Theorem CreateEntry_effect sha256 json_text ll env input db :
  let '(r, db') := CreateEntry sha256 json_text ll env input db in
  command_effect (c_MerchantID input) OperationCreate (sha256 (c_IdempotencyKey input))
    (hashJSON sha256 json_text (create_content input)) env
    (created_from input (c_MerchantID input)) db r db'.
Proof. apply CreateEntry_run. Qed.

Lemma ReverseEntry_run sha256 json_text ll env input db :
  let '(r, db') := ReverseEntry sha256 json_text ll env input db in
  command_effect (r_MerchantID input) OperationReverse (sha256 (r_IdempotencyKey input))
    (hashJSON sha256 json_text (reverse_content input)) env
    (reversal_in db (r_MerchantID input) (r_OriginalEntryID input)) db r db'.
Proof.
  unfold ReverseEntry. destruct (reverse_guards input) as [[m oid]|] eqn:Eg; [|right; done].
  destruct (reverse_guards_ok _ _ _ Eg) as (-> & -> & _ & _ & Htp).
  apply executeIdempotent_effect. intros s s' x Hs (e & o & original & -> & Hw & Hsel & Hr & Hm)%reverse_entry_ok; [|done].
  exists e, o. splits; try done. exists original. split; [|done].
  unfold select_entry in *. by rewrite <- Hs.
Qed.

(** C6: the same for [ReverseEntry]: nothing changes, or exactly one reversal
    of an entry of the same merchant that is not itself a reversal is added,
    with the opposite type and the same amount. *)
Theorem ReverseEntry_effect sha256 json_text ll env input db :
  let '(r, db') := ReverseEntry sha256 json_text ll env input db in
  command_effect (r_MerchantID input) OperationReverse (sha256 (r_IdempotencyKey input))
    (hashJSON sha256 json_text (reverse_content input)) env
    (reversal_in db (r_MerchantID input) (r_OriginalEntryID input)) db r db'.
Proof. apply ReverseEntry_run. Qed.
