(* ===== verification/LedgerInvariant.v ===== *)
(** * The Ledger's database over time

    The databases the service's commands and the outbox publisher can reach
    from the empty schema, the invariant they all satisfy, and what follows
    from it for later commands. *)

From S2P Require Import Prelude.
From S2P Require Import GoStrings.
From S2P Require Import GoTime.
From S2P Require Import Json.
From S2P Require Import LedgerDomain.
From S2P Require Import LedgerDB.
From S2P Require Import LedgerService.
From S2P Require Import LedgerCommands.
From Stdlib Require String.
From Stdlib Require Import ZArith Lia Ascii.
Open Scope string_scope.
Open Scope Z_scope.

Definition of_merchant (m : string) (r : entry_row) : bool := String.eqb (e_merchant r) m.
Definition entry_corr (r : entry_row) : string * string * Z := (e_id r, e_merchant r, e_position r).
Definition outbox_corr (o : outbox_row) : string * string * Z := (o_aggregate o, o_merchant o, o_position o).
Definition scope_of (i : idem_row) : string * string * string := (i_merchant i, i_operation i, i_key i).
(** 1, 2, ..., n *)
Definition upto (n : Z) : list Z := map Z.of_nat (seq 1 (Z.to_nat n)).

Definition recorded_at (db : ledger_db) (m : string) : Z := default 0 (positions db !! m).

(** Everything of an outbox row but its delivery columns. *)
Definition same_event (o o' : outbox_row) : Prop :=
  o_event o' = o_event o /\ o_aggregate o' = o_aggregate o /\ o_merchant o' = o_merchant o /\
  o_position o' = o_position o /\ o_type o' = o_type o /\ o_payload o' = o_payload o /\
  o_occurred o' = o_occurred o /\ o_created o' = o_created o.

(** A reversal and the entry it reverses. *)
Definition reverses (r x : entry_row) : Prop :=
  e_merchant x = e_merchant r /\ e_original x = None /\ e_amount x = e_amount r /\
  e_type r = Entry.Opposite (e_type x).

Record ledger_inv (db : ledger_db) : Prop := {
  inv_range : forall m, 0 <= recorded_at db m <= int64_max;
  inv_positions : forall m, map e_position (List.filter (of_merchant m) (entries db)) = upto (recorded_at db m);
  inv_types : forall r, r ∈ entries db -> is_entry_type (e_type r) /\ 0 < e_amount r <= int64_max;
  inv_times : forall r, r ∈ entries db ->
    printable_date (e_confirmed r / day_ns) /\ truncate_us (e_confirmed r) = e_confirmed r /\
    pg_uuid (e_id r) = e_id r;
  inv_ids : NoDup (map e_id (entries db));
  inv_reversed_once : NoDup (omap e_original (entries db));
  inv_reversals : forall r o, r ∈ entries db -> e_original r = Some o ->
    exists x, x ∈ entries db /\ e_id x = o /\ reverses r x;
  inv_outbox : map outbox_corr (outbox db) = map entry_corr (entries db);
  inv_events : NoDup (map o_event (outbox db));
  inv_payloads : forall o, o ∈ outbox db -> exists e, describes e o /\ row_of_entry e ∈ entries db;
  inv_scopes : NoDup (map scope_of (idempotency db));
  inv_completed : forall i, i ∈ idempotency db -> is_Some (i_completed i) /\
    exists r, r ∈ entries db /\ i_entry i = Some (e_id r) /\ e_merchant r = i_merchant i }.

(** ** The steps *)
Section Steps.
Context (sha256 : string -> string) (json_text : json -> string).
Context (load_location : string -> option Calendar.location).

Inductive ledger_step (db : ledger_db) : ledger_db -> Prop :=
  | step_create env input r db' : in_int64 (c_AmountMinor input) = true ->
      CreateEntry sha256 json_text load_location env input db = (r, db') -> ledger_step db db'
  | step_reverse env input r db' :
      ReverseEntry sha256 json_text load_location env input db = (r, db') -> ledger_step db db'
  (** The publisher rewrites the delivery columns of outbox rows in place. *)
  | step_outbox f : (forall o, same_event o (f o)) ->
      ledger_step db {| positions := positions db; entries := entries db;
                        idempotency := idempotency db; outbox := map f (outbox db) |}.
End Steps.

(** ** Lemmas *)
Lemma in_map {A B} (f : A -> B) l y : y ∈ map f l -> exists x, y = f x /\ x ∈ l.
Proof.
  induction l as [|a l IH]; cbn; [by intros H%elem_of_nil|].
  intros [-> | H]%elem_of_cons; [exists a; split; [done|left]|].
  destruct (IH H) as (x & -> & Hx). exists x. split; [done|by right].
Qed.

Lemma upto_snoc n : 0 <= n -> upto (n + 1) = (upto n ++ [n + 1])%list.
Proof.
  intros Hn. unfold upto. rewrite Z2Nat.inj_add, Nat.add_1_r, seq_S, map_app by lia.
  cbn. do 2 f_equal. lia.
Qed.

Lemma opt_eqb_spec a b : opt_eqb a b = true <-> a = b.
Proof.
  destruct a, b; cbn; try (split; congruence). rewrite String.eqb_eq. split; congruence.
Qed.

Lemma positions_extend db e o i m : last_position m db = recorded_at db (pg_uuid m) /\
  recorded_at (extend db e o i) m =
    if decide (m = pg_uuid (Entry.merchantID e)) then Entry.position e else recorded_at db m.
Proof.
  split; [done|]. unfold recorded_at, extend. cbn. case_decide as E.
  - subst m. by rewrite lookup_insert_eq.
  - by rewrite lookup_insert_ne.
Qed.

(** The unique constraints the new entry met. *)
Lemma constraints_none r rows : entry_constraints r rows = None ->
  e_id r ∉ map e_id rows /\
  (forall o, e_original r = Some o -> o ∉ omap e_original rows).
Proof.
  unfold entry_constraints. intros H. case_hyp H; [done|]. case_hyp H; [done|]. split.
  - intros (x & Hx & Hin)%in_map. pose proof (existsb_false_forall _ _ Heqb x Hin) as E.
    cbn in E. apply String.eqb_neq in E. congruence.
  - intros o Ho (x & Hin & Hx)%list_elem_of_omap. rewrite Ho in H. case_hyp H; [done|].
    pose proof (existsb_false_forall _ _ Heqb1 x Hin) as E. cbn in E.
    apply not_true_iff_false in E. apply E. by apply opt_eqb_spec.
Qed.

Lemma in_snoc {A} (l : list A) a x : x ∈ (l ++ [a])%list <-> x ∈ l \/ x = a.
Proof. by rewrite elem_of_app, list_elem_of_singleton. Qed.

Lemma filter_snoc {A} (f : A -> bool) l a :
  List.filter f (l ++ [a]) = (List.filter f l ++ (if f a then [a] else []))%list.
Proof. rewrite List.filter_app. cbn. by destruct (f a). Qed.

Lemma extend_positions db e o i m : ledger_inv db -> admitted db e o i ->
  0 <= recorded_at (extend db e o i) m <= int64_max /\
  map e_position (List.filter (of_merchant m) (entries (extend db e o i))) = upto (recorded_at (extend db e o i) m).
Proof.
  intros Hi Ha. destruct (positions_extend db e o i m) as [_ Hr]. rewrite Hr.
  pose proof (inv_range _ Hi (pg_uuid (Entry.merchantID e))) as H0.
  pose proof (ad_position _ _ _ _ Ha) as Hp. rewrite (proj1 (positions_extend db e o i _)) in Hp.
  unfold extend. cbn [entries]. rewrite filter_snoc, map_app, (inv_positions _ Hi). unfold of_merchant at 1. cbn.
  case_decide as E.
  - subst m. rewrite String.eqb_refl. cbn. pose proof (ad_bound _ _ _ _ Ha). rewrite Hp in *.
    split; [lia|]. by rewrite upto_snoc by lia.
  - rewrite (proj2 (String.eqb_neq _ _) (not_eq_sym E)), app_nil_r. split; [apply (inv_range _ Hi)|done].
Qed.

Lemma scope_fresh db m op k rq e o i : record_of m op k rq e i -> admitted db e o i ->
  scope_of i ∉ map scope_of (idempotency db).
Proof.
  intros Hr Ha (x & Hx & Hin)%in_map.
  pose proof (existsb_false_forall _ _ (ad_scope _ _ _ _ Ha) x Hin) as E.
  unfold scope_of in Hx. injection Hx as H1 H2 H3. unfold same_scope in E.
  rewrite H1, H2, H3, !String.eqb_refl in E. done.
Qed.

Lemma truncate_us_day t : truncate_us t / day_ns = t / day_ns.
Proof. unfold truncate_us, microsecond, day_ns, second. dlia. Qed.

(** An entry whose event was written has a printable confirmation time. *)
Lemma event_printable e o : event_of e o -> printable_date (truncate_us (Entry.confirmedAt e) / day_ns).
Proof.
  intros [Ho _]. destruct (eo_payload _ _ Ho) as (id & tp & _ & _ & _ & H). rewrite truncate_us_day.
  unfold event_payload in H.
  destruct (enc_time (Entry.confirmedAt e)) as [j|] eqn:E; [|done]. by apply enc_time_inv in E as [_ ?].
Qed.

Lemma extend_inv db e o i m op k rq : ledger_inv db -> wf_entry e -> event_of e o ->
  record_of m op k rq e i -> admitted db e o i -> Money.minor (Entry.money e) <= int64_max ->
  (forall oo, e_original (row_of_entry e) = Some oo ->
     exists x, x ∈ entries db /\ e_id x = oo /\ reverses (row_of_entry e) x) ->
  ledger_inv (extend db e o i).
Proof.
  intros Hi Hw Ho Hr Ha Hmax Hrev.
  destruct (constraints_none _ _ (ad_constraints _ _ _ _ Ha)) as [Hid Horig].
  split.
  - intros m'. by apply extend_positions.
  - intros m'. by apply extend_positions.
  - intros r [Hin | ->]%in_snoc; [by apply (inv_types _ Hi)|]. splits; [apply Hw..|done].
  - intros r [Hin | ->]%in_snoc; [by apply (inv_times _ Hi)|]. cbn.
    splits; [by apply (event_printable e o)|apply truncate_us_idem|apply pg_uuid_idem].
  - cbn. rewrite map_app. apply NoDup_snoc; [apply Hi|done].
  - cbn. rewrite omap_app. destruct (e_original (row_of_entry e)) as [oo|] eqn:E; cbn in *; rewrite E.
    + apply NoDup_snoc; [apply Hi|by apply Horig].
    + rewrite app_nil_r. apply Hi.
  - intros r oo [Hin | ->]%in_snoc E.
    + destruct (inv_reversals _ Hi r oo Hin E) as (x & Hx & ?). exists x. split; [|done].
      apply in_snoc. by left.
    + destruct (Hrev oo E) as (x & Hx & ?). exists x. split; [|done]. apply in_snoc. by left.
  - cbn. rewrite !map_app, (inv_outbox _ Hi). cbn. unfold outbox_corr, entry_corr.
    by rewrite (eo_aggregate _ _ (proj1 Ho)), (eo_merchant _ _ (proj1 Ho)), (eo_position _ _ (proj1 Ho)).
  - cbn. rewrite map_app. apply NoDup_snoc; [apply Hi|]. intros (x & Hx & Hin)%in_map.
    pose proof (existsb_false_forall _ _ (ad_event _ _ _ _ Ha) x Hin) as E. cbn in E.
    apply String.eqb_neq in E. congruence.
  - intros x [Hin | ->]%in_snoc.
    + destruct (inv_payloads _ Hi x Hin) as (e' & ? & ?). exists e'. split; [done|]. apply in_snoc. by left.
    + exists e. split; [apply Ho|]. apply in_snoc. by right.
  - cbn. rewrite map_app. apply NoDup_snoc; [apply Hi|by eapply scope_fresh].
  - intros j [Hin | ->]%in_snoc.
    + destruct (inv_completed _ Hi j Hin) as (? & r & ? & ?). split; [done|]. exists r. split; [|done].
      apply in_snoc. by left.
    + split; [apply Hr|]. exists (row_of_entry e). splits.
      * apply in_snoc. by right.
      * apply Hr.
      * symmetry. apply Hr.
Qed.

(** The reversal's row and its original's row. *)
Lemma reversal_rows db m oid e : ledger_inv db -> reversal_in db m oid e ->
  pg_uuid (Entry.merchantID e) = pg_uuid m ->
  forall oo, e_original (row_of_entry e) = Some oo ->
  exists x, x ∈ entries db /\ e_id x = oo /\ reverses (row_of_entry e) x.
Proof.
  intros Hi (original & Hsel & Hm & _ & _ & Hno & Ho & Hmo & Ht) Hme oo Hoo.
  destruct (select_entry_ok _ _ _ _ Hsel) as (x & Hx & Hxm & Hxid & Hscan).
  pose proof (inv_types _ Hi x Hx) as [Hty _].
  assert (Entry.entryType original = e_type x) as Hot by (eapply scanEntry_type; eauto).
  apply scanEntry_ok in Hscan as (Hid & Hmer & _ & Horig & Ham & _).
  exists x. cbn in Hoo. rewrite Ho in Hoo. cbn in Hoo. injection Hoo as <-.
  splits; [done|rewrite Hid, Hxid; symmetry; apply pg_uuid_idem|].
  unfold reverses. cbn. rewrite Hme, Ht, Hot. unfold Money.AmountMinor. rewrite Hmo, Ham.
  splits; [done|congruence|done..].
Qed.

Lemma empty_inv : ledger_inv empty_db.
Proof.
  assert (forall m, recorded_at empty_db m = 0) as H0 by done.
  split; intros; rewrite ?H0 in *; try done; try (by apply NoDup_nil_2); by set_solver.
Qed.

(** A created entry reverses nothing. *)
Lemma created_no_original input m e oo : created_from input m e -> e_original (row_of_entry e) = Some oo -> False.
Proof. intros (_ & _ & _ & _ & _ & Ho) H. cbn in H. by rewrite Ho in H. Qed.

Lemma created_amount input m e : in_int64 (c_AmountMinor input) = true -> created_from input m e ->
  Money.minor (Entry.money e) <= int64_max.
Proof.
  intros Hi (_ & _ & _ & Hm & _). unfold Money.NewMoney in Hm. repeat (case_hyp Hm; [done|]).
  injection Hm as <-. apply in_int64_spec in Hi. cbn. lia.
Qed.

Lemma reversal_amount db m oid e : ledger_inv db -> reversal_in db m oid e ->
  Money.minor (Entry.money e) <= int64_max.
Proof.
  intros Hi (original & Hsel & _ & _ & _ & _ & _ & Hmo & _).
  destruct (select_entry_ok _ _ _ _ Hsel) as (x & Hx & _ & _ & Hscan).
  apply scanEntry_ok in Hscan as (_ & _ & _ & _ & Ham & _). rewrite Hmo, Ham. by apply (inv_types _ Hi).
Qed.

Lemma reversal_merchant db m oid e op k rq i : record_of m op k rq e i -> reversal_in db m oid e ->
  pg_uuid (Entry.merchantID e) = pg_uuid m.
Proof.
  intros Hr _. destruct Hr as [Hs Hm _ _ _]. unfold same_scope in Hs. bool_to_prop. congruence.
Qed.

(** What any single step does to the entries and the idempotency records. *)
Definition appended {A} (l l' : list A) : Prop := exists k, l' = (l ++ k)%list.

Lemma appended_refl {A} (l : list A) : appended l l.
Proof. exists []. by rewrite app_nil_r. Qed.
Lemma appended_trans {A} (l k j : list A) : appended l k -> appended k j -> appended l j.
Proof. intros [x ->] [y ->]. exists (x ++ y)%list. by rewrite app_assoc. Qed.
Lemma appended_in {A} (l k : list A) x : appended l k -> x ∈ l -> x ∈ k.
Proof. intros [y ->] H. apply elem_of_app. by left. Qed.
#[export] Hint Resolve appended_refl : keyrus.

Section Reachable.
Context (sha256 : string -> string) (json_text : json -> string).
Context (load_location : string -> option Calendar.location).
Let step := ledger_step sha256 json_text load_location.

Lemma step_spec db db' : step db db' -> ledger_inv db ->
  ledger_inv db' /\ appended (entries db) (entries db') /\ appended (idempotency db) (idempotency db').
Proof.
  intros Hs Hi. inversion Hs as [env input r d Hint Hc | env input r d Hc | f Hf]; subst.
  - pose proof (CreateEntry_run sha256 json_text load_location env input db) as He.
    rewrite Hc in He. destruct He as [(e & o & i & Hw & Hfrom & Ho & Hr & _ & Ha & -> & _) | [-> _]];
      [|by auto with keyrus]. splits; [|by eexists..].
    eapply extend_inv; eauto; [by eapply created_amount|].
    intros oo Hoo. by destruct (created_no_original _ _ _ _ Hfrom Hoo).
  - pose proof (ReverseEntry_run sha256 json_text load_location env input db) as He.
    rewrite Hc in He. destruct He as [(e & o & i & Hw & Hfrom & Ho & Hr & _ & Ha & -> & _) | [-> _]];
      [|by auto with keyrus]. splits; [|by eexists..].
    eapply extend_inv; eauto; [by eapply reversal_amount|].
    eapply reversal_rows; eauto. by eapply reversal_merchant.
  - splits; [|by auto with keyrus..]. destruct Hi. split; cbn; try done.
    + rewrite map_map, <- inv_outbox0. apply map_ext. intros o. unfold outbox_corr.
      by destruct (Hf o) as (_ & -> & -> & -> & _).
    + rewrite map_map. erewrite map_ext; [done|]. intros o. apply Hf.
    + intros o' (o & -> & Ho)%in_map. destruct (inv_payloads0 o Ho) as (e & He & ?). exists e. split; [|done].
      destruct (Hf o) as (F1 & F2 & F3 & F4 & F5 & F6 & F7 & _). destruct He.
      split; rewrite ?F1, ?F2, ?F3, ?F4, ?F5, ?F6, ?F7; done.
Qed.

Lemma steps_spec db db' : steps step db db' -> ledger_inv db ->
  ledger_inv db' /\ appended (entries db) (entries db') /\ appended (idempotency db) (idempotency db').
Proof.
  induction 1 as [db|a b c Hab Hbc IH]; intros Hi; [by auto with keyrus|].
  destruct (step_spec _ _ Hab Hi) as (Hi' & He & Hd). destruct (IH Hi') as (? & ? & ?).
  splits; [done|by eapply appended_trans..].
Qed.
End Reachable.

(** C2: every database the commands and the publisher reach from the empty
    schema satisfies the Ledger's invariant: each merchant's entries carry
    the positions 1 to its last position without gap, in the order they were
    confirmed; entry ids are unique; an entry is reversed at most once, by an
    entry of the same merchant and amount and the opposite type, and a
    reversal is never reversed; there is exactly one outbox event per entry,
    in the same order; every idempotency record is complete and refers to an
    entry of its merchant.  Confirmed entries are never changed or removed. *)
Theorem ledger_invariant sha256 json_text ll db :
  steps (ledger_step sha256 json_text ll) empty_db db ->
  ledger_inv db /\
  forall db', steps (ledger_step sha256 json_text ll) db db' ->
    exists later, entries db' = (entries db ++ later)%list.
Proof.
  intros H. destruct (steps_spec _ _ _ _ _ H empty_inv) as (Hi & _ & _). split; [done|].
  intros db' H'. apply (steps_spec _ _ _ _ _ H' Hi).
Qed.
