(* ===== verification/LedgerRetry.v ===== *)
(** * Retries, refusals and successes of the Ledger's commands

    What a later command gets from the database earlier commands left: the
    stored answer of its idempotency key, a conflict, the refusals of a
    reversal, or a new entry. *)

From S2P Require Import Prelude.
From S2P Require Import GoStrings.
From S2P Require Import GoTime.
From S2P Require Import Json.
From S2P Require Import LedgerDomain.
From S2P Require Import LedgerDB.
From S2P Require Import LedgerService.
From S2P Require Import LedgerCommands.
From S2P Require Import LedgerInvariant.
From Stdlib Require String.
From Stdlib Require Import ZArith Lia Ascii.
Open Scope string_scope.
Open Scope Z_scope.

(** A database without failures, and an attempt whose identifier is minted. *)
Definition healthy (env : cmd_env) : Prop :=
  begin_fault (db_env env) = None /\ statements (db_env env) = [] /\ commit (db_env env) = CommitOk /\
  is_ok (rnd_attempt env) = true.

Lemma mint_ok now rnd : is_ok rnd = true -> exists id, uuidGenerator now rnd = Ok id.
Proof. destruct rnd as [raw|]; [|done]. intros _. by eexists. Qed.

(** ** A stored answer *)
Lemma select_some m op key db rec : select_idempotency m op key db = Ok rec ->
  exists i, List.find (same_scope (pg_uuid m) op key) (idempotency db) = Some i /\
    rec = {| RequestHash := i_request i; ResponsePayload := i_response i |}.
Proof. unfold select_idempotency. destruct (List.find _ _) as [i|]; [|done]. intros [= <-]. by exists i. Qed.

Lemma find_app_some {A} (f : A -> bool) l k x : List.find f l = Some x -> List.find f (l ++ k) = Some x.
Proof. induction l as [|a l IH]; cbn; [done|]. destruct (f a); [done|]. apply IH. Qed.

Lemma find_app_none {A} (f : A -> bool) l k : existsb f l = false -> List.find f (l ++ k) = List.find f k.
Proof. induction l as [|a l IH]; cbn; [done|]. destruct (f a); [done|]. apply IH. Qed.

Lemma select_later m op key db db' rec : appended (idempotency db) (idempotency db') ->
  select_idempotency m op key db = Ok rec -> select_idempotency m op key db' = Ok rec.
Proof.
  intros [k E] (i & Hi & ->)%select_some. unfold select_idempotency.
  by rewrite E, (find_app_some _ _ _ _ Hi).
Qed.

Lemma executeIdempotent_stored sha256 env m op key rq create db rec :
  healthy env -> op = OperationCreate \/ op = OperationReverse ->
  select_idempotency m op (sha256 key) db = Ok rec ->
  executeIdempotent sha256 env m op key rq create db = (replay rec rq, db).
Proof.
  intros (Hb & Hs & Hc & Hr) Hop Hsel. unfold executeIdempotent.
  destruct (mint_ok (systemClock (now_attempt env)) _ Hr) as [id ->].
  unfold Execute. rewrite Hb, Hs, Hc.
  destruct (select_some _ _ _ _ _ Hsel) as (i & Hi & _).
  assert (existsb (same_scope (pg_uuid m) op (sha256 key)) (idempotency db) = true) as He.
  { apply existsb_exists. apply List.find_some in Hi. by exists i. }
  unfold idempotent_body, ClaimIdempotency, stmt, query, wrap_st, mbind, st_bind, insert_idempotency.
  cbn [t_faults t_db t_clock at_MerchantID Operation KeyHash AttemptID at_RequestHash].
  assert (negb (String.eqb op OperationCreate || String.eqb op OperationReverse) = false) as ->
    by (destruct Hop as [-> | ->]; done).
  rewrite He. cbn. rewrite Hsel. cbn. unfold lift. by destruct (replay rec rq).
Qed.

(** ** The answer a command leaves behind *)
Lemma entry_result_valid e : wf_entry e -> is_id (Entry.id e) -> is_id (Entry.merchantID e) ->
  (forall o, Entry.originalEntryID e = Some o -> is_id o) ->
  entry_checks (row_of_entry e) = None -> Entry.position e <= int64_max ->
  Money.minor (Entry.money e) <= int64_max -> valid_result (resultFromEntry e).
Proof.
  intros Hw Hid Hm Ho Hc Hp Ha. destruct Hw as [_ _ Hp0 Ht Ha0 _ _ _].
  assert (forall z, 0 < z -> z <= int64_max -> in_int64 z = true) as Hr
    by (intros; apply in_int64_spec; unfold int64_min; lia).
  split; [apply Hr; done|]. split; [apply Hr; done|]. cbn.
  repeat apply List.Forall_cons; try apply List.Forall_nil; try done.
  - by apply to_valid_ascii, is_id_ascii.
  - by apply to_valid_ascii, is_id_ascii.
  - by destruct Ht as [-> | ->].
  - apply to_valid_ascii, format_date_ascii.
  - apply pg_text_valid. unfold entry_checks in Hc. case_hyp Hc; [done|]. bool_to_prop.
    cbn in Heqb. destruct (String.eqb_spec (Entry.description e) "") as [-> | ]; done.
  - destruct (Entry.originalEntryID e) as [o|]; cbn; [|done]. by apply to_valid_ascii, is_id_ascii, Ho.
Qed.

(** A successful command leaves its answer where any retry finds it. *)
Lemma command_recorded m op key rq env from db x db' :
  command_effect m op key rq env from db (Ok x) db' ->
  (forall e, from e -> is_id (Entry.merchantID e) /\
     (forall o, Entry.originalEntryID e = Some o -> is_id o) /\ Money.minor (Entry.money e) <= int64_max) ->
  exists rec, select_idempotency m op key db' = Ok rec /\ RequestHash rec = rq /\ replay rec rq = Ok x.
Proof.
  intros [(e & o & i & Hw & Hf & Ho & Hr & Hid & Ha & -> & Hx) | [-> Hsel]] Hfrom.
  - destruct Hx as [[= ->] | (ce & _ & [=])]. destruct (Hfrom e Hf) as (Hm & Horig & Hmax).
    destruct Hr as [Hs Hmer Hrq Hent Hcom (j & Hj & Hmar)].
    exists {| RequestHash := i_request i; ResponsePayload := i_response i |}.
    pose proof Hs as Hs'. unfold same_scope in Hs'. bool_to_prop.
    split; [|split; [done|]].
    + unfold select_idempotency, extend. cbn [idempotency].
      rewrite find_app_none; [cbn; by rewrite Hs|].
      destruct Ha. congruence.
    + unfold replay. cbn. rewrite Hrq, String.eqb_refl, Hj. cbn.
      rewrite (result_document (resultFromEntry e) j); [done| |done].
      apply entry_result_valid; try done; [apply Ha|]. apply (ad_bound _ _ _ _ Ha).
  - destruct (Hsel x eq_refl) as (rec & Hrec & Hre). exists rec. splits; [done| |done].
    unfold replay in Hre. case_hyp Hre; [done|]. by bool_to_prop.
Qed.

Lemma created_valid input m e : in_int64 (c_AmountMinor input) = true -> created_from input m e ->
  is_id (Entry.merchantID e) /\ (forall o, Entry.originalEntryID e = Some o -> is_id o) /\
  Money.minor (Entry.money e) <= int64_max.
Proof.
  intros Hi Hf. pose proof (created_amount _ _ _ Hi Hf). destruct Hf as (-> & Hm & _ & _ & _ & Ho).
  splits; [done| |done]. by rewrite Ho.
Qed.

Lemma reversed_valid db m oid e : ledger_inv db -> reversal_in db m oid e ->
  is_id (Entry.merchantID e) /\ (forall o, Entry.originalEntryID e = Some o -> is_id o) /\
  Money.minor (Entry.money e) <= int64_max.
Proof.
  intros Hi Hf. pose proof (reversal_amount _ _ _ _ Hi Hf). destruct Hf as (o & _ & Hm & Hidm & Hid & _ & Ho & _).
  splits; [by rewrite Hm| |done]. rewrite Ho. by intros ? [= <-].
Qed.

Lemma replay_conflict rec rq rq' x : replay rec rq = Ok x -> rq' <> RequestHash rec ->
  replay rec rq' = Err ErrIdempotencyConflict.
Proof. unfold replay. intros _ Hne. by rewrite (proj2 (String.eqb_neq _ _) (not_eq_sym Hne)). Qed.

Lemma CreateEntry_stored sha256 json_text ll env input db rec :
  healthy env -> is_ok (create_guards input) = true ->
  select_idempotency (c_MerchantID input) OperationCreate (sha256 (c_IdempotencyKey input)) db = Ok rec ->
  CreateEntry sha256 json_text ll env input db
  = (replay rec (hashJSON sha256 json_text (create_content input)), db).
Proof.
  intros Hh Hg Hsel. unfold CreateEntry. destruct (create_guards input) as [m|] eqn:E; [|done].
  apply create_guards_ok in E as [-> _]. apply executeIdempotent_stored; [done|by left|done].
Qed.

Lemma ReverseEntry_stored sha256 json_text ll env input db rec :
  healthy env -> is_ok (reverse_guards input) = true ->
  select_idempotency (r_MerchantID input) OperationReverse (sha256 (r_IdempotencyKey input)) db = Ok rec ->
  ReverseEntry sha256 json_text ll env input db
  = (replay rec (hashJSON sha256 json_text (reverse_content input)), db).
Proof.
  intros Hh Hg Hsel. unfold ReverseEntry. destruct (reverse_guards input) as [[m oid]|] eqn:E; [|done].
  apply reverse_guards_ok in E as (-> & -> & _). apply executeIdempotent_stored; [done|by right|done].
Qed.

(** ** A concrete run *)
Definition sample_now : Z := 739000 * day_ns + 43200 * second.
Definition sample_env (k : Z) : cmd_env :=
  {| now_attempt := sample_now; now_create := sample_now; now_complete := sample_now;
     rnd_attempt := Ok [0;0;0;0;0;0;0;0;0;0;0;0;0;0;k;1]; rnd_entry := Ok [0;0;0;0;0;0;0;0;0;0;0;0;0;0;k;2];
     rnd_event := Ok [0;0;0;0;0;0;0;0;0;0;0;0;0;0;k;3];
     db_env := {| begin_fault := None; statements := []; commit := CommitOk; pg_clock := sample_now |} |}.
Definition sample_merchant : string := "018f0000-0000-7000-8000-00000000000a".
Definition sample_create (key : string) (amount : Z) : CreateEntryInput :=
  {| c_MerchantID := sample_merchant; c_IdempotencyKey := key; c_Type := "credit";
     c_AmountMinor := amount; c_Currency := "BRL"; c_BusinessDate := None; c_Description := "sale";
     c_TimeZone := ""; c_Traceparent := "00-4bf92f3577b34da6a3ce929d0e0e4736-00f067aa0ba902b7-01" |}.
Definition sample_reverse (key id : string) : ReverseEntryInput :=
  {| r_MerchantID := sample_merchant; r_OriginalEntryID := id; r_IdempotencyKey := key;
     r_TimeZone := ""; r_Traceparent := "00-4bf92f3577b34da6a3ce929d0e0e4736-00f067aa0ba902b7-01" |}.
(** Stand-ins for the hash, the JSON text and the zone data. *)
Definition sample_sha256 (s : string) : string := s.
Fixpoint sample_text (j : json) : string :=
  match j with
  | JInt z => fmt_d z
  | JStr s => s
  | JObj f => fold_right (fun p acc => sample_text (snd p) +:+ acc) "" f
  | _ => ""
  end.
Definition sample_zone (_ : string) : option Calendar.location := Some (fun _ => - 3 * 3600 * second).

Definition sample_run (key : string) (amount k : Z) (db : ledger_db) : result EntryResult * ledger_db :=
  CreateEntry sample_sha256 sample_text sample_zone (sample_env k) (sample_create key amount) db.
Definition sample_step : ledger_db -> ledger_db -> Prop := ledger_step sample_sha256 sample_text sample_zone.
Definition sample_db1 : ledger_db := Eval vm_compute in snd (sample_run "k1" 1000 1 empty_db).
Definition sample_id1 : string := Eval vm_compute in
  match fst (sample_run "k1" 1000 1 empty_db) with Ok x => x_ID x | Err _ => "" end.

Lemma sample_step1 : sample_step empty_db sample_db1.
Proof.
  apply (step_create _ _ _ _ (sample_env 1) (sample_create "k1" 1000) (fst (sample_run "k1" 1000 1 empty_db)));
    vm_compute; reflexivity.
Qed.

Lemma sample_steps1 : steps sample_step empty_db sample_db1.
Proof. eapply steps_cons; [apply sample_step1|apply steps_refl]. Qed.

Lemma sample_healthy k : healthy (sample_env k).
Proof. by repeat split. Qed.

(** ** Retries *)

(** C4: idempotency of [CreateEntry]: once a command succeeded, a later
    command of the same merchant with the same key that passes the first
    checks of its input, on a database that answers, changes nothing, however
    many commands ran in between; it gets exactly the first answer when the
    content hashes the same and [ErrIdempotencyConflict] otherwise. *)
Theorem CreateEntry_retry sha256 json_text ll db env input x db1 db2 env' input' :
  steps (ledger_step sha256 json_text ll) empty_db db -> in_int64 (c_AmountMinor input) = true ->
  CreateEntry sha256 json_text ll env input db = (Ok x, db1) ->
  steps (ledger_step sha256 json_text ll) db1 db2 ->
  healthy env' -> is_ok (create_guards input') = true ->
  pg_uuid (c_MerchantID input') = pg_uuid (c_MerchantID input) ->
  c_IdempotencyKey input' = c_IdempotencyKey input ->
  CreateEntry sha256 json_text ll env' input' db2 =
    (if String.eqb (hashJSON sha256 json_text (create_content input'))
                   (hashJSON sha256 json_text (create_content input))
     then Ok x else Err ErrIdempotencyConflict, db2).
Proof.
  intros Hreach Hint Hrun Hlater Hh Hg Hm Hk.
  destruct (steps_spec _ _ _ _ _ Hreach empty_inv) as (Hi & _ & _).
  destruct (step_spec _ _ _ _ _ (step_create _ _ _ _ _ _ _ _ Hint Hrun) Hi) as (Hi1 & _ & _).
  destruct (steps_spec _ _ _ _ _ Hlater Hi1) as (_ & _ & Hap).
  pose proof (CreateEntry_run sha256 json_text ll env input db) as He. rewrite Hrun in He.
  destruct (command_recorded _ _ _ _ _ _ _ _ _ He) as (rec & Hsel & Hrq & Hre);
    [intros e; by apply created_valid|].
  rewrite (CreateEntry_stored sha256 json_text ll env' input' db2 rec Hh Hg);
    [|rewrite Hk; unfold select_idempotency; rewrite Hm; eapply select_later; [exact Hap|exact Hsel]].
  f_equal. destruct (String.eqb_spec (hashJSON sha256 json_text (create_content input'))
                       (hashJSON sha256 json_text (create_content input))) as [-> | Hne]; [done|].
  eapply replay_conflict; [exact Hre|by rewrite Hrq].
Qed.

Lemma CreateEntry_retry_witness :
  fst (CreateEntry sample_sha256 sample_text sample_zone (sample_env 2) (sample_create "k1" 1000) sample_db1)
    = fst (sample_run "k1" 1000 1 empty_db) /\
  fst (CreateEntry sample_sha256 sample_text sample_zone (sample_env 2) (sample_create "k1" 7) sample_db1)
    = Err ErrIdempotencyConflict.
Proof.
  assert (exists x, sample_run "k1" 1000 1 empty_db = (Ok x, sample_db1)) as [x Hx]
    by (eexists; vm_compute; reflexivity).
  unfold sample_run in *. split.
  - rewrite (CreateEntry_retry sample_sha256 sample_text sample_zone empty_db (sample_env 1)
      (sample_create "k1" 1000) x sample_db1 sample_db1 (sample_env 2) (sample_create "k1" 1000)
      (steps_refl _ _) eq_refl Hx (steps_refl _ _) (sample_healthy 2) eq_refl eq_refl eq_refl).
    rewrite String.eqb_refl. by rewrite Hx.
  - rewrite (CreateEntry_retry sample_sha256 sample_text sample_zone empty_db (sample_env 1)
      (sample_create "k1" 1000) x sample_db1 sample_db1 (sample_env 2) (sample_create "k1" 7)
      (steps_refl _ _) eq_refl Hx (steps_refl _ _) (sample_healthy 2) eq_refl eq_refl eq_refl).
    reflexivity.
Defined.

(** Idempotency of [ReverseEntry], with the same two answers. *)
Theorem ReverseEntry_retry sha256 json_text ll db env input x db1 db2 env' input' :
  steps (ledger_step sha256 json_text ll) empty_db db ->
  ReverseEntry sha256 json_text ll env input db = (Ok x, db1) ->
  steps (ledger_step sha256 json_text ll) db1 db2 ->
  healthy env' -> is_ok (reverse_guards input') = true ->
  pg_uuid (r_MerchantID input') = pg_uuid (r_MerchantID input) ->
  r_IdempotencyKey input' = r_IdempotencyKey input ->
  ReverseEntry sha256 json_text ll env' input' db2 =
    (if String.eqb (hashJSON sha256 json_text (reverse_content input'))
                   (hashJSON sha256 json_text (reverse_content input))
     then Ok x else Err ErrIdempotencyConflict, db2).
Proof.
  intros Hreach Hrun Hlater Hh Hg Hm Hk.
  destruct (steps_spec _ _ _ _ _ Hreach empty_inv) as (Hi & _ & _).
  destruct (step_spec _ _ _ _ _ (step_reverse _ _ _ _ _ _ _ _ Hrun) Hi) as (Hi1 & _ & _).
  destruct (steps_spec _ _ _ _ _ Hlater Hi1) as (_ & _ & Hap).
  pose proof (ReverseEntry_run sha256 json_text ll env input db) as He. rewrite Hrun in He.
  destruct (command_recorded _ _ _ _ _ _ _ _ _ He) as (rec & Hsel & Hrq & Hre);
    [intros e; by apply reversed_valid|].
  rewrite (ReverseEntry_stored sha256 json_text ll env' input' db2 rec Hh Hg);
    [|rewrite Hk; unfold select_idempotency; rewrite Hm; eapply select_later; [exact Hap|exact Hsel]].
  f_equal. destruct (String.eqb_spec (hashJSON sha256 json_text (reverse_content input'))
                       (hashJSON sha256 json_text (reverse_content input))) as [-> | Hne]; [done|].
  eapply replay_conflict; [exact Hre|by rewrite Hrq].
Qed.

Definition sample_rev (key : string) (k : Z) (db : ledger_db) : result EntryResult * ledger_db :=
  ReverseEntry sample_sha256 sample_text sample_zone (sample_env k) (sample_reverse key sample_id1) db.
Definition sample_db2 : ledger_db := Eval vm_compute in snd (sample_rev "r1" 2 sample_db1).

Lemma ReverseEntry_retry_witness :
  fst (sample_rev "r1" 3 sample_db2) = fst (sample_rev "r1" 2 sample_db1).
Proof.
  assert (exists x, sample_rev "r1" 2 sample_db1 = (Ok x, sample_db2)) as [x Hx]
    by (eexists; vm_compute; reflexivity).
  unfold sample_rev in *.
  rewrite (ReverseEntry_retry sample_sha256 sample_text sample_zone sample_db1 (sample_env 2)
    (sample_reverse "r1" sample_id1) x sample_db2 sample_db2 (sample_env 3) (sample_reverse "r1" sample_id1)
    sample_steps1 Hx (steps_refl _ _) (sample_healthy 3) eq_refl eq_refl eq_refl).
  rewrite String.eqb_refl. by rewrite Hx.
Defined.

(** ** Running a command forward on a healthy database *)
Definition after (s : txs) (db : ledger_db) : txs := with_db s db [].

Lemma stmt_run {A} (f : ledger_db -> Z -> result A * ledger_db) s r db : t_faults s = [] ->
  f (t_db s) (t_clock s) = (r, db) -> stmt f s = (r, after s db).
Proof. unfold stmt. by intros -> ->. Qed.

Lemma query_run {A} (f : ledger_db -> result A) s : t_faults s = [] ->
  query f s = (f (t_db s), after s (t_db s)).
Proof. intros H. by apply stmt_run. Qed.

Lemma after_faults s db : t_faults (after s db) = [].
Proof. done. Qed.

(** The key was never used and the attempt's identifier is new. *)
Definition fresh_key (m op key attemptID : string) (db : ledger_db) : Prop :=
  existsb (same_scope (pg_uuid m) op key) (idempotency db) = false /\
  existsb (fun x => String.eqb (i_attempt x) (pg_uuid attemptID)) (idempotency db) = false.

Definition claimed_db (a : IdempotencyAttempt) (db : ledger_db) : ledger_db :=
  {| positions := positions db; entries := entries db;
     idempotency := idempotency db ++ [open_record a]; outbox := outbox db |}.

Lemma claim_run env a create s :
  t_faults s = [] -> Operation a = OperationCreate \/ Operation a = OperationReverse ->
  fresh_key (at_MerchantID a) (Operation a) (KeyHash a) (AttemptID a) (t_db s) ->
  idempotent_body env a create s =
    claimed_body env (AttemptID a) create (after s (claimed_db a (t_db s))).
Proof.
  intros Hf Hop [Hs Ha]. unfold idempotent_body.
  assert (stmt (insert_idempotency a) s = (Ok 1, after s (claimed_db a (t_db s)))) as Hins.
  { apply stmt_run; [done|]. unfold insert_idempotency.
    assert (negb (String.eqb (Operation a) OperationCreate || String.eqb (Operation a) OperationReverse) = false)
      as -> by (destruct Hop as [-> | ->]; done).
    by rewrite Hs, Ha. }
  unfold ClaimIdempotency, mbind, st_bind. by rewrite (wrap_run _ _ _ _ _ Hins).
Qed.

Lemma NewCalendar_run ll zone : (exists loc, ll (if String.eqb zone "" then Calendar.DefaultMerchantZone else zone) = Some loc) ->
  exists loc, Calendar.NewCalendar ll zone = Ok loc.
Proof. intros [loc H]. exists loc. unfold Calendar.NewCalendar. by rewrite H. Qed.

Lemma EntryForUpdate_run m id s : t_faults s = [] ->
  fst (EntryForUpdate m id s) =
    match select_entry m id (t_db s) with
    | Ok e => if existsb (fun r => opt_eqb (e_original r) (Some (pg_uuid id))) (entries (t_db s))
              then Err ErrAlreadyReversed else Ok e
    | Err e => Err (if errors_is e "pgx.ErrNoRows" then ErrEntryNotFound else EWrap "lock ledger entry" e)
    end.
Proof.
  intros Hf. unfold EntryForUpdate, mbind, st_bind, no_rows_or. rewrite query_run by done.
  destruct (select_entry m id (t_db s)); [|done]. unfold wrap_st. rewrite query_run by done.
  unfold exists_reversal. cbn [t_db after with_db wrap_err].
  by destruct (existsb _ _).
Qed.

(** How a reversal of a fresh key ends when its entry cannot be reversed. *)
Definition refusal (m id : string) (db : ledger_db) : option error :=
  match select_entry m id db with
  | Err e => Some (if errors_is e "pgx.ErrNoRows" then ErrEntryNotFound else EWrap "lock ledger entry" e)
  | Ok original =>
      if existsb (fun r => opt_eqb (e_original r) (Some (pg_uuid id))) (entries db)
      then Some ErrAlreadyReversed
      else match Entry.originalEntryID original with Some _ => Some ErrReversalNotAllowed | None => None end
  end.

Lemma reverse_entry_refused ll env input m oid s e : t_faults s = [] ->
  (exists loc, ll (if String.eqb (r_TimeZone input) "" then Calendar.DefaultMerchantZone else r_TimeZone input) = Some loc) ->
  refusal m oid (t_db s) = Some e -> fst (reverse_entry ll env input m oid s) = Err e.
Proof.
  intros Hf Hz Href. destruct (NewCalendar_run _ _ Hz) as [loc Hl]. unfold reverse_entry.
  rewrite Hl. erewrite st_bind_run by reflexivity. cbn zeta.
  erewrite st_bind_run by reflexivity. pose proof (EntryForUpdate_run m oid s Hf) as Hrun.
  unfold refusal in Href. destruct (EntryForUpdate m oid s) as [r t] eqn:E. cbn in Hrun. subst r.
  destruct (select_entry m oid (t_db s)) as [original|err].
  - destruct (existsb _ _) eqn:Eb.
    + injection Href as <-. by rewrite (st_bind_err _ _ _ _ _ E).
    + rewrite (st_bind_run _ _ _ _ _ E). case_hyp Href; [|done]. injection Href as <-. done.
  - injection Href as <-. by rewrite (st_bind_err _ _ _ _ _ E).
Qed.

Lemma claimed_refused env id create s e : fst (create s) = Err e ->
  claimed_body env id create s = (Err e, snd (create s)).
Proof. unfold claimed_body, mbind, st_bind. destruct (create s) as [r t]. cbn. by intros ->. Qed.

(** On a healthy database a reversal with a new key is refused, and
    nothing at all changes, when the merchant has no entry of that id (another
    merchant's entry included): [ErrEntryNotFound]; when the entry has been
    reversed before: [ErrAlreadyReversed]; when it is itself a reversal:
    [ErrReversalNotAllowed]. *)
Theorem ReverseEntry_refused sha256 json_text ll env input db attemptID :
  healthy env -> is_ok (reverse_guards input) = true ->
  uuidGenerator (systemClock (now_attempt env)) (rnd_attempt env) = Ok attemptID ->
  fresh_key (r_MerchantID input) OperationReverse (sha256 (r_IdempotencyKey input)) attemptID db ->
  (exists loc, ll (if String.eqb (r_TimeZone input) "" then Calendar.DefaultMerchantZone else r_TimeZone input) = Some loc) ->
  let m := pg_uuid (r_MerchantID input) in let id := pg_uuid (r_OriginalEntryID input) in
  let run := ReverseEntry sha256 json_text ll env input db in
  ((forall r, r ∈ entries db -> e_id r = id -> e_merchant r <> m) -> run = (Err ErrEntryNotFound, db)) /\
  (forall original, select_entry m id db = Ok original ->
     ((exists r, r ∈ entries db /\ e_original r = Some id) -> run = (Err ErrAlreadyReversed, db)) /\
     ((forall r, r ∈ entries db -> e_original r <> Some id) -> Entry.originalEntryID original <> None ->
        run = (Err ErrReversalNotAllowed, db))).
Proof.
  intros (Hb & Hs & Hc & Hr) Hg Hid Hfresh Hz m id run.
  assert (forall e, refusal (r_MerchantID input) (r_OriginalEntryID input) db = Some e -> run = (Err e, db)) as Hrun.
  { intros e He. unfold run, ReverseEntry.
    destruct (reverse_guards input) as [[m' oid]|] eqn:E; [|done].
    apply reverse_guards_ok in E as (-> & -> & _). unfold executeIdempotent. rewrite Hid.
    unfold Execute. rewrite Hb, Hs, Hc. rewrite claim_run by (done || by right).
    by rewrite (claimed_refused _ _ _ _ e) by (by apply reverse_entry_refused). }
  unfold refusal in Hrun. split.
  - intros Hno. apply Hrun. unfold select_entry.
    destruct (List.find _ _) as [r|] eqn:Ef; [|done].
    apply find_some_in in Ef as [Hin He]. bool_to_prop. by destruct (Hno r Hin).
  - intros original Hsel. unfold m, id in Hsel. unfold select_entry in Hsel.
    rewrite !pg_uuid_idem in Hsel. fold (select_entry (r_MerchantID input) (r_OriginalEntryID input) db) in Hsel.
    rewrite Hsel in Hrun. split.
    + intros (r & Hin & Ho). apply Hrun. replace (existsb _ _) with true; [done|].
      symmetry. apply existsb_exists. exists r. rewrite <- list_elem_of_In. split; [done|]. by apply opt_eqb_spec.
    + intros Hno Hrev. apply Hrun. destruct (existsb _ _) eqn:Ex.
      * apply existsb_exists in Ex as (r & Hin & Ho). apply opt_eqb_spec in Ho.
        destruct (Hno r); [by rewrite list_elem_of_In|done].
      * by destruct (Entry.originalEntryID original).
Qed.

Lemma ReverseEntry_refused_witness : fst (sample_rev "r2" 3 sample_db2) = Err ErrAlreadyReversed.
Proof.
  assert (exists o, select_entry (pg_uuid sample_merchant) (pg_uuid sample_id1) sample_db2 = Ok o) as [o Ho]
    by (eexists; vm_compute; reflexivity).
  unfold sample_rev.
  rewrite (proj1 (proj2 (ReverseEntry_refused sample_sha256 sample_text sample_zone (sample_env 3)
    (sample_reverse "r2" sample_id1) sample_db2 _ (sample_healthy 3) eq_refl eq_refl
    (conj eq_refl eq_refl) ltac:(by eexists)) o Ho)); [done|].
  eexists. split; [right; left|reflexivity].
Defined.

(** ** A command that must succeed *)
Lemma NextPosition_run m s : t_faults s = [] -> last_position m (t_db s) + 1 <= int64_max ->
  NextPosition m s = (Ok (last_position m (t_db s) + 1),
    after s {| positions := <[pg_uuid m := last_position m (t_db s) + 1]> (positions (t_db s));
               entries := entries (t_db s); idempotency := idempotency (t_db s); outbox := outbox (t_db s) |}).
Proof.
  intros Hf Hb. apply wrap_run, stmt_run; [done|]. unfold upsert_position.
  assert (match positions (t_db s) !! pg_uuid m with None => 1 | Some q => q + 1 end
          = last_position m (t_db s) + 1) as ->
    by (unfold last_position; by destruct (positions (t_db s) !! pg_uuid m)).
  by rewrite (proj2 (Z.ltb_ge _ _) Hb).
Qed.

Lemma InsertEntry_run e s : t_faults s = [] -> entry_checks (row_of_entry e) = None ->
  entry_constraints (row_of_entry e) (entries (t_db s)) = None ->
  InsertEntry e s = (Ok tt,
    after s {| positions := positions (t_db s); entries := entries (t_db s) ++ [row_of_entry e];
               idempotency := idempotency (t_db s); outbox := outbox (t_db s) |}).
Proof.
  intros Hf Hc Hk. unfold InsertEntry.
  assert (insert_entry (row_of_entry e) (t_db s) (t_clock s) = (Ok tt,
    {| positions := positions (t_db s); entries := entries (t_db s) ++ [row_of_entry e];
       idempotency := idempotency (t_db s); outbox := outbox (t_db s) |})) as Hi
    by (unfold insert_entry; by rewrite Hc, Hk).
  by rewrite (stmt_run _ _ _ _ Hf Hi).
Qed.

Lemma insertOutbox_run env e now tp s eventID : t_faults s = [] ->
  uuidGenerator now (rnd_event env) = Ok eventID ->
  is_ok (enc_time now) = true -> is_ok (enc_time (Entry.confirmedAt e)) = true -> 0 < Entry.position e ->
  existsb (fun x => String.eqb (o_event x) (pg_uuid eventID)) (outbox (t_db s)) = false ->
  (forall x, x ∈ outbox (t_db s) -> o_aggregate x <> pg_uuid (Entry.id e)) ->
  row_of_entry e ∈ entries (t_db s) ->
  exists o, insertOutbox env e now tp s = (Ok tt,
    after s {| positions := positions (t_db s); entries := entries (t_db s);
               idempotency := idempotency (t_db s); outbox := outbox (t_db s) ++ [o] |}).
Proof.
  intros Hf Hid Ht1 Ht2 Hp Hev Hagg Hrow.
  destruct (enc_time now) as [j1|] eqn:E1; [|done]. destruct (enc_time (Entry.confirmedAt e)) as [j2|] eqn:E2; [|done].
  assert (existsb (fun x => String.eqb (o_aggregate x) (pg_uuid (Entry.id e)) &&
                            String.eqb (o_type x) entryEventType) (outbox (t_db s)) = false) as Hno.
  { apply not_true_iff_false. intros (x & Hx & Hb)%existsb_exists. bool_to_prop.
    destruct (Hagg x); [by apply list_elem_of_In|done]. }
  assert (existsb (fun r => String.eqb (e_merchant r) (pg_uuid (Entry.merchantID e)) &&
                 String.eqb (e_id r) (pg_uuid (Entry.id e)) && (e_position r =? Entry.position e))
            (entries (t_db s)) = true) as Hfk.
  { apply existsb_exists. exists (row_of_entry e). split; [by apply list_elem_of_In|].
    cbn. by rewrite !String.eqb_refl, Z.eqb_refl. }
  unfold insertOutbox. rewrite Hid. erewrite st_bind_run by reflexivity.
  unfold event_payload. rewrite E1, E2. erewrite st_bind_run by reflexivity.
  eexists. apply wrap_run, stmt_run; [done|]. unfold insert_outbox.
  cbn [ev_Position EventID EntryID ev_MerchantID o_event o_aggregate o_type o_merchant o_position EventType].
  rewrite (proj2 (Z.ltb_lt 0 _) Hp), Hev, Hno, Hfk. reflexivity.
Qed.

Lemma complete_run a e resp t l s : t_faults s = [] ->
  idempotency (t_db s) = (l ++ [open_record a])%list ->
  existsb (fun x => String.eqb (i_attempt x) (pg_uuid (AttemptID a))) l = false ->
  row_of_entry e ∈ entries (t_db s) -> pg_uuid (Entry.merchantID e) = pg_uuid (at_MerchantID a) ->
  fst (CompleteIdempotency (AttemptID a) (Entry.id e) resp t s) = Ok tt.
Proof.
  intros Hf Hl Hfresh Hrow Hm. unfold CompleteIdempotency, mbind, st_bind, wrap_st.
  unfold stmt. rewrite Hf. unfold update_idempotency. rewrite Hl.
  set (hit := attempt_open (AttemptID a)).
  assert (forall x, x ∈ l -> hit x = false) as Hmiss.
  { intros x Hx. unfold hit, attempt_open. by rewrite (existsb_false_forall _ _ Hfresh x Hx). }
  assert (hit (open_record a) = true) as Hhit by (unfold hit, attempt_open; cbn; by rewrite String.eqb_refl).
  assert (existsb (fun e0 => String.eqb (e_merchant e0) (i_merchant (open_record a)) &&
                             String.eqb (e_id e0) (pg_uuid (Entry.id e))) (entries (t_db s)) = true) as Hfk.
  { apply existsb_exists. exists (row_of_entry e). split; [by apply list_elem_of_In|].
    cbn. by rewrite Hm, !String.eqb_refl. }
  rewrite existsb_app. cbn [existsb]. rewrite Hhit, Hfk.
  replace (existsb _ l) with false.
  2:{ symmetry. apply not_true_iff_false. intros (x & Hx & Hb)%existsb_exists.
      rewrite Hmiss in Hb; [done|by apply list_elem_of_In]. }
  cbn [orb andb negb wrap_err]. rewrite List.filter_app. cbn [List.filter]. rewrite Hhit.
  replace (List.filter hit l) with (@nil idem_row); [done|].
  symmetry. clear -Hmiss. induction l as [|x l IH]; [done|]. cbn.
  rewrite (Hmiss x) by left. apply IH. intros y Hy. apply Hmiss. by right.
Qed.

(** A command whose input is valid and whose identifiers are new. *)
Record acceptable (sha256 : string -> string) (ll : string -> option Calendar.location) (env : cmd_env)
    (input : CreateEntryInput) (db : ledger_db) (date : Calendar.business_date) : Prop := {
  ac_env : healthy env;
  ac_guards : is_ok (create_guards input) = true;
  ac_type : is_ok (Entry.ParseEntryType (c_Type input)) = true;
  ac_amount : 0 < c_AmountMinor input <= int64_max;
  ac_currency : c_Currency input = Money.CurrencyBRL;
  ac_date : exists req cal, optionalDate (c_BusinessDate input) = Ok req /\
    Calendar.NewCalendar ll (c_TimeZone input) = Ok cal /\
    Calendar.Resolve cal (systemClock (now_create env)) req = Ok date;
  ac_date_set : Calendar.value date <> 0;
  ac_now : systemClock (now_create env) <> 0;
  ac_printable : printable_date (systemClock (now_create env) / day_ns);
  ac_length : rune_count (c_Description input) <= 500;
  ac_text : pg_text (c_Description input) = true;
  ac_ids : exists attemptID raw entryID eventID,
    uuidGenerator (systemClock (now_attempt env)) (rnd_attempt env) = Ok attemptID /\
    fresh_key (c_MerchantID input) OperationCreate (sha256 (c_IdempotencyKey input)) attemptID db /\
    rnd_entry env = Ok raw /\ length raw = 16%nat /\ Forall is_byte_value raw /\
    uuidGenerator (systemClock (now_create env)) (rnd_entry env) = Ok entryID /\
    pg_uuid entryID ∉ map e_id (entries db) /\
    uuidGenerator (systemClock (now_create env)) (rnd_event env) = Ok eventID /\
    pg_uuid eventID ∉ map o_event (outbox db);
  ac_room : last_position (c_MerchantID input) db < int64_max }.

Lemma ParseEntryType_ok v t : Entry.ParseEntryType v = Ok t -> is_entry_type t.
Proof.
  unfold Entry.ParseEntryType. intros H. case_hyp H; [done|]. injection H as <-.
  apply andb_false_iff in Heqb as [E|E]; bool_to_prop; [by left|by right].
Qed.

Lemma not_in_existsb {A} (f : A -> string) l v : v ∉ map f l -> existsb (fun x => String.eqb (f x) v) l = false.
Proof.
  intros H. apply not_true_iff_false. intros (x & Hx & E)%existsb_exists. apply String.eqb_eq in E as <-.
  destruct H. apply list_elem_of_In, List.in_map, Hx.
Qed.

(** The next position of a merchant is free. *)
Lemma next_position_free db m p : ledger_inv db -> p = recorded_at db m + 1 ->
  existsb (fun x => String.eqb (e_merchant x) m && (e_position x =? p)) (entries db) = false.
Proof.
  intros Hi Hp. apply not_true_iff_false. intros (x & Hx & E)%existsb_exists. bool_to_prop.
  assert (e_position x ∈ upto (recorded_at db m)) as Hin.
  { rewrite <- (inv_positions _ Hi). apply list_elem_of_In, List.in_map, List.filter_In.
    split; [done|]. unfold of_merchant. by apply String.eqb_eq. }
  unfold upto in Hin. apply in_map in Hin as (n & Hn & Hs). apply list_elem_of_In, in_seq in Hs.
  pose proof (inv_range _ Hi m). lia.
Qed.

Lemma checks_pass e : wf_entry e -> pg_text (Entry.description e) = true ->
  Entry.originalEntryID e = None -> entry_checks (row_of_entry e) = None.
Proof.
  intros Hw Ht Ho. destruct Hw as [_ _ Hp Hty Ha _ _ Hd]. unfold entry_checks, row_of_entry, Money.AmountMinor.
  cbn [e_id e_merchant e_position e_type e_amount e_currency e_date e_description e_confirmed e_original].
  rewrite Ho. cbn [option_map opt_eqb].
  assert (default "" (if String.eqb (Entry.description e) "" then None else Some (Entry.description e))
          = Entry.description e) as -> by (by destruct (String.eqb_spec (Entry.description e) "")).
  rewrite Ht, (proj2 (Z.ltb_lt _ _) Ha), (proj2 (Z.ltb_ge _ _) Hd), (proj2 (Z.ltb_lt _ _) Hp). cbn.
  by destruct Hty as [-> | ->].
Qed.

(** The callback of an acceptable command, on the claimed database. *)
Lemma create_entry_run sha256 ll env input db date s : acceptable sha256 ll env input db date ->
  ledger_inv db -> t_faults s = [] -> positions (t_db s) = positions db -> entries (t_db s) = entries db ->
  outbox (t_db s) = outbox db ->
  exists e s', create_entry ll env input (c_MerchantID input) s = (Ok (resultFromEntry e), s') /\
    t_faults s' = [] /\ idempotency (t_db s') = idempotency (t_db s) /\
    row_of_entry e ∈ entries (t_db s') /\ Entry.merchantID e = c_MerchantID input /\
    is_id (Entry.id e) /\ Entry.confirmedAt e = systemClock (now_create env).
Proof.
  intros [(_ & _ & _ & _) Hg Hty Ham Hcur (req & cal & Hreq & Hcal & Hres) Hdate Hnow Hpr Hlen Htext Hids Hroom]
    Hi Hf Hpos Hent Hout.
  destruct Hids as (attemptID & raw & entryID & eventID & _ & _ & Hraw & Hrl & Hrb & Hid & Hfresh & Hev & Hevf).
  set (now := systemClock (now_create env)) in *. set (m := c_MerchantID input) in *.
  destruct (Entry.ParseEntryType (c_Type input)) as [ty|] eqn:Ety; [|done].
  assert (Money.NewMoney (c_AmountMinor input) (c_Currency input) = Ok (Money.Build_money (c_AmountMinor input))) as Hm.
  { unfold Money.NewMoney. rewrite Hcur. change (negb _) with false. cbn iota.
    by rewrite (proj2 (Z.leb_gt (c_AmountMinor input) 0)) by lia. }
  set (p := last_position m db + 1).
  assert (last_position m (t_db s) = last_position m db) as Hlast by (unfold last_position; by rewrite Hpos).
  set (d := {| Entry.d_ID := entryID; Entry.d_MerchantID := m; Entry.d_Position := p; Entry.d_Type := ty;
    Entry.d_Money := Money.Build_money (c_AmountMinor input); Entry.d_BusinessDate := date;
    Entry.d_Description := c_Description input; Entry.d_ConfirmedAt := now; Entry.d_OriginalEntryID := None |}).
  assert (is_id entryID) as Hidv by (rewrite Hraw in Hid; eapply NewUUIDv7_id; eauto).
  assert (is_id m) as Hmid.
  { destruct (create_guards input) eqn:E; [|done]. destruct (create_guards_ok _ _ E) as (E1 & E2 & _).
    by rewrite E1 in E2. }
  assert (wf_entry (entry_of d)) as Hw.
  { pose proof (inv_range _ Hi (pg_uuid m)). fold (last_position m db) in *.
    split; cbn; try done; try lia; [by intros ->|by intros ->| |by eapply ParseEntryType_ok].
    unfold p. change (recorded_at db (pg_uuid m)) with (last_position m db) in *. lia. }
  assert (Entry.NewEntry d = Ok (entry_of d)) as Hnew by (by apply NewEntry_ok_iff).
  assert (entry_constraints (row_of_entry (entry_of d)) (entries (t_db s)) = None) as Hk.
  { rewrite Hent. unfold entry_constraints. change (e_original (row_of_entry (entry_of d))) with (@None string).
    change (e_id (row_of_entry (entry_of d))) with (pg_uuid entryID).
    change (e_merchant (row_of_entry (entry_of d))) with (pg_uuid m).
    change (e_position (row_of_entry (entry_of d))) with p.
    by rewrite (not_in_existsb e_id _ _ Hfresh), (next_position_free db (pg_uuid m) p Hi eq_refl). }
  assert (entry_checks (row_of_entry (entry_of d)) = None) as Hc by (by apply checks_pass).
  assert (enc_time now = Ok (JStr (format_rfc3339 now))) as Htime.
  { unfold enc_time. unfold printable_date in Hpr. rewrite (proj2 (Z.leb_le 0 _)), (proj2 (Z.leb_le _ 9999)); [done|lia..]. }
  exists (entry_of d).
  destruct (insertOutbox_run env (entry_of d) now (c_Traceparent input)
    (after s {| positions := <[pg_uuid m := p]> (positions (t_db s)); entries := entries (t_db s) ++ [row_of_entry (entry_of d)];
               idempotency := idempotency (t_db s); outbox := outbox (t_db s) |}) eventID) as [o Ho]; try done.
  - by rewrite Htime.
  - cbn. by rewrite Htime.
  - cbn. apply Hw.
  - cbn. rewrite Hout. by apply not_in_existsb.
  - cbn. rewrite Hout. intros x Hx E. destruct Hfresh. rewrite <- E.
    assert (outbox_corr x ∈ map entry_corr (entries db)) as Hin
      by (rewrite <- (inv_outbox _ Hi); by apply list_elem_of_In, List.in_map, list_elem_of_In).
    apply in_map in Hin as (r & Hr & Hin). unfold outbox_corr, entry_corr in Hr. injection Hr as Hr _ _.
    rewrite Hr. by apply list_elem_of_In, List.in_map, list_elem_of_In.
  - cbn. apply in_snoc. by right.
  - eexists. split.
    + unfold create_entry. rewrite Ety, Hm, Hreq, Hcal. do 4 (erewrite st_bind_run by reflexivity). cbn zeta.
      fold now. rewrite Hres. erewrite st_bind_run by reflexivity.
      erewrite st_bind_run by (apply NextPosition_run; [done|rewrite Hlast; lia]).
      rewrite Hid. erewrite st_bind_run by reflexivity. rewrite Hlast. fold p. fold d. rewrite Hnew.
      erewrite st_bind_run by reflexivity.
      erewrite st_bind_run by (apply InsertEntry_run; [done|exact Hc|exact Hk]).
      erewrite st_bind_run by exact Ho. reflexivity.
    + splits; try done. cbn. apply in_snoc. by right.
Qed.

Lemma acceptable_succeeds sha256 json_text ll db env input date : ledger_inv db ->
  acceptable sha256 ll env input db date ->
  is_ok (fst (CreateEntry sha256 json_text ll env input db)) = true.
Proof.
  intros Hi Hac. pose proof Hac as
    [(Hb & Hs & Hc & Hr) Hg _ _ _ _ _ _ Hpr _ _ (attemptID & raw & entryID & eventID & Hat & Hfresh & _) _].
  unfold CreateEntry. destruct (create_guards input) as [m|] eqn:E; [|done].
  destruct (create_guards_ok _ _ E) as [-> _]. unfold executeIdempotent. rewrite Hat.
  unfold Execute. rewrite Hb, Hs, Hc. rewrite claim_run by (done || by left).
  set (a := {| AttemptID := attemptID |}). set (s1 := after _ _).
  destruct (create_entry_run sha256 ll env input db date s1 Hac Hi eq_refl eq_refl eq_refl eq_refl)
    as (e & s2 & Hrun & Hf2 & Hidem & Hrow & Hmer & Hid & Hconf).
  assert (exists j, marshal_result (resultFromEntry e) = Ok j) as [j Hj].
  { unfold marshal_result. cbn [x_ConfirmedAt resultFromEntry]. rewrite Hconf. unfold enc_time.
    unfold printable_date in Hpr. rewrite (proj2 (Z.leb_le 0 _)), (proj2 (Z.leb_le _ 9999)) by lia.
    by eexists. }
  pose proof (complete_run a e j (systemClock (now_complete env)) (idempotency db) s2 Hf2 Hidem (proj2 Hfresh) Hrow
    ltac:(by rewrite Hmer)) as Hdone.
  unfold claimed_body. erewrite st_bind_run by exact Hrun. rewrite Hj.
  erewrite st_bind_run by reflexivity. cbn [x_ID resultFromEntry]. rewrite Hid.
  erewrite st_bind_run by reflexivity.
  destruct (CompleteIdempotency _ _ _ _ s2) as [r s3] eqn:Ec. cbn in Hdone. subst r.
  by erewrite st_bind_run by exact Ec.
Qed.

(** C7: a [CreateEntry] with valid input and an unused key, on a working
    database reached by earlier commands, succeeds: it returns the new entry
    at the merchant's next position and adds the entry, its event and its
    record. *)
Theorem CreateEntry_succeeds sha256 json_text ll db env input date :
  steps (ledger_step sha256 json_text ll) empty_db db -> acceptable sha256 ll env input db date ->
  exists e o i, CreateEntry sha256 json_text ll env input db = (Ok (resultFromEntry e), extend db e o i) /\
    created_from input (c_MerchantID input) e /\
    Entry.position e = last_position (c_MerchantID input) db + 1 /\ event_of e o.
Proof.
  intros Hreach Hac. destruct (steps_spec _ _ _ _ _ Hreach empty_inv) as (Hi & _ & _).
  pose proof (acceptable_succeeds sha256 json_text ll db env input date Hi Hac) as Hok.
  pose proof (CreateEntry_run sha256 json_text ll env input db) as He.
  destruct (CreateEntry sha256 json_text ll env input db) as [[x|] db'] eqn:Er; [|done].
  destruct He as [(e & o & i & _ & Hf & Ho & _ & _ & Ha & -> & Hx) | [_ Hsel]].
  - destruct Hx as [[= ->] | (ce & _ & [=])]. exists e, o, i. splits; try done.
    rewrite (ad_position _ _ _ _ Ha). by rewrite (proj1 Hf).
  - destruct (Hsel x eq_refl) as (rec & (i & Hfind & _)%select_some & _).
    destruct (ac_ids _ _ _ _ _ _ Hac) as (? & _ & _ & _ & _ & [Hfresh _] & _).
    apply List.find_some in Hfind. rewrite <- not_true_iff_false in Hfresh. destruct Hfresh.
    apply existsb_exists. by exists i.
Qed.

Lemma sample_acceptable : acceptable sample_sha256 sample_zone (sample_env 2) (sample_create "k2" 250) sample_db1
  (Calendar.Build_business_date (739000 * day_ns)).
Proof.
  split.
  - apply sample_healthy.
  - vm_compute; reflexivity.
  - vm_compute; reflexivity.
  - split; [reflexivity|]. by apply Z.leb_le.
  - reflexivity.
  - do 2 eexists. splits; [reflexivity|reflexivity|vm_compute; reflexivity].
  - by vm_compute.
  - by vm_compute.
  - split; by apply Z.leb_le.
  - by apply Z.leb_le.
  - vm_compute; reflexivity.
  - do 4 eexists. splits; try (vm_compute; reflexivity).
    + split; vm_compute; reflexivity.
    + repeat (apply List.Forall_cons; [unfold is_byte_value; lia|]). apply List.Forall_nil.
    + apply not_elem_of_cons. split; [by vm_compute|apply not_elem_of_nil].
    + apply not_elem_of_cons. split; [by vm_compute|apply not_elem_of_nil].
  - by apply Z.ltb_lt.
Qed.

Lemma CreateEntry_succeeds_witness :
  exists e o i, CreateEntry sample_sha256 sample_text sample_zone (sample_env 2) (sample_create "k2" 250) sample_db1
    = (Ok (resultFromEntry e), extend sample_db1 e o i) /\ Entry.position e = 2.
Proof.
  destruct (CreateEntry_succeeds sample_sha256 sample_text sample_zone sample_db1 (sample_env 2)
    (sample_create "k2" 250) _ sample_steps1 sample_acceptable) as (e & o & i & H & _ & Hp & _).
  exists e, o, i. split; [exact H|]. rewrite Hp. vm_compute. reflexivity.
Defined.
