(* ===== verification/LedgerTx.v ===== *)
(** * The Ledger's commands as programs over statements

    The transaction of a command is a sequence of SQL statements, and other
    transactions run between them.  Here the callbacks of
    application/service.go are programs over the statements of
    adapters/outbound/postgres/repository.go; run without interruption they
    are the callbacks of LedgerService.v, so LedgerConcurrency.v may interleave
    the programs and compare with the commands. *)

From S2P Require Import Prelude.
From S2P Require Import GoStrings.
From S2P Require Import Json.
From S2P Require Import LedgerDomain.
From S2P Require Import TraceContext.
From S2P Require Import LedgerDB.
From S2P Require Import LedgerService.
From S2P Require Import LedgerCommands.
From Stdlib Require Import ZArith Lia.
Open Scope string_scope.
Open Scope Z_scope.

(** ** Statements *)
Inductive request : Type :=
  | QClaim (a : IdempotencyAttempt)
  | QRecord (a : IdempotencyAttempt)
  | QComplete (attempt entry : string) (response : json) (completedAt : Z)
  | QNext (merchant : string)
  | QEntry (e : Entry.entry)
  | QLock (merchant id : string)
  | QReversed (id : string)
  | QEvent (ev : OutboxEvent).

Definition answer (q : request) : Type :=
  match q with
  | QClaim _ | QComplete _ _ _ _ | QNext _ => Z
  | QRecord _ => IdempotencyRecord
  | QEntry _ | QEvent _ => unit
  | QLock _ _ => Entry.entry
  | QReversed _ => bool
  end.

Definition exec (q : request) (db : ledger_db) (clk : Z) : result (answer q) * ledger_db :=
  match q with
  | QClaim a => insert_idempotency a db clk
  | QRecord a => (select_idempotency (at_MerchantID a) (Operation a) (KeyHash a) db, db)
  | QComplete attempt entry response at_ => update_idempotency attempt entry response at_ db clk
  | QNext m => upsert_position m db clk
  | QEntry e => insert_entry (row_of_entry e) db clk
  | QLock m id => (select_entry m id db, db)
  | QReversed id => (exists_reversal id db, db)
  | QEvent ev => insert_outbox ev db clk
  end.

(** ** Programs *)
Inductive prog (A : Type) : Type :=
  | Done (r : result A)
  | Call (q : request) (k : result (answer q) -> prog A).
Arguments Done {A} r.
Arguments Call {A} q k.

#[global] Instance prog_ret : MRet prog := fun A a => Done (Ok a).
#[global] Instance prog_bind : MBind prog :=
  fun A B f => fix bind p :=
    match p with
    | Done (Ok a) => f a
    | Done (Err e) => Done (Err e)
    | Call q k => Call q (fun r => bind (k r))
    end.

Definition ask (context : string) (q : request) : prog (answer q) := Call q (fun r => Done (wrap_err context r)).

(** Uninterrupted, a program is a callback. *)
Fixpoint denote {A} (p : prog A) : St txs A :=
  match p with
  | Done r => lift r
  | Call q k => fun s => let '(r, s') := stmt (exec q) s in denote (k r) s'
  end.

Definition runs {A} (p : prog A) (m : St txs A) : Prop := forall s, denote p s = m s.

Lemma runs_done {A} (r : result A) : runs (Done r) (lift r).
Proof. done. Qed.
Lemma runs_ret {A} (a : A) : runs (mret a) (mret a).
Proof. done. Qed.
Lemma denote_bind {A B} (p : prog A) (f : A -> prog B) s :
  denote (p ≫= f) s = (denote p ≫= fun a => denote (f a)) s.
Proof.
  revert s. induction p as [[a|e]|q k IH]; intros s; [done|done|]. unfold mbind, st_bind in *. cbn.
  destruct (stmt (exec q) s) as [r t]. apply IH.
Qed.
Lemma runs_bind {A B} (p : prog A) (f : A -> prog B) m g :
  runs p m -> (forall a, runs (f a) (g a)) -> runs (p ≫= f) (m ≫= g).
Proof.
  intros Hp Hf s. rewrite denote_bind. unfold mbind, st_bind. rewrite (Hp s). destruct (m s) as [[a|] t]; [apply Hf|done].
Qed.
Lemma runs_ask context q m : stmt (exec q) = m -> runs (ask context q) (wrap_st context m).
Proof. intros <- s. cbn. unfold wrap_st. by destruct (stmt (exec q) s). Qed.

Create HintDb programs discriminated.
#[export] Hint Resolve runs_done runs_ret : programs.
Ltac asks := match goal with |- runs (ask ?c ?q) _ => by apply (runs_ask c q) end.
Ltac program :=
  repeat (first [solve [auto 1 with programs] | asks | apply runs_bind; [|intros ?]
                |match goal with |- runs (if ?b then _ else _) _ => destruct b eqn:? end]).

(** ** repository.go *)
Definition ClaimIdempotency_p (a : IdempotencyAttempt) : prog (IdempotencyRecord * bool) :=
  rows ← ask "claim idempotency" (QClaim a);
  if rows =? 1 then mret ({| RequestHash := ""; ResponsePayload := None |}, true)
  else record ← ask "read idempotency" (QRecord a); mret (record, false).
Definition CompleteIdempotency_p (attempt entry : string) (response : json) (completedAt : Z) : prog unit :=
  rows ← ask "complete idempotency" (QComplete attempt entry response completedAt);
  if negb (rows =? 1) then Done (Err (EMsg "idempotency attempt was not completed")) else mret tt.
Definition NextPosition_p (merchant : string) : prog Z := ask "advance merchant position" (QNext merchant).
Definition entry_error (err : error) : error :=
  match errors_as as_pg err with
  | Some (code, name) =>
      if String.eqb code "23505" && String.eqb name "ledger_entry_one_reversal_per_original"
      then ErrAlreadyReversed else EWrap "insert ledger entry" err
  | None => EWrap "insert ledger entry" err
  end.
Definition InsertEntry_p (e : Entry.entry) : prog unit :=
  Call (QEntry e) (fun r => Done (match r with Ok _ => Ok tt | Err err => Err (entry_error err) end)).
Definition EntryForUpdate_p (merchant id : string) : prog Entry.entry :=
  entry ← Call (QLock merchant id) (fun r => Done (match r with
            | Ok e => Ok e
            | Err err => Err (if errors_is err "pgx.ErrNoRows" then ErrEntryNotFound else EWrap "lock ledger entry" err)
            end));
  exists_ ← ask "check existing reversal" (QReversed id);
  if (exists_ : bool) then Done (Err ErrAlreadyReversed) else mret entry.
Definition InsertOutbox_p (ev : OutboxEvent) : prog unit := ask "insert outbox event" (QEvent ev).

Lemma runs_claim a : runs (ClaimIdempotency_p a) (ClaimIdempotency a).
Proof. unfold ClaimIdempotency_p, ClaimIdempotency. program. Qed.
Lemma runs_complete attempt entry response at_ :
  runs (CompleteIdempotency_p attempt entry response at_) (CompleteIdempotency attempt entry response at_).
Proof. unfold CompleteIdempotency_p, CompleteIdempotency. program. Qed.
Lemma runs_next m : runs (NextPosition_p m) (NextPosition m).
Proof. apply (runs_ask _ (QNext m)). done. Qed.
Lemma runs_entry e : runs (InsertEntry_p e) (InsertEntry e).
Proof.
  intros s. unfold InsertEntry. cbn. unfold entry_error.
  change (exec (QEntry e)) with (insert_entry (row_of_entry e)).
  destruct (stmt (insert_entry (row_of_entry e)) s) as [[[]|err] t]; [done|]. cbn.
  destruct (errors_as as_pg err) as [[code name]|]; [|done]. by destruct (_ && _).
Qed.
Lemma runs_lock m id : runs (EntryForUpdate_p m id) (EntryForUpdate m id).
Proof.
  unfold EntryForUpdate_p, EntryForUpdate. apply runs_bind; [|intros e; program].
  intros s. cbn. unfold no_rows_or, query. by destruct (stmt _ s) as [[]].
Qed.
Lemma runs_outbox ev : runs (InsertOutbox_p ev) (InsertOutbox ev).
Proof. apply (runs_ask _ (QEvent ev)). done. Qed.

#[export] Hint Resolve runs_claim runs_complete runs_next runs_entry runs_lock runs_outbox : programs.

(** ** service.go *)
Section Service.
Context (sha256 : string -> string) (json_text : json -> string).
Context (load_location : string -> option Calendar.location).

Definition insertOutbox_p (env : cmd_env) (entry : Entry.entry) (now : Z) (traceparent : string) : prog unit :=
  eventID ← Done (uuidGenerator now (rnd_event env));
  payload ← Done (event_payload eventID entry now traceparent);
  InsertOutbox_p {| EventID := eventID; EntryID := Entry.id entry; ev_MerchantID := Entry.merchantID entry;
                    ev_Position := Entry.position entry; EventType := entryEventType;
                    OccurredAt := now; Payload := payload |}.

Definition create_entry_p (env : cmd_env) (input : CreateEntryInput) (merchantID : string) : prog EntryResult :=
  entryType ← Done (Entry.ParseEntryType (c_Type input));
  money ← Done (Money.NewMoney (c_AmountMinor input) (c_Currency input));
  requestedDate ← Done (optionalDate (c_BusinessDate input));
  calendar ← Done (Calendar.NewCalendar load_location (c_TimeZone input));
  let now := systemClock (now_create env) in
  businessDate ← Done (Calendar.Resolve calendar now requestedDate);
  position ← NextPosition_p merchantID;
  entryID ← Done (uuidGenerator now (rnd_entry env));
  entry ← Done (Entry.NewEntry {| Entry.d_ID := entryID; Entry.d_MerchantID := merchantID;
    Entry.d_Position := position; Entry.d_Type := entryType; Entry.d_Money := money;
    Entry.d_BusinessDate := businessDate; Entry.d_Description := c_Description input;
    Entry.d_ConfirmedAt := now; Entry.d_OriginalEntryID := None |});
  _ ← InsertEntry_p entry;
  _ ← insertOutbox_p env entry now (c_Traceparent input);
  mret (resultFromEntry entry).

Definition reverse_entry_p (env : cmd_env) (input : ReverseEntryInput) (merchantID originalID : string) : prog EntryResult :=
  calendar ← Done (Calendar.NewCalendar load_location (r_TimeZone input));
  let now := systemClock (now_create env) in
  businessDate ← Done (Calendar.Resolve calendar now None);
  original ← EntryForUpdate_p merchantID originalID;
  _ ← Done (match Entry.originalEntryID original with Some _ => Err ErrReversalNotAllowed | None => Ok tt end);
  position ← NextPosition_p merchantID;
  reversalID ← Done (uuidGenerator now (rnd_entry env));
  reversal ← Done (Entry.NewReversal reversalID position original businessDate now);
  _ ← InsertEntry_p reversal;
  _ ← insertOutbox_p env reversal now (r_Traceparent input);
  mret (resultFromEntry reversal).

Definition idempotent_body_p (env : cmd_env) (attempt : IdempotencyAttempt) (create : prog EntryResult) : prog EntryResult :=
  claim ← ClaimIdempotency_p attempt;
  let '(record, claimed) := (claim : IdempotencyRecord * bool) in
  if claimed then
    result ← create;
    response ← Done (marshal_result result);
    entryID ← Done (ID.ParseID (x_ID result));
    _ ← CompleteIdempotency_p (AttemptID attempt) entryID response (systemClock (now_complete env));
    mret result
  else Done (replay record (at_RequestHash attempt)).

Lemma runs_insertOutbox env e now tp : runs (insertOutbox_p env e now tp) (insertOutbox env e now tp).
Proof. unfold insertOutbox_p, insertOutbox. program. Qed.
#[local] Hint Resolve runs_insertOutbox : programs.

Lemma runs_create env input m : runs (create_entry_p env input m) (create_entry load_location env input m).
Proof. unfold create_entry_p, create_entry. cbv zeta. program. Qed.
Lemma runs_reverse env input m id : runs (reverse_entry_p env input m id) (reverse_entry load_location env input m id).
Proof. unfold reverse_entry_p, reverse_entry. cbv zeta. program. Qed.
Lemma runs_body env a p m : runs p m -> runs (idempotent_body_p env a p) (idempotent_body env a m).
Proof.
  intros Hp. unfold idempotent_body_p, idempotent_body, claimed_body. apply runs_bind; [program|].
  intros [record []]; program.
Qed.
End Service.
