(* ===== verification/LedgerLocks.v ===== *)
(** * What the Ledger's transactions lock

    The row locks and the in-progress unique keys the statements of
    LedgerTx.v take and wait for, and the order in which the callbacks of
    CreateEntry and ReverseEntry take them. *)

From S2P Require Import Prelude.
From S2P Require Import GoStrings.
From S2P Require Import Json.
From S2P Require Import LedgerDomain.
From S2P Require Import TraceContext.
From S2P Require Import LedgerDB.
From S2P Require Import LedgerService.
From S2P Require Import LedgerCommands.
From S2P Require Import LedgerTx.
From Stdlib Require Import ZArith Lia.
Open Scope string_scope.
Open Scope Z_scope.

(** A key of a unique index an uncommitted insert holds, or a row locked by an
    upsert or by FOR UPDATE. *)
Inductive key : Type :=
  | KScope (merchant operation hash : string)
  | KAttempt (attempt : string)
  | KRow (entry : string)
  | KPosition (merchant : string)
  | KEntry (id : string)
  | KPlace (merchant : string) (position : Z)
  | KReversal (original : string)
  | KEvent (event : string)
  | KAggregate (aggregate type : string).
#[global] Instance key_eq_dec : EqDecision key.
Proof. solve_decision. Defined.

Definition entry_keys (r : entry_row) : list key :=
  KEntry (e_id r) :: KPlace (e_merchant r) (e_position r) ::
  match e_original r with Some o => [KReversal o; KRow o] | None => [] end.

(** What a statement that answers [a] waits for.  An INSERT waits for the
    uncommitted inserts of its unique keys, the upsert and FOR UPDATE for
    their row, and the foreign key of a reversal (FOR KEY SHARE) for the
    FOR UPDATE of its original. *)
Definition waits (q : request) : answer q -> list key :=
  match q with
  | QClaim a => fun rows =>
      KScope (pg_uuid (at_MerchantID a)) (Operation a) (KeyHash a) ::
      (if rows =? 1 then [KAttempt (pg_uuid (AttemptID a))] else [])
  | QNext m => fun _ => [KPosition (pg_uuid m)]
  | QEntry e => fun _ => entry_keys (row_of_entry e)
  | QLock _ id => fun _ => [KRow (pg_uuid id)]
  | QEvent ev => fun _ => [KEvent (pg_uuid (EventID ev)); KAggregate (pg_uuid (EntryID ev)) (EventType ev)]
  | QRecord _ | QComplete _ _ _ _ | QReversed _ => fun _ => []
  end.

(** What it then holds until the transaction ends: all of that, except that
    ON CONFLICT DO NOTHING locks nothing when it does nothing. *)
Definition locks (q : request) : answer q -> list key :=
  match q with
  | QClaim a => fun rows => if rows =? 1 then waits (QClaim a) 1 else []
  | q => waits q
  end.

(** ** The order of a transaction's statements *)
Definition level (q : request) : nat :=
  match q with
  | QClaim _ => 0 | QRecord _ => 1 | QLock _ _ => 2 | QReversed _ => 3 | QNext _ => 4
  | QEntry _ => 5 | QEvent _ => 6 | QComplete _ _ _ _ => 7
  end%nat.
Definition key_level (k : key) : nat :=
  match k with
  | KScope _ _ _ | KAttempt _ => 0 | KRow _ => 2 | KPosition _ => 4
  | KEntry _ | KPlace _ _ | KReversal _ => 5 | KEvent _ | KAggregate _ _ => 6
  end%nat.

(** The existence of a reversal is only asked, and a reversal only inserted,
    by a transaction that has locked the original. *)
Definition demand (q : request) (L : list key) : Prop :=
  match q with
  | QReversed id => KRow (pg_uuid id) ∈ L
  | QEntry e => match e_original (row_of_entry e) with Some o => KRow o ∈ L | None => True end
  | _ => True
  end.

Lemma locks_waits q a k : k ∈ locks q a -> k ∈ waits q a.
Proof.
  destruct q; try done. cbn. destruct (a =? 1); [done|]. by intros []%elem_of_nil.
Qed.

Lemma waits_level q a L k : demand q L -> k ∈ waits q a -> key_level k = level q \/ k ∈ L.
Proof.
  intros Hd Hk. destruct q; cbn -[entry_keys row_of_entry] in *.
  - left. destruct (a =? 1); set_solver.
  - set_solver.
  - set_solver.
  - left. set_solver.
  - unfold entry_keys in Hk. destruct (e_original (row_of_entry e)) as [o|]; [|left; set_solver].
    repeat (apply elem_of_cons in Hk as [->|Hk]; [by auto|]). set_solver.
  - left. set_solver.
  - set_solver.
  - left. set_solver.
Qed.

(** A row read for update is the one asked for. *)
Definition reply (q : request) : answer q -> Prop :=
  match q with
  | QLock _ id => fun e => pg_uuid (Entry.id e) = pg_uuid id
  | _ => fun _ => True
  end.

Lemma exec_reply q db clk a db' : exec q db clk = (Ok a, db') -> reply q a.
Proof.
  destruct q; try done. cbn. intros [= H _]. apply select_entry_ok in H as (row & _ & _ & Hid & Hs).
  apply scanEntry_ok in Hs as (-> & _). rewrite Hid. apply pg_uuid_idem.
Qed.

(** Holding [L] and past level [n], the program [p] takes its locks in order
    and returns after its first failed statement; where it returns a value,
    [Q] holds of the value, the locks and the level. *)
Fixpoint guarded {A} (L : list key) (n : nat) (p : prog A) (Q : A -> list key -> nat -> Prop) : Prop :=
  match p with
  | Done (Ok a) => Q a L n
  | Done (Err _) => True
  | Call q k =>
      (n <= level q)%nat /\ demand q L /\ (forall e, exists e', k (Err e) = Done (Err e')) /\
      forall a, reply q a -> guarded (locks q a ++ L)%list (S (level q)) (k (Ok a)) Q
  end.

Lemma guarded_bind {A B} (p : prog A) (f : A -> prog B) L n Q :
  guarded L n p (fun a L' n' => guarded L' n' (f a) Q) -> guarded L n (p ≫= f) Q.
Proof.
  revert L n. induction p as [[a|e]|q k IH]; intros L n H; [done|done|].
  destruct H as (Hn & Hd & He & Hk). split; [done|split; [done|split]].
  - intros e. destruct (He e) as [e' E]. exists e'. cbn. unfold mbind in E |- *. by rewrite E.
  - intros a Ha. by apply IH, Hk.
Qed.

Lemma guarded_done {A B} (r : result A) (f : A -> prog B) L n Q :
  (forall a, r = Ok a -> guarded L n (f a) Q) -> guarded L n (Done r ≫= f) Q.
Proof. destruct r as [a|]; intros H; [by apply H|done]. Qed.

Lemma guarded_ask context q L n Q :
  (n <= level q)%nat -> demand q L -> (forall a, Q a (locks q a ++ L)%list (S (level q))) ->
  guarded L n (ask context q) Q.
Proof. intros Hn Hd HQ. cbn. splits; try done. by eexists. Qed.

(** ** The callbacks *)
Lemma guarded_claim a L Q :
  (forall record L', Q (record, true) L' 1%nat) -> (forall record L', Q (record, false) L' 2%nat) ->
  guarded L 0 (ClaimIdempotency_p a) Q.
Proof.
  intros Ht Hf. apply guarded_bind, guarded_ask; [done..|]. intros rows.
  destruct (rows =? 1); [apply Ht|]. apply guarded_bind, guarded_ask; [done..|]. intros r. apply Hf.
Qed.

Lemma guarded_lock m id L Q :
  (forall e L', KRow (pg_uuid (Entry.id e)) ∈ L' -> Q e L' 4%nat) -> guarded L 1 (EntryForUpdate_p m id) Q.
Proof.
  intros HQ. apply guarded_bind. split; [cbn; lia|]. split; [done|]. split; [by eexists|].
  intros e He. apply guarded_bind, guarded_ask; [done|left|].
  intros []; [done|]. apply HQ. rewrite He. left.
Qed.

Lemma guarded_next m L n Q : (n <= 4)%nat -> (forall p L', L ⊆ L' -> Q p L' 5%nat) ->
  guarded L n (NextPosition_p m) Q.
Proof. intros Hn HQ. apply guarded_ask; [done..|]. intros p. apply HQ. intros x. by right. Qed.

Lemma guarded_entry e L Q : demand (QEntry e) L -> (forall L', Q tt L' 6%nat) -> guarded L 5 (InsertEntry_p e) Q.
Proof. intros Hd HQ. split; [done|]. split; [done|]. split; [by eexists|]. intros [] _. apply HQ. Qed.

Lemma guarded_event env e now tp L Q : (forall L', Q tt L' 7%nat) -> guarded L 6 (insertOutbox_p env e now tp) Q.
Proof.
  intros HQ. do 2 (apply guarded_done; intros ? _). apply guarded_ask; [done..|]. intros []. apply HQ.
Qed.

(** What both callbacks end with. *)
Lemma guarded_write env e now tp L Q : demand (QEntry e) L -> (forall L', Q (resultFromEntry e) L' 7%nat) ->
  guarded L 5 (_ ← InsertEntry_p e; _ ← insertOutbox_p env e now tp; mret (resultFromEntry e)) Q.
Proof.
  intros Hd HQ. apply guarded_bind, guarded_entry; [done|]. intros L1. apply guarded_bind, guarded_event.
  intros L2. apply HQ.
Qed.

Section Service.
Context (load_location : string -> option Calendar.location).

Lemma guarded_create env input m L Q : (forall x L', Q x L' 7%nat) ->
  guarded L 1 (create_entry_p load_location env input m) Q.
Proof.
  intros HQ. do 4 (apply guarded_done; intros ? _). apply guarded_done. intros date _.
  apply guarded_bind, guarded_next; [lia|]. intros p L1 _. apply guarded_done. intros id _.
  apply guarded_done. intros e [-> _]%NewEntry_ok_iff. apply guarded_write; [done|]. intros L2. apply HQ.
Qed.

Lemma guarded_reverse env input m oid L Q : (forall x L', Q x L' 7%nat) ->
  guarded L 1 (reverse_entry_p load_location env input m oid) Q.
Proof.
  intros HQ. do 2 (apply guarded_done; intros ? _). apply guarded_bind, guarded_lock. intros original L1 Hrow.
  apply guarded_done. intros _ _. apply guarded_bind, guarded_next; [lia|]. intros p L2 HL.
  apply guarded_done. intros id _. apply guarded_done. intros e He.
  apply guarded_write; [|intros L3; apply HQ].
  unfold Entry.NewReversal in He. case_hyp He; [done|]. apply NewEntry_ok_iff in He as [-> _]. by apply HL.
Qed.

Lemma guarded_body env a p : (forall L (Q : EntryResult -> list key -> nat -> Prop), (forall x L', Q x L' 7%nat) -> guarded L 1 p Q) ->
  guarded [] 0 (idempotent_body_p env a p) (fun _ _ _ => True).
Proof.
  intros Hp. apply guarded_bind, guarded_claim; intros r L.
  - apply guarded_bind, Hp. intros x L1. do 2 (apply guarded_done; intros ? _).
    apply guarded_bind, guarded_bind, guarded_ask; [done..|]. intros rows. by destruct (negb _).
  - by destruct (replay _ _).
Qed.
End Service.
