(* ===== verification/LedgerView.v ===== *)
(** * What a transaction of the Ledger sees

    A READ COMMITTED transaction sees the committed tables and its own
    writes.  Here the statements of LedgerTx.v run on that view, and neither
    their answers nor their writes change with the commits of transactions
    that hold none of the keys (LedgerLocks.v) this one holds. *)

From S2P Require Import Prelude.
From S2P Require Import GoStrings.
From S2P Require Import Json.
From S2P Require Import LedgerDomain.
From S2P Require Import TraceContext.
From S2P Require Import LedgerDB.
From S2P Require Import LedgerService.
From S2P Require Import LedgerCommands.
From S2P Require Import LedgerInvariant.
From S2P Require Import LedgerTx.
From S2P Require Import LedgerLocks.
From Stdlib Require Import ZArith Lia.
Open Scope string_scope.
Open Scope Z_scope.

(** ** A transaction's own writes *)
Record delta : Type := {
  d_positions : gmap string Z; d_entries : list entry_row;
  d_idempotency : list idem_row; d_outbox : list outbox_row }.
Definition no_writes : delta := {| d_positions := ∅; d_entries := []; d_idempotency := []; d_outbox := [] |}.

(** What the transaction sees: the committed rows and its own. *)
Definition view (C : ledger_db) (D : delta) : ledger_db :=
  {| positions := d_positions D ∪ positions C; entries := entries C ++ d_entries D;
     idempotency := idempotency C ++ d_idempotency D; outbox := outbox C ++ d_outbox D |}.

(** A statement reads the view; what it writes joins the transaction's rows. *)
Definition written_position (q : request) (D : delta) (db : ledger_db) : gmap string Z :=
  match q with
  | QNext m => match positions db !! pg_uuid m with
               | Some p => <[pg_uuid m := p]> (d_positions D)
               | None => d_positions D
               end
  | _ => d_positions D
  end.
Definition exec_in (q : request) (C : ledger_db) (D : delta) (clk : Z) : result (answer q) * delta :=
  let '(r, db) := exec q (view C D) clk in
  (r, {| d_positions := written_position q D db; d_entries := skipn (length (entries C)) (entries db);
         d_idempotency := skipn (length (idempotency C)) (idempotency db);
         d_outbox := skipn (length (outbox C)) (outbox db) |}).

(** Every committed idempotency record is complete. *)
Definition closed (C : ledger_db) : Prop := forall i, i ∈ idempotency C -> is_Some (i_completed i).

Lemma closed_inv C : ledger_inv C -> closed C.
Proof. intros Hi i H. by apply (inv_completed _ Hi). Qed.

Lemma closed_not_open C attempt i : closed C -> i ∈ idempotency C -> attempt_open attempt i = false.
Proof. intros Hc Hi. destruct (Hc i Hi) as [t Ht]. unfold attempt_open. by rewrite Ht, andb_false_r. Qed.

Lemma filter_none {A} (f : A -> bool) l : (forall x, x ∈ l -> f x = false) -> List.filter f l = [].
Proof.
  induction l as [|x l IH]; [done|]. intros H. cbn. rewrite (H x) by left. apply IH. intros y Hy. apply H. by right.
Qed.
Lemma map_same {A} (f : A -> A) l : (forall x, x ∈ l -> f x = x) -> map f l = l.
Proof. induction l as [|x l IH]; [done|]. intros H. cbn. rewrite H by left. f_equal. apply IH. intros y Hy. apply H. by right. Qed.

Lemma drop_view {A} (l k : list A) : skipn (length l) (l ++ k) = k.
Proof. induction l; [done|]. apply IHl. Qed.
Lemma drop_view2 {A} (l k j : list A) : skipn (length l) ((l ++ k) ++ j) = (k ++ j)%list.
Proof. by rewrite <- app_assoc, drop_view. Qed.
#[export] Hint Rewrite @drop_view @drop_view2 : views.

Lemma exec_in_view q C D clk a D' : closed C -> exec_in q C D clk = (Ok a, D') ->
  exec q (view C D) clk = (Ok a, view C D').
Proof.
  intros Hc. unfold exec_in. destruct (exec q (view C D) clk) as [r db] eqn:E. intros [= -> <-]. f_equal.
  destruct q; cbn -[view] in E |- *.
  - unfold insert_idempotency in E. repeat (case_hyp E; try done); injection E as <- <-; unfold view; cbn;
      autorewrite with views; by rewrite <- ?app_assoc.
  - injection E as _ <-. unfold view; cbn. by autorewrite with views.
  - unfold update_idempotency in E. case_hyp E; [done|]. injection E as _ <-. unfold view; cbn. autorewrite with views.
    rewrite map_app, map_same, drop_view; [done|]. intros i Hi. by rewrite (closed_not_open _ _ _ Hc Hi).
  - unfold upsert_position in E. case_hyp E; [done|]. injection E as _ <-. unfold view; cbn. autorewrite with views.
    by rewrite lookup_insert_eq, insert_union_l.
  - unfold insert_entry in E. repeat (case_hyp E; try done). injection E as _ <-. unfold view; cbn. autorewrite with views.
    by rewrite app_assoc.
  - injection E as _ <-. unfold view; cbn. by autorewrite with views.
  - injection E as _ <-. unfold view; cbn. by autorewrite with views.
  - unfold insert_outbox in E. repeat (case_hyp E; try done). injection E as _ <-. unfold view; cbn. autorewrite with views.
    by rewrite app_assoc.
Qed.

(** ** Commits of other transactions *)
(** [C'] is [C] after commits that own none of the keys [L]. *)
Record frame (L : list key) (C C' : ledger_db) : Prop := {
  fr_positions : forall m, KPosition m ∈ L -> positions C' !! m = positions C !! m;
  fr_entries : exists E, entries C' = (entries C ++ E)%list /\
    forall r k, r ∈ E -> k ∈ entry_keys r -> k ∉ L;
  fr_idempotency : exists I, idempotency C' = (idempotency C ++ I)%list /\
    forall i, i ∈ I -> KScope (i_merchant i) (i_operation i) (i_key i) ∉ L /\ KAttempt (i_attempt i) ∉ L;
  fr_outbox : forall o, o ∈ outbox C' -> (exists o', o' ∈ outbox C /\ same_event o' o) \/
    KEvent (o_event o) ∉ L /\ KAggregate (o_aggregate o) (o_type o) ∉ L }.

Lemma frame_sub L K C C' : K ⊆ L -> frame L C C' -> frame K C C'.
Proof.
  intros Hs [Hp (E & He & HE) (I & Hi & HI) Ho]. split.
  - intros m Hm. apply Hp. by apply Hs.
  - exists E. split; [done|]. intros r k Hr Hk HL. by eapply HE; [..|apply Hs].
  - exists I. split; [done|]. intros i Hii. destruct (HI i Hii) as [H1 H2]. split; intros H; [apply H1|apply H2]; by apply Hs.
  - intros o Ho'. destruct (Ho o Ho') as [?|[H1 H2]]; [by left|]. right. split; intros H; [apply H1|apply H2]; by apply Hs.
Qed.

(** The transaction holds the keys of the rows it wrote. *)
Record owns (L : list key) (D : delta) : Prop := {
  ow_positions : forall m, is_Some (d_positions D !! m) -> KPosition m ∈ L;
  ow_entries : forall r k, r ∈ d_entries D -> k ∈ entry_keys r -> k ∈ L;
  ow_idempotency : forall i, i ∈ d_idempotency D ->
    KScope (i_merchant i) (i_operation i) (i_key i) ∈ L /\ KAttempt (i_attempt i) ∈ L;
  ow_outbox : forall o, o ∈ d_outbox D -> KEvent (o_event o) ∈ L /\ KAggregate (o_aggregate o) (o_type o) ∈ L }.

Lemma owns_more L K D : owns L D -> owns (K ++ L)%list D.
Proof.
  assert (forall k, k ∈ L -> k ∈ (K ++ L)%list) as H by (intros; apply elem_of_app; by right).
  intros []. split; eauto; intros ? ?; split; apply H; naive_solver.
Qed.

Lemma exec_in_owns q C D clk a D' L : closed C -> exec_in q C D clk = (Ok a, D') -> owns L D ->
  owns (locks q a ++ L)%list D'.
Proof.
  intros Hc H Ho. unfold exec_in in H. destruct (exec q (view C D) clk) as [r db] eqn:E. injection H as -> <-.
  destruct (owns_more L (locks q a) D Ho) as [Hp He Hi Hx].
  destruct q; cbn -[view locks] in E |- *.
  - unfold insert_idempotency in E. repeat (case_hyp E; try done); injection E as <- <-; cbn -[locks]; autorewrite with views; [done|].
    split; try done. intros i [?| ->%list_elem_of_singleton]%elem_of_app; [auto|]. cbn. split; [left|right; left].
  - injection E as _ <-. cbn. by autorewrite with views.
  - unfold update_idempotency in E. case_hyp E; [done|]. injection E as _ <-. cbn. autorewrite with views.
    rewrite map_app, map_same, drop_view; [|intros i ?; by rewrite (closed_not_open _ _ _ Hc)].
    split; try done. intros i (j & -> & Hj)%in_map. specialize (Hi j Hj). by destruct (attempt_open _ j).
  - unfold upsert_position in E. case_hyp E; [done|]. injection E as _ <-. cbn. autorewrite with views.
    split; try done. intros m [p Hm]. rewrite lookup_insert_eq in Hm. cbn in Hm. apply lookup_insert_Some in Hm.
    destruct Hm as [[<- _]|[_ Hm]]; [left|]. right. by apply (ow_positions _ _ Ho).
  - unfold insert_entry in E. repeat (case_hyp E; try done). injection E as _ <-. cbn. autorewrite with views.
    split; try done. intros r k [Hr| ->%list_elem_of_singleton]%elem_of_app Hk; [eauto|].
    apply (elem_of_app (entry_keys (row_of_entry e))). by left.
  - injection E as _ <-. cbn. by autorewrite with views.
  - injection E as _ <-. cbn. by autorewrite with views.
  - unfold insert_outbox in E. repeat (case_hyp E; try done). injection E as _ <-. cbn. autorewrite with views.
    split; try done. intros o [?| ->%list_elem_of_singleton]%elem_of_app; [auto|]. cbn. split; [left|right; left].
Qed.

(** *** What such commits leave unchanged for the statements *)
Lemma existsb_grown {A} (f : A -> bool) l e d : existsb f (l ++ d) = true -> existsb f ((l ++ e) ++ d) = true.
Proof. rewrite !existsb_app. intros [-> | ->]%orb_true_iff; [done|]. by rewrite orb_true_r. Qed.
Lemma existsb_none {A} (f : A -> bool) l : (forall x, x ∈ l -> f x = false) -> existsb f l = false.
Proof. induction l as [|x l IH]; [done|]. intros H. cbn. rewrite H by left. apply IH. intros y Hy. apply H. by right. Qed.
Lemma existsb_apart {A} (f : A -> bool) l e d :
  existsb f (l ++ d) = false -> (forall x, x ∈ e -> f x = false) -> existsb f ((l ++ e) ++ d) = false.
Proof. rewrite !existsb_app. intros [-> ->]%orb_false_iff He. by rewrite existsb_none. Qed.
Lemma find_apart {A} (f : A -> bool) l e d x :
  List.find f (l ++ d) = Some x -> List.find f d = None \/ (forall y, y ∈ e -> f y = false) ->
  List.find f ((l ++ e) ++ d) = Some x.
Proof.
  intros H He. induction l as [|a l IH]; cbn in *; [|by destruct (f a); auto].
  destruct He as [He|He]; [congruence|]. induction e as [|b e IHe]; [done|]. cbn. rewrite He by left.
  apply IHe. intros y Hy. apply He. by right.
Qed.

Lemma scope_apart (L : list key) m op h (I : list idem_row) : KScope m op h ∈ L ->
  (forall i, i ∈ I -> KScope (i_merchant i) (i_operation i) (i_key i) ∉ L /\ KAttempt (i_attempt i) ∉ L) ->
  forall i, i ∈ I -> same_scope m op h i = false.
Proof.
  intros HL HI i Hi. apply not_true_iff_false. unfold same_scope. intros Hs. bool_to_prop. subst. by destruct (HI i Hi).
Qed.

Lemma entry_constraints_apart r l e d :
  (forall x k, x ∈ e -> k ∈ entry_keys x -> k ∉ entry_keys r) ->
  entry_constraints r (l ++ d) = None -> entry_constraints r ((l ++ e) ++ d) = None.
Proof.
  intros He. unfold entry_constraints. intros H. case_hyp H; [done|]. case_hyp H; [done|].
  rewrite !existsb_apart; try done.
  - destruct (e_original r) as [o|] eqn:Eo; [|done]. case_hyp H; [done|]. case_hyp H; [|done].
    rewrite existsb_apart; [|done|].
    + rewrite <- app_assoc in Heqb2. apply (existsb_grown _ _ e) in Heqb2. rewrite <- app_assoc. by rewrite Heqb2.
    + intros x Hx. apply not_true_iff_false. intros Hs%opt_eqb_spec.
      apply (He x (KReversal o) Hx); unfold entry_keys; rewrite ?Hs, ?Eo; right; right; left.
  - intros x Hx. apply not_true_iff_false. intros Hs. bool_to_prop.
    apply (He x (KPlace (e_merchant r) (e_position r)) Hx); [|by right; left]. apply elem_of_cons; right. apply elem_of_cons; left. congruence.
  - intros x Hx. apply not_true_iff_false. intros Hs. bool_to_prop.
    apply (He x (KEntry (e_id r)) Hx); [|by left]. apply elem_of_cons; left. congruence.
Qed.

Lemma outbox_apart f l l' d :
  (forall o, o ∈ l' -> (exists o', o' ∈ l /\ same_event o' o) \/ f o = false) ->
  (forall o' o, same_event o' o -> f o = f o') ->
  existsb f (l ++ d) = false -> existsb f (l' ++ d) = false.
Proof.
  intros Hl Hs. rewrite !existsb_app. intros [Hn ->]%orb_false_iff. rewrite orb_false_r. apply existsb_none. intros o Ho.
  destruct (Hl o Ho) as [(o' & Ho' & E)|]; [|done]. rewrite (Hs _ _ E). by apply (existsb_false_forall f l).
Qed.

(** An UPDATE of open records only finds the transaction's own. *)
Lemma complete_in C D attempt entry response t clk : closed C ->
  exec_in (QComplete attempt entry response t) C D clk =
  let '(r, db) := update_idempotency attempt entry response t
    {| positions := ∅; entries := entries C ++ d_entries D; idempotency := d_idempotency D; outbox := [] |} clk in
  (r, {| d_positions := d_positions D; d_entries := d_entries D; d_idempotency := idempotency db; d_outbox := d_outbox D |}).
Proof.
  intros Hc. unfold exec_in. cbn. unfold update_idempotency, view. cbn.
  assert (forall (g : idem_row -> bool), existsb (fun r => attempt_open attempt r && g r) (idempotency C ++ d_idempotency D)
            = existsb (fun r => attempt_open attempt r && g r) (d_idempotency D)) as ->.
  { intros g. rewrite existsb_app, existsb_none; [done|]. intros i Hi. by rewrite (closed_not_open _ _ _ Hc Hi). }
  destruct (existsb _ _); cbn; autorewrite with views; [done|].
  rewrite List.filter_app, filter_none, map_app, map_same, drop_view; [done|..];
    intros i Hi; by rewrite (closed_not_open _ _ _ Hc Hi).
Qed.

(** The answer and the writes of a statement do not change with the commits
    of transactions that own none of the keys it and its transaction hold. *)
Section Frame.
Context (C C' : ledger_db) (D : delta) (K : list key) (clk : Z).
Context (Hc : closed C) (Hc' : closed C') (Ho : owns K D) (Hf : frame K C C').

Definition kept (q : request) : Prop := forall a D',
  (forall k, k ∈ locks q a -> k ∈ K) -> demand q K ->
  exec_in q C D clk = (Ok a, D') -> exec_in q C' D clk = (Ok a, D').

Ltac keep :=
  destruct Hf as [Hfp (E & HE & HkE) (I & HI & HkI) Hfo]; intros a D' HK Hd; unfold exec_in;
  match goal with |- (let '(_, _) := ?x in _) = _ -> _ => destruct x as [r db] eqn:Ex end;
  intros [= -> <-];
  match goal with H : exec _ _ _ = _ |- _ => cbn -[view locks] in H |- * end.

Lemma claim_kept x : kept (QClaim x).
Proof.
  keep. unfold insert_idempotency in Ex |- *. case_hyp Ex; [done|]. cbn -[locks] in Ex |- *. rewrite HI. case_hyp Ex.
  - injection Ex as <- <-. rewrite existsb_grown by done. cbn. rewrite HI. by autorewrite with views.
  - case_hyp Ex; [done|]. injection Ex as <- <-. rewrite !existsb_apart; try done.
    + cbn. by autorewrite with views.
    + intros i Hi. apply not_true_iff_false. intros Hs. bool_to_prop. destruct (HkI i Hi) as [_ HA].
      apply HA, HK. cbn. rewrite Hs. right. left.
    + eapply scope_apart; [|exact HkI]. apply HK. left.
Qed.

Lemma record_kept x : kept (QRecord x).
Proof.
  keep. injection Ex as Ex <-. unfold select_idempotency in Ex |- *. cbn in Ex |- *. rewrite HI. case_hyp Ex; [|done].
  rewrite (find_apart _ _ _ _ i); [|done|].
  - autorewrite with views. congruence.
  - destruct (List.find _ (d_idempotency D)) as [j|] eqn:Ej; [right|by left].
    apply find_some_in in Ej as [Hj Hs]. destruct (ow_idempotency _ _ Ho j Hj) as [Hk _].
    unfold same_scope in Hs. bool_to_prop. eapply scope_apart; [|exact HkI]. congruence.
Qed.

Lemma complete_kept attempt entry response t : kept (QComplete attempt entry response t).
Proof.
  intros a D' _ _. destruct (fr_entries _ _ _ Hf) as (E & HE & _). rewrite !complete_in by done.
  unfold update_idempotency. cbn.
  match goal with |- (let '(_, _) := if ?b then _ else _ in _) = _ -> _ => destruct b eqn:Heqb; [done|] end. intros <-.
  rewrite HE, existsb_none; [done|]. intros i Hi. pose proof (existsb_false_forall _ _ Heqb i Hi) as Hb. cbn in Hb.
  destruct (attempt_open attempt i); [|done]. apply negb_false_iff in Hb. cbn. by rewrite existsb_grown.
Qed.

Lemma position_kept m : kept (QNext m).
Proof.
  keep. unfold upsert_position in Ex |- *. cbn -[locks] in Ex |- *.
  assert ((d_positions D ∪ positions C') !! pg_uuid m = (d_positions D ∪ positions C) !! pg_uuid m) as ->.
  { rewrite !lookup_union, Hfp; [done|]. apply HK. left. }
  case_hyp Ex; [done|]. injection Ex as Ex <-. cbn. autorewrite with views. rewrite !lookup_insert_eq. by subst.
Qed.

Lemma entry_kept e : kept (QEntry e).
Proof.
  keep. unfold insert_entry in Ex |- *. case_hyp Ex; [done|]. case_hyp Ex; [done|]. injection Ex as _ <-.
  cbn [view entries] in Heqo0 |- *. rewrite HE, entry_constraints_apart; [| |done].
  - cbn. autorewrite with views. by destruct a.
  - intros x k Hx Hk Hr. by apply (HkE x k Hx Hk), HK.
Qed.

Lemma row_kept m id : kept (QLock m id).
Proof.
  keep. injection Ex as Ex <-. unfold select_entry in Ex |- *. cbn in Ex |- *. rewrite HE. case_hyp Ex; [|done].
  rewrite (find_apart _ _ _ _ e); [|done|].
  - autorewrite with views. congruence.
  - destruct (List.find _ (d_entries D)) as [j|] eqn:Ej; [right|by left].
    apply find_some_in in Ej as [Hj Hs]. bool_to_prop.
    assert (KEntry (pg_uuid id) ∈ K) as HL by (apply (ow_entries _ _ Ho j); [done|]; apply elem_of_cons; left; congruence).
    intros r Hr. apply not_true_iff_false. intros Hs. bool_to_prop.
    apply (HkE r (KEntry (pg_uuid id)) Hr); [apply elem_of_cons; left; congruence|done].
Qed.

Lemma reversed_kept id : kept (QReversed id).
Proof.
  keep. injection Ex as Ex <-. unfold exists_reversal in Ex |- *. cbn in Ex |- *. rewrite HE. autorewrite with views.
  rewrite <- Ex. do 2 f_equal.
  destruct (existsb _ (entries C ++ d_entries D)) eqn:Eb; [by apply existsb_grown|]. apply existsb_apart; [done|].
  intros r Hr. apply not_true_iff_false. intros Hs%opt_eqb_spec.
  apply (HkE r (KRow (pg_uuid id)) Hr); [|by apply Hd]. unfold entry_keys. rewrite Hs. do 3 right. left.
Qed.

Lemma event_kept ev : kept (QEvent ev).
Proof.
  keep. unfold insert_outbox in Ex |- *. case_hyp Ex; [done|]. cbn -[locks] in Ex |- *.
  case_hyp Ex; [done|]. case_hyp Ex; [done|]. case_hyp Ex; [done|]. injection Ex as _ <-.
  rewrite (outbox_apart _ (outbox C) (outbox C')); [|..|exact Heqb0].
  - rewrite (outbox_apart _ (outbox C) (outbox C')); [|..|exact Heqb1].
    + apply negb_false_iff in Heqb2. rewrite HE, existsb_grown by done. cbn. autorewrite with views. by destruct a.
    + intros o Hx. destruct (Hfo o Hx) as [?|[_ HA]]; [by left|right]. apply not_true_iff_false. intros Hs. bool_to_prop.
      apply HA, HK. apply elem_of_cons. right. apply elem_of_cons. left. congruence.
    + intros o' o (_ & -> & _ & _ & -> & _). done.
  - intros o Hx. destruct (Hfo o Hx) as [?|[HA _]]; [by left|right]. apply not_true_iff_false. intros Hs. bool_to_prop.
    apply HA, HK. apply elem_of_cons. left. congruence.
  - intros o' o (-> & _). done.
Qed.

Lemma statement_kept q : kept q.
Proof.
  destruct q; eauto using claim_kept, record_kept, complete_kept, position_kept, entry_kept, row_kept,
    reversed_kept, event_kept.
Qed.
End Frame.

Lemma demand_more q L K : demand q L -> demand q (K ++ L).
Proof.
  destruct q; try done; cbn; [destruct (option_map _ _); [|done]|]; intros H; apply elem_of_app; by right.
Qed.

Lemma exec_in_frame q C C' D clk a D' L : closed C -> closed C' -> owns L D -> demand q L ->
  frame (locks q a ++ L) C C' -> exec_in q C D clk = (Ok a, D') -> exec_in q C' D clk = (Ok a, D').
Proof.
  intros Hc Hc' Ho Hd Hf. apply (statement_kept C C' D (locks q a ++ L)); try done; [by apply owns_more| |by apply demand_more].
  intros k Hk. apply elem_of_app. by left.
Qed.

(** ** A transaction's past *)
(** Over the committed tables [C] the program [p0] gets as far as [p], having
    written [D] and locked [L]. *)
Inductive reruns (C : ledger_db) (clk : Z) {A} (p0 : prog A) : prog A -> delta -> list key -> Prop :=
  | reruns_start : reruns C clk p0 p0 no_writes []
  | reruns_call q k D L a D' : reruns C clk p0 (Call q k) D L -> demand q L ->
      exec_in q C D clk = (Ok a, D') -> reruns C clk p0 (k (Ok a)) D' (locks q a ++ L).

Lemma view_no_writes C : view C no_writes = C.
Proof. destruct C. unfold view. cbn. by rewrite left_id_L, !app_nil_r by apply _. Qed.

Section Past.
Context {A : Type} (clk : Z) (p0 : prog A).

Lemma reruns_owns C p D L : closed C -> reruns C clk p0 p D L -> owns L D.
Proof.
  intros Hc. induction 1 as [|q k D L a D' _ IH _ He]; [|by eapply exec_in_owns].
  split; cbn; [by intros m []%lookup_empty_is_Some|by intros ? ? []%elem_of_nil|by intros ? []%elem_of_nil..].
Qed.

Lemma reruns_frame C C' p D L : closed C -> closed C' -> frame L C C' ->
  reruns C clk p0 p D L -> reruns C' clk p0 p D L.
Proof.
  intros Hc Hc' Hf H. induction H as [|q k D L a D' Hr IH Hd He]; [by constructor|].
  econstructor; [|done|].
  - apply IH. eapply frame_sub, Hf. intros x Hx. apply elem_of_app. by right.
  - eapply (exec_in_frame q C C'); eauto. exact (reruns_owns C _ D L Hc Hr).
Qed.

Lemma reruns_denote C p D L : closed C -> reruns C clk p0 p D L ->
  denote p0 {| t_db := C; t_faults := []; t_clock := clk |} =
  denote p {| t_db := view C D; t_faults := []; t_clock := clk |}.
Proof.
  intros Hc. induction 1 as [|q k D L a D' _ IH _ He]; [by rewrite view_no_writes|].
  rewrite IH. cbn. unfold stmt. cbn. by rewrite (exec_in_view _ _ _ _ _ _ Hc He).
Qed.
End Past.

(** A commit's rows avoid the keys of the transactions that hold none of its. *)
Lemma commit_frame C D K L : owns K D -> (forall k, k ∈ K -> k ∉ L) -> frame L C (view C D).
Proof.
  intros [Hp He Hi Ho] Hd. split; cbn.
  - intros m Hm. apply lookup_union_r, eq_None_not_Some. intros H. by apply (Hd _ (Hp m H)).
  - exists (d_entries D). split; [done|]. eauto.
  - exists (d_idempotency D). split; [done|]. intros i Hii. destruct (Hi i Hii); auto.
  - intros o [Hx|Hx]%elem_of_app; [left; exists o; by splits|]. right. destruct (Ho o Hx); auto.
Qed.

Lemma frame_refl L C : frame L C C.
Proof.
  split; [done|..]; try (exists []; rewrite app_nil_r; split; [done|]).
  - by intros ? ? []%elem_of_nil.
  - by intros ? []%elem_of_nil.
  - intros o Ho. left. by exists o.
Qed.

Lemma outbox_frame L C f : (forall o, same_event o (f o)) ->
  frame L C {| positions := positions C; entries := entries C; idempotency := idempotency C; outbox := map f (outbox C) |}.
Proof.
  intros Hf. destruct (frame_refl L C). split; cbn; try done.
  intros o (o' & -> & Ho)%in_map. left. by exists o'.
Qed.
