(* ===== verification/LedgerConcurrency.v ===== *)
(** * Concurrent transactions of the Ledger

    [Repository.Execute] runs its callback in a READ COMMITTED transaction and
    many run at once.  Here transactions interleave statement by statement:
    each statement sees the committed tables and its own transaction's
    writes, waits while another transaction holds a key it needs
    (LedgerLocks.v), and the writes become visible at the commit.  The result
    is the same as running the commands one after the other in the order of
    their commits. *)

From S2P Require Import Prelude.
From S2P Require Import GoStrings.
From S2P Require Import Json.
From S2P Require Import LedgerDomain.
From S2P Require Import TraceContext.
From S2P Require Import LedgerDB.
From S2P Require Import LedgerService.
From S2P Require Import LedgerCommands.
From S2P Require Import LedgerInvariant.
From S2P Require Import LedgerRetry.
From S2P Require Import LedgerTx.
From S2P Require Import LedgerLocks.
From S2P Require Import LedgerView.
From Stdlib Require Import ZArith Lia.
Open Scope string_scope.
Open Scope Z_scope.

(** ** The commands *)
Inductive command : Type :=
  | Create (env : cmd_env) (input : CreateEntryInput)
  | Reverse (env : cmd_env) (input : ReverseEntryInput).
Definition command_env (c : command) : cmd_env := match c with Create env _ | Reverse env _ => env end.

(** The failures of a transaction are steps of the world below. *)
Definition unfaulted (env : cmd_env) : Prop :=
  begin_fault (db_env env) = None /\ statements (db_env env) = [] /\ commit (db_env env) = CommitOk.

Section Commands.
Context (sha256 : string -> string) (json_text : json -> string).
Context (load_location : string -> option Calendar.location).

(** The command, alone with the database. *)
Definition serve (c : command) (db : ledger_db) : result EntryResult * ledger_db :=
  match c with
  | Create env input => CreateEntry sha256 json_text load_location env input db
  | Reverse env input => ReverseEntry sha256 json_text load_location env input db
  end.

(** The callback [executeIdempotent] hands to Execute. *)
Definition idempotent_p (env : cmd_env) (merchantID operation key requestHash : string) (create : prog EntryResult)
    : result (prog EntryResult) :=
  attemptID ← uuidGenerator (systemClock (now_attempt env)) (rnd_attempt env);
  Ok (idempotent_body_p env {| AttemptID := attemptID; at_MerchantID := merchantID; Operation := operation;
                               KeyHash := sha256 key; at_RequestHash := requestHash |} create).
Definition callback (c : command) : result (prog EntryResult) :=
  match c with
  | Create env input =>
      merchantID ← create_guards input;
      idempotent_p env merchantID OperationCreate (c_IdempotencyKey input)
        (hashJSON sha256 json_text (create_content input)) (create_entry_p load_location env input merchantID)
  | Reverse env input =>
      ids ← reverse_guards input;
      let '(merchantID, originalID) := (ids : string * string) in
      idempotent_p env merchantID OperationReverse (r_IdempotencyKey input)
        (hashJSON sha256 json_text (reverse_content input))
        (reverse_entry_p load_location env input merchantID originalID)
  end.

Lemma idempotent_serves env m op h rq create create_st p db x db' : unfaulted env ->
  runs create create_st -> idempotent_p env m op h rq create = Ok p ->
  denote p {| t_db := db; t_faults := []; t_clock := pg_clock (db_env env) |}
    = (Ok x, {| t_db := db'; t_faults := []; t_clock := pg_clock (db_env env) |}) ->
  executeIdempotent sha256 env m op h rq create_st db = (Ok x, db').
Proof.
  unfold idempotent_p, executeIdempotent, Execute. intros (-> & -> & ->) Hr.
  destruct (uuidGenerator _ _) as [id|]; [|done]. intros [= <-] Hd.
  rewrite (runs_body env _ _ _ Hr) in Hd. by rewrite Hd.
Qed.

Lemma callback_serves c p db x db' : unfaulted (command_env c) -> callback c = Ok p ->
  denote p {| t_db := db; t_faults := []; t_clock := pg_clock (db_env (command_env c)) |}
    = (Ok x, {| t_db := db'; t_faults := []; t_clock := pg_clock (db_env (command_env c)) |}) ->
  serve c db = (Ok x, db').
Proof.
  intros Hu Hc Hd. destruct c as [env input|env input]; cbn in *.
  - unfold CreateEntry. destruct (create_guards input) as [m|]; [|done].
    eapply idempotent_serves; eauto. apply runs_create.
  - unfold ReverseEntry. destruct (reverse_guards input) as [[m id]|]; [|done].
    eapply idempotent_serves; eauto. apply runs_reverse.
Qed.

Lemma idempotent_guarded env m op h rq create p :
  (forall L (Q : EntryResult -> list key -> nat -> Prop), (forall x L', Q x L' 7%nat) -> guarded L 1 create Q) ->
  idempotent_p env m op h rq create = Ok p -> guarded [] 0 p (fun _ _ _ => True).
Proof.
  intros Hg. unfold idempotent_p. destruct (uuidGenerator _ _); [|done]. intros [= <-]. by apply guarded_body.
Qed.

Lemma callback_guarded c p : callback c = Ok p -> guarded [] 0 p (fun _ _ _ => True).
Proof.
  destruct c as [env input|env input]; cbn.
  - destruct (create_guards input); [|done]. apply idempotent_guarded. intros. by apply guarded_create.
  - destruct (reverse_guards input) as [[]|]; [|done]. apply idempotent_guarded. intros. by apply guarded_reverse.
Qed.
End Commands.

(** ** Interleavings *)
Record tx : Type := {
  x_command : command; x_prog : prog EntryResult; x_delta : delta; x_locks : list key }.
Record world : Type := {
  w_db : ledger_db; w_active : gmap nat tx; w_log : list (command * EntryResult) }.
Definition idle (db : ledger_db) : world := {| w_db := db; w_active := ∅; w_log := [] |}.

Definition in_range (c : command) : Prop :=
  match c with Create _ input => in_int64 (c_AmountMinor input) = true | Reverse _ _ => True end.
Definition tx_clock (t : tx) : Z := pg_clock (db_env (command_env (x_command t))).

(** Another transaction holds a key the next statement of transaction [i] needs. *)
Definition blocked (w : world) (i : nat) (t : tx) : Prop :=
  match x_prog t with
  | Done _ => False
  | Call q _ =>
      match exec_in q (w_db w) (x_delta t) (tx_clock t) with
      | (Err _, _) => False
      | (Ok a, _) => exists j u key, w_active w !! j = Some u /\ j <> i /\ key ∈ waits q a /\ key ∈ x_locks u
      end
  end.

Section World.
Context (sha256 : string -> string) (json_text : json -> string).
Context (load_location : string -> option Calendar.location).

Inductive world_step (w : world) : world -> Prop :=
  | step_begin i c p : w_active w !! i = None -> unfaulted (command_env c) -> in_range c ->
      callback sha256 json_text load_location c = Ok p ->
      world_step w {| w_db := w_db w; w_log := w_log w;
        w_active := <[i := {| x_command := c; x_prog := p; x_delta := no_writes; x_locks := [] |}]> (w_active w) |}
  | step_statement i t q k a D : w_active w !! i = Some t -> x_prog t = Call q k -> ~ blocked w i t ->
      exec_in q (w_db w) (x_delta t) (tx_clock t) = (Ok a, D) ->
      world_step w {| w_db := w_db w; w_log := w_log w;
        w_active := <[i := {| x_command := x_command t; x_prog := k (Ok a); x_delta := D;
                              x_locks := locks q a ++ x_locks t |}]> (w_active w) |}
  (** A statement failed, the client left or the server ended the transaction. *)
  | step_rollback i t : w_active w !! i = Some t ->
      world_step w {| w_db := w_db w; w_active := delete i (w_active w); w_log := w_log w |}
  | step_commit i t x : w_active w !! i = Some t -> x_prog t = Done (Ok x) ->
      world_step w {| w_db := view (w_db w) (x_delta t); w_active := delete i (w_active w);
                      w_log := w_log w ++ [(x_command t, x)] |}
  | step_publisher f : (forall o, same_event o (f o)) ->
      world_step w {| w_active := w_active w; w_log := w_log w;
        w_db := {| positions := positions (w_db w); entries := entries (w_db w);
                   idempotency := idempotency (w_db w); outbox := map f (outbox (w_db w)) |} |}.

(** The commands of [log] one after the other, each with the answer it gets,
    and the publisher between them. *)
Inductive served : list (command * EntryResult) -> ledger_db -> Prop :=
  | served_none : served [] empty_db
  | served_command log db c x db' : served log db -> unfaulted (command_env c) -> in_range c ->
      serve sha256 json_text load_location c db = (Ok x, db') -> served (log ++ [(c, x)]) db'
  | served_publisher log db f : served log db -> (forall o, same_event o (f o)) ->
      served log {| positions := positions db; entries := entries db;
                    idempotency := idempotency db; outbox := map f (outbox db) |}.

Lemma served_steps log db : served log db -> steps (ledger_step sha256 json_text load_location) empty_db db.
Proof.
  induction 1 as [|log db c x db' _ IH _ Hr Hs|log db f _ IH Hf]; [constructor|..].
  - eapply steps_snoc; [exact IH|]. destruct c; [by eapply step_create|by eapply step_reverse].
  - eapply steps_snoc; [exact IH|]. by apply step_outbox.
Qed.

Lemma served_inv log db : served log db -> ledger_inv db.
Proof. intros H%served_steps. by apply (steps_spec _ _ _ _ _ H empty_inv). Qed.
Lemma served_closed log db : served log db -> closed db.
Proof. intros H. by eapply closed_inv, served_inv. Qed.

(** *** The invariant *)
Record tx_ok (C : ledger_db) (t : tx) : Prop := {
  ok_env : unfaulted (command_env (x_command t)); ok_range : in_range (x_command t);
  ok_past : exists p, callback sha256 json_text load_location (x_command t) = Ok p /\
    reruns C (tx_clock t) p (x_prog t) (x_delta t) (x_locks t);
  ok_order : exists n, guarded (x_locks t) n (x_prog t) (fun _ _ _ => True) /\
    forall k, k ∈ x_locks t -> (key_level k < n)%nat }.

Record world_inv (w : world) : Prop := {
  wi_served : served (w_log w) (w_db w);
  wi_active : forall i t, w_active w !! i = Some t -> tx_ok (w_db w) t;
  wi_exclusive : forall i j t u k, i <> j -> w_active w !! i = Some t -> w_active w !! j = Some u ->
    k ∈ x_locks t -> k ∉ x_locks u }.

Lemma tx_ok_frame C C' t : closed C -> closed C' -> frame (x_locks t) C C' -> tx_ok C t -> tx_ok C' t.
Proof.
  intros Hc Hc' Hf [He Hr (p & Hp & Hpast) Ho]. split; try done. exists p. split; [done|].
  by eapply (reruns_frame _ _ C).
Qed.

Lemma tx_ok_statement C t q k a D : closed C -> tx_ok C t -> x_prog t = Call q k ->
  exec_in q C (x_delta t) (tx_clock t) = (Ok a, D) ->
  tx_ok C {| x_command := x_command t; x_prog := k (Ok a); x_delta := D; x_locks := locks q a ++ x_locks t |}.
Proof.
  intros Hc [He Hr (p & Hp & Hpast) (n & Hg & Hn)] Hq Hx. rewrite Hq in Hg, Hpast. destruct Hg as (Hl & Hd & _ & Hk).
  split; try done; cbn.
  - exists p. split; [done|]. by econstructor.
  - exists (S (level q)). split.
    + apply Hk. eapply exec_reply. by apply exec_in_view.
    + intros key [Hw%locks_waits|Hw]%elem_of_app; [|specialize (Hn _ Hw); lia].
      destruct (waits_level _ _ _ _ Hd Hw) as [->|HL]; [lia|]. specialize (Hn _ HL). lia.
Qed.

Lemma tx_ok_commit C t x : closed C -> tx_ok C t -> x_prog t = Done (Ok x) ->
  serve sha256 json_text load_location (x_command t) C = (Ok x, view C (x_delta t)).
Proof.
  intros Hc [He Hr (p & Hp & Hpast) _] Hx. eapply callback_serves; [done|exact Hp|].
  rewrite Hx in Hpast. unfold tx_clock in Hpast. by rewrite (reruns_denote _ _ _ _ _ _ Hc Hpast).
Qed.

(** Replacing the transaction [i] keeps the locks exclusive. *)
Lemma exclusive_insert w i t' : world_inv w ->
  (forall j u k, j <> i -> w_active w !! j = Some u -> k ∈ x_locks t' -> k ∉ x_locks u) ->
  forall j l t u k, j <> l -> <[i := t']> (w_active w) !! j = Some t -> <[i := t']> (w_active w) !! l = Some u ->
    k ∈ x_locks t -> k ∉ x_locks u.
Proof.
  intros Hw Hx j l t u k Hn Hj Hl Ht Hu.
  apply lookup_insert_Some in Hj as [[<- <-]|[Hij Hj]]; apply lookup_insert_Some in Hl as [[<- <-]|[Hil Hl]].
  - done.
  - by apply (Hx l u k).
  - by apply (Hx j t k).
  - by apply (wi_exclusive _ Hw j l t u k).
Qed.

(** The other transactions after transaction [i] is gone and [C] became [C']. *)
Lemma world_inv_end w i C' log' : world_inv w -> served log' C' ->
  (forall j u, j <> i -> w_active w !! j = Some u -> frame (x_locks u) (w_db w) C') ->
  world_inv {| w_db := C'; w_active := delete i (w_active w); w_log := log' |}.
Proof.
  intros [Hs Ha Hx] Hs' Hf. split; cbn; [done|..].
  - intros j u [Hn Hj]%lookup_delete_Some. eapply (tx_ok_frame (w_db w)); [by eapply served_closed..| |by apply (Ha j)].
    by apply (Hf j).
  - intros j l t u k Hn [_ Hj]%lookup_delete_Some [_ Hl]%lookup_delete_Some. by apply (Hx j l).
Qed.

Lemma world_inv_step w w' : world_inv w -> world_step w w' -> world_inv w'.
Proof.
  intros Hw Hstep. pose proof (served_closed _ _ (wi_served _ Hw)) as Hc.
  destruct Hstep as [i c p Hi Hu Hr Hp|i t q k a D Hi Hq Hb He|i t Hi|i t x Hi Hx|f Hf].
  - split; cbn; [apply Hw|..].
    + intros j u [[_ <-]|[_ Hj]]%lookup_insert_Some; [|by apply (wi_active _ Hw j)].
      split; try done; cbn; [exists p; split; [done|constructor]|].
      exists 0%nat. split; [by eapply callback_guarded|]. by intros ? ?%elem_of_nil.
    + apply exclusive_insert; [done|]. by intros ? ? ? ? ? ?%elem_of_nil.
  - split; cbn; [apply Hw|..].
    + intros j u [[_ <-]|[_ Hj]]%lookup_insert_Some; [|by apply (wi_active _ Hw j)].
      eapply tx_ok_statement; eauto. by apply (wi_active _ Hw i).
    + apply exclusive_insert; [done|]. cbn. intros j u key Hj Hju [Hk|Hk]%elem_of_app Hku.
      * apply Hb. unfold blocked. rewrite Hq, He. exists j, u, key. splits; try done. by apply locks_waits.
      * by apply (wi_exclusive _ Hw i j t u key).
  - apply world_inv_end; [done|apply Hw|]. intros j u _ _. apply frame_refl.
  - pose proof (wi_active _ Hw i t Hi) as Ht. apply world_inv_end; [done|..].
    + econstructor; [apply Hw|apply Ht..|]. by apply tx_ok_commit.
    + intros j u Hj Hu. destruct Ht as [_ _ (p & _ & Hpast) _].
      eapply commit_frame; [by eapply reruns_owns|]. intros k Hk. by apply (wi_exclusive _ Hw i j t u k).
  - assert (served (w_log w) {| positions := positions (w_db w); entries := entries (w_db w);
      idempotency := idempotency (w_db w); outbox := map f (outbox (w_db w)) |}) as Hs by (constructor; [apply Hw|done]).
    split; cbn; [done| |apply Hw]. intros j u Hj.
    eapply (tx_ok_frame (w_db w)); [exact Hc|by eapply served_closed|by apply outbox_frame|by apply (wi_active _ Hw j)].
Qed.

Lemma world_inv_idle : world_inv (idle empty_db).
Proof. split; cbn; [constructor|by intros|by intros]. Qed.

Lemma reachable_inv w : steps world_step (idle empty_db) w -> world_inv w.
Proof.
  intros H. eapply (steps_invariant _ world_inv); [|apply world_inv_idle|exact H].
  intros a b. apply world_inv_step.
Qed.

(** *** Deadlocks *)
Definition next_level (t : tx) : nat := match x_prog t with Call q _ => level q | Done _ => 8 end%nat.

(** A blocked transaction waits for one that is further on. *)
Lemma blocked_behind w i t : world_inv w -> w_active w !! i = Some t -> blocked w i t ->
  exists j u, w_active w !! j = Some u /\ (next_level t < next_level u)%nat.
Proof.
  intros Hw Hi Hb. unfold blocked in Hb. unfold next_level at 1.
  destruct (wi_active _ Hw i t Hi) as [_ _ _ (n & Hg & _)].
  destruct (x_prog t) as [|q k]; [done|]. destruct Hg as (_ & Hd & _).
  destruct (exec_in _ _ _ _) as [[a|] D]; [|done]. destruct Hb as (j & u & key & Hj & Hne & Hwait & Hheld).
  exists j, u. split; [done|].
  destruct (waits_level _ _ _ _ Hd Hwait) as [<-|HL]; [|by destruct (wi_exclusive _ Hw i j t u key)].
  destruct (wi_active _ Hw j u Hj) as [_ _ _ (m & Hg' & Hm)]. specialize (Hm _ Hheld). unfold next_level.
  destruct (x_prog u) as [|q' k']; [by destruct key; cbn; lia|]. destruct Hg' as (Hl & _). lia.
Qed.

Definition deadlocked (w : world) : Prop :=
  (exists i, is_Some (w_active w !! i)) /\ forall i t, w_active w !! i = Some t -> blocked w i t.

Lemma next_level_le t : (next_level t <= 8)%nat.
Proof. unfold next_level. destruct (x_prog t) as [|q k]; [lia|]. by destruct q; cbn; lia. Qed.

Lemma no_deadlock w : world_inv w -> ~ deadlocked w.
Proof.
  intros Hw [[i [t Hi]] Hb].
  assert (forall n i t, (8 - next_level t < n)%nat -> w_active w !! i = Some t -> False) as Hn; [|apply (Hn (S (8 - next_level t)) i t); [lia|done]].
  clear i t Hi. induction n as [|n IH]; intros i t Ht Hi; [lia|].
  destruct (blocked_behind w i t Hw Hi (Hb i t Hi)) as (j & u & Hj & Hlt).
  apply (IH j u); [|done]. pose proof (next_level_le u). lia.
Qed.
End World.

(** C3: the Ledger's transactions are serializable in the order of their
    commits, and never deadlock.  Whatever transactions interleave, statement by statement, each seeing the
    committed rows and its own and waiting for the keys others hold, with any
    of them rolled back at any moment and the publisher at work: the database
    and the answers given are those of the committed commands run one after
    the other, in the order of their commits; so the database satisfies the
    Ledger's invariant, and there is always a transaction that no other one
    keeps waiting. *)
Theorem transactions_serializable sha256 json_text ll w :
  steps (world_step sha256 json_text ll) (idle empty_db) w ->
  served sha256 json_text ll (w_log w) (w_db w) /\ ledger_inv (w_db w) /\ ~ deadlocked w.
Proof.
  intros H%reachable_inv. split; [apply H|]. split; [eapply served_inv, H|by eapply no_deadlock].
Qed.

(** ** Running an interleaving *)
Inductive action : Type :=
  | ABegin (i : nat) (c : command) | AStatement (i : nat) | ARollback (i : nat) | ACommit (i : nat).

Definition free (w : world) (i : nat) (ks : list key) : bool :=
  forallb (fun '(j, u) => Nat.eqb j i || forallb (fun k => negb (existsb (fun l => bool_decide (k = l)) (x_locks u))) ks)
    (map_to_list (w_active w)).

(** One step of a schedule, where the world allows it. *)
Definition act (sha256 : string -> string) (json_text : json -> string)
    (load_location : string -> option Calendar.location) (a : action) (w : world) : option world :=
  let put db i t := Some {| w_db := db; w_active := <[i := t]> (w_active w); w_log := w_log w |} in
  match a with
  | ABegin i c =>
      match w_active w !! i, callback sha256 json_text load_location c with
      | None, Ok p => put (w_db w) i {| x_command := c; x_prog := p; x_delta := no_writes; x_locks := [] |}
      | _, _ => None
      end
  | AStatement i =>
      t ← w_active w !! i;
      match x_prog t with
      | Done _ => None
      | Call q k =>
          match exec_in q (w_db w) (x_delta t) (tx_clock t) with
          | (Ok a, D) =>
              if free w i (waits q a)
              then put (w_db w) i {| x_command := x_command t; x_prog := k (Ok a); x_delta := D;
                                     x_locks := locks q a ++ x_locks t |}
              else None
          | (Err _, _) => None
          end
      end
  | ARollback i =>
      _ ← w_active w !! i; Some {| w_db := w_db w; w_active := delete i (w_active w); w_log := w_log w |}
  | ACommit i =>
      t ← w_active w !! i;
      match x_prog t with
      | Done (Ok x) => Some {| w_db := view (w_db w) (x_delta t); w_active := delete i (w_active w);
                               w_log := w_log w ++ [(x_command t, x)] |}
      | _ => None
      end
  end.
Fixpoint acts sha256 json_text ll (l : list action) (w : world) : option world :=
  match l with [] => Some w | a :: l => w' ← act sha256 json_text ll a w; acts sha256 json_text ll l w' end.

Definition fit (a : action) : Prop :=
  match a with ABegin _ c => unfaulted (command_env c) /\ in_range c | _ => True end.

Lemma free_not_blocked w i t q k a D : x_prog t = Call q k ->
  exec_in q (w_db w) (x_delta t) (tx_clock t) = (Ok a, D) -> free w i (waits q a) = true -> ~ blocked w i t.
Proof.
  intros Hq He Hf. unfold blocked. rewrite Hq, He. intros (j & u & key & Hj & Hn & Hk & Hl).
  apply elem_of_map_to_list, list_elem_of_In in Hj. apply list_elem_of_In in Hk.
  pose proof (proj1 (forallb_forall _ _) Hf (j, u) Hj) as Hu. cbn in Hu.
  rewrite (proj2 (Nat.eqb_neq j i) Hn) in Hu. pose proof (proj1 (forallb_forall _ _) Hu key Hk) as Hkey.
  apply negb_true_iff in Hkey.
  pose proof (existsb_false_forall _ _ Hkey key Hl) as E. cbn in E. by rewrite bool_decide_eq_true_2 in E.
Qed.

Lemma act_step sha256 json_text ll a w w' : fit a -> act sha256 json_text ll a w = Some w' ->
  world_step sha256 json_text ll w w'.
Proof.
  intros Hfit H. destruct a as [i c|i|i|i]; cbn [act] in H.
  - destruct (w_active w !! i) eqn:Hi; [done|]. destruct (callback _ _ _ c) as [p|] eqn:Hc; [|done].
    injection H as <-. destruct Hfit. by eapply step_begin.
  - destruct (w_active w !! i) as [t|] eqn:Hi; [|done]. cbn in H. destruct (x_prog t) as [|q k] eqn:Hq; [done|].
    destruct (exec_in _ _ _ _) as [[a|] D] eqn:He; [|done]. destruct (free _ _ _) eqn:Hf; [|done]. injection H as <-.
    eapply step_statement; eauto. by eapply free_not_blocked.
  - destruct (w_active w !! i) as [t|] eqn:Hi; [|done]. injection H as <-. by eapply step_rollback.
  - destruct (w_active w !! i) as [t|] eqn:Hi; [|done]. cbn in H. destruct (x_prog t) as [[x|]|] eqn:Hx; [|done..].
    injection H as <-. by eapply step_commit.
Qed.

Lemma acts_steps sha256 json_text ll l w w' : Forall fit l -> acts sha256 json_text ll l w = Some w' ->
  steps (world_step sha256 json_text ll) w w'.
Proof.
  revert w. induction l as [|a l IH]; intros w Hl H; [injection H as <-; constructor|].
  inversion Hl; subst. cbn in H. destruct (act _ _ _ a w) as [v|] eqn:Ha; [|done].
  econstructor; [by eapply act_step|by apply IH].
Qed.

(** Two sales of one merchant and a retry of the first interleave; its
    reversal joins once the first is committed. *)
Definition sample_acts : list action :=
  [ABegin 0 (Create (sample_env 1) (sample_create "k1" 1000)); ABegin 1 (Create (sample_env 2) (sample_create "k2" 500));
   ABegin 2 (Create (sample_env 3) (sample_create "k1" 1000));
   AStatement 0; AStatement 1; AStatement 0; AStatement 0; AStatement 0].
Definition sample_acts_end : list action :=
  [AStatement 0; ACommit 0; ABegin 3 (Reverse (sample_env 4) (sample_reverse "r1" sample_id1));
   AStatement 2; AStatement 3; AStatement 1; AStatement 3; AStatement 1; AStatement 2; AStatement 3;
   AStatement 1; AStatement 1; ACommit 2; ACommit 1;
   AStatement 3; AStatement 3; AStatement 3; AStatement 3; ACommit 3].
Definition sample_world (l : list action) : option world :=
  acts sample_sha256 sample_text sample_zone l (idle empty_db).

Lemma sample_fit : Forall fit (sample_acts ++ sample_acts_end).
Proof. repeat constructor. Qed.

(** In the middle, the second sale waits for the first one's position and the
    retry for its idempotency key. *)
Example sample_waits :
  map (fun a => bool_decide (is_Some (sample_world (sample_acts ++ [a])))) [AStatement 0; AStatement 1; AStatement 2]
  = [true; false; false].
Proof. vm_compute. reflexivity. Qed.

Lemma transactions_serializable_witness : exists w,
  sample_world (sample_acts ++ sample_acts_end) = Some w /\ w_active w = ∅ /\
  map (fun p => x_Position (snd p)) (w_log w) = [1; 1; 2; 3] /\
  served sample_sha256 sample_text sample_zone (w_log w) (w_db w) /\ ledger_inv (w_db w) /\ ~ deadlocked w.
Proof.
  eexists. assert (sample_world (sample_acts ++ sample_acts_end) = Some _) as H by (vm_compute; reflexivity).
  split; [exact H|]. split; [reflexivity|]. split; [reflexivity|].
  apply (transactions_serializable sample_sha256 sample_text sample_zone).
  exact (acts_steps _ _ _ _ _ _ sample_fit H).
Defined.
