(* ===== verification/LedgerPages.v ===== *)
(** * Reading a merchant's entries page by page

    [ListEntries] with its cursors: the pages a client reads one after the
    other, while other commands keep adding entries, are together exactly the
    entries the first page could see, in order, each once. *)

From S2P Require Import Prelude.
From S2P Require Import GoStrings.
From S2P Require Import GoTime.
From S2P Require Import Json.
From S2P Require Import LedgerDomain.
From S2P Require Import LedgerDB.
From S2P Require Import Cursor.
From S2P Require Import LedgerService.
From S2P Require Import LedgerCommands.
From S2P Require Import LedgerInvariant.
From S2P Require Import LedgerRetry.
From Stdlib Require String.
From Stdlib Require Import ZArith Lia Ascii.
Open Scope string_scope.
Open Scope Z_scope.

(** ** The order of the history *)
#[global] Arguments key_ltb : simpl never.
#[global] Arguments pair_key : simpl never.

Lemma order_desc_cons p l : order_desc (p :: l) = insert_desc p (order_desc l).
Proof. done. Qed.
#[global] Arguments order_desc : simpl never.
Lemma str_ltb_irrefl s : str_ltb s s = false.
Proof. induction s as [|a s IH]; cbn; [done|]. by rewrite Z.ltb_irrefl, Z.eqb_refl, IH. Qed.

Lemma code_inj a b : code a = code b -> a = b.
Proof. intros H. by rewrite <- (chr_code a), <- (chr_code b), H. Qed.

Lemma str_ltb_spec a b s t : str_ltb (String a s) (String b t) = true <->
  code a < code b \/ (code a = code b /\ str_ltb s t = true).
Proof. cbn. rewrite orb_true_iff, andb_true_iff, Z.ltb_lt, Z.eqb_eq. tauto. Qed.

Lemma str_ltb_trans s t u : str_ltb s t = true -> str_ltb t u = true -> str_ltb s u = true.
Proof.
  revert t u. induction s as [|a s IH]; intros [|b t] [|c u]; try done.
  rewrite !str_ltb_spec. intros [?|[? ?]] [?|[? ?]]; [left; lia..|right]. split; [lia|eauto].
Qed.

Lemma str_ltb_total s t : s = t \/ str_ltb s t = true \/ str_ltb t s = true.
Proof.
  revert t. induction s as [|a s IH]; intros [|b t]; [by left|by right; left|by right; right|].
  rewrite !str_ltb_spec. destruct (Z.lt_trichotomy (code a) (code b)) as [?|[E|?]]; [tauto| |tauto].
  apply code_inj in E as ->. destruct (IH t) as [-> | [?|?]]; tauto.
Qed.

Lemma key_ltb_spec d1 t1 i1 d2 t2 i2 : key_ltb (d1, t1, i1) (d2, t2, i2) = true <->
  d1 < d2 \/ (d1 = d2 /\ (t1 < t2 \/ (t1 = t2 /\ str_ltb i1 i2 = true))).
Proof. unfold key_ltb. rewrite !orb_true_iff, !andb_true_iff, !orb_true_iff, !andb_true_iff, !Z.ltb_lt, !Z.eqb_eq. tauto. Qed.

Lemma key_ltb_irrefl k : key_ltb k k = false.
Proof.
  destruct k as [[d t] i]. apply not_true_iff_false. rewrite key_ltb_spec, str_ltb_irrefl. intros H.
  destruct H as [?|[_ [?|[_ ?]]]]; [lia|lia|done].
Qed.

Lemma key_ltb_trans a b c : key_ltb a b = true -> key_ltb b c = true -> key_ltb a c = true.
Proof.
  destruct a as [[? ?] ?], b as [[? ?] ?], c as [[? ?] ?]. rewrite !key_ltb_spec.
  intros [?|[? [?|[? ?]]]] [?|[? [?|[? ?]]]]; try (left; lia); right; (split; [lia|]);
    try (left; lia). right. split; [lia|]. by eapply str_ltb_trans.
Qed.

Lemma key_ltb_total a b : a = b \/ key_ltb a b = true \/ key_ltb b a = true.
Proof.
  destruct a as [[d t] i], b as [[d' t'] i']. rewrite !key_ltb_spec.
  destruct (Z.lt_trichotomy d d') as [?|[-> |?]]; [tauto| |tauto].
  destruct (Z.lt_trichotomy t t') as [?|[-> |?]]; [tauto| |tauto].
  destruct (str_ltb_total i i') as [-> | [?|?]]; tauto.
Qed.

Lemma key_ltb_asym a b : key_ltb a b = true -> key_ltb b a = false.
Proof.
  intros H. apply not_true_iff_false. intros H'.
  pose proof (key_ltb_trans _ _ _ H H') as E. by rewrite key_ltb_irrefl in E.
Qed.

(** ** Descending lists *)
Notation row2 := (entry_row * option entry_row)%type.

(** Every earlier key is greater than every later one. *)
Fixpoint descending (l : list row2) : Prop :=
  match l with
  | [] => True
  | p :: l' => (forall q, q ∈ l' -> key_ltb (pair_key q) (pair_key p) = true) /\ descending l'
  end.

Lemma insert_desc_in p q l : q ∈ insert_desc p l <-> q = p \/ q ∈ l.
Proof.
  induction l as [|r l IH]; cbn; [by rewrite list_elem_of_singleton, elem_of_nil; tauto|].
  destruct (key_ltb (pair_key p) (pair_key r)); rewrite !elem_of_cons; [rewrite IH; tauto|tauto].
Qed.

Lemma order_desc_in q l : q ∈ order_desc l <-> q ∈ l.
Proof.
  induction l as [|p l IH]; [done|]. by rewrite order_desc_cons, insert_desc_in, elem_of_cons, IH.
Qed.

Lemma insert_desc_perm p l : insert_desc p l ≡ₚ p :: l.
Proof.
  induction l as [|q l IH]; cbn; [done|].
  destruct (key_ltb (pair_key p) (pair_key q)); [|done]. rewrite IH. constructor.
Qed.

Lemma order_desc_perm l : order_desc l ≡ₚ l.
Proof. induction l as [|p l IH]; [done|]. by rewrite order_desc_cons, insert_desc_perm, IH. Qed.

Lemma insert_descending p l : descending l -> (forall q, q ∈ l -> pair_key q <> pair_key p) ->
  descending (insert_desc p l).
Proof.
  induction l as [|r l IH]; cbn; intros Hd Hne; [split; [|done]; by intros q ?%elem_of_nil|].
  destruct Hd as [Hr Hd]. destruct (key_ltb (pair_key p) (pair_key r)) eqn:E; cbn.
  - split; [|apply IH; [done|]; intros q Hq; apply Hne; by right].
    intros q [-> | Hq]%insert_desc_in; [done|by apply Hr].
  - assert (key_ltb (pair_key r) (pair_key p) = true) as Hrp.
    { destruct (key_ltb_total (pair_key r) (pair_key p)) as [H|[H|H]]; [|done|congruence].
      destruct (Hne r); [left|done]. }
    split; [|by split]. intros q [-> | Hq]%elem_of_cons; [done|]. eapply key_ltb_trans; [by apply Hr|done].
Qed.

Lemma order_descending l : NoDup (map pair_key l) -> descending (order_desc l).
Proof.
  induction l as [|p l IH]; cbn; [done|]. intros [Hp Hl]%list.NoDup_cons. rewrite order_desc_cons.
  apply insert_descending; [by apply IH|]. intros q Hq E. apply (proj1 (order_desc_in _ _)) in Hq. apply Hp. rewrite <- E.
  apply list_elem_of_In, List.in_map. by apply list_elem_of_In.
Qed.

(** Filtering before sorting is filtering after. *)
Lemma insert_filter (f : row2 -> bool) p l : descending l ->
  List.filter f (insert_desc p l) = if f p then insert_desc p (List.filter f l) else List.filter f l.
Proof.
  induction l as [|r l IH]; cbn; intros Hd; [by destruct (f p)|]. destruct Hd as [Hr Hd].
  destruct (key_ltb (pair_key p) (pair_key r)) eqn:E; cbn.
  - rewrite IH by done. destruct (f r), (f p); cbn; try done. by rewrite E.
  - destruct (f p) eqn:Fp; [|done]. destruct (f r) eqn:Fr; cbn; [by rewrite E|].
    destruct (List.filter f l) as [|q k] eqn:El; [done|]. cbn.
    assert (q ∈ l) as Hq by (eapply list_elem_of_In, List.filter_In; rewrite El; by left).
    destruct (key_ltb (pair_key p) (pair_key q)) eqn:Epq; [|done].
    by rewrite (key_ltb_trans _ _ _ Epq (Hr q Hq)) in E.
Qed.

Lemma order_filter (f : row2 -> bool) l : NoDup (map pair_key l) ->
  order_desc (List.filter f l) = List.filter f (order_desc l).
Proof.
  induction l as [|p l IH]; cbn; [done|]. intros [Hp Hl]%list.NoDup_cons.
  rewrite order_desc_cons, insert_filter by (by apply order_descending). rewrite <- IH by done.
  by destruct (f p).
Qed.

(** The rest of the list is what sorts below its n-th element. *)
Lemma descending_after l1 p l2 : descending (l1 ++ p :: l2) ->
  List.filter (fun q => key_ltb (pair_key q) (pair_key p)) (l1 ++ p :: l2) = l2.
Proof.
  induction l1 as [|r l1 IH]; cbn.
  - intros [Hp _]. rewrite key_ltb_irrefl. rewrite forallb_filter_id; [done|].
    apply forallb_forall. intros q Hq. apply Hp. by apply list_elem_of_In.
  - intros [Hr Hd]. rewrite IH by done.
    rewrite (key_ltb_asym (pair_key p) (pair_key r)); [done|]. apply Hr, elem_of_app. right. left.
Qed.

(** ** The rows of a query *)
Definition in_scope (m : string) (from to : option Z) (hw : Z) (r : entry_row) : bool :=
  String.eqb (e_merchant r) (pg_uuid m) && in_filter from to r && (e_position r <=? hw).
Definition visible (hw : Z) (v : entry_row) : bool := e_position v <=? hw.
Definition scope_rows (m : string) (from to : option Z) (hw : Z) (db : ledger_db) : list entry_row :=
  List.filter (in_scope m from to hw) (entries db).
Definition joined (hw : Z) (db : ledger_db) (rows : list entry_row) : list row2 :=
  flat_map (left_join (visible hw) (entries db)) rows.

Lemma select_page_eq m from to hw after db : select_page m from to hw after db =
  order_desc (joined hw db (List.filter (after_key after) (scope_rows m from to hw db))).
Proof. unfold select_page, joined, scope_rows. by rewrite filter_filter. Qed.

(** Each row joins with its one visible reversal, or with none. *)
Lemma filter_unique {A} (f : A -> bool) (g : A -> option string) k l : NoDup (omap g l) ->
  (forall x, f x = true -> g x = Some k) -> (length (List.filter f l) <= 1)%nat.
Proof.
  intros Hn Hf. induction l as [|a l IH]; cbn; [lia|]. cbn in Hn. destruct (f a) eqn:Fa.
  - rewrite (Hf a Fa) in Hn. apply list.NoDup_cons in Hn as [Hk Hn].
    destruct (List.filter f l) as [|b t] eqn:E; [cbn; lia|]. destruct Hk.
    assert (b ∈ List.filter f l) as Hb by (rewrite E; left). apply in_filter_iff in Hb as [Hb Fb].
    apply list_elem_of_omap. by exists b; split; [|apply Hf].
  - apply IH. destruct (g a); [by apply list.NoDup_cons in Hn as [_ ?]|done].
Qed.

Lemma left_join_one hw db r : ledger_inv db ->
  exists rv, left_join (visible hw) (entries db) r = [(r, rv)].
Proof.
  intros Hi. unfold left_join.
  pose proof (filter_unique (fun v => opt_eqb (e_original v) (Some (e_id r)) && visible hw v)
    e_original (e_id r) (entries db) (inv_reversed_once _ Hi)) as Hu.
  destruct (List.filter _ (entries db)) as [|v [|w vs]]; [by eexists|by eexists|].
  cbn in Hu. exfalso. assert (S (S (length vs)) <= 1)%nat; [|lia]. apply Hu.
  intros x H. bool_to_prop. by apply opt_eqb_spec.
Qed.

Lemma joined_fst hw db rows : ledger_inv db -> map fst (joined hw db rows) = rows.
Proof.
  intros Hi. unfold joined. induction rows as [|r rows IH]; cbn; [done|].
  destruct (left_join_one hw db r Hi) as [rv ->]. cbn. by rewrite IH.
Qed.

Lemma joined_filter hw db (f : entry_row -> bool) rows : ledger_inv db ->
  joined hw db (List.filter f rows) = List.filter (fun p => f (fst p)) (joined hw db rows).
Proof.
  intros Hi. unfold joined. induction rows as [|r rows IH]; cbn; [done|].
  destruct (left_join_one hw db r Hi) as [rv E]. rewrite E. cbn.
  destruct (f r); cbn; [by rewrite E, IH|done].
Qed.

Lemma NoDup_map_via {A B C} (k : A -> B) (h : B -> C) l : NoDup (map (fun x => h (k x)) l) -> NoDup (map k l).
Proof.
  induction l as [|a l IH]; cbn; [intros; apply NoDup_nil_2|]. intros [Ha Hl]%list.NoDup_cons. apply list.NoDup_cons.
  split; [|by apply IH]. intros (x & Hx & Hin)%in_map. apply Ha. rewrite Hx.
  apply list_elem_of_In, (List.in_map (fun x => h (k x))). by apply list_elem_of_In.
Qed.

Lemma joined_keys hw db f : ledger_inv db ->
  NoDup (map pair_key (joined hw db (List.filter f (entries db)))).
Proof.
  intros Hi.
  assert (forall l : list row2, map pair_key l = map row_key (map fst l)) as -> by (intros; by rewrite map_map).
  rewrite joined_fst by done. apply (NoDup_map_via row_key snd).
  apply (NoDup_map_filter e_id), (inv_ids _ Hi).
Qed.

(** The pages after the first are the tail of the whole history below the
    high-water mark. *)
Lemma select_after m from to hw after db : ledger_inv db ->
  select_page m from to hw after db =
  List.filter (fun p => after_key after (fst p)) (select_page m from to hw None db).
Proof.
  intros Hi. rewrite !select_page_eq, joined_filter by done.
  assert (List.filter (after_key None) (scope_rows m from to hw db) = scope_rows m from to hw db) as ->
    by (apply forallb_filter_id, forallb_forall; done).
  apply order_filter. by apply joined_keys.
Qed.

Lemma select_descending m from to hw db : ledger_inv db -> descending (select_page m from to hw None db).
Proof.
  intros Hi. rewrite select_page_eq. apply order_descending. unfold scope_rows. rewrite filter_filter.
  by apply joined_keys.
Qed.

Lemma select_rest m from to hw db l1 p l2 : ledger_inv db ->
  select_page m from to hw None db = (l1 ++ p :: l2)%list ->
  select_page m from to hw (Some (pair_key p)) db = l2.
Proof.
  intros Hi E. rewrite select_after, E by done. apply descending_after. rewrite <- E.
  by apply select_descending.
Qed.

(** Entries confirmed later sort nowhere in the view of an earlier mark. *)
Lemma later_positions db db' later m r : ledger_inv db -> ledger_inv db' ->
  entries db' = (entries db ++ later)%list -> r ∈ later -> e_merchant r = m ->
  recorded_at db m < e_position r.
Proof.
  intros Hi Hi' E Hr Hm. pose proof (inv_positions _ Hi' m) as Hp. rewrite E in Hp.
  rewrite List.filter_app, map_app, (inv_positions _ Hi) in Hp.
  assert (e_position r ∈ map e_position (List.filter (of_merchant m) later)) as Hin.
  { apply list_elem_of_In, List.in_map, List.filter_In. split; [by apply list_elem_of_In|].
    unfold of_merchant. by apply String.eqb_eq. }
  assert (NoDup (upto (recorded_at db' m))) as Hn.
  { apply (NoDup_map_via Z.of_nat Z.to_nat). rewrite (map_ext _ id) by apply Nat2Z.id.
    rewrite map_id. apply NoDup_seq. }
  rewrite <- Hp in Hn. apply list.NoDup_app in Hn as (_ & Hdis & _).
  assert (e_position r ∈ upto (recorded_at db' m)) as Hr' by (rewrite <- Hp; apply elem_of_app; by right).
  apply Z.lt_nge. intros Hle. apply (Hdis (e_position r)); [|done].
  unfold upto in *. apply in_map in Hr' as (n & En & Hs%list_elem_of_In%in_seq). rewrite En in *.
  apply list_elem_of_In, List.in_map, in_seq. lia.
Qed.

Lemma flat_map_ext_elem {A B} (f g : A -> list B) l : (forall x, x ∈ l -> f x = g x) -> flat_map f l = flat_map g l.
Proof.
  induction l as [|a l IH]; intros H; cbn; [done|]. rewrite (H a) by left. f_equal. apply IH.
  intros x Hx. apply H. by right.
Qed.

Lemma select_stable m from to hw db db' : ledger_inv db -> ledger_inv db' ->
  appended (entries db) (entries db') -> hw <= last_position m db ->
  select_page m from to hw None db' = select_page m from to hw None db.
Proof.
  intros Hi Hi' [later E] Hw. change (last_position m db) with (recorded_at db (pg_uuid m)) in Hw.
  rewrite !select_page_eq. f_equal.
  assert (forall r, r ∈ later -> e_merchant r = pg_uuid m -> hw < e_position r) as Hlate.
  { intros r Hr Hm. pose proof (later_positions _ _ _ _ _ Hi Hi' E Hr Hm). lia. }
  assert (scope_rows m from to hw db' = scope_rows m from to hw db) as ->.
  { unfold scope_rows. rewrite E, List.filter_app. rewrite (filter_ext_eq _ (fun _ => false) later).
    - replace (List.filter (fun _ => false) later) with (@nil entry_row) by (clear; by induction later).
      by rewrite app_nil_r.
    - intros r Hr. unfold in_scope. destruct (String.eqb_spec (e_merchant r) (pg_uuid m)) as [Hm|]; [|done].
      pose proof (Hlate r Hr Hm). rewrite (proj2 (Z.leb_gt _ _)) by lia. by rewrite andb_false_r. }
  unfold joined. apply flat_map_ext_elem. intros r Hr. unfold left_join.
  apply in_filter_iff in Hr as [Hr _]. apply in_filter_iff in Hr as [Hin Hsc].
  rewrite E, List.filter_app. rewrite (filter_ext_eq _ (fun _ => false) later).
  - replace (List.filter (fun _ => false) later) with (@nil entry_row) by (clear; by induction later).
    by rewrite app_nil_r.
  - intros v Hv. destruct (opt_eqb (e_original v) (Some (e_id r))) eqn:Eo; [|done].
    apply opt_eqb_spec in Eo. assert (v ∈ entries db') as Hv' by (rewrite E; apply elem_of_app; by right).
    destruct (inv_reversals _ Hi' v _ Hv' Eo) as (x & Hx & Hxid & Hmx & _).
    assert (x = r) as ->.
    { apply (NoDup_map_inj e_id (entries db')); [apply Hi'|done| |done]. rewrite E. apply elem_of_app. by left. }
    unfold in_scope in Hsc. bool_to_prop. unfold visible.
    assert (hw < e_position v) by (apply Hlate; congruence). by apply Z.leb_gt.
Qed.

(** ** The cursor of a row reads back as its sort key *)
Lemma page_payload_scope m filter limit hw r e : scanEntry r = Ok e -> 0 < hw ->
  printable_date (e_confirmed r / day_ns) -> truncate_us (e_confirmed r) = e_confirmed r ->
  pg_uuid (e_id r) = e_id r ->
  exists k, scopeFromCursor (page_payload m filter limit hw e) = Ok {| HighWater := Some hw; After := Some k |} /\
    after_arg (Some k) = Some (row_key r).
Proof.
  intros Hs Hhw Hp Ht Hu. apply scanEntry_ok in Hs as (Hid & _ & _ & _ & _ & Hc & _ & _ & Hii & _ & Hd & Hpd).
  unfold scopeFromCursor, page_payload. cbn [HighWaterPosition LastDate LastTime LastID].
  rewrite (proj2 (Z.leb_gt _ _) Hhw), Hd, parse_date_string, Hc, parse_format_rfc3339, Hid, Hii by done.
  eexists. split; [reflexivity|]. unfold row_key, after_arg. cbn. rewrite midnight_id. by rewrite Ht, Hu.
Qed.

Lemma page_payload_valid m filter limit hw r e : scanEntry r = Ok e -> is_id m ->
  Forall (fun s => to_valid s = s) (let p := page_payload m filter limit hw e in
    [MerchantID p; p_From p; p_To p; LastDate p; LastTime p; LastID p]).
Proof.
  intros Hs Hm. apply scanEntry_ok in Hs as (Hid & _ & _ & _ & _ & Hc & _ & _ & Hii & _ & Hd & Hpd).
  assert (forall d, to_valid (optionalDateString d) = optionalDateString d) as Hdate
    by (intros [d|]; [apply to_valid_ascii, format_date_ascii|done]).
  cbn. repeat apply List.Forall_cons; try apply List.Forall_nil; try apply Hdate; apply to_valid_ascii.
  - by apply is_id_ascii.
  - apply format_date_ascii.
  - apply format_rfc3339_ascii.
  - rewrite Hid. by apply is_id_ascii.
Qed.

(** ** A client that follows the cursors *)
Section Client.
Context (hmac : string -> string -> string) (json_text : json -> string) (json_parse : string -> result json).
Context (secret : string) (env : tx_env).

Definition with_cursor (input : ListEntriesInput) (cursor : string) : ListEntriesInput :=
  {| l_MerchantID := l_MerchantID input; l_From := l_From input; l_To := l_To input;
     l_Limit := l_Limit input; l_Cursor := cursor |}.

(** Page after page, the n-th one on the database of that moment. *)
Fixpoint read_all (fuel : nat) (dbs : nat -> ledger_db) (n : nat) (input : ListEntriesInput)
    : result (list EntryResult) :=
  match fuel with
  | O => Err (EMsg "out of fuel")
  | S fuel' =>
      page ← LedgerService.ListEntries json_text hmac json_parse secret env (dbs n) input;
      if String.eqb (NextCursor page) "" then Ok (pg_Entries page)
      else rest ← read_all fuel' dbs (S n) (with_cursor input (NextCursor page));
           Ok (pg_Entries page ++ rest)%list
  end.
End Client.

Lemma scan_all_app l1 l2 es : scan_all (l1 ++ l2) = Ok es ->
  exists e1 e2, scan_all l1 = Ok e1 /\ scan_all l2 = Ok e2 /\ es = (e1 ++ e2)%list /\ length e1 = length l1.
Proof.
  revert es. induction l1 as [|p l1 IH]; intros es; cbn; [by exists [], es|].
  unfold wrap_err. destruct (scanStoredEntry p) as [e|]; [|done]. cbn.
  destruct (scan_all (l1 ++ l2)) as [es'|]; [|done]. intros [= <-].
  destruct (IH es' eq_refl) as (e1 & e2 & -> & -> & -> & <-). by exists (e :: e1), e2.
Qed.

Lemma scanStoredEntry_fst p e : scanStoredEntry p = Ok e -> scanEntry (fst p) = Ok (Stored e).
Proof.
  destruct p as [r rv]. cbn. destruct (scanEntry r) as [x|]; [|done]. cbn. destruct rv as [v|].
  - destruct (ID.ParseID (e_id v)); [|done]. by intros [= <-].
  - by intros [= <-].
Qed.

Lemma scan_all_take k l es : scan_all l = Ok es -> scan_all (take k l) = Ok (take k es).
Proof.
  revert k es. induction l as [|p l IH]; intros k es; cbn.
  - intros [= <-]. by destruct k.
  - unfold wrap_err at 1. destruct (scanStoredEntry p) as [e|] eqn:E; [|done]. cbn.
    destruct (scan_all l) as [es'|]; [|done]. intros [= <-]. destruct k as [|k]; [done|]. cbn.
    unfold wrap_err at 1. rewrite E. cbn. by rewrite (IH k es' eq_refl).
Qed.

Lemma scan_all_length l es : scan_all l = Ok es -> length es = length l.
Proof. rewrite <- (app_nil_r l) at 1. intros (? & ? & ? & [= <-] & -> & E)%scan_all_app. by rewrite app_nil_r. Qed.

(** A repository page over a query whose rows are [rest]. *)
Definition quiet (env : tx_env) : Prop := begin_fault env = None /\ statements env = [].

Lemma list_page_run env m filter limit hw after db rest es : quiet env -> 0 < limit ->
  select_page m (date_arg (From filter)) (date_arg (To filter)) hw (after_arg after) db = rest ->
  scan_all rest = Ok es ->
  run_read env (list_page m filter limit hw after) db =
    Ok {| sp_Entries := take (Z.to_nat limit) es; sp_HighWater := Some hw;
          HasMore := limit <? Z.of_nat (length es) |}.
Proof.
  intros [_ Hs] Hl Hsel Hscan. unfold run_read, list_page. rewrite Hs.
  unfold query, stmt, wrap_st, lift, mbind, st_bind, mret, st_ret. cbn [t_faults t_db t_clock with_db wrap_err].
  rewrite Hsel, (scan_all_take (Z.to_nat (limit + 1)) _ _ Hscan). cbn [t_faults t_db t_clock with_db wrap_err fst].
  rewrite length_take. f_equal. destruct (Z.ltb_spec limit (Z.of_nat (length es))).
  - rewrite (proj2 (Z.ltb_lt _ _)) by lia. rewrite take_take. do 2 f_equal. lia.
  - rewrite (proj2 (Z.ltb_ge _ _)) by lia. by rewrite !take_ge by lia.
Qed.

Lemma ListEntries_run env m filter limit hw after db rest es : quiet env -> 0 < limit ->
  select_page m (date_arg (From filter)) (date_arg (To filter)) hw (after_arg after) db = rest ->
  scan_all rest = Ok es ->
  LedgerDB.ListEntries env db m filter limit {| HighWater := Some hw; After := after |} =
    Ok {| sp_Entries := take (Z.to_nat limit) es; sp_HighWater := Some hw;
          HasMore := limit <? Z.of_nat (length es) |}.
Proof.
  intros Hq Hl Hsel Hscan. unfold LedgerDB.ListEntries. rewrite (proj1 Hq).
  unfold list_entries. cbn [HighWater After]. by apply list_page_run with rest.
Qed.

Lemma entry_position_pos db r : ledger_inv db -> r ∈ entries db -> 0 < e_position r.
Proof.
  intros Hi Hr. assert (e_position r ∈ upto (recorded_at db (e_merchant r))) as Hin.
  { rewrite <- (inv_positions _ Hi). apply list_elem_of_In, List.in_map, list_elem_of_In, in_filter_iff.
    split; [done|]. unfold of_merchant. by apply String.eqb_eq. }
  apply in_map in Hin as (n & -> & Hs%list_elem_of_In%in_seq). lia.
Qed.

Lemma ListEntries_first env m filter limit db rest es : quiet env -> 0 < limit -> ledger_inv db ->
  select_page m (date_arg (From filter)) (date_arg (To filter)) (last_position m db) None db = rest ->
  scan_all rest = Ok es ->
  exists hw, LedgerDB.ListEntries env db m filter limit {| HighWater := None; After := None |} =
    Ok {| sp_Entries := take (Z.to_nat limit) es; sp_HighWater := hw; HasMore := limit <? Z.of_nat (length es) |} /\
    (es <> [] -> hw = Some (last_position m db) /\ 0 < last_position m db).
Proof.
  intros Hq Hl Hi Hsel Hscan. unfold LedgerDB.ListEntries. rewrite (proj1 Hq). unfold list_entries.
  cbn [HighWater After]. unfold run_read. rewrite (proj2 Hq). unfold mbind at 1, st_bind at 1, query at 1, stmt at 1, wrap_st at 1.
  cbn [t_faults t_db t_clock with_db wrap_err]. pose proof (inv_range _ Hi (pg_uuid m)) as Hr.
  change (recorded_at db (pg_uuid m)) with (last_position m db) in Hr.
  destruct (Z.eqb_spec (last_position m db) 0) as [Hz|Hz].
  - assert (rest = []) as ->.
    { rewrite <- Hsel, select_page_eq. replace (scope_rows m _ _ _ db) with (@nil entry_row); [done|].
      symmetry. unfold scope_rows. destruct (List.filter _ (entries db)) as [|r l] eqn:E; [done|].
      assert (r ∈ List.filter (in_scope m (date_arg (From filter)) (date_arg (To filter)) (last_position m db)) (entries db))
        as Hin by (rewrite E; left). apply in_filter_iff in Hin as [Hin Hs].
      unfold in_scope in Hs. bool_to_prop.
      pose proof (entry_position_pos _ _ Hi Hin). lia. }
    injection Hscan as <-. eexists. rewrite take_nil. replace (limit <? Z.of_nat (length (@nil StoredEntry))) with false
      by (symmetry; apply Z.ltb_ge; cbn; lia). split; [reflexivity|done].
  - exists (Some (last_position m db)). split; [|intros _; split; [done|lia]].
    pose proof (list_page_run env m filter limit (last_position m db) None db rest es Hq Hl Hsel Hscan) as Hrun.
    unfold run_read in Hrun. by rewrite (proj2 Hq) in Hrun.
Qed.

Section Reading.
Context (hmac : string -> string -> string) (json_text : json -> string) (json_parse : string -> result json).
Context (secret : string) (env : tx_env).
Context (input : ListEntriesInput) (filter : ListFilter).
Let m := l_MerchantID input.
Let limit := if l_Limit input =? 0 then DefaultPageLimit else l_Limit input.
Context (Hquiet : quiet env) (Hm : is_id m).
Context (Hfilter : parseFilter (l_From input) (l_To input) = Ok filter).
Context (Hlimit : 1 <= limit <= MaximumPageLimit).

Definition page_token (mm : string) (f : ListFilter) (lim hw : Z) (e : Entry.entry) : string :=
  let doc := json_text (marshal_payload (page_payload mm f lim hw e)) in
  b64_encode doc +:+ String "." (b64_encode (hmac secret doc)).

(** What a page over the remaining entries [es] looks like. *)
Definition page_over (hw : Z) (es : list StoredEntry) : EntryPage :=
  {| pg_Entries := map resultFromStored (take (Z.to_nat limit) es);
     NextCursor := match (limit <? Z.of_nat (length es))%Z, list.last (take (Z.to_nat limit) es) with
                   | true, Some e => page_token m filter limit hw (Stored e)
                   | _, _ => ""
                   end |}.

Lemma limit_checks : (limit <? 1) || (MaximumPageLimit <? limit) = false.
Proof. apply orb_false_iff. rewrite !Z.ltb_ge. done. Qed.

Lemma page_finish hw hwo es : (es <> [] -> hwo = Some hw) ->
  (match limit <? Z.of_nat (length es), list.last (take (Z.to_nat limit) es), hwo with
   | true, Some e, Some hw =>
       next ← encode hmac json_text secret (page_payload m filter limit hw (Stored e));
       Ok {| pg_Entries := map resultFromStored (take (Z.to_nat limit) es); NextCursor := next |}
   | _, _, _ => Ok {| pg_Entries := map resultFromStored (take (Z.to_nat limit) es); NextCursor := "" |}
   end) = Ok (page_over hw es).
Proof.
  intros Hh. unfold page_over. destruct (limit <? Z.of_nat (length es)); [|done].
  destruct es as [|e0 es]; [by rewrite take_nil|]. rewrite (Hh ltac:(done)).
  by destruct (list.last (take (Z.to_nat limit) (e0 :: es))).
Qed.

Lemma token_nonempty hw e : String.eqb (page_token m filter limit hw e) "" = false.
Proof. apply String.eqb_neq. unfold page_token. by destruct (b64_encode _). Qed.

(** A full page ends at an element with something behind it. *)
Lemma split_page rest es : scan_all rest = Ok es -> limit < Z.of_nat (length es) ->
  exists r1 q r2 e1 eq e2, rest = (r1 ++ q :: r2)%list /\ es = (e1 ++ eq :: e2)%list /\
    list.last (take (Z.to_nat limit) es) = Some eq /\ scanStoredEntry q = Ok eq /\ scan_all r2 = Ok e2 /\
    take (Z.to_nat limit) es = (e1 ++ [eq])%list.
Proof.
  intros Hes Hl. pose proof (scan_all_length _ _ Hes) as Hlen.
  set (k := Z.to_nat (limit - 1)). assert (k < length rest)%nat as Hk by (rewrite <- Hlen; lia).
  destruct (lookup_lt_is_Some_2 rest k Hk) as [q Hq].
  pose proof (take_drop_middle rest k q Hq) as Hr. rewrite <- Hr in Hes.
  apply scan_all_app in Hes as (e1 & e2 & H1 & H2 & -> & Hl1). cbn in H2. unfold wrap_err in H2.
  destruct (scanStoredEntry q) as [eq|] eqn:Eq; [|done]. cbn in H2.
  destruct (scan_all (drop (S k) rest)) as [e3|] eqn:E3; [|done]. injection H2 as <-.
  rewrite length_take in Hl1.
  assert (take (Z.to_nat limit) (e1 ++ eq :: e3) = e1 ++ [eq])%list as Ht.
  { replace (Z.to_nat limit) with (length (e1 ++ [eq])) by (rewrite length_app; cbn; lia).
    replace (e1 ++ eq :: e3)%list with ((e1 ++ [eq]) ++ e3)%list by (by rewrite <- app_assoc).
    by rewrite take_app_length. }
  exists (take k rest), q, (drop (S k) rest), e1, eq, e3. splits; try done. rewrite Ht. by rewrite last_snoc.
Qed.

(** The first page. *)
Lemma first_page db es : l_Cursor input = "" -> ledger_inv db ->
  scan_all (select_page m (date_arg (From filter)) (date_arg (To filter)) (last_position m db) None db) = Ok es ->
  LedgerService.ListEntries json_text hmac json_parse secret env db input = Ok (page_over (last_position m db) es) /\
  (es <> [] -> 0 < last_position m db).
Proof.
  intros Hc Hi Hscan.
  destruct (ListEntries_first env m filter limit db _ es Hquiet ltac:(lia) Hi eq_refl Hscan) as (hwo & Hl & Hh).
  split; [|intros Hne; by destruct (Hh Hne)].
  unfold LedgerService.ListEntries, parseMerchant. fold m. rewrite Hm. cbn [mbind result_bind]. rewrite Hfilter.
  cbn [mbind result_bind]. fold limit. rewrite limit_checks. cbn [mbind result_bind].
  unfold cursor_scope. rewrite Hc. cbn [String.eqb mbind result_bind]. rewrite Hl. cbn [mbind result_bind sp_Entries sp_HighWater HasMore].
  apply page_finish. intros Hne. by destruct (Hh Hne).
Qed.

(** A page behind a cursor the service issued. *)
Lemma next_page db hw r e rest es : scanEntry r = Ok e -> 0 < hw <= int64_max ->
  printable_date (e_confirmed r / day_ns) -> truncate_us (e_confirmed r) = e_confirmed r ->
  pg_uuid (e_id r) = e_id r ->
  json_parse (json_text (marshal_payload (page_payload m filter limit hw e)))
    = Ok (marshal_payload (page_payload m filter limit hw e)) ->
  select_page m (date_arg (From filter)) (date_arg (To filter)) hw (Some (row_key r)) db = rest ->
  scan_all rest = Ok es ->
  LedgerService.ListEntries json_text hmac json_parse secret env db
    (with_cursor input (page_token m filter limit hw e)) = Ok (page_over hw es).
Proof.
  intros Hs Hhw Hp Ht Hu Hj Hsel Hscan.
  destruct (page_payload_scope m filter limit hw r e Hs ltac:(lia) Hp Ht Hu) as (k & Hscope & Hk).
  assert (decode hmac json_parse secret (page_token m filter limit hw e) = Ok (page_payload m filter limit hw e)) as Hdec.
  { apply decode_encoded; [done| | |by apply (page_payload_valid m filter limit hw r e)|done];
      cbn; apply in_int64_spec; unfold int64_min, int64_max, MaximumPageLimit in *; lia. }
  unfold LedgerService.ListEntries, parseMerchant. cbn [with_cursor l_MerchantID l_From l_To l_Limit l_Cursor].
  fold m. rewrite Hm. cbn [mbind result_bind]. rewrite Hfilter. cbn [mbind result_bind]. fold limit.
  rewrite limit_checks. cbn [mbind result_bind]. unfold cursor_scope. cbn [l_Cursor with_cursor].
  assert (String.eqb (page_token m filter limit hw e) "" = false) as ->.
  { apply String.eqb_neq. unfold page_token. by destruct (b64_encode _). }
  rewrite Hdec. cbn [mbind result_bind].
  change (MerchantID (page_payload m filter limit hw e)) with m.
  change (p_Limit (page_payload m filter limit hw e)) with limit.
  change (p_From (page_payload m filter limit hw e)) with (optionalDateString (From filter)).
  change (p_To (page_payload m filter limit hw e)) with (optionalDateString (To filter)).
  rewrite !String.eqb_refl, Z.eqb_refl. cbn [negb orb]. rewrite Hscope. cbn [mbind result_bind].
  rewrite (ListEntries_run env m filter limit hw (Some k) db rest es Hquiet ltac:(lia)); [|by rewrite Hk|done].
  cbn [mbind result_bind sp_Entries sp_HighWater HasMore].
  by apply (page_finish hw (Some hw) es).
Qed.

(** Following the cursors from a page over [es] yields all of [es]. *)
Lemma read_rest (dbs : nat -> ledger_db) hw all : 0 < hw <= int64_max ->
  (forall n, select_page m (date_arg (From filter)) (date_arg (To filter)) hw None (dbs n) = all) ->
  (forall n, ledger_inv (dbs n)) ->
  (forall p e, p ∈ all -> scanEntry (fst p) = Ok e ->
     printable_date (e_confirmed (fst p) / day_ns) /\ truncate_us (e_confirmed (fst p)) = e_confirmed (fst p) /\
     pg_uuid (e_id (fst p)) = e_id (fst p) /\
     json_parse (json_text (marshal_payload (page_payload m filter limit hw e)))
       = Ok (marshal_payload (page_payload m filter limit hw e))) ->
  forall fuel n l1 p rest e es, all = (l1 ++ p :: rest)%list -> scanEntry (fst p) = Ok e ->
  scan_all rest = Ok es -> (length rest < fuel)%nat ->
  read_all hmac json_text json_parse secret env fuel dbs n (with_cursor input (page_token m filter limit hw e))
    = Ok (map resultFromStored es).
Proof.
  intros Hhw Hall Hinv Hrows. induction fuel as [|fuel IH]; intros n l1 p rest e es E He Hes Hf; [lia|].
  destruct (Hrows p e ltac:(rewrite E; apply elem_of_app; right; left) He) as (Hp & Ht & Hu & Hj).
  cbn [read_all]. rewrite (next_page (dbs n) hw (fst p) e rest es He Hhw Hp Ht Hu Hj); [| |done].
  2:{ apply (select_rest m _ _ hw (dbs n) l1 p rest (Hinv n)). by rewrite Hall. }
  cbn [mbind result_bind]. unfold page_over. cbn [NextCursor pg_Entries].
  destruct (Z.ltb_spec limit (Z.of_nat (length es))) as [Hmore|Hdone].
  - destruct (split_page rest es Hes Hmore) as (r1 & q & r2 & e1 & eq & e2 & Hr & Hes' & Hlast & Hq & H2 & Htake).
    rewrite Hlast. rewrite (token_nonempty hw (Stored eq)).
    change (with_cursor (with_cursor input ?c) ?d) with (with_cursor input d).
    rewrite (IH (S n) (l1 ++ p :: r1)%list q r2 (Stored eq) e2); [| |by apply scanStoredEntry_fst|done|].
    + cbn. by rewrite Htake, Hes', <- map_app, <- app_assoc.
    + rewrite E, Hr. by rewrite <- app_assoc.
    + rewrite Hr, length_app in Hf. cbn in Hf. lia.
  - cbn. by rewrite take_ge by lia.
Qed.
End Reading.

Lemma select_in_scope m from to hw db p : ledger_inv db -> p ∈ select_page m from to hw None db ->
  fst p ∈ entries db.
Proof.
  intros Hi Hp. rewrite select_page_eq in Hp. apply (proj1 (order_desc_in _ _)) in Hp.
  assert (fst p ∈ map fst (joined hw db (List.filter (after_key None) (scope_rows m from to hw db)))) as Hf
    by (apply list_elem_of_In, List.in_map; by apply list_elem_of_In).
  rewrite joined_fst in Hf by done. by apply in_filter_iff in Hf as [[? _]%in_filter_iff _].
Qed.

Lemma scan_all_in l es p : scan_all l = Ok es -> p ∈ l -> exists e, e ∈ es /\ scanStoredEntry p = Ok e.
Proof.
  intros Hs (l1 & l2 & ->)%list_elem_of_split. apply scan_all_app in Hs as (e1 & e2 & _ & H2 & -> & _).
  cbn in H2. unfold wrap_err in H2. destruct (scanStoredEntry p) as [e|]; [|done]. cbn in H2.
  destruct (scan_all l2); [|done]. injection H2 as <-. exists e. split; [|done]. apply elem_of_app. right. left.
Qed.

(** C5: listing is complete and stable: a client that reads the first page
    and follows the returned cursors, while commands keep changing the
    database between its pages, gets exactly the entries of the merchant that
    match the filter and existed at the first page, each once, newest business
    date first, with their state at that moment, and then stops. *)
Theorem ListEntries_complete sha256 ll hmac json_text json_parse secret env input filter
    (dbs : nat -> ledger_db) stored :
  let m := l_MerchantID input in
  let limit := if l_Limit input =? 0 then DefaultPageLimit else l_Limit input in
  let hw := last_position m (dbs O) in
  let all := select_page m (date_arg (From filter)) (date_arg (To filter)) hw None (dbs O) in
  steps (ledger_step sha256 json_text ll) empty_db (dbs O) ->
  (forall n, steps (ledger_step sha256 json_text ll) (dbs n) (dbs (S n))) ->
  quiet env -> is_id m -> parseFilter (l_From input) (l_To input) = Ok filter ->
  1 <= limit <= MaximumPageLimit -> l_Cursor input = "" ->
  scan_all all = Ok stored ->
  (forall e, e ∈ stored ->
     let doc := marshal_payload (page_payload m filter limit hw (Stored e)) in
     json_parse (json_text doc) = Ok doc) ->
  (forall fuel, (length stored < fuel)%nat ->
     read_all hmac json_text json_parse secret env fuel dbs 0 input = Ok (map resultFromStored stored)) /\
  map fst all ≡ₚ List.filter (in_scope m (date_arg (From filter)) (date_arg (To filter)) hw) (entries (dbs O)) /\
  descending all.
Proof.
  intros m limit hw all Hreach Hsteps Hq Hm Hf Hl Hc Hscan Hj.
  assert (forall n, ledger_inv (dbs n) /\ appended (entries (dbs O)) (entries (dbs n))) as Hall.
  { induction n as [|n [IHi IHa]].
    - split; [apply (steps_spec _ _ _ _ _ Hreach empty_inv)|apply appended_refl].
    - destruct (steps_spec _ _ _ _ _ (Hsteps n) IHi) as (? & ? & _). split; [done|by eapply appended_trans]. }
  pose proof (proj1 (Hall O)) as Hi0. split; [|split].
  2:{ unfold all. rewrite select_page_eq, order_desc_perm, joined_fst by done.
      rewrite forallb_filter_id; [done|]. by apply forallb_forall. }
  2:{ by apply select_descending. }
  intros [|fuel] Hfuel; [lia|]. cbn [read_all].
  destruct (first_page hmac json_text json_parse secret env input filter Hq Hm Hf Hl (dbs O) stored Hc Hi0 Hscan) as [-> Hpos].
  cbn [mbind result_bind]. unfold page_over. cbn [NextCursor pg_Entries]. fold limit m hw.
  destruct (Z.ltb_spec limit (Z.of_nat (length stored))) as [Hmore|Hdone].
  - destruct (split_page input Hl all stored Hscan Hmore) as (r1 & q & r2 & e1 & eq & e2 & Hr & Hs' & Hlast & Hqs & H2 & Htake).
    fold limit in Hlast, Htake. rewrite Hlast.
    pose proof (token_nonempty hmac json_text secret input filter hw (Stored eq)) as Htok. fold m limit in Htok. rewrite Htok.
    rewrite (read_rest hmac json_text json_parse secret env input filter Hq Hm Hf Hl dbs hw all) with (l1 := r1) (p := q) (rest := r2) (es := e2).
    + cbn. by rewrite Htake, Hs', <- map_app, <- app_assoc.
    + split; [apply Hpos; rewrite Hs'; by destruct e1|]. apply (inv_range _ Hi0 (pg_uuid m)).
    + intros n. apply select_stable; [done|apply (Hall n)|apply (Hall n)|done].
    + intros n. apply (Hall n).
    + intros p e Hp He. destruct (inv_times _ Hi0 (fst p)) as (? & ? & ?); [by eapply select_in_scope|].
      splits; try done. destruct (scan_all_in _ _ p Hscan Hp) as (se & Hin & Hse).
      pose proof (scanStoredEntry_fst _ _ Hse) as E. rewrite E in He. injection He as <-. by apply Hj.
    + done.
    + by apply scanStoredEntry_fst.
    + done.
    + assert (length all = length stored) as Hlen by (symmetry; by apply scan_all_length).
      rewrite Hr, length_app in Hlen. cbn in Hlen. lia.
  - cbn. by rewrite take_ge by lia.
Qed.

Definition sample_list : ListEntriesInput :=
  {| l_MerchantID := sample_merchant; l_From := None; l_To := None; l_Limit := 1; l_Cursor := "" |}.
Definition sample_filter : ListFilter := {| From := None; To := None |}.
Definition sample_all : list row2 := Eval vm_compute in select_page sample_merchant None None 2 None sample_db2.
Definition sample_stored : list StoredEntry := Eval vm_compute in
  match scan_all sample_all with Ok es => es | Err _ => [] end.
Definition doc_of (k : nat) : json :=
  match sample_stored !! k with
  | Some e => marshal_payload (page_payload sample_merchant sample_filter 1 2 (Stored e))
  | None => JNull
  end.
Definition sample_doc0 : json := Eval vm_compute in doc_of 0.
Definition sample_doc1 : json := Eval vm_compute in doc_of 1.
(** Enough of a JSON parser for the two documents. *)
Definition sample_parse (s : string) : result json :=
  if String.eqb s (sample_text sample_doc0) then Ok sample_doc0 else Ok sample_doc1.

Lemma sample_step2 : sample_step sample_db1 sample_db2.
Proof.
  apply (step_reverse _ _ _ _ (sample_env 2) (sample_reverse "r1" sample_id1) (fst (sample_rev "r1" 2 sample_db1)));
    vm_compute; reflexivity.
Qed.

Lemma sample_steps2 : steps sample_step empty_db sample_db2.
Proof. eapply steps_snoc; [apply sample_steps1|apply sample_step2]. Qed.

Lemma ListEntries_complete_witness :
  length sample_stored = 2%nat /\
  read_all (fun k m => k +:+ m) sample_text sample_parse "secret" (db_env (sample_env 1)) 3
    (fun _ => sample_db2) 0 sample_list = Ok (map resultFromStored sample_stored).
Proof.
  split; [reflexivity|].
  destruct (ListEntries_complete sample_sha256 sample_zone (fun k m => k +:+ m) sample_text sample_parse "secret"
    (db_env (sample_env 1)) sample_list sample_filter (fun _ => sample_db2) sample_stored) as [H _].
  - exact sample_steps2.
  - intros n. apply steps_refl.
  - split; reflexivity.
  - vm_compute. reflexivity.
  - reflexivity.
  - split; by apply Z.leb_le.
  - reflexivity.
  - vm_compute. reflexivity.
  - intros e He. apply elem_of_cons in He as [-> | He]; [vm_compute; reflexivity|].
    apply list_elem_of_singleton in He as ->. vm_compute. reflexivity.
  - apply H. cbn. lia.
Defined.

Lemma ledger_invariant_witness : ledger_inv sample_db2 /\ length (entries sample_db2) = 2%nat.
Proof.
  split; [|reflexivity].
  apply (proj1 (ledger_invariant sample_sha256 sample_text sample_zone sample_db2 sample_steps2)).
Defined.
