(* ===== verification/Auth.v ===== *)
(** * Authentication and authorization

    internal/platform/auth/{identity,policy,errors,verifier}.go,
    internal/platform/tenancy/guard.go and
    internal/platform/auth/httpauth/middleware.go: the verified identity, the
    closed scope policies, the token verifier, the tenant guard and the HTTP
    middleware that composes them.

    RSA verification, the hash functions, the signing keys, json.Unmarshal
    from text and the conversion of a fractional JSON number to an instant are
    arguments. *)

From S2P Require Import Prelude.
From S2P Require Import GoStrings.
From S2P Require Import GoTime.
From S2P Require Import Json.
From S2P Require Import Cursor.
From S2P Require Import TraceContext.
From Stdlib Require String.
From Stdlib Require Import ZArith Lia Ascii.
Open Scope string_scope.
Open Scope Z_scope.

(** ** errors.go *)
Definition ErrTokenMissing : error := ESentinel "auth.ErrTokenMissing".
Definition ErrTokenMalformed : error := ESentinel "auth.ErrTokenMalformed".
Definition ErrAlgorithmNotAllowed : error := ESentinel "auth.ErrAlgorithmNotAllowed".
Definition ErrKeyUnknown : error := ESentinel "auth.ErrKeyUnknown".
Definition ErrSignatureInvalid : error := ESentinel "auth.ErrSignatureInvalid".
Definition ErrTokenExpired : error := ESentinel "auth.ErrTokenExpired".
Definition ErrTokenNotYetValid : error := ESentinel "auth.ErrTokenNotYetValid".
Definition ErrIssuerMismatch : error := ESentinel "auth.ErrIssuerMismatch".
Definition ErrAudienceMismatch : error := ESentinel "auth.ErrAudienceMismatch".
Definition ErrSubjectMissing : error := ESentinel "auth.ErrSubjectMissing".
Definition ErrMerchantMissing : error := ESentinel "auth.ErrMerchantMissing".
Definition ErrMerchantForbidden : error := ESentinel "auth.ErrMerchantForbidden".
Definition ErrScopeMissing : error := ESentinel "auth.ErrScopeMissing".
Definition ErrOperationUnknown : error := ESentinel "auth.ErrOperationUnknown".

Definition authentication_failures : list string :=
  ["auth.ErrTokenMissing"; "auth.ErrTokenMalformed"; "auth.ErrAlgorithmNotAllowed";
   "auth.ErrKeyUnknown"; "auth.ErrSignatureInvalid"; "auth.ErrTokenExpired";
   "auth.ErrTokenNotYetValid"; "auth.ErrIssuerMismatch"; "auth.ErrAudienceMismatch";
   "auth.ErrSubjectMissing"; "auth.ErrMerchantMissing"; "auth.ErrMerchantForbidden"].
Definition IsAuthenticationFailure (err : error) : bool :=
  existsb (errors_is err) authentication_failures.
Definition IsAuthorizationFailure (err : error) : bool :=
  errors_is err "auth.ErrScopeMissing" || errors_is err "auth.ErrOperationUnknown".

(** ** identity.go *)
Definition ScopeSet : Type := gset string.
Definition ParseScopes (raw : string) : ScopeSet := list_to_set (fields raw).
Definition Has (s : ScopeSet) (scope : string) : bool := bool_decide (scope ∈ s).
Definition HasAll (s : ScopeSet) (required : list string) : bool := forallb (Has s) required.

Record Identity : Type := {
  Subject : string; MerchantID : string; ClientID : string; Scopes : ScopeSet;
  Issuer : string; Audience : list string; TokenID : string; IssuedAt : Z; ExpiresAt : Z }.

Definition Owns (i : Identity) (merchantID : string) : bool :=
  if String.eqb (MerchantID i) "" || String.eqb merchantID "" then false
  else String.eqb (MerchantID i) merchantID.
Definition IsService (i : Identity) : bool := String.eqb (MerchantID i) "".

(** ** policy.go *)
Definition OperationCreateEntry := "POST /v1/entries".
Definition OperationCreateReversal := "POST /v1/entries/{entry_id}/reversals".
Definition OperationGetEntry := "GET /v1/entries/{entry_id}".
Definition OperationListEntries := "GET /v1/entries".
Definition OperationGetDailyBalances := "GET /v1/daily-balances".
Definition OperationGetWatermark := "/cashflow.ledger.internal.v1.LedgerInternalService/GetMerchantWatermark".
Definition OperationStreamEntriesAtCut := "/cashflow.ledger.internal.v1.LedgerInternalService/StreamEntriesAtCut".
Definition OperationReprocessDLQ := "cashflow.reconciliation.ops/ReprocessDLQ".

Definition ScopeLedgerRead := "ledger:read".
Definition ScopeLedgerWrite := "ledger:write".
Definition ScopeConsolidationRead := "consolidation:read".
Definition ScopeLedgerInternal := "ledger:internal:read".
Definition ScopeOpsReconcile := "ops:reconcile".

Definition ScopePolicy : Type := gmap string (list string).
Definition PublicEdgePolicy : ScopePolicy := list_to_map [
  (OperationCreateEntry, [ScopeLedgerWrite]);
  (OperationCreateReversal, [ScopeLedgerWrite]);
  (OperationGetEntry, [ScopeLedgerRead]);
  (OperationListEntries, [ScopeLedgerRead]);
  (OperationGetDailyBalances, [ScopeConsolidationRead])].
Definition InternalGRPCPolicy : ScopePolicy := list_to_map [
  (OperationGetWatermark, [ScopeLedgerInternal]);
  (OperationStreamEntriesAtCut, [ScopeLedgerInternal; ScopeOpsReconcile])].
Definition ReconciliationOpsPolicy : ScopePolicy := list_to_map [
  (OperationReprocessDLQ, [ScopeOpsReconcile])].

Definition PolicyAuthorize (p : ScopePolicy) (operation : string) (identity : Identity) : result unit :=
  match p !! operation with
  | None => Err ErrOperationUnknown
  | Some required => if HasAll (Scopes identity) required then Ok tt else Err ErrScopeMissing
  end.

(** ** verifier.go *)
Inductive MerchantRequirement : Type := MerchantRequired | MerchantForbidden.
Inductive crypto_hash : Type := SHA256 | SHA384 | SHA512.

(** What a key source returns: an RSA key or a key of another kind. *)
Inductive public_key : Type := RSAKey (n e : Z) | OtherKey.

Definition DefaultLeeway : Z := 30 * second.
Definition defaultMerchantClaim := "merchant_id".
Definition defaultScopeClaim := "scope".
Definition minRSAModulusBits : Z := 2048.
Definition maxTokenBytes : Z := 8192.

Record VerifierConfig : Type := {
  cfg_Issuer : string; cfg_Audience : string; cfg_Keys : option (string -> result public_key);
  cfg_Merchant : MerchantRequirement; cfg_AllowedAlgorithms : list string;
  cfg_MerchantClaim : string; cfg_ScopeClaim : string; cfg_Leeway : Z }.

Record Verifier : Type := {
  v_issuer : string; v_audience : string; v_keys : string -> result public_key;
  v_merchant : MerchantRequirement; v_algorithms : gmap string crypto_hash;
  v_merchantClaim : string; v_scopeClaim : string; v_leeway : Z }.

Definition supportedAlgorithms (name : string) : option crypto_hash :=
  if String.eqb name "RS256" then Some SHA256
  else if String.eqb name "RS384" then Some SHA384
  else if String.eqb name "RS512" then Some SHA512 else None.

Fixpoint algorithm_map (names : list string) (acc : gmap string crypto_hash)
    : result (gmap string crypto_hash) :=
  match names with
  | [] => Ok acc
  | name :: rest =>
      match supportedAlgorithms name with
      | None => Err (EMsg "auth: algorithm is not supported")
      | Some hash => algorithm_map rest (<[name := hash]> acc)
      end
  end.

Definition NewVerifier (config : VerifierConfig) : result Verifier :=
  if String.eqb (cfg_Issuer config) "" then Err (EMsg "auth: issuer is required")
  else if String.eqb (cfg_Audience config) "" then Err (EMsg "auth: audience is required")
  else
    match cfg_Keys config with
    | None => Err (EMsg "auth: key source is required")
    | Some keys =>
        let names := match cfg_AllowedAlgorithms config with [] => ["RS256"] | ns => ns end in
        algorithms ← algorithm_map names ∅;
        Ok {| v_issuer := cfg_Issuer config; v_audience := cfg_Audience config; v_keys := keys;
              v_merchant := cfg_Merchant config; v_algorithms := algorithms;
              v_merchantClaim := if String.eqb (cfg_MerchantClaim config) "" then defaultMerchantClaim
                                 else cfg_MerchantClaim config;
              v_scopeClaim := if String.eqb (cfg_ScopeClaim config) "" then defaultScopeClaim
                              else cfg_ScopeClaim config;
              v_leeway := if cfg_Leeway config =? 0 then DefaultLeeway else cfg_Leeway config |}
    end.

Definition decodeSegment (segment : string) : option string := b64_decode segment.

(** The fields of the object an Unmarshal into a struct or a map sees. *)
Definition object_fields (j : json) : result (list (string * json)) :=
  match j with JObj f => Ok f | JNull => Ok [] | _ => bad_json end.

(** A key of a Go map: exact, the last one wins. *)
Fixpoint jraw (key : string) (fields : list (string * json)) : option json :=
  match fields with
  | [] => None
  | (k, v) :: rest =>
      match jraw key rest with
      | Some w => Some w
      | None => if String.eqb k key then Some v else None
      end
  end.

(** [audienceList.UnmarshalJSON]: one string, or an array of strings. *)
Fixpoint dec_strings (items : list json) : result (list string) :=
  match items with
  | [] => Ok []
  | j :: rest => s ← dec_string (Some j); ss ← dec_strings rest; Ok (s :: ss)
  end.
Definition audienceList (j : option json) : result (list string) :=
  match j with
  | None => Ok []
  | Some JNull => Ok [""]
  | Some (JStr s) => Ok [s]
  | Some (JArr items) => dec_strings items
  | Some _ => bad_json
  end.
Definition contains (a : list string) (audience : string) : bool :=
  existsb (fun value => String.eqb value audience) a.

Section Verification.
Context (json_parse : string -> result json).
(** The instant [numericDate] reads from a number that is not a small
    integer: float64 arithmetic. *)
Context (float_time : json -> result Z).
Context (digest : crypto_hash -> string -> string).
Context (rsa_verify : Z -> Z -> crypto_hash -> string -> string -> bool).

Definition numericDate (j : option json) : result (option Z) :=
  match j with
  | None | Some JNull => Ok None
  | Some (JInt z) =>
      if (-9007199254740992 <=? z) && (z <=? 9007199254740992)
      then Ok (Some (unix_epoch + z * second))
      else t ← float_time (JInt z); Ok (Some t)
  | Some (JNum s) => t ← float_time (JNum s); Ok (Some t)
  | Some _ => bad_json
  end.

Record joseHeader : Type := { Algorithm : string; KeyID : string; Type_ : string }.
Definition unmarshal_header (j : json) : result joseHeader :=
  f ← object_fields j;
  alg ← dec_string (jfield "alg" f); kid ← dec_string (jfield "kid" f); typ ← dec_string (jfield "typ" f);
  Ok {| Algorithm := alg; KeyID := kid; Type_ := typ |}.

Record registeredClaims : Type := {
  rc_iss : string; rc_sub : string; rc_aud : list string; rc_exp : option Z; rc_nbf : option Z;
  rc_iat : option Z; rc_jti : string; rc_azp : string }.
Definition unmarshal_claims (j : json) : result registeredClaims :=
  f ← object_fields j;
  iss ← dec_string (jfield "iss" f); sub ← dec_string (jfield "sub" f);
  aud ← audienceList (jfield "aud" f); exp ← numericDate (jfield "exp" f);
  nbf ← numericDate (jfield "nbf" f); iat ← numericDate (jfield "iat" f);
  jti ← dec_string (jfield "jti" f); azp ← dec_string (jfield "azp" f);
  Ok {| rc_iss := iss; rc_sub := sub; rc_aud := aud; rc_exp := exp; rc_nbf := nbf;
        rc_iat := iat; rc_jti := jti; rc_azp := azp |}.

Definition stringClaim (raw : list (string * json)) (name : string) : result string :=
  match jraw name raw with
  | None => Ok ""
  | Some value => match dec_string (Some value) with Ok text => Ok text | Err _ => Err ErrTokenMalformed end
  end.

Definition merchant_check (requirement : MerchantRequirement) (merchantID : string) : result unit :=
  match requirement with
  | MerchantRequired => if String.eqb merchantID "" then Err ErrMerchantMissing else Ok tt
  | MerchantForbidden => if String.eqb merchantID "" then Ok tt else Err ErrMerchantForbidden
  end.

Definition time_checks (leeway now : Z) (exp : Z) (nbf : option Z) : result unit :=
  if exp + leeway <? now then Err ErrTokenExpired
  else match nbf with
       | Some n => if now + leeway <? n then Err ErrTokenNotYetValid else Ok tt
       | None => Ok tt
       end.

Definition identityFromPayload (v : Verifier) (now : Z) (payload : string) : result Identity :=
  match (j ← json_parse payload; claims ← unmarshal_claims j; raw ← object_fields j; Ok (claims, raw)) with
  | Err _ => Err ErrTokenMalformed
  | Ok (claims, raw) =>
      if negb (String.eqb (rc_iss claims) (v_issuer v)) then Err ErrIssuerMismatch
      else if negb (contains (rc_aud claims) (v_audience v)) then Err ErrAudienceMismatch
      else if String.eqb (rc_sub claims) "" then Err ErrSubjectMissing
      else
        match rc_exp claims with
        | None => Err ErrTokenMalformed
        | Some exp =>
            _ ← time_checks (v_leeway v) now exp (rc_nbf claims);
            merchantID ← stringClaim raw (v_merchantClaim v);
            _ ← merchant_check (v_merchant v) merchantID;
            scopeValue ← stringClaim raw (v_scopeClaim v);
            Ok {| Subject := rc_sub claims; MerchantID := merchantID; ClientID := rc_azp claims;
                  Scopes := ParseScopes scopeValue; Issuer := rc_iss claims; Audience := rc_aud claims;
                  TokenID := rc_jti claims; IssuedAt := default 0 (rc_iat claims); ExpiresAt := exp |}
        end
  end.

(** [publicKey.N.BitLen()] *)
Definition bit_length (n : Z) : Z := if n =? 0 then 0 else Z.log2 n + 1.

Definition Verify (v : Verifier) (now : Z) (token : string) : result Identity :=
  if String.eqb (trim_space token) "" then Err ErrTokenMissing
  else if maxTokenBytes <? slen token then Err ErrTokenMalformed
  else
    match split "." token with
    | [p0; p1; p2] =>
        match decodeSegment p0 with
        | None => Err ErrTokenMalformed
        | Some headerBytes =>
            match (j ← json_parse headerBytes; unmarshal_header j) with
            | Err _ => Err ErrTokenMalformed
            | Ok header =>
                if negb (String.eqb (Type_ header) "") && negb (String.eqb (Type_ header) "JWT")
                   && negb (String.eqb (Type_ header) "at+jwt")
                then Err ErrTokenMalformed
                else
                  match v_algorithms v !! Algorithm header with
                  | None => Err ErrAlgorithmNotAllowed
                  | Some hash =>
                      match decodeSegment p1, decodeSegment p2 with
                      | Some payloadBytes, Some signature =>
                          match v_keys v (KeyID header) with
                          | Err e => Err (EJoin [ErrKeyUnknown; e])
                          | Ok OtherKey => Err ErrAlgorithmNotAllowed
                          | Ok (RSAKey n e) =>
                              if bit_length n <? minRSAModulusBits then Err ErrSignatureInvalid
                              else if negb (rsa_verify n e hash (digest hash (p0 +:+ String "." p1)) signature)
                              then Err ErrSignatureInvalid
                              else identityFromPayload v now payloadBytes
                          end
                      | _, _ => Err ErrTokenMalformed
                      end
                  end
            end
        end
    | _ => Err ErrTokenMalformed
    end.
End Verification.

(** ** tenancy/guard.go *)
Definition ErrResourceUnavailable : error := ESentinel "tenancy.ErrResourceUnavailable".

(** [padded]: copy into a zeroed buffer of the given width. *)
Definition padded (value : string) (width : nat) : string :=
  value +:+ String.string_of_list_ascii (repeat Ascii.zero (width - String.length value)).

Definition Authorize (owner_of : string -> result (string * bool)) (identity : Identity)
    (resourceID : string) : result unit :=
  '(owner, found) ← owner_of resourceID;
  let width := Nat.max (String.length (MerchantID identity)) (String.length owner) in
  let matches := String.eqb (padded (MerchantID identity) width) (padded owner width) in
  if negb found || negb matches || String.eqb (MerchantID identity) "" then Err ErrResourceUnavailable
  else Ok tt.

(** ** httpauth/middleware.go *)
Module Http.
Definition DefaultMaxBodyBytes : Z := 1048576.

(** [textproto.CanonicalMIMEHeaderKey]: a letter is upper case at the start
    and behind a hyphen, lower case elsewhere. *)
Fixpoint canonical_from (upper : bool) (s : string) : string :=
  match s with
  | "" => ""
  | String c s' =>
      String (if upper then upper_ascii c else lower_ascii c) (canonical_from (Ascii.eqb c "-") s')
  end.
Definition canonical (s : string) : string := canonical_from true s.

(** Header values by canonical name. *)
Definition header : Type := gmap string (list string).
Definition Get (h : header) (name : string) : string :=
  match h !! canonical name with Some (v :: _) => v | _ => "" end.
Definition Del (h : header) (name : string) : header := base.delete (canonical name) h.
Definition Set_ (h : header) (name value : string) : header := <[canonical name := [value]]> h.

Definition untrustedHeaders : list string :=
  ["X-Merchant-Id"; "X-Merchant-ID"; "X-Tenant-Id"; "X-Authenticated-User"; "X-Forwarded-For";
   "X-Forwarded-Host"; "X-Forwarded-Proto"; "X-Forwarded-Port"; "X-Real-Ip"; "Forwarded"; "Baggage"].

Definition TraceParentHeader : string := "Traceparent".
Definition TraceStateHeader : string := "Tracestate".

(** The body: absent, or what reading and closing it gives. *)
Record request : Type := {
  Header : header; ContentLength : Z; Body : option (result string) }.
Definition with_header (r : request) (h : header) : request :=
  {| Header := h; ContentLength := ContentLength r; Body := Body r |}.

Definition ErrShortBuffer : error := ESentinel "io.ErrShortBuffer".

Definition normalizeTraceContext (traceBytes spanBytes : result (list Z)) (r : request)
    : request * option Edge.carrier :=
  match Edge.EnsureTraceParent traceBytes spanBytes (Get (Header r) TraceParentHeader) with
  | Err _ => (with_header r (Del (Del (Header r) TraceParentHeader) TraceStateHeader), None)
  | Ok (span, _) =>
      let h := Set_ (Header r) TraceParentHeader (Edge.span_string span) in
      let state := Edge.SanitizeTraceState (Get h TraceStateHeader) in
      let h := if String.eqb state "" then Del h TraceStateHeader else Set_ h TraceStateHeader state in
      (with_header r h, Some (Edge.WithCarrier span state))
  end.

Definition bufferBoundedBody (maxBody : Z) (r : request) : result request :=
  match Body r with
  | None => Ok r
  | Some contents =>
      contents ← contents;
      let read := String.substring 0 (Z.to_nat (maxBody + 1)) contents in
      if maxBody <? slen read then Err ErrShortBuffer
      else Ok {| Header := Header r; ContentLength := slen read; Body := Some (Ok read) |}
  end.

Definition bearerToken (h : string) : result string :=
  let '(scheme, credential, found) := cut " " (trim_space h) in
  if negb found || negb (equal_fold scheme "Bearer") then Err ErrTokenMissing
  else
    let credential := trim_space credential in
    if String.eqb credential "" then Err ErrTokenMissing else Ok credential.

(** The fixed problem responses. *)
Record problem : Type := { status : Z; problem_code : string; message : string; challenge : bool }.
Definition unauthenticated : problem :=
  {| status := 401; problem_code := "unauthenticated"; message := "Authentication is required."; challenge := true |}.
Definition forbidden : problem :=
  {| status := 403; problem_code := "forbidden";
     message := "The authenticated identity is not allowed to perform this operation."; challenge := false |}.
Definition too_large : problem :=
  {| status := 413; problem_code := "request_too_large";
     message := "The request body exceeds the allowed size."; challenge := false |}.
Definition resource_unavailable : problem :=
  {| status := 404; problem_code := "not_found"; message := "The requested resource was not found."; challenge := false |}.

(** Refused with a problem, or the next handler ran with the rewritten
    request, the identity, the carrier and the response's traceparent. *)
Inductive outcome : Type :=
  | Refused (p : problem)
  | Served (r : request) (identity : Identity) (c : option Edge.carrier) (traceparent : string).

Record Config : Type := {
  cfg_Verifier : option Verifier; cfg_Policy : option ScopePolicy; cfg_Operation : string;
  cfg_MaxBodyBytes : Z }.

Definition errInvalidConfig {A} (reason : string) : result A := Err (EMsg ("httpauth: " +:+ reason)).

Section Middleware.
Context (verify : Verifier -> Z -> string -> result Identity).

Definition handle (v : Verifier) (policy : ScopePolicy) (operation : string) (maxBody : Z)
    (now : Z) (traceBytes spanBytes : result (list Z)) (r : request) : outcome :=
  let r := with_header r (fold_left Del untrustedHeaders (Header r)) in
  let '(r, c) := normalizeTraceContext traceBytes spanBytes r in
  if maxBody <? ContentLength r then Refused too_large
  else
    match bearerToken (Get (Header r) "Authorization") with
    | Err _ => Refused unauthenticated
    | Ok token =>
        match verify v now token with
        | Err _ => Refused unauthenticated
        | Ok identity =>
            match PolicyAuthorize policy operation identity with
            | Err _ => Refused forbidden
            | Ok _ =>
                match bufferBoundedBody maxBody r with
                | Err _ => Refused too_large
                | Ok r => Served r identity c (Get (Header r) TraceParentHeader)
                end
            end
        end
    end.

(** The handler the middleware builds, or the configuration error. *)
Definition Middleware (config : Config)
    : result (Z -> result (list Z) -> result (list Z) -> request -> outcome) :=
  match cfg_Verifier config with
  | None => errInvalidConfig "verifier is required"
  | Some v =>
      match cfg_Policy config with
      | None => errInvalidConfig "scope policy is required"
      | Some policy =>
          match policy !! cfg_Operation config with
          | None => errInvalidConfig ("operation " +:+ (cfg_Operation config +:+ " has no declared scope policy"))
          | Some _ =>
              let maxBody := if cfg_MaxBodyBytes config =? 0 then DefaultMaxBodyBytes
                             else cfg_MaxBodyBytes config in
              Ok (handle v policy (cfg_Operation config) maxBody)
          end
      end
  end.
End Middleware.
End Http.

(** ** The verifier *)

(** The rules of the API for a token, its decoded parts and its identity. *)
Record accepted (json_parse : string -> result json) (float_time : json -> result Z)
    (digest : crypto_hash -> string -> string)
    (rsa_verify : Z -> Z -> crypto_hash -> string -> string -> bool)
    (v : Verifier) (now : Z) (token : string) (id : Identity) : Prop := {
  ok_size : trim_space token <> "" /\ slen token <= maxTokenBytes;
  ok_signed : exists p0 p1 p2 header hj payload sig hash n e,
    split "." token = [p0; p1; p2] /\ b64_decode p0 = Some header /\ b64_decode p1 = Some payload /\
    b64_decode p2 = Some sig /\ json_parse header = Ok hj /\
    (exists h, unmarshal_header hj = Ok h /\ Type_ h ∈ [""; "JWT"; "at+jwt"] /\
       v_algorithms v !! Algorithm h = Some hash /\ v_keys v (KeyID h) = Ok (RSAKey n e)) /\
    minRSAModulusBits <= bit_length n /\
    rsa_verify n e hash (digest hash (p0 +:+ String "." p1)) sig = true /\
    (exists pj fields claims exp merchant scope, json_parse payload = Ok pj /\ object_fields pj = Ok fields /\
       unmarshal_claims float_time pj = Ok claims /\
       rc_iss claims = v_issuer v /\ v_audience v ∈ rc_aud claims /\ rc_sub claims <> "" /\
       rc_exp claims = Some exp /\ now <= exp + v_leeway v /\
       (forall nbf, rc_nbf claims = Some nbf -> nbf <= now + v_leeway v) /\
       stringClaim fields (v_merchantClaim v) = Ok merchant /\
       (merchant = "" <-> v_merchant v = MerchantForbidden) /\
       stringClaim fields (v_scopeClaim v) = Ok scope /\
       id = {| Subject := rc_sub claims; MerchantID := merchant; ClientID := rc_azp claims;
               Scopes := ParseScopes scope; Issuer := v_issuer v; Audience := rc_aud claims;
               TokenID := rc_jti claims; IssuedAt := default 0 (rc_iat claims); ExpiresAt := exp |}) }.

Lemma contains_spec a x : contains a x = true <-> x ∈ a.
Proof.
  unfold contains. rewrite existsb_exists. split.
  - intros (y & Hy & ->%String.eqb_eq). by apply list_elem_of_In.
  - intros H. exists x. by rewrite String.eqb_refl, <- list_elem_of_In.
Qed.

Lemma time_checks_spec leeway now exp nbf : time_checks leeway now exp nbf = Ok tt <->
  now <= exp + leeway /\ (forall n, nbf = Some n -> n <= now + leeway).
Proof.
  unfold time_checks. destruct (Z.ltb_spec (exp + leeway) now).
  - split; [done|]. intros [? _]. lia.
  - destruct nbf as [n|]; [|by split; [intros _; split|]].
    destruct (Z.ltb_spec (now + leeway) n).
    + split; [done|]. intros [_ Hn]. specialize (Hn n eq_refl). lia.
    + split; [|done]. intros _. split; [done|]. by intros ? [= <-].
Qed.

Lemma merchant_check_spec r m : merchant_check r m = Ok tt <-> (m = "" <-> r = MerchantForbidden).
Proof. destruct r; cbn; destruct (String.eqb_spec m ""); naive_solver. Qed.

Lemma stringClaim_payload jp ft v now payload id : identityFromPayload jp ft v now payload = Ok id <->
  exists pj fields claims exp merchant scope, jp payload = Ok pj /\ object_fields pj = Ok fields /\
    unmarshal_claims ft pj = Ok claims /\ rc_iss claims = v_issuer v /\ v_audience v ∈ rc_aud claims /\
    rc_sub claims <> "" /\ rc_exp claims = Some exp /\ now <= exp + v_leeway v /\
    (forall nbf, rc_nbf claims = Some nbf -> nbf <= now + v_leeway v) /\
    stringClaim fields (v_merchantClaim v) = Ok merchant /\
    (merchant = "" <-> v_merchant v = MerchantForbidden) /\
    stringClaim fields (v_scopeClaim v) = Ok scope /\
    id = {| Subject := rc_sub claims; MerchantID := merchant; ClientID := rc_azp claims;
            Scopes := ParseScopes scope; Issuer := v_issuer v; Audience := rc_aud claims;
            TokenID := rc_jti claims; IssuedAt := default 0 (rc_iat claims); ExpiresAt := exp |}.
Proof.
  unfold identityFromPayload. split.
  - destruct (jp payload) as [pj|]; [|done]. unfold mbind, result_bind.
    destruct (unmarshal_claims ft pj) as [c|] eqn:Ec; [|done].
    destruct (object_fields pj) as [f|] eqn:Ef; [|done].
    destruct (String.eqb_spec (rc_iss c) (v_issuer v)) as [Hi|]; [|done]. cbn [negb].
    destruct (contains (rc_aud c) (v_audience v)) eqn:Ea; [|done]. apply contains_spec in Ea. cbn [negb].
    destruct (String.eqb_spec (rc_sub c) ""); [done|].
    destruct (rc_exp c) as [exp|] eqn:Ee; [|done].
    destruct (time_checks _ _ _ _) as [[]|] eqn:Et; [|done]. apply time_checks_spec in Et as [? ?].
    destruct (stringClaim f (v_merchantClaim v)) as [m|] eqn:Em; [|done].
    destruct (merchant_check _ _) as [[]|] eqn:Emc; [|done]. apply merchant_check_spec in Emc.
    destruct (stringClaim f (v_scopeClaim v)) as [s|] eqn:Es; [|done]. intros [= <-].
    exists pj, f, c, exp, m, s. splits; try done. by rewrite Hi.
  - intros (pj & f & c & exp & m & s & -> & Hf & Hc & Hi & Ha & Hs & He & Ht & Hn & Hm & Hmc & Hsc & ->).
    unfold mbind, result_bind. rewrite Hc, Hf, Hi, String.eqb_refl. cbn [negb].
    rewrite (proj2 (contains_spec _ _) Ha). cbn [negb]. rewrite (proj2 (String.eqb_neq _ _) Hs), He.
    rewrite (proj2 (time_checks_spec _ _ _ _) (conj Ht Hn)), Hm, (proj2 (merchant_check_spec _ _) Hmc). by rewrite Hsc.
Qed.

Lemma header_type_spec t : (negb (String.eqb t "") && negb (String.eqb t "JWT") && negb (String.eqb t "at+jwt"))
  = false <-> t ∈ [""; "JWT"; "at+jwt"].
Proof.
  destruct (String.eqb_spec t ""), (String.eqb_spec t "JWT"), (String.eqb_spec t "at+jwt"); cbn; set_solver.
Qed.

(** C11: [Verify] establishes an identity exactly for the tokens the policy
    describes: three base64url segments; an allowed algorithm; a published RSA
    key of at least 2048 bits whose signature covers the header and payload
    segments as sent; the configured issuer and audience; a subject; an expiry
    and not-before within the leeway; a merchant claim when required and none
    when forbidden.  The identity is read from those signed claims only. *)
Theorem Verify_spec jp ft digest rsa v now token id :
  Verify jp ft digest rsa v now token = Ok id <-> accepted jp ft digest rsa v now token id.
Proof.
  unfold Verify. split.
  - intros H. destruct (String.eqb_spec (trim_space token) "") as [|Ht]; [done|].
    destruct (Z.ltb_spec maxTokenBytes (slen token)) as [|Hl]; [done|].
    destruct (split "." token) as [|p0 [|p1 [|p2 [|]]]] eqn:Esp; try done. unfold decodeSegment in H.
    destruct (b64_decode p0) as [hb|] eqn:E0; [|done]. unfold mbind, result_bind in H.
    destruct (jp hb) as [hj|] eqn:Ej; [|done]. destruct (unmarshal_header hj) as [h|] eqn:Eh; [|done].
    match type of H with (if ?b then _ else _) = _ => destruct b eqn:Ety; [done|] end.
    apply header_type_spec in Ety. destruct (v_algorithms v !! Algorithm h) as [hash|] eqn:Ea; [|done].
    destruct (b64_decode p1) as [pb|] eqn:E1; [|done]. destruct (b64_decode p2) as [sg|] eqn:E2; [|done].
    destruct (v_keys v (KeyID h)) as [[n e|]|] eqn:Ek; try done.
    destruct (Z.ltb_spec (bit_length n) minRSAModulusBits); [done|].
    destruct (rsa n e hash (digest hash (p0 +:+ String "." p1)) sg) eqn:Er; [|done]. cbn [negb] in H.
    apply stringClaim_payload in H. split; [done|].
    exists p0, p1, p2, hb, hj, pb, sg, hash, n, e. splits; try done. by exists h.
  - intros [[Ht Hl] (p0 & p1 & p2 & hb & hj & pb & sg & hash & n & e & Esp & E0 & E1 & E2 & Ej &
      (h & Eh & Ety & Ea & Ek) & Hn & Er & Hp)].
    rewrite (proj2 (String.eqb_neq _ _) Ht), (proj2 (Z.ltb_ge _ _) Hl), Esp. unfold decodeSegment, mbind, result_bind.
    rewrite E0, Ej, Eh, (proj2 (header_type_spec _) Ety), Ea, E1, E2, Ek, (proj2 (Z.ltb_ge _ _) Hn), Er.
    cbn [negb]. by apply stringClaim_payload.
Qed.

(** Whatever the token, the keys and the clock, [Verify] either returns
    an identity or an error that [IsAuthenticationFailure] recognises, so
    every refusal of a credential gets the one transport status of a missing
    one. *)
Theorem Verify_errors jp ft digest rsa v now token :
  match Verify jp ft digest rsa v now token with
  | Ok _ => True
  | Err e => IsAuthenticationFailure e = true
  end.
Proof.
  unfold Verify, identityFromPayload, time_checks, merchant_check, stringClaim, mbind, result_bind.
  repeat (case_match; simplify_eq; try done).
  apply existsb_exists. exists "auth.ErrKeyUnknown". split; [do 3 right; by left|done].
Qed.

Lemma HasAll_spec raw required : HasAll (ParseScopes raw) required = true <->
  forall s, s ∈ required -> s ∈ fields raw.
Proof.
  unfold HasAll, Has, ParseScopes. rewrite forallb_forall. split; intros H s Hs.
  - apply list_elem_of_In in Hs. specialize (H s Hs). apply bool_decide_eq_true in H. by apply elem_of_list_to_set in H.
  - apply bool_decide_eq_true, elem_of_list_to_set, H. by apply list_elem_of_In.
Qed.

(** The scope policies are closed and exact: an identity is let through
    when the operation is declared and every scope it requires is one of the
    space-separated words of the scope claim, and refused otherwise; each
    public operation needs its own read or write scope, and the internal
    stream of entries needs both internal scopes. *)
Theorem policy_closed p operation id raw : Scopes id = ParseScopes raw ->
  (PolicyAuthorize p operation id = Ok tt <->
   exists required, p !! operation = Some required /\ forall s, s ∈ required -> s ∈ fields raw) /\
  (PolicyAuthorize PublicEdgePolicy operation id = Ok tt ->
   (operation ∈ [OperationCreateEntry; OperationCreateReversal] /\ ScopeLedgerWrite ∈ fields raw) \/
   (operation ∈ [OperationGetEntry; OperationListEntries] /\ ScopeLedgerRead ∈ fields raw) \/
   (operation = OperationGetDailyBalances /\ ScopeConsolidationRead ∈ fields raw)) /\
  (PolicyAuthorize InternalGRPCPolicy operation id = Ok tt -> ScopeLedgerInternal ∈ fields raw).
Proof.
  intros Hraw.
  assert (forall q, PolicyAuthorize q operation id = Ok tt <->
    exists required, q !! operation = Some required /\ forall s, s ∈ required -> s ∈ fields raw) as Hp.
  { intros q. unfold PolicyAuthorize. rewrite Hraw. destruct (q !! operation) as [req|].
    - destruct (HasAll (ParseScopes raw) req) eqn:E.
      + split; [|done]. intros _. exists req. split; [done|]. by apply HasAll_spec.
      + split; [done|]. intros (? & [= <-] & H). apply HasAll_spec in H. congruence.
    - split; [done|]. by intros (? & ? & _). }
  split; [apply Hp|]. rewrite !Hp. split.
  - intros (req & Hreq & Hs). apply elem_of_list_to_map_2 in Hreq.
    rewrite !elem_of_cons in Hreq.
    destruct Hreq as [[= -> ->]|[[= -> ->]|[[= -> ->]|[[= -> ->]|[[= -> ->]|H%elem_of_nil]]]]]; [..|done].
    1,2: left; split; [rewrite !elem_of_cons; tauto|apply Hs; left].
    1,2: right; left; split; [rewrite !elem_of_cons; tauto|apply Hs; left].
    right; right. split; [done|apply Hs; left].
  - intros (req & Hreq & Hs). apply elem_of_list_to_map_2 in Hreq.
    rewrite !elem_of_cons in Hreq.
    destruct Hreq as [[= -> ->]|[[= -> ->]|H%elem_of_nil]]; [apply Hs; left..|done].
Qed.

Definition sample_identity (merchant raw : string) : Identity :=
  {| Subject := "s"; MerchantID := merchant; ClientID := "c"; Scopes := ParseScopes raw; Issuer := "i";
     Audience := ["a"]; TokenID := "t"; IssuedAt := 0; ExpiresAt := 0 |}.

Lemma policy_closed_witness :
  ScopeLedgerWrite ∈ fields "ledger:read ledger:write" /\
  PolicyAuthorize PublicEdgePolicy OperationCreateEntry (sample_identity "m" "ledger:read ledger:write") = Ok tt.
Proof.
  assert (fields "ledger:read ledger:write" = [ScopeLedgerRead; ScopeLedgerWrite]) as E by (vm_compute; reflexivity).
  assert (ScopeLedgerWrite ∈ fields "ledger:read ledger:write") as H by (rewrite E; right; left).
  split; [exact H|].
  apply (proj1 (policy_closed PublicEdgePolicy OperationCreateEntry
    (sample_identity "m" "ledger:read ledger:write") "ledger:read ledger:write" eq_refl)).
  exists [ScopeLedgerWrite]. split; [reflexivity|].
  intros s Hs. apply list_elem_of_singleton in Hs as ->. exact H.
Defined.

(** ** The tenant guard *)
Definition no_nul (s : string) : bool := forall_chars (fun c => negb (is_byte 0 c)) s.

Lemma nul_run_split a b n k : no_nul a = true -> no_nul b = true ->
  a +:+ String.string_of_list_ascii (repeat Ascii.zero n) = b +:+ String.string_of_list_ascii (repeat Ascii.zero k) -> a = b.
Proof.
  revert b. induction a as [|c a IH]; intros [|d b] Ha Hb E; cbn in *; [done| | |].
  - destruct n as [|n]; [done|]. injection E as <- _. by bool_to_prop.
  - destruct k as [|k]; [done|]. injection E as -> _. by bool_to_prop.
  - injection E as -> E. bool_to_prop. f_equal. by apply (IH b).
Qed.

Lemma Authorize_spec owner_of id resource :
  no_nul (MerchantID id) = true ->
  (forall o found, owner_of resource = Ok (o, found) -> no_nul o = true) ->
  Authorize owner_of id resource =
    match owner_of resource with
    | Err e => Err e
    | Ok (owner, found) =>
        if found && String.eqb owner (MerchantID id) && negb (String.eqb (MerchantID id) "")
        then Ok tt else Err ErrResourceUnavailable
    end.
Proof.
  intros Hm Ho. unfold Authorize. destruct (owner_of resource) as [[owner found]|]; [|done].
  specialize (Ho owner found eq_refl). cbn [mbind result_bind].
  set (w := Nat.max _ _).
  assert (String.eqb (padded (MerchantID id) w) (padded owner w) = String.eqb owner (MerchantID id)) as ->.
  { destruct (String.eqb_spec owner (MerchantID id)) as [->|Hne]; [apply String.eqb_refl|].
    apply String.eqb_neq. intros E. apply Hne. symmetry. by eapply nul_run_split. }
  by destruct found, (String.eqb owner (MerchantID id)), (String.eqb (MerchantID id) "").
Qed.

(** [Authorize] gives access exactly to the resources the caller's
    merchant owns; a resource that does not exist and one that belongs to
    another merchant get the same refusal (identifiers without NUL bytes). *)
Theorem guard_owner owner_of id resource :
  no_nul (MerchantID id) = true ->
  (forall o found, owner_of resource = Ok (o, found) -> no_nul o = true) ->
  Authorize owner_of id resource =
    match owner_of resource with
    | Err e => Err e
    | Ok (owner, found) =>
        if found && String.eqb owner (MerchantID id) && negb (String.eqb (MerchantID id) "")
        then Ok tt else Err ErrResourceUnavailable
    end.
Proof. apply Authorize_spec. Qed.

Lemma guard_owner_witness :
  let owner_of r := Ok (if String.eqb r "e1" then ("m1", true) else ("", false)) : result (string * bool) in
  Authorize owner_of (sample_identity "m1" "") "e1" = Ok tt /\
  Authorize owner_of (sample_identity "m2" "") "e1" = Authorize owner_of (sample_identity "m2" "") "e9".
Proof.
  intros owner_of.
  assert (forall r o found, owner_of r = Ok (o, found) -> no_nul o = true) as Ho.
  { intros r o f. unfold owner_of. destruct (String.eqb r "e1"); intros [= <- <-]; reflexivity. }
  split.
  - rewrite (guard_owner owner_of (sample_identity "m1" "") "e1" eq_refl (Ho "e1")). reflexivity.
  - rewrite (guard_owner owner_of (sample_identity "m2" "") "e1" eq_refl (Ho "e1")).
    rewrite (guard_owner owner_of (sample_identity "m2" "") "e9" eq_refl (Ho "e9")). reflexivity.
Defined.

(** ** The middleware *)
Lemma del_eq h n : Http.Del h n !! Http.canonical n = None.
Proof. apply lookup_delete_eq. Qed.
Lemma del_ne h n k : Http.canonical n <> k -> Http.Del h n !! k = h !! k.
Proof. apply lookup_delete_ne. Qed.
Lemma set_ne h n v k : Http.canonical n <> k -> Http.Set_ h n v !! k = h !! k.
Proof. apply lookup_insert_ne. Qed.

Lemma del_all_none h names n : n ∈ names -> (fold_left Http.Del names h) !! Http.canonical n = None.
Proof.
  revert h. induction names as [|m names IH]; intros h Hn; [by apply elem_of_nil in Hn|]. cbn.
  destruct (decide (n ∈ names)) as [Hin|Hin]; [by apply IH|].
  apply elem_of_cons in Hn as [<- | ?]; [|done].
  assert (forall k, (k : Http.header) !! Http.canonical n = None ->
    fold_left Http.Del names k !! Http.canonical n = None) as Hk.
  { clear -Hin. induction names as [|m names IH]; intros k Hk; cbn; [done|].
    apply IH; [set_solver|]. destruct (decide (Http.canonical m = Http.canonical n)) as [<- | ?];
      [apply del_eq|by rewrite del_ne]. }
  apply Hk, del_eq.
Qed.

(** The names the trace normalisation writes are not among the stripped ones. *)
Lemma untrusted_not_trace n : n ∈ Http.untrustedHeaders ->
  Http.canonical n <> Http.canonical Http.TraceParentHeader /\ Http.canonical n <> Http.canonical Http.TraceStateHeader.
Proof.
  assert (forallb (fun n => negb (String.eqb (Http.canonical n) (Http.canonical Http.TraceParentHeader)) &&
    negb (String.eqb (Http.canonical n) (Http.canonical Http.TraceStateHeader))) Http.untrustedHeaders = true) as H
    by (vm_compute; reflexivity).
  intros Hn. rewrite forallb_forall in H. apply list_elem_of_In in Hn. specialize (H n Hn). bool_to_prop. done.
Qed.

Lemma normalize_keeps t s r n : Http.canonical n <> Http.canonical Http.TraceParentHeader ->
  Http.canonical n <> Http.canonical Http.TraceStateHeader ->
  Http.Header (fst (Http.normalizeTraceContext t s r)) !! Http.canonical n = Http.Header r !! Http.canonical n.
Proof.
  intros H1 H2. unfold Http.normalizeTraceContext. destruct (Edge.EnsureTraceParent _ _ _) as [[sp k]|].
  - cbn [fst Http.with_header Http.Header]. case_match; rewrite ?del_ne, ?set_ne by done; done.
  - cbn [fst Http.with_header Http.Header]. by rewrite !del_ne by done.
Qed.

(** What the middleware hands on is verified, authorised, bounded and clean. *)
Lemma buffer_spec maxBody r r' : Http.bufferBoundedBody maxBody r = Ok r' ->
  Http.Header r' = Http.Header r /\
  (forall b, Http.Body r' = Some (Ok b) -> slen b <= maxBody).
Proof.
  unfold Http.bufferBoundedBody. destruct (Http.Body r) as [[c|]|] eqn:E; [|done|intros [= <-]; by rewrite E].
  cbn [mbind result_bind]. destruct (Z.ltb_spec maxBody (slen (String.substring 0 (Z.to_nat (maxBody + 1)) c))); [done|].
  intros [= <-]. split; [done|]. by intros b [= <-].
Qed.

Definition verified (verify : Verifier -> Z -> string -> result Identity) (v : Verifier) (now : Z)
    (r : Http.request) (id : Identity) : Prop :=
  exists token, Http.bearerToken (Http.Get (Http.Header r) "Authorization") = Ok token /\ verify v now token = Ok id.

Lemma get_authorization t s r : Http.Get (Http.Header (fst (Http.normalizeTraceContext t s
    (Http.with_header r (fold_left Http.Del Http.untrustedHeaders (Http.Header r)))))) "Authorization"
  = Http.Get (Http.Header r) "Authorization".
Proof.
  unfold Http.Get at 1. rewrite normalize_keeps by (vm_compute; congruence). cbn [Http.Header Http.with_header].
  assert (forall names h, forallb (fun n => negb (String.eqb (Http.canonical n) (Http.canonical "Authorization"))) names = true ->
    fold_left Http.Del names h !! Http.canonical "Authorization" = h !! Http.canonical "Authorization") as ->; [|done|done].
  induction names as [|n names IH]; intros h H; cbn [fold_left forallb] in *; [done|]. apply andb_true_iff in H as [H1 H2].
  rewrite IH by done. apply del_ne. intros E. rewrite E, String.eqb_refl in H1. done.
Qed.

(** The HTTP middleware lets a request through to the handler only when
    its bearer token verifies and its identity holds the scopes of the
    operation; the handler never sees an identity or forwarding header of the
    caller, nor a body over the limit; a token that is missing or does not
    verify is answered 401, an identity without the scope 403, an oversized
    body 413, and nothing else happens. *)
Theorem middleware_guards verify v policy operation maxBody now t s r :
  match Http.handle verify v policy operation maxBody now t s r with
  | Http.Served r' id c tp =>
      verified verify v now r id /\ PolicyAuthorize policy operation id = Ok tt /\
      (forall n, n ∈ Http.untrustedHeaders -> Http.Header r' !! Http.canonical n = None) /\
      (forall b, Http.Body r' = Some (Ok b) -> slen b <= maxBody) /\
      tp = Http.Get (Http.Header r') Http.TraceParentHeader
  | Http.Refused p =>
      (p = Http.too_large /\ (maxBody < Http.ContentLength r \/
         exists id, verified verify v now r id /\ PolicyAuthorize policy operation id = Ok tt)) \/
      (p = Http.unauthenticated /\ forall id, ~ verified verify v now r id) \/
      (p = Http.forbidden /\ exists id, verified verify v now r id /\ PolicyAuthorize policy operation id <> Ok tt)
  end.
Proof.
  unfold Http.handle. pose proof (get_authorization t s r) as Hauth.
  set (r0 := Http.with_header r _) in *.
  assert (Http.ContentLength (fst (Http.normalizeTraceContext t s r0)) = Http.ContentLength r) as Hlen.
  { unfold Http.normalizeTraceContext. by destruct (Edge.EnsureTraceParent _ _ _) as [[? ?]|]. }
  pose proof (fun n => normalize_keeps t s r0 n) as Hkeep.
  destruct (Http.normalizeTraceContext t s r0) as [r1 c]. cbn [fst] in *. rewrite Hlen.
  destruct (Z.ltb_spec maxBody (Http.ContentLength r)); [by left; split; [|left]|]. rewrite Hauth.
  destruct (Http.bearerToken _) as [token|] eqn:Et.
  2:{ right; left. split; [done|]. intros id (tk & Htk & _). congruence. }
  destruct (verify v now token) as [id|] eqn:Ev.
  2:{ right; left. split; [done|]. intros id (tk & Htk & Hv). congruence. }
  assert (verified verify v now r id) as Hver by (by exists token).
  destruct (PolicyAuthorize policy operation id) as [[]|] eqn:Ep; [|by right; right; split; [|exists id; rewrite Ep]].
  destruct (Http.bufferBoundedBody maxBody r1) as [r2|] eqn:Eb; [|by left; split; [|right; exists id]].
  destruct (buffer_spec _ _ _ Eb) as [Hh Hb]. splits; try done.
  - intros n Hn. rewrite Hh. destruct (untrusted_not_trace n Hn). rewrite Hkeep by done.
    by apply del_all_none.
Qed.
