(* ===== verification/LedgerServer.v ===== *)
(** * The Ledger's gRPC servers

    services/ledger/internal/adapters/inbound/grpc/server.go (the public API
    behind the HTTP gateway), internal_server.go (the watermark and the stream
    of entries the reconciliation reads) and
    services/ledger/internal/observability/metrics.go.

    A handler reads the verified identity and the incoming metadata of its
    context, calls the application service on the database and maps its outcome
    to a gRPC status.  [error_text] is [error.Error()]. *)

From S2P Require Import Prelude.
From S2P Require Import GoStrings.
From S2P Require Import GoTime.
From S2P Require Import Json.
From S2P Require Import LedgerDomain.
From S2P Require Import TraceContext.
From S2P Require Import LedgerDB.
From S2P Require Import Cursor.
From S2P Require Import LedgerService.
From S2P Require Import LedgerCommands.
From S2P Require Import LedgerInvariant.
From S2P Require Import LedgerRetry.
From S2P Require Import LedgerPages.
From S2P Require Import Auth.
From Stdlib Require String.
From Stdlib Require Import ZArith Lia Ascii.
Open Scope string_scope.
Open Scope Z_scope.

(** ** observability/metrics.go *)
Module Metrics.
Record metrics : Type := { commits : Z; conflicts : Z; failures : Z; commitNanos : Z }.
Definition zero : metrics := {| commits := 0; conflicts := 0; failures := 0; commitNanos := 0 |}.

Definition RecordCommit (duration : Z) (m : metrics) : metrics :=
  {| commits := wrapu64 (commits m + 1); conflicts := conflicts m; failures := failures m;
     commitNanos := wrapu64 (commitNanos m + Z.max duration 0) |}.
Definition RecordConflict (m : metrics) : metrics :=
  {| commits := commits m; conflicts := wrapu64 (conflicts m + 1); failures := failures m;
     commitNanos := commitNanos m |}.
Definition RecordFailure (m : metrics) : metrics :=
  {| commits := commits m; conflicts := conflicts m; failures := wrapu64 (failures m + 1);
     commitNanos := commitNanos m |}.
End Metrics.

(** ** Statuses *)
Inductive grpc_code : Type :=
  | Unauthenticated | InvalidArgument | NotFound | AlreadyExists | Internal | PermissionDenied.
Record status : Type := { st_code : grpc_code; st_message : string }.

(** What a handler returns: a response, or [status.Error]. *)
Inductive reply (A : Type) : Type := Reply (a : A) | Refused (s : status).
Arguments Reply {A} a.
Arguments Refused {A} s.
Definition refused {A} (c : grpc_code) (text : string) : reply A :=
  Refused {| st_code := c; st_message := text |}.

(** ** Generated messages: the fields the handlers use *)
Definition EntryType_name (t : Z) : string :=
  if t =? 0 then "ENTRY_TYPE_UNSPECIFIED" else if t =? 1 then "ENTRY_TYPE_CREDIT"
  else if t =? 2 then "ENTRY_TYPE_DEBIT" else fmt_d t.
Definition EntryType_value (name : string) : Z :=
  if String.eqb name "ENTRY_TYPE_CREDIT" then 1 else if String.eqb name "ENTRY_TYPE_DEBIT" then 2 else 0.
Definition EntryState_value (name : string) : Z :=
  if String.eqb name "ENTRY_STATE_CONFIRMED" then 1 else if String.eqb name "ENTRY_STATE_REVERSED" then 2 else 0.

Record CreateEntryRequest : Type := {
  q_Type : Z; q_Amount : string; q_Currency : string; q_BusinessDate : string; q_Description : string }.
Record ListEntriesRequest : Type := {
  q_PageSize : Z; q_PageToken : string; q_StartDate : string; q_EndDate : string }.
Record LedgerEntry : Type := {
  w_EntryId : string; w_Type : Z; w_Amount : string; w_Currency : string; w_BusinessDate : string;
  w_Description : string; w_ConfirmedAt : Z; w_OriginalEntryId : string; w_ReversalEntryId : string;
  w_State : Z }.
Record ListEntriesResponse : Type := { w_Entries : list LedgerEntry; w_NextPageToken : string }.

(** [fmt.Sprintf("%d.%02d", a/100, a%100)]: Go's division truncates. *)
Definition sprintf_amount (a : Z) : string :=
  let r := Z.rem a 100 in
  fmt_d (Z.quot a 100) +:+ String "." (if r <? 0 then fmt_d r else pad_dec 2 r).

Definition ptr (s : string) : option string := if String.eqb s "" then None else Some s.

Definition mapEntry (e : EntryResult) : LedgerEntry :=
  {| w_EntryId := x_ID e; w_Type := EntryType_value ("ENTRY_TYPE_" +:+ to_upper_ascii (x_Type e));
     w_Amount := sprintf_amount (x_AmountMinor e); w_Currency := x_Currency e;
     w_BusinessDate := x_BusinessDate e; w_Description := x_Description e;
     w_ConfirmedAt := x_ConfirmedAt e; w_OriginalEntryId := x_OriginalEntryID e;
     w_ReversalEntryId := x_ReversalEntryID e;
     w_State := EntryState_value ("ENTRY_STATE_" +:+ to_upper_ascii (x_State e)) |}.

Definition trim_prefix (p s : string) : string :=
  if has_prefix p s then drop_chars (String.length p) s else s.

(** [errors.Is(err, application.X)] *)
Definition is_app (err : error) (name : string) : bool := errors_is err ("application." +:+ name).

(** [metadata.MD.Get] and its first value, or the empty string. *)
Definition metadata : Type := gmap string (list string).
Definition md_first (md : metadata) (key : string) : string :=
  match md !! key with Some (v :: _) => v | _ => "" end.

(** [Server.OwnerOf], the resolver of the tenant guard. *)
Definition server_owner (env : tx_env) (db : ledger_db) (resourceID : string) : result (string * bool) :=
  match OwnerOf env db resourceID with
  | Err err => if is_app err "ErrEntryNotFound" then Ok ("", false) else Err err
  | Ok merchantID => Ok (merchantID, true)
  end.

Section Server.
Context (sha256 : string -> string) (json_text : json -> string).
Context (load_location : string -> option Calendar.location).
Context (hmac : string -> string -> string) (json_parse : string -> result json) (secret : string).
Context (error_text : error -> string).

Definition mapError (err : error) : status :=
  if is_app err "ErrInvalidArgument" || is_app err "ErrInvalidCursor" || is_app err "ErrCursorScopeMismatch"
  then {| st_code := InvalidArgument; st_message := error_text err |}
  else if is_app err "ErrEntryNotFound" then {| st_code := NotFound; st_message := "entry not found" |}
  else if is_app err "ErrIdempotencyConflict" || is_app err "ErrAlreadyReversed"
  then {| st_code := AlreadyExists; st_message := error_text err |}
  else {| st_code := Internal; st_message := "internal server error" |}.

(** The metrics are absent until [SetMetrics]. *)
Definition recordMutation (err : option error) (elapsed : Z) (metrics : option Metrics.metrics)
    : option Metrics.metrics :=
  match metrics with
  | None => None
  | Some m =>
      Some (match err with
            | None => Metrics.RecordCommit elapsed m
            | Some err =>
                if is_app err "ErrIdempotencyConflict" || is_app err "ErrAlreadyReversed"
                then Metrics.RecordConflict m
                else if is_app err "ErrInvalidArgument" || is_app err "ErrEntryNotFound" then m
                else Metrics.RecordFailure m
            end)
  end.

(** The server's state: the database and the metrics. *)
Record server : Type := { sv_db : ledger_db; sv_metrics : option Metrics.metrics }.

(** After the service's call: record, then map. *)
Definition answer (elapsed : Z) (run : result EntryResult * ledger_db) (s : server)
    : reply LedgerEntry * server :=
  match run with
  | (Ok x, db) => (Reply (mapEntry x),
      {| sv_db := db; sv_metrics := recordMutation None elapsed (sv_metrics s) |})
  | (Err err, db) => (Refused (mapError err),
      {| sv_db := db; sv_metrics := recordMutation (Some err) elapsed (sv_metrics s) |})
  end.

Definition identity_missing {A} : reply A := refused Unauthenticated "identity missing from adapter context".

Definition CreateEntry_input (identity : Identity) (md : metadata) (req : CreateEntryRequest)
    (money : Money.money) : CreateEntryInput :=
  {| c_MerchantID := Auth.MerchantID identity;
     c_IdempotencyKey := md_first md "grpcgateway-idempotency-key";
     c_Type := trim_prefix "entry_type_" (to_lower (EntryType_name (q_Type req)));
     c_AmountMinor := Money.AmountMinor money; c_Currency := q_Currency req;
     c_BusinessDate := ptr (q_BusinessDate req); c_Description := q_Description req;
     c_TimeZone := md_first md "grpcgateway-timezone";
     c_Traceparent := md_first md "grpcgateway-traceparent" |}.

Definition CreateEntry (env : cmd_env) (elapsed : Z) (identity : option Identity) (md : metadata)
    (req : CreateEntryRequest) (s : server) : reply LedgerEntry * server :=
  match identity with
  | None => (identity_missing, s)
  | Some identity =>
      match Money.ParseBRL (q_Amount req) with
      | Err _ => (refused InvalidArgument "invalid amount format", s)
      | Ok money =>
          answer elapsed (LedgerService.CreateEntry sha256 json_text load_location env
            (CreateEntry_input identity md req money) (sv_db s)) s
      end
  end.

(** The tenant guard of the entry routes. *)
Definition guarded {A} (env : tx_env) (db : ledger_db) (identity : Identity) (entryID : string)
    (k : reply A) : reply A :=
  match Authorize (server_owner env db) identity entryID with
  | Ok _ => k
  | Err err => if errors_is err "tenancy.ErrResourceUnavailable" then refused NotFound "entry not found"
               else refused Internal "tenant ownership unavailable"
  end.

Definition CreateReversal_input (identity : Identity) (md : metadata) (entryID : string) : ReverseEntryInput :=
  {| r_MerchantID := Auth.MerchantID identity; r_OriginalEntryID := entryID;
     r_IdempotencyKey := md_first md "grpcgateway-idempotency-key";
     r_TimeZone := md_first md "grpcgateway-timezone";
     r_Traceparent := md_first md "grpcgateway-traceparent" |}.

Definition CreateReversal (owner_env : tx_env) (env : cmd_env) (elapsed : Z) (identity : option Identity)
    (md : metadata) (entryID : string) (s : server) : reply LedgerEntry * server :=
  match identity with
  | None => (identity_missing, s)
  | Some identity =>
      match guarded owner_env (sv_db s) identity entryID (Reply tt) with
      | Refused st => (Refused st, s)
      | Reply _ =>
          answer elapsed (LedgerService.ReverseEntry sha256 json_text load_location env
            (CreateReversal_input identity md entryID) (sv_db s)) s
      end
  end.

Definition GetEntry (owner_env env : tx_env) (identity : option Identity) (entryID : string)
    (db : ledger_db) : reply LedgerEntry :=
  match identity with
  | None => identity_missing
  | Some identity =>
      guarded owner_env db identity entryID
        match LedgerService.GetEntry env db (Auth.MerchantID identity) entryID with
        | Err err => Refused (mapError err)
        | Ok x => Reply (mapEntry x)
        end
  end.

Definition ListEntries (env : tx_env) (identity : option Identity) (req : ListEntriesRequest)
    (db : ledger_db) : reply ListEntriesResponse :=
  match identity with
  | None => identity_missing
  | Some identity =>
      let limit := if q_PageSize req =? 0 then DefaultPageLimit else q_PageSize req in
      match LedgerService.ListEntries json_text hmac json_parse secret env db
              {| l_MerchantID := Auth.MerchantID identity; l_From := ptr (q_StartDate req);
                 l_To := ptr (q_EndDate req); l_Limit := limit; l_Cursor := q_PageToken req |} with
      | Err err => Refused (mapError err)
      | Ok page => Reply {| w_Entries := map mapEntry (pg_Entries page); w_NextPageToken := NextCursor page |}
      end
  end.
End Server.

(** ** internal_server.go *)
Module InternalServer.
Definition entryTypeCredit : Z := 1.
Definition entryTypeDebit : Z := 2.

(** [ledgerrpc.Entry]. *)
Record rpc_entry : Type := {
  EntryID : string; MerchantID : string; MerchantPosition : Z; Type_ : Z; AmountMinor : Z;
  Currency : string; BusinessDate : string; ConfirmedAt : Z; OriginalEntryID : string }.

(** A query's own failure, and one that ends its rows early. *)
Record rows_env : Type := { query_fault : option error; rows_fault : option (nat * error) }.

Section Internal.
(** The input conversion of a uuid parameter, and merchant_position.updated_at. *)
Context (uuid_in : string -> result string) (updated_at : string -> Z).

Definition GetMerchantWatermark (fault : option error) (merchantID : string) (db : ledger_db) : result (Z * Z) :=
  match fault with
  | Some e => Err e
  | None =>
      m ← uuid_in merchantID;
      match positions db !! m with
      | None => Ok (0, 0)
      | Some pos => Ok (pos, updated_at m)
      end
  end.

(** ORDER BY position ASC *)
Fixpoint insert_asc (r : entry_row) (l : list entry_row) : list entry_row :=
  match l with
  | [] => [r]
  | q :: l' => if e_position q <? e_position r then q :: insert_asc r l' else r :: l
  end.
Definition order_asc (l : list entry_row) : list entry_row := fold_right insert_asc [] l.

Definition select_cut (m : string) (cut : Z) (db : ledger_db) : list entry_row :=
  order_asc (List.filter (fun r => String.eqb (e_merchant r) m && (e_position r <=? cut)) (entries db)).

Definition scan_row (r : entry_row) : rpc_entry :=
  {| EntryID := e_id r; MerchantID := e_merchant r; MerchantPosition := e_position r;
     Type_ := if String.eqb (e_type r) "credit" then entryTypeCredit
              else if String.eqb (e_type r) "debit" then entryTypeDebit else 0;
     AmountMinor := e_amount r; Currency := e_currency r; BusinessDate := format_date (e_date r);
     ConfirmedAt := e_confirmed r; OriginalEntryID := default "" (e_original r) |}.

(** The rows, handed to [yield] until it refuses one. *)
Fixpoint yield_rows {S} (yield : rpc_entry -> St S unit) (rows : list entry_row) : St S unit :=
  match rows with
  | [] => mret tt
  | r :: rest => _ ← yield (scan_row r); yield_rows yield rest
  end.

Definition StreamEntriesAtCut {S} (env : rows_env) (merchantID : string) (cut : Z)
    (yield : rpc_entry -> St S unit) (db : ledger_db) : St S unit :=
  match query_fault env with
  | Some e => throw e
  | None =>
      if int64_max <? cut then throw (EMsg "unable to encode the cut")
      else
        m ← lift (uuid_in merchantID);
        match rows_fault env with
        | None => yield_rows yield (select_cut m cut db)
        | Some (n, e) => _ ← yield_rows yield (take n (select_cut m cut db)); throw e
        end
  end.

(** A client that keeps what it receives. *)
Definition collect (e : rpc_entry) : St (list rpc_entry) unit := fun l => (Ok tt, (l ++ [e])%list).
End Internal.
End InternalServer.

(** ** The stream *)
Lemma yield_collect rows l :
  InternalServer.yield_rows InternalServer.collect rows l = (Ok tt, (l ++ map InternalServer.scan_row rows)%list).
Proof.
  revert l. induction rows as [|r rows IH]; intros l; cbn; [by rewrite app_nil_r|].
  unfold mbind, st_bind. cbn. by rewrite IH, <- app_assoc.
Qed.

(** Positions in increasing order. *)
Fixpoint increasing (l : list Z) : Prop :=
  match l with [] => True | a :: l' => (forall b, b ∈ l' -> a < b) /\ increasing l' end.

Lemma order_asc_id l : increasing (map e_position l) -> InternalServer.order_asc l = l.
Proof.
  induction l as [|r l IH]; [done|]. intros [Hr Hl]. cbn. fold (InternalServer.order_asc l). rewrite IH by done.
  destruct l as [|q l]; [done|]. cbn. rewrite (proj2 (Z.ltb_ge _ _)); [done|].
  apply Z.lt_le_incl, Hr. left.
Qed.

Lemma increasing_app l k : increasing l -> increasing k -> (forall a b, a ∈ l -> b ∈ k -> a < b) -> increasing (l ++ k).
Proof.
  induction l as [|a l IH]; intros Hl Hk Hab; [done|]. destruct Hl as [Ha Hl]. split.
  - intros b Hb%elem_of_app. destruct Hb as [Hb|Hb]; [by apply Ha|]. apply Hab; [left|done].
  - apply IH; [done..|]. intros x y Hx Hy. apply Hab; [by right|done].
Qed.

Lemma in_upto n x : x ∈ upto n <-> 1 <= x <= n.
Proof.
  unfold upto. split.
  - intros (k & -> & Hk%list_elem_of_In%in_seq)%in_map. lia.
  - intros H. apply list_elem_of_In, in_map_iff. exists (Z.to_nat x). rewrite in_seq. lia.
Qed.

Lemma upto_increasing n : 0 <= n -> increasing (upto n).
Proof.
  intros Hn. pattern n. apply natlike_ind; [done| |done]. intros k Hk IH.
  rewrite <- Z.add_1_r, upto_snoc by done. apply increasing_app; [done|by split; [intros b Hb%elem_of_nil|]|].
  intros a b Ha%in_upto Hb%list_elem_of_singleton. lia.
Qed.

Lemma filter_upto n cut : 0 <= n -> 0 <= cut -> List.filter (fun p => p <=? cut) (upto n) = upto (Z.min cut n).
Proof.
  intros Hn Hc. pattern n. apply natlike_ind; [by rewrite Z.min_r| |done]. intros k Hk IH.
  rewrite <- Z.add_1_r, upto_snoc, List.filter_app, IH by done. cbn.
  destruct (Z.leb_spec (k + 1) cut).
  - rewrite !Z.min_r by lia. by rewrite upto_snoc.
  - rewrite !Z.min_l, app_nil_r by lia. done.
Qed.

Definition cut_rows (m : string) (cut : Z) (db : ledger_db) : list entry_row :=
  List.filter (fun r => e_position r <=? cut) (List.filter (of_merchant m) (entries db)).

Lemma cut_positions m cut db : ledger_inv db -> 0 <= cut ->
  map e_position (cut_rows m cut db) = upto (Z.min cut (recorded_at db m)).
Proof.
  intros Hi Hc. unfold cut_rows. rewrite (filter_map_comm e_position (fun p => p <=? cut)).
  rewrite (inv_positions _ Hi). apply filter_upto; [apply (inv_range _ Hi)|done].
Qed.

Lemma select_cut_rows m cut db : ledger_inv db -> 0 <= cut ->
  InternalServer.select_cut m cut db = cut_rows m cut db.
Proof.
  intros Hi Hc. unfold InternalServer.select_cut, cut_rows. rewrite filter_filter.
  rewrite (filter_ext_eq _ (fun r => of_merchant m r && (e_position r <=? cut))).
  2:{ intros r _. unfold of_merchant. by rewrite andb_comm. }
  apply order_asc_id. rewrite <- filter_filter. fold (cut_rows m cut db). rewrite cut_positions by done.
  apply upto_increasing. pose proof (inv_range _ Hi m). lia.
Qed.

Lemma cut_stable m cut db db' : ledger_inv db -> ledger_inv db' -> appended (entries db) (entries db') ->
  cut <= recorded_at db m -> cut_rows m cut db' = cut_rows m cut db.
Proof.
  intros Hi Hi' [later E] Hc. unfold cut_rows. rewrite E, !List.filter_app.
  rewrite (filter_ext_eq _ (fun _ => false) (List.filter (of_merchant m) later)).
  - replace (List.filter (fun _ => false) _) with (@nil entry_row) by
      (clear; induction (List.filter (of_merchant m) later); done). by rewrite app_nil_r.
  - intros r [Hr Hm]%in_filter_iff. apply String.eqb_eq in Hm.
    pose proof (later_positions _ _ _ _ _ Hi Hi' E Hr Hm). apply Z.leb_gt. lia.
Qed.

(** C13: the stream of a merchant's entries at a cut no later than its
    watermark is complete and stable: it yields exactly the entries at the
    positions 1 to the cut, in that order, and yields the same entries
    whenever it is read again, whatever commands have committed since. *)
Theorem StreamEntriesAtCut_complete sha256 json_text ll uuid_in updated_at env merchant m db db' cut observed :
  steps (ledger_step sha256 json_text ll) empty_db db -> steps (ledger_step sha256 json_text ll) db db' ->
  InternalServer.query_fault env = None -> InternalServer.rows_fault env = None ->
  uuid_in merchant = Ok m ->
  InternalServer.GetMerchantWatermark uuid_in updated_at None merchant db = Ok observed ->
  0 <= cut <= fst observed ->
  exists es, InternalServer.StreamEntriesAtCut uuid_in env merchant cut InternalServer.collect db' [] = (Ok tt, es) /\
    InternalServer.StreamEntriesAtCut uuid_in env merchant cut InternalServer.collect db [] = (Ok tt, es) /\
    map InternalServer.MerchantPosition es = upto cut /\
    forall e, e ∈ es -> exists r, r ∈ entries db /\ e_merchant r = m /\ e = InternalServer.scan_row r.
Proof.
  intros H0 H1 Hq Hr Hm Hw Hc.
  destruct (steps_spec _ _ _ _ _ H0 empty_inv) as (Hi & _ & _).
  destruct (steps_spec _ _ _ _ _ H1 Hi) as (Hi' & Ha & _).
  assert (fst observed = recorded_at db m) as Hobs.
  { unfold InternalServer.GetMerchantWatermark, recorded_at in *. rewrite Hm in Hw. cbn in Hw.
    destruct (positions db !! m); by injection Hw as <-. }
  rewrite Hobs in Hc. pose proof (inv_range _ Hi m) as Hrange.
  exists (map InternalServer.scan_row (cut_rows m cut db)).
  assert (forall d, ledger_inv d -> InternalServer.StreamEntriesAtCut uuid_in env merchant cut InternalServer.collect d [] =
    (Ok tt, map InternalServer.scan_row (cut_rows m cut d))) as Hrun.
  { intros d Hd. unfold InternalServer.StreamEntriesAtCut. rewrite Hq, Hr, (proj2 (Z.ltb_ge _ _)), Hm by lia.
    unfold mbind, st_bind. cbn. by rewrite select_cut_rows, yield_collect by (done || lia). }
  rewrite !Hrun, (cut_stable m cut db db') by (done || lia). splits; [done..| |].
  - rewrite map_map. cbn. rewrite cut_positions by (done || lia). by rewrite Z.min_l by lia.
  - intros e (r & -> & Hin)%in_map. exists r. apply in_filter_iff in Hin as [Hin _].
    apply in_filter_iff in Hin as [Hin Hmr]. apply String.eqb_eq in Hmr. done.
Qed.

Lemma StreamEntriesAtCut_complete_witness :
  exists es, map InternalServer.MerchantPosition es = [1] /\
    InternalServer.StreamEntriesAtCut Ok {| InternalServer.query_fault := None; InternalServer.rows_fault := None |}
      sample_merchant 1 InternalServer.collect sample_db2 [] = (Ok tt, es).
Proof.
  destruct (StreamEntriesAtCut_complete sample_sha256 sample_text sample_zone Ok (fun _ => 0)
    {| InternalServer.query_fault := None; InternalServer.rows_fault := None |} sample_merchant sample_merchant
    sample_db1 sample_db2 1 (1, 0) sample_steps1 (steps_cons _ _ _ _ sample_step2 (steps_refl _ _))
    eq_refl eq_refl eq_refl ltac:(vm_compute; reflexivity) ltac:(cbn; lia)) as (es & H1 & _ & H2 & _).
  exists es. split; [exact H2|exact H1].
Defined.

(** ** No command fails with a cursor error, or with a conflict that is also a
    caller's mistake *)
Definition clean (e : error) : bool :=
  negb (is_app e "ErrInvalidCursor" || is_app e "ErrCursorScopeMismatch") &&
  negb ((is_app e "ErrInvalidArgument" || is_app e "ErrEntryNotFound") &&
        (is_app e "ErrIdempotencyConflict" || is_app e "ErrAlreadyReversed")).
Definition clean_result {A} (r : result A) : bool := match r with Err e => clean e | Ok _ => true end.
Definition clean_fault (f : option error) : bool := match f with Some e => clean e | None => true end.

(** The machine's own errors are not the application's sentinels. *)
Record clean_env (env : cmd_env) : Prop := {
  ce_begin : clean_fault (begin_fault (db_env env)) = true;
  ce_statements : forallb clean_fault (statements (db_env env)) = true;
  ce_commit : match commit (db_env env) with CommitOk => True | CommitFailed e | CommitUnknown e => clean e = true end;
  ce_attempt : clean_result (rnd_attempt env) = true;
  ce_entry : clean_result (rnd_entry env) = true;
  ce_event : clean_result (rnd_event env) = true }.

Definition safe {A} (m : St txs A) : Prop := forall s, forallb clean_fault (t_faults s) = true ->
  clean_result (fst (m s)) = true /\ forallb clean_fault (t_faults (snd (m s))) = true.

Lemma safe_ret {A} (a : A) : safe (mret a).
Proof. by intros s Hs. Qed.

Lemma safe_bind {A B} (m : St txs A) (k : A -> St txs B) : safe m -> (forall a, safe (k a)) -> safe (m ≫= k).
Proof.
  intros Hm Hk s Hs. unfold mbind, st_bind. destruct (Hm s Hs) as [H1 H2].
  destruct (m s) as [[a|e] t]; [by apply Hk|done].
Qed.

Lemma safe_lift {A} (r : result A) : clean_result r = true -> safe (lift r).
Proof. by intros Hr s Hs. Qed.

Lemma safe_throw {A} e : clean e = true -> safe (throw e : St txs A).
Proof. by intros He s Hs. Qed.

Lemma safe_wrap {A} ctx (m : St txs A) : safe m -> safe (wrap_st ctx m).
Proof. intros Hm s Hs. unfold wrap_st. destruct (Hm s Hs) as [H1 H2]. by destruct (m s) as [[a|e] t]. Qed.

Lemma safe_stmt {A} (f : ledger_db -> Z -> result A * ledger_db) :
  (forall db z, clean_result (fst (f db z)) = true) -> safe (stmt f).
Proof.
  intros Hf s Hs. unfold stmt. specialize (Hf (t_db s) (t_clock s)).
  destruct (t_faults s) as [|[e|] fs] eqn:E; cbn in Hs; [|by apply andb_true_iff in Hs as [? ?]|]; by destruct (f _ _) as [r db].
Qed.

Lemma safe_no_rows {A} ctx (m : St txs A) : safe m -> safe (no_rows_or ctx m).
Proof.
  intros Hm s Hs. unfold no_rows_or. destruct (Hm s Hs) as [H1 H2]. destruct (m s) as [[a|e] t]; [done|].
  split; [|done]. cbn. by destruct (errors_is e _).
Qed.

Create HintDb clean discriminated.
#[export] Hint Resolve safe_ret safe_bind safe_lift safe_throw safe_wrap safe_stmt safe_no_rows : clean.

Ltac safe_binds := repeat lazymatch goal with |- safe (_ ≫= _) => apply safe_bind; [|intros ?] end.

(** A function without outside errors returns only the sentinels it names. *)
Ltac clean_leaf := repeat (case_match; simplify_eq; cbn in *; try done).

Lemma clean_bind {A B} (r : result A) (k : A -> result B) : clean_result r = true ->
  (forall a, clean_result (k a) = true) -> clean_result (r ≫= k) = true.
Proof. by destruct r; cbn. Qed.

Lemma clean_ParseID v : clean_result (ID.ParseID v) = true.
Proof. unfold ID.ParseID. clean_leaf. Qed.

Lemma clean_uuid now r : clean_result r = true -> clean_result (uuidGenerator now r) = true.
Proof. by destruct r. Qed.

Lemma clean_time t : clean_result (enc_time t) = true.
Proof. unfold enc_time. clean_leaf. Qed.

Lemma clean_NewEntry d : clean_result (Entry.NewEntry d) = true.
Proof. unfold Entry.NewEntry. clean_leaf. Qed.

#[export] Hint Resolve clean_ParseID clean_uuid clean_time clean_NewEntry ce_attempt ce_entry ce_event : clean.

Lemma clean_parse_date v : clean_result (Calendar.ParseBusinessDate v) = true.
Proof. unfold Calendar.ParseBusinessDate. clean_leaf. Qed.

Lemma clean_restore a b c d e f g h i j : clean_result (restoreEntry a b c d e f g h i j) = true.
Proof.
  unfold restoreEntry. repeat (apply clean_bind; [|intros ?]); auto with clean.
  - unfold Entry.ParseEntryType. clean_leaf.
  - unfold Money.NewMoney. clean_leaf.
  - apply clean_parse_date.
  - destruct j; [|done]. apply clean_bind; [auto with clean|done].
Qed.

Lemma safe_NextPosition m : safe (NextPosition m).
Proof. apply safe_wrap, safe_stmt. intros db z. unfold upsert_position. clean_leaf. Qed.

Lemma safe_InsertEntry e : safe (InsertEntry e).
Proof.
  assert (safe (stmt (insert_entry (row_of_entry e)))) as Hi.
  { apply safe_stmt. intros db z. unfold insert_entry, entry_checks, entry_constraints. clean_leaf. }
  intros s Hs. unfold InsertEntry. destruct (Hi s Hs) as [H1 H2].
  destruct (stmt _ s) as [[a|err] t]; [done|]. split; [|by repeat case_match].
  destruct (errors_as as_pg err) as [[c n]|]; [|done]. by destruct (_ && _).
Qed.

Lemma safe_insertOutbox env e now tp : clean_env env -> safe (insertOutbox env e now tp).
Proof.
  intros He. unfold insertOutbox. apply safe_bind; [auto with clean|intros id].
  apply safe_bind; [apply safe_lift; unfold event_payload; repeat (apply clean_bind; [auto with clean|intros ?]); done|].
  intros p. apply safe_wrap, safe_stmt. intros db z. unfold insert_outbox. clean_leaf.
Qed.
#[export] Hint Resolve safe_NextPosition safe_InsertEntry safe_insertOutbox : clean.

Lemma clean_calendar ll z : clean_result (Calendar.NewCalendar ll z) = true.
Proof. unfold Calendar.NewCalendar. clean_leaf. Qed.

Lemma clean_resolve c n r : clean_result (Calendar.Resolve c n r) = true.
Proof. unfold Calendar.Resolve. clean_leaf. Qed.
#[export] Hint Resolve clean_calendar clean_resolve clean_parse_date : clean.

Lemma safe_create_entry ll env input m : clean_env env -> safe (create_entry ll env input m).
Proof.
  intros He. unfold create_entry. safe_binds; auto with clean.
  - apply safe_lift. unfold Entry.ParseEntryType. clean_leaf.
  - apply safe_lift. unfold Money.NewMoney. clean_leaf.
  - apply safe_lift. unfold optionalDate. destruct (c_BusinessDate input); [|done].
    apply clean_bind; [auto with clean|done].
Qed.

Lemma safe_EntryForUpdate m id : safe (EntryForUpdate m id).
Proof.
  unfold EntryForUpdate. apply safe_bind; [apply safe_no_rows, safe_stmt|intros e].
  - intros db z. cbn. unfold select_entry. destruct (List.find _ _); [apply clean_restore|done].
  - apply safe_bind; [by apply safe_wrap, safe_stmt|intros [|]; auto with clean].
Qed.
#[export] Hint Resolve safe_create_entry safe_EntryForUpdate : clean.

Lemma safe_reverse_entry ll env input m id : clean_env env -> safe (reverse_entry ll env input m id).
Proof.
  intros He. unfold reverse_entry. safe_binds; auto with clean.
  - apply safe_lift. by case_match.
  - apply safe_lift. unfold Entry.NewReversal. case_match; [done|apply clean_NewEntry].
Qed.

Lemma safe_idempotent env a create : clean_env env -> safe create -> safe (idempotent_body env a create).
Proof.
  intros He Hc. unfold idempotent_body, ClaimIdempotency.
  apply safe_bind; [apply safe_bind; [apply safe_wrap, safe_stmt|intros rows]|intros [record claimed]].
  - intros db z. unfold insert_idempotency. clean_leaf.
  - case_match; [auto with clean|]. apply safe_bind; [|auto with clean]. apply safe_wrap, safe_stmt.
    intros db z. cbn. unfold select_idempotency. by case_match.
  - destruct claimed; [|apply safe_lift; unfold replay; clean_leaf].
    unfold claimed_body, CompleteIdempotency. safe_binds; auto with clean.
    + apply safe_lift. unfold marshal_result. apply clean_bind; [auto with clean|done].
    + apply safe_wrap, safe_stmt. intros db z. unfold update_idempotency. by case_match.
    + case_match; auto with clean.
Qed.

Lemma clean_execute sha256 env m op key rq create db : clean_env env -> safe create ->
  clean_result (fst (executeIdempotent sha256 env m op key rq create db)) = true.
Proof.
  intros He Hc. unfold executeIdempotent, Execute. pose proof (clean_uuid (systemClock (now_attempt env)) _ (ce_attempt _ He)).
  destruct (uuidGenerator _ _) as [id|e]; [|done].
  pose proof (ce_begin _ He). pose proof (ce_commit _ He).
  destruct (begin_fault (db_env env)); [done|].
  match goal with |- context [idempotent_body env ?a create ?s] =>
    destruct (safe_idempotent env a create He Hc s (ce_statements _ He)) as [H2 _];
    destruct (idempotent_body env a create s) as [[x|e] t] end; [|done].
  by destruct (commit (db_env env)).
Qed.

Lemma clean_guards input : clean_result (create_guards input) = true.
Proof.
  unfold create_guards, parseMerchant. repeat (apply clean_bind; [|intros ?]); try done.
  - clean_leaf.
  - by case_match.
  - unfold Ledger.ValidateTraceparent. clean_leaf.
Qed.

Lemma clean_reverse_guards input : clean_result (reverse_guards input) = true.
Proof.
  unfold reverse_guards, parseMerchant. repeat (apply clean_bind; [|intros ?]); auto with clean.
  - clean_leaf.
  - by case_match.
  - unfold Ledger.ValidateTraceparent. clean_leaf.
Qed.

Lemma clean_commands sha256 json_text ll env db : clean_env env ->
  (forall input, clean_result (fst (LedgerService.CreateEntry sha256 json_text ll env input db)) = true) /\
  (forall input, clean_result (fst (LedgerService.ReverseEntry sha256 json_text ll env input db)) = true).
Proof.
  intros He. split; intros input; unfold LedgerService.CreateEntry, LedgerService.ReverseEntry.
  - pose proof (clean_guards input). destruct (create_guards input); [|done].
    apply clean_execute; auto with clean.
  - pose proof (clean_reverse_guards input). destruct (reverse_guards input) as [[m id]|]; [|done].
    apply clean_execute; [done|by apply safe_reverse_entry].
Qed.

(** ** Metrics and statuses *)

(** What the counters say about an answer. *)
Definition counted {A} (r : reply A) (elapsed : Z) (m m' : Metrics.metrics) : Prop :=
  match r with
  | Reply _ => m' = Metrics.RecordCommit elapsed m
  | Refused st =>
      match st_code st with
      | AlreadyExists => m' = Metrics.RecordConflict m
      | Internal => m' = Metrics.RecordFailure m
      | _ => m' = m
      end
  end.

Lemma recordMutation_counted text e elapsed m : clean e = true ->
  exists m', recordMutation (Some e) elapsed (Some m) = Some m' /\
    counted (Refused (mapError text e) : reply unit) elapsed m m'.
Proof.
  unfold clean, recordMutation, counted, mapError. eexists. split; [reflexivity|].
  destruct (is_app e "ErrInvalidArgument"), (is_app e "ErrInvalidCursor"), (is_app e "ErrCursorScopeMismatch"),
    (is_app e "ErrEntryNotFound"), (is_app e "ErrIdempotencyConflict"), (is_app e "ErrAlreadyReversed"); done.
Qed.

(** The metric and the status of a mutation never disagree: a command
    that answers counts one commit with its duration, one that is refused
    with [AlreadyExists] counts one conflict, one that fails with [Internal]
    counts one failure, and one that is refused with [InvalidArgument] or
    [NotFound] counts nothing; whatever the request, the database, and the
    errors of the machine (which are not the application's own).  The only
    exception is a reversal whose tenant guard fails: it is [Internal] and
    counts nothing. *)
Theorem mutation_counted sha256 json_text ll text env elapsed identity md s m :
  clean_env env -> sv_metrics s = Some m ->
  (forall req, let '(r, s') := CreateEntry sha256 json_text ll text env elapsed identity md req s in
     exists m', sv_metrics s' = Some m' /\ counted r elapsed m m') /\
  (forall owner_env entryID, let '(r, s') := CreateReversal sha256 json_text ll text owner_env env elapsed identity md entryID s in
     exists m', sv_metrics s' = Some m' /\
       (counted r elapsed m m' \/ (m' = m /\ exists st, r = Refused st /\ st_message st = "tenant ownership unavailable"))).
Proof.
  intros He Hm. destruct (clean_commands sha256 json_text ll env (sv_db s) He) as [Hc Hr].
  assert (forall run, clean_result (fst run) = true -> let '(r, s') := answer text elapsed run s in
    exists m', sv_metrics s' = Some m' /\ counted r elapsed m m') as Ha.
  { intros [[x|e] db] Hcl; cbn; rewrite Hm; [by eexists|]. by apply recordMutation_counted. }
  split.
  - intros req. unfold CreateEntry. destruct identity as [id|]; [|by exists m].
    destruct (Money.ParseBRL (q_Amount req)) as [a|]; [|by exists m]. apply Ha, Hc.
  - intros owner_env entryID. unfold CreateReversal. destruct identity as [id|]; [|by exists m; split; [|left]].
    destruct (guarded _ _ _ _ _) as [u|st] eqn:Eg.
    + match goal with |- context [answer text elapsed ?run s] => pose proof (Ha run (Hr _)) as H end.
      destruct (answer _ _ _ _) as [r s']. destruct H as (m' & H1 & H2). exists m'. split; [done|by left].
    + exists m. split; [done|]. unfold guarded, refused in Eg. repeat case_match; simplify_eq; [by left|].
      right. split; [done|]. by eexists.
Qed.

(** ** Domain validation errors *)
Definition sample_md (key : string) : metadata := <["grpcgateway-idempotency-key" := [key]]>
  (<["grpcgateway-traceparent" := [c_Traceparent (sample_create key 1)]]> ∅).
Definition sample_request (currency : string) : CreateEntryRequest :=
  {| q_Type := 1; q_Amount := "10.00"; q_Currency := currency; q_BusinessDate := ""; q_Description := "" |}.
Definition sample_server (db : ledger_db) : server := {| sv_db := db; sv_metrics := Some Metrics.zero |}.
Definition sample_text_of (e : error) : string := match e with ESentinel v => v | _ => "" end.
Definition sample_owner : Identity := sample_identity sample_merchant "ledger:read ledger:write".

Lemma sample_clean k : clean_env (sample_env k).
Proof. by split. Qed.

Lemma mutation_counted_witness :
  exists m', counted (fst (CreateEntry sample_sha256 sample_text sample_zone sample_text_of (sample_env 1) 5
    (Some sample_owner) (sample_md "k1") (sample_request "BRL") (sample_server empty_db))) 5 Metrics.zero m'.
Proof.
  destruct (mutation_counted sample_sha256 sample_text sample_zone sample_text_of (sample_env 1) 5
    (Some sample_owner) (sample_md "k1") (sample_server empty_db) Metrics.zero (sample_clean 1) eq_refl) as [H _].
  specialize (H (sample_request "BRL")). destruct (CreateEntry _ _ _ _ _ _ _ _ _ _) as [r s'].
  destruct H as (m' & _ & H). exists m'. exact H.
Defined.

(** A request that is the caller's mistake only in the domain's eyes, here
    a currency other than BRL on an otherwise acceptable request, is answered
    [Internal] and counted as a failure of the Ledger, and changes nothing. *)
Theorem unsupported_currency sha256 json_text ll text env elapsed identity md req money s m attemptID :
  healthy env -> uuidGenerator (systemClock (now_attempt env)) (rnd_attempt env) = Ok attemptID ->
  sv_metrics s = Some m -> Money.ParseBRL (q_Amount req) = Ok money ->
  let input := CreateEntry_input identity md req money in
  is_ok (create_guards input) = true ->
  fresh_key (c_MerchantID input) OperationCreate (sha256 (c_IdempotencyKey input)) attemptID (sv_db s) ->
  is_ok (Entry.ParseEntryType (c_Type input)) = true -> q_Currency req <> Money.CurrencyBRL ->
  CreateEntry sha256 json_text ll text env elapsed (Some identity) md req s =
    (refused Internal "internal server error",
     {| sv_db := sv_db s; sv_metrics := Some (Metrics.RecordFailure m) |}).
Proof.
  intros (Hb & Hs & Hc & Hr) Hid Hm Hp input Hg Hfresh Ht Hcur. unfold CreateEntry. rewrite Hp. fold input.
  assert (LedgerService.CreateEntry sha256 json_text ll env input (sv_db s) = (Err ErrInvalidCurrency, sv_db s)) as ->;
    [|cbn; by rewrite Hm].
  unfold LedgerService.CreateEntry. destruct (create_guards input) as [m'|] eqn:Eg; [|done].
  apply create_guards_ok in Eg as [-> _]. unfold executeIdempotent. rewrite Hid. unfold Execute.
  rewrite Hb, Hs, Hc, claim_run by (done || by left).
  match goal with |- context [claimed_body env _ ?create ?t] =>
    rewrite (claimed_refused env _ create t ErrInvalidCurrency); [done|] end.
  unfold create_entry. destruct (Entry.ParseEntryType (c_Type input)) as [ty|]; [|done].
  unfold Money.NewMoney. cbn [c_Currency CreateEntry_input input].
  by rewrite (proj2 (String.eqb_neq _ _) Hcur).
Qed.

Lemma unsupported_currency_witness :
  CreateEntry sample_sha256 sample_text sample_zone sample_text_of (sample_env 1) 5 (Some sample_owner)
    (sample_md "k1") (sample_request "USD") (sample_server empty_db) =
  (refused Internal "internal server error",
   {| sv_db := empty_db; sv_metrics := Some (Metrics.RecordFailure Metrics.zero) |}).
Proof.
  apply (unsupported_currency sample_sha256 sample_text sample_zone sample_text_of (sample_env 1) 5 sample_owner
    (sample_md "k1") (sample_request "USD") (Money.Build_money 1000) (sample_server empty_db) Metrics.zero
    ltac:(let x := eval vm_compute in (uuidGenerator (systemClock (now_attempt (sample_env 1))) (rnd_attempt (sample_env 1)))
          in match x with Ok ?i => exact i end));
    first [exact (sample_healthy 1) | vm_compute; reflexivity | split; reflexivity | discriminate].
Defined.

(** ** Tenancy of the entry routes *)
Lemma find_map_none {A} (f : A -> bool) l : (forall x, x ∈ l -> f x = false) -> List.find f l = None.
Proof.
  intros H. destruct (List.find f l) as [x|] eqn:E; [|done]. apply find_some_in in E as [Hin Hx].
  rewrite (H x Hin) in Hx. done.
Qed.

Lemma entry_found db id r : ledger_inv db -> r ∈ entries db -> e_id r = id ->
  List.find (fun r => String.eqb (e_id r) id) (entries db) = Some r.
Proof.
  intros Hi Hr Hid. apply find_unique; [done|by apply String.eqb_eq|]. intros y Hy Ey%String.eqb_eq.
  apply (NoDup_map_inj e_id (entries db)); [apply Hi|done|done|congruence].
Qed.

Lemma server_owner_spec env db id : quiet env -> ID.ParseID id = Ok id ->
  server_owner env db id = Ok
    match List.find (fun r => String.eqb (e_id r) (pg_uuid id)) (entries db) with
    | Some r => (e_merchant r, true) | None => ("", false) end.
Proof.
  intros [Hb Hs] Hid. unfold server_owner, OwnerOf. rewrite Hid. cbn [mbind result_bind].
  unfold LedgerDB.OwnerOf, run_read, no_rows_or. rewrite query_run by done. unfold select_owner. cbn [t_db].
  by destruct (List.find _ _).
Qed.

(** How a uuid column prints: lower case, and no NUL. *)
Definition uuid_column (s : string) : Prop := pg_uuid s = s /\ no_nul s = true.

Lemma id_chars p s : (forall c, is_hex c = true -> p c = true) -> p "-"%char = true -> is_id s ->
  forall_chars p s = true.
Proof.
  intros Hp Hd (a & b & c & d & e & -> & Hf & _)%ParseID_shape. decompose_Forall_hyps.
  do 4 (rewrite forall_chars_app; cbn [forall_chars]; rewrite (forall_chars_impl is_hex p _ Hp), Hd by done; cbn [andb]).
  by apply (forall_chars_impl is_hex).
Qed.

Lemma id_no_nul s : is_id s -> no_nul s = true.
Proof. apply id_chars; [|done]. intros c Hc. unfold is_byte. unfold is_hex, is_lower_hex, is_digit in Hc.
  apply negb_true_iff, Z.eqb_neq. intros E. by rewrite E in Hc. Qed.

Lemma guarded_spec {A} env db identity id (k : reply A) : quiet env -> is_id id ->
  is_id (MerchantID identity) -> (forall r, r ∈ entries db -> uuid_column (e_merchant r)) ->
  guarded env db identity id k =
    match List.find (fun r => String.eqb (e_id r) (pg_uuid id)) (entries db) with
    | Some r => if String.eqb (e_merchant r) (MerchantID identity) then k else refused NotFound "entry not found"
    | None => refused NotFound "entry not found"
    end.
Proof.
  intros Hq Hid Hm Hu. unfold guarded. pose proof (server_owner_spec env db id Hq Hid) as Ho.
  rewrite Authorize_spec; [|by apply id_no_nul|].
  - rewrite Ho. destruct (List.find _ _) as [r|]; [|done]. cbn [andb].
    assert (String.eqb (MerchantID identity) "" = false) as -> by (apply String.eqb_neq; intros E; by rewrite E in Hm).
    by destruct (String.eqb (e_merchant r) (MerchantID identity)).
  - rewrite Ho. intros o f H. destruct (List.find _ _) as [r|] eqn:E; injection H as <- <-; [|done].
    apply find_some_in in E as [Hin _]. by apply Hu.
Qed.

(** The row and the reversal the join puts beside it first. *)
Lemma left_join_any db r : exists rev rest, left_join (fun _ => true) (entries db) r = (r, rev) :: rest /\
  (forall v, rev = Some v -> v ∈ entries db /\ e_original v = Some (e_id r)) /\
  (rev = None -> forall v, v ∈ entries db -> e_original v <> Some (e_id r)).
Proof.
  unfold left_join. destruct (List.filter _ (entries db)) as [|v vs] eqn:E.
  - exists None, []. splits; [done..|]. intros _ v Hv Ho.
    assert (v ∈ (nil : list entry_row)) as H; [|by apply elem_of_nil in H].
    rewrite <- E. apply in_filter_iff. split; [done|]. apply andb_true_iff. by rewrite opt_eqb_spec.
  - exists (Some v), (map (fun v => (r, Some v)) vs). splits; [done| |done].
    intros w [= <-]. assert (v ∈ v :: vs) as H by left. rewrite <- E in H.
    apply in_filter_iff in H as [? H]. bool_to_prop. split; [done|]. by apply opt_eqb_spec.
Qed.

(** C14: the entry route is tenant-safe: on a reachable database a caller gets
    an entry, as stored and with its reversal, exactly when its own merchant
    has it; for an identifier no entry has and for one of another merchant
    the answer is the same [NotFound]; an identifier that is not a UUID is
    answered [Internal]. *)
Theorem GetEntry_tenancy text owner_env env identity id db :
  ledger_inv db -> quiet owner_env -> quiet env ->
  is_id (MerchantID identity) -> (forall r, r ∈ entries db -> uuid_column (e_merchant r)) ->
  let answer := GetEntry text owner_env env (Some identity) id db in
  (is_ok (ID.ParseID id) = false -> answer = refused Internal "tenant ownership unavailable") /\
  (is_id id ->
    (forall r, r ∈ entries db -> e_id r = pg_uuid id -> e_merchant r = MerchantID identity ->
       exists rev, (forall v, rev = Some v -> v ∈ entries db /\ e_original v = Some (e_id r)) /\
         (rev = None -> forall v, v ∈ entries db -> e_original v <> Some (e_id r)) /\
         answer = match scanStoredEntry (r, rev) with
                  | Ok stored => Reply (mapEntry (resultFromStored stored))
                  | Err e => Refused (mapError text (if errors_is e "pgx.ErrNoRows" then ErrEntryNotFound
                                                     else EWrap "get ledger entry" e))
                  end) /\
    ((forall r, r ∈ entries db -> e_id r = pg_uuid id -> e_merchant r <> MerchantID identity) ->
       answer = refused NotFound "entry not found")).
Proof.
  intros Hi Hq Hq' Hm Hu. cbn zeta. unfold GetEntry. split.
  { intros Hbad. unfold guarded, Authorize, server_owner, OwnerOf, ID.ParseID in *.
    repeat (case_match; try done). }
  intros Hid. rewrite guarded_spec by done. split.
  - intros r Hr Er Mr. rewrite (entry_found _ _ _ Hi Hr Er), Mr, String.eqb_refl.
    unfold LedgerService.GetEntry, parseMerchant. rewrite Hm, Hid. cbn [mbind result_bind].
    unfold LedgerDB.GetEntry, run_read, no_rows_or. rewrite query_run by apply Hq'. unfold select_stored. cbn [t_db].
    assert (List.filter (fun r => String.eqb (e_merchant r) (pg_uuid (MerchantID identity)) &&
      String.eqb (e_id r) (pg_uuid id)) (entries db) = [r]) as ->.
    { assert (pg_uuid (MerchantID identity) = e_merchant r) as -> by (rewrite <- Mr; by apply Hu).
      pose proof (NoDup_map_filter e_id (fun x => String.eqb (e_merchant x) (e_merchant r) && String.eqb (e_id x) (pg_uuid id))
        (entries db) (inv_ids _ Hi)) as Hn.
      destruct (List.filter _ _) as [|x [|y l]] eqn:E.
      - exfalso. assert (r ∈ (nil : list entry_row)) as Habs; [|by apply elem_of_nil in Habs].
        rewrite <- E. apply in_filter_iff. by rewrite Er, !String.eqb_refl.
      - assert (x ∈ [x]) as Hx by left. rewrite <- E in Hx. apply in_filter_iff in Hx as [Hx Ex]. bool_to_prop.
        f_equal. apply (NoDup_map_inj e_id (entries db)); [apply Hi|done|done|congruence].
      - exfalso. assert (x ∈ x :: y :: l /\ y ∈ x :: y :: l) as [Hx Hy] by (split; [left|right; left]).
        rewrite <- E in Hx, Hy. apply in_filter_iff in Hx as [_ Hx], Hy as [_ Hy]. bool_to_prop.
        cbn in Hn. apply list.NoDup_cons in Hn as [Hn _]. apply Hn. replace (e_id x) with (e_id y) by congruence. left. }
    cbn [flat_map]. rewrite app_nil_r. destruct (left_join_any db r) as (rev & rest & -> & H1 & H2).
    exists rev. splits; [done..|]. by destruct (scanStoredEntry (r, rev)).
  - intros Hno. destruct (List.find _ _) as [r|] eqn:E; [|done].
    apply find_some_in in E as [Hr Er]. apply String.eqb_eq in Er.
    by rewrite (proj2 (String.eqb_neq _ _) (Hno r Hr Er)).
Qed.

Definition sample_tx : tx_env := {| begin_fault := None; statements := []; commit := CommitOk; pg_clock := 0 |}.
Definition sample_other : Identity := sample_identity "018f0000-0000-7000-8000-00000000000b" "ledger:read".

Lemma GetEntry_tenancy_witness :
  GetEntry sample_text_of sample_tx sample_tx (Some sample_other) sample_id1 sample_db1 = refused NotFound "entry not found" /\
  exists e, GetEntry sample_text_of sample_tx sample_tx (Some sample_owner) sample_id1 sample_db1 = Reply e.
Proof.
  assert (ledger_inv sample_db1) as Hi by apply (steps_spec _ _ _ _ _ sample_steps1 empty_inv).
  assert (forall r, r ∈ entries sample_db1 -> uuid_column (e_merchant r)) as Hu.
  { intros r [-> | H%elem_of_nil]%elem_of_cons; [split; vm_compute; reflexivity|destruct H]. }
  assert (quiet sample_tx) as Hq by (split; reflexivity).
  split.
  - apply (GetEntry_tenancy sample_text_of sample_tx sample_tx sample_other sample_id1 sample_db1 Hi Hq Hq); try done.
    intros r [-> | H%elem_of_nil]%elem_of_cons; [vm_compute; discriminate|destruct H].
  - assert (is_id (MerchantID sample_owner)) as Hm by (vm_compute; reflexivity).
    assert (is_id sample_id1) as Hid by (vm_compute; reflexivity).
    pose proof (proj2 (GetEntry_tenancy sample_text_of sample_tx sample_tx sample_owner sample_id1 sample_db1
      Hi Hq Hq Hm Hu) Hid) as [H _].
    destruct (H _ ltac:(left) eq_refl eq_refl) as ([v|] & H1 & _ & H3).
    + exfalso. destruct (H1 v eq_refl) as [Hv Ev].
      apply elem_of_cons in Hv as [-> | Hv%elem_of_nil]; [vm_compute in Ev; discriminate|destruct Hv].
    + eexists. exact H3.
Defined.
