(* ===== verification/Outbox.v ===== *)
(** * The outbox publisher

    services/ledger/internal/outbox/{model,store,worker,rabbitmq,metrics}.go:
    the leases a publisher takes on the Ledger's outbox rows, the checks an
    event passes before it is handed to RabbitMQ, the confirm protocol and the
    worker's loop.  The store works on the [outbox] table of LedgerDB.v.

    Arguments: [interval] is how PostgreSQL reads a Go duration's text,
    [schema_valid] the JSON schema validation, [scale] the float64 product of
    the retry jitter.  What the machine does to one call (the failure of a
    statement, the clock, the rows other workers hold locked, the broker's
    signals) is the call's environment. *)

From S2P Require Import Prelude.
From S2P Require Import Sorting.
From S2P Require Import GoStrings.
From S2P Require Import GoTime.
From S2P Require Import Json.
From S2P Require Import LedgerDomain.
From S2P Require Import TraceContext.
From S2P Require Import LedgerDB.
From S2P Require Import LedgerService.
From S2P Require Import LedgerCommands.
From S2P Require Import LedgerInvariant.
From S2P Require Import LedgerRetry.
From S2P Require Import LedgerPages.
From Stdlib Require String.
From Stdlib Require Import ZArith Lia Ascii.
Open Scope string_scope.
Open Scope Z_scope.

(** ** model.go *)
Definition EventType : string := "ledger.entry.confirmed.v1".
Definition ErrNotConfirmed : error := ESentinel "outbox.ErrNotConfirmed".
Definition ErrUnroutable : error := ESentinel "outbox.ErrUnroutable".
Definition ErrLeaseLost : error := ESentinel "outbox.ErrLeaseLost".
Definition ErrPublicationInterrupted : error := ESentinel "outbox.ErrPublicationInterrupted".

Record Event : Type := {
  EventID : string; AggregateID : string; MerchantID : string; MerchantPosition : Z;
  Event_type : string; Payload : json; OccurredAt : Z; CreatedAt : Z; Attempts : Z;
  LeaseOwner : string; LeaseUntil : Z }.
Record Stats : Type := { Pending : Z; OldestAge : Z }.

(** ** metrics.go *)
Record Metrics : Type := { confirms : Z; errors : Z; attempts : Z; confirmNanos : Z; pending : Z; oldestAgeNanos : Z }.
Definition RecordConfirm (duration attempt : Z) (m : Metrics) : Metrics :=
  {| confirms := wrapu64 (confirms m + 1); errors := errors m;
     attempts := if 0 <? attempt then wrapu64 (attempts m + attempt) else attempts m;
     confirmNanos := wrapu64 (confirmNanos m + Z.max duration 0);
     pending := pending m; oldestAgeNanos := oldestAgeNanos m |}.
Definition RecordError (m : Metrics) : Metrics :=
  {| confirms := confirms m; errors := wrapu64 (errors m + 1); attempts := attempts m;
     confirmNanos := confirmNanos m; pending := pending m; oldestAgeNanos := oldestAgeNanos m |}.
Definition UpdateStats (s : Stats) (m : Metrics) : Metrics :=
  {| confirms := confirms m; errors := errors m; attempts := attempts m; confirmNanos := confirmNanos m;
     pending := Pending s; oldestAgeNanos := Z.max (OldestAge s) 0 |}.

(** ** store.go *)

(** One store call: whether it fails (and whether its effect stays when it
    does), the clock it reads and the rows other transactions hold locked. *)
Inductive call_fault : Type := NoFault | Failed (e : error) | InDoubt (e : error).
Record call_env : Type := { ce_fault : call_fault; ce_now : Z; ce_locked : string -> bool }.

Definition rows : Type := list outbox_row.

Definition with_delivery (o : outbox_row) (available : Z) (published : option Z) (attempts : Z)
    (last_error : option string) (lease : option (string * Z)) : outbox_row :=
  {| o_event := o_event o; o_aggregate := o_aggregate o; o_merchant := o_merchant o;
     o_position := o_position o; o_type := o_type o; o_payload := o_payload o;
     o_occurred := o_occurred o; o_created := o_created o; o_available := available;
     o_published := published; o_attempts := attempts; o_last_error := last_error; o_lease := lease |}.

Definition unpublished (o : outbox_row) : bool := match o_published o with None => true | Some _ => false end.

Definition claimable (now : Z) (o : outbox_row) : bool :=
  unpublished o && (o_available o <=? now) &&
  match o_lease o with None => true | Some (_, until) => until <=? now end.

(** ORDER BY available_at, created_at, event_id *)
Definition claim_key (o : outbox_row) : Z * Z * string := (o_available o, o_created o, o_event o).
Definition claimed_before (q o : outbox_row) : bool := key_ltb (claim_key q) (claim_key o).
Definition claim_order (l : rows) : rows := sort_by claimed_before l.

(** FOR UPDATE SKIP LOCKED LIMIT *)
Definition select_claimable (env : call_env) (limit : Z) (t : rows) : rows :=
  take (Z.to_nat limit)
    (claim_order (List.filter (fun o => claimable (ce_now env) o && negb (ce_locked env (o_event o))) t)).

Definition int4_max : Z := 2147483647.

Section Store.
Context (interval : Z -> Z).

Definition lease_row (owner : string) (until : Z) (o : outbox_row) : outbox_row :=
  with_delivery o (o_available o) (o_published o) (o_attempts o + 1) None (Some (owner, until)).

Definition event_of_row (o : outbox_row) : Event :=
  {| EventID := o_event o; AggregateID := o_aggregate o; MerchantID := o_merchant o;
     MerchantPosition := o_position o; Event_type := o_type o; Payload := o_payload o;
     OccurredAt := o_occurred o; CreatedAt := o_created o; Attempts := o_attempts o;
     LeaseOwner := match o_lease o with Some (w, _) => w | None => "" end;
     LeaseUntil := match o_lease o with Some (_, u) => u | None => 0 end |}.

Definition Claim (env : call_env) (owner : string) (limit lease : Z) (t : rows) : result (list Event) * rows :=
  if String.eqb (trim_space owner) "" || (limit <? 1) || (lease <=? 0)
  then (Err (EMsg "invalid outbox claim"), t)
  else
    match ce_fault env with
    | Failed e => (Err (EWrap "claim outbox events" e), t)
    | fault =>
        let chosen := select_claimable env limit t in
        if existsb (fun o => int4_max <=? o_attempts o) chosen
        then (Err (EWrap "claim outbox events" (EPg "22003" "")), t)
        else
          let until := ce_now env + interval lease in
          let hit o := existsb (fun c => String.eqb (o_event c) (o_event o)) chosen in
          let t' := map (fun o => if hit o then lease_row owner until o else o) t in
          match fault with
          | InDoubt e => (Err (EWrap "commit outbox claim" e), t')
          | _ => (Ok (map (fun o => event_of_row (lease_row owner until o)) chosen), t')
          end
    end.

(** WHERE event_id = $1 AND lease_owner = $2 AND published_at IS NULL *)
Definition holds (eventID owner : string) (o : outbox_row) : bool :=
  String.eqb (o_event o) eventID && unpublished o &&
  match o_lease o with Some (w, _) => String.eqb w owner | None => false end.

(** An UPDATE of the rows the worker holds, then the check of its row count. *)
Definition update_held (env : call_env) (ctx eventID owner : string) (f : outbox_row -> outbox_row) (t : rows)
    : result unit * rows :=
  match ce_fault env with
  | Failed e => (Err (EWrap ctx e), t)
  | fault =>
      let t' := map (fun o => if holds eventID owner o then f o else o) t in
      match fault with
      | InDoubt e => (Err (EWrap ctx e), t')
      | _ => if negb (Z.of_nat (length (List.filter (holds eventID owner) t)) =? 1)
             then (Err ErrLeaseLost, t') else (Ok tt, t')
      end
  end.

Definition MarkPublished (env : call_env) (eventID owner : string) (t : rows) : result unit * rows :=
  update_held env "mark outbox published" eventID owner
    (fun o => with_delivery o (o_available o) (Some (ce_now env)) (o_attempts o) None None) t.
End Store.

(** [sanitizeError]: the user information of an AMQP URL is redacted, and at
    most 500 bytes are kept.  The pattern is
    (?i)amqps?://[^@[:space:]]+@, and case folding lets U+017F stand for s. *)
Fixpoint fold_prefix (p s : string) : option string :=
  match p, s with
  | "", _ => Some s
  | String a p', String b s' => if Ascii.eqb a (lower_ascii b) then fold_prefix p' s' else None
  | _, "" => None
  end.
Definition optional_s (s : string) : list string :=
  match s with
  | String c r =>
      (if Ascii.eqb (lower_ascii c) "s" then [r]
       else match r with String d r' => if is_byte 197 c && is_byte 191 d then [r'] else [] | "" => [] end) ++ [s]
  | "" => [s]
  end.
Fixpoint user_info (some : bool) (s : string) : option string :=
  match s with
  | "" => None
  | String c r =>
      if Ascii.eqb c "@" then (if some then Some r else None)
      else if is_ascii_space c then None else user_info true r
  end.
Definition credential_url (s : string) : option string :=
  match fold_prefix "amqp" s with
  | None => None
  | Some r =>
      (fix first (l : list string) : option string :=
         match l with
         | [] => None
         | r :: l' =>
             match fold_prefix "://" r with
             | Some u => match user_info false u with Some rest => Some rest | None => first l' end
             | None => first l'
             end
         end) (optional_s r)
  end.
Fixpoint redact_fuel (fuel : nat) (s : string) : string :=
  match fuel, s with
  | S k, String c r =>
      match credential_url s with
      | Some rest => "amqp://[redacted]@" +:+ redact_fuel k rest
      | None => String c (redact_fuel k r)
      end
  | _, _ => ""
  end.
Definition sanitizeError (message : string) : string :=
  let message := redact_fuel (String.length message) message in
  if 500 <? slen message then String.substring 0 500 message else message.

(** LEFT(text, 500), in characters *)
Fixpoint left_runes (n : nat) (s : string) : string :=
  match n, s with
  | S k, String _ _ => let w := rune_width s in String.substring 0 w s +:+ left_runes k (drop_chars w s)
  | _, _ => ""
  end.

(** The parameter is text: PostgreSQL refuses one that is not UTF-8, as a
    sequence cut at the 500th byte is not, or that holds a zero byte. *)
Definition MarkFailed (interval : Z -> Z) (env : call_env) (eventID owner : string) (delay : Z)
    (lastError : string) (t : rows) : result unit * rows :=
  if delay <? 0 then (Err (EMsg "outbox retry delay must not be negative"), t)
  else if negb (pg_text (sanitizeError lastError)) then
    (Err (EWrap "release failed outbox event" (match ce_fault env with Failed e => e | _ => EPg "22021" "" end)), t)
  else
    update_held env "release failed outbox event" eventID owner
      (fun o => with_delivery o (ce_now env + interval delay) (o_published o) (o_attempts o)
                  (Some (left_runes 500 (sanitizeError lastError))) None) t.

(** [Stats]: what the gauges show; [age] converts the float of seconds. *)
Definition pending_rows (t : rows) : rows := List.filter unpublished t.
Definition StatsOf (env : call_env) (t : rows) : result Stats :=
  match ce_fault env with
  | NoFault =>
      let p := pending_rows t in
      let oldest := fold_right (fun o acc => Z.max acc (ce_now env - o_created o)) 0 p in
      Ok {| Pending := Z.of_nat (length p); OldestAge := oldest |}
  | Failed e | InDoubt e => Err (EWrap "read outbox stats" e)
  end.

(** ** rabbitmq.go: what is checked before a message leaves *)
Record Topology : Type := { t_Exchange : string; t_RoutingKey : string; t_Queue : string; t_DLX : string; t_DLQ : string }.
Definition DefaultTopology : Topology :=
  {| t_Exchange := "ledger.events"; t_RoutingKey := EventType;
     t_Queue := "consolidation.ledger-entry-confirmed.v2"; t_DLX := "ledger.events.dlx";
     t_DLQ := "consolidation.ledger-entry-confirmed.v2.dlq" |}.
Definition LegacyTopology : Topology :=
  {| t_Exchange := "ledger.events"; t_RoutingKey := EventType;
     t_Queue := "consolidation.ledger-entry-confirmed.v1"; t_DLX := "ledger.events.dlx";
     t_DLQ := "consolidation.ledger-entry-confirmed.v1.dlq" |}.
Definition validate_topology (t : Topology) : result unit :=
  if String.eqb (t_Exchange t) "" || String.eqb (t_RoutingKey t) "" || String.eqb (t_Queue t) ""
     || String.eqb (t_DLX t) "" || String.eqb (t_DLQ t) ""
  then Err (EMsg "RabbitMQ topology names must not be empty") else Ok tt.

Record eventEnvelope : Type := {
  n_EventID : string; n_EventType : string; n_OccurredAt : Z; n_MerchantID : string;
  n_MerchantPosition : Z; n_EntryID : string; n_ConfirmedAt : Z; n_Traceparent : string }.

Definition prohibitedPayloadFields : list string :=
  ["authorization"; "cardnumber"; "credential"; "credentials"; "cvv"; "cvv2"; "description"; "jwt"; "pan";
   "password"; "secret"; "clientsecret"; "token"; "accesstoken"; "refreshtoken"; "apikey"].
Definition prohibitedPayloadFamilies : list string :=
  ["authorization"; "cardnumber"; "credential"; "cvv"; "description"; "password"; "secret"; "token"; "apikey"].

Fixpoint normalizePayloadField (name : string) : string :=
  match name with
  | "" => ""
  | String c r =>
      if is_upper c then String (lower_ascii c) (normalizePayloadField r)
      else if in_range 97 122 c || is_digit c then String c (normalizePayloadField r)
      else normalizePayloadField r
  end.

Definition prohibited_name (name : string) : bool :=
  let normalized := normalizePayloadField name in
  existsb (String.eqb normalized) prohibitedPayloadFields ||
  existsb (fun family => contains_sub family normalized) prohibitedPayloadFamilies.

(** The first prohibited name, or the empty string. *)
Fixpoint prohibitedField (value : json) : string :=
  match value with
  | JObj fields =>
      (fix members (fs : list (string * json)) : string :=
         match fs with
         | [] => ""
         | (name, nested) :: rest =>
             if prohibited_name name then name
             else let found := prohibitedField nested in
                  if String.eqb found "" then members rest else found
         end) fields
  | JArr items =>
      (fix elements (l : list json) : string :=
         match l with
         | [] => ""
         | nested :: rest =>
             let found := prohibitedField nested in
             if String.eqb found "" then elements rest else found
         end) items
  | _ => ""
  end.

Definition unmarshal_envelope (f : list (string * json)) : result eventEnvelope :=
  id ← dec_string (jfield "event_id" f); ty ← dec_string (jfield "event_type" f);
  oc ← dec_time (jfield "occurred_at" f); m ← dec_string (jfield "merchant_id" f);
  p ← dec_int64 (jfield "merchant_position" f); en ← dec_string (jfield "entry_id" f);
  co ← dec_time (jfield "confirmed_at" f); tp ← dec_string (jfield "traceparent" f);
  Ok {| n_EventID := id; n_EventType := ty; n_OccurredAt := oc; n_MerchantID := m;
        n_MerchantPosition := p; n_EntryID := en; n_ConfirmedAt := co; n_Traceparent := tp |}.

Definition envelope_matches (envelope : eventEnvelope) (event : Event) : bool :=
  String.eqb (n_EventID envelope) (EventID event) && String.eqb (n_EventType envelope) (Event_type event) &&
  String.eqb (n_MerchantID envelope) (MerchantID event) &&
  (n_MerchantPosition envelope =? MerchantPosition event) &&
  String.eqb (n_EntryID envelope) (AggregateID event) &&
  (n_OccurredAt envelope =? OccurredAt event) && (n_ConfirmedAt envelope =? OccurredAt event).

Definition validateEnvelope (event : Event) : result eventEnvelope :=
  match Payload event with
  | JObj _ | JNull =>
      let fields := match Payload event with JObj f => f | _ => [] end in
      let field := prohibitedField (Payload event) in
      if negb (String.eqb field "")
      then Err (EMsg ("event payload contains prohibited sensitive field " +:+ field))
      else
        match unmarshal_envelope fields with
        | Err e => Err (EWrap "decode typed event envelope" e)
        | Ok envelope =>
            if envelope_matches envelope event then Ok envelope
            else Err (EMsg "event payload identity does not match claimed outbox row")
        end
  | _ => Err (EWrap "decode event envelope" (EMsg "json: cannot unmarshal"))
  end.

(** The message: headers by name with their printed values, properties, body. *)
Record Publishing : Type := {
  p_Headers : list (string * string); p_ContentType : string; p_Persistent : bool; p_MessageId : string;
  p_CorrelationId : string; p_Timestamp : Z; p_Type : string; p_AppId : string; p_Body : json }.

Definition identity_headers (event : Event) (envelope : eventEnvelope) : list (string * string) :=
  [("event_id", EventID event); ("event_type", Event_type event); ("merchant_id", MerchantID event);
   ("merchant_position", fmt_d (MerchantPosition event)); ("entry_id", n_EntryID envelope);
   ("traceparent", n_Traceparent envelope); ("occurred_at", format_rfc3339 (OccurredAt event));
   ("confirmed_at", format_rfc3339 (n_ConfirmedAt envelope))].

Definition publishingForEvent (event : Event) (envelope : eventEnvelope) : Publishing :=
  {| p_Headers := identity_headers event envelope; p_ContentType := "application/json"; p_Persistent := true;
     p_MessageId := EventID event; p_CorrelationId := AggregateID event; p_Timestamp := OccurredAt event;
     p_Type := Event_type event; p_AppId := "outbox-publisher"; p_Body := Payload event |}.

Fixpoint header_value (name : string) (h : list (string * string)) : string :=
  match h with [] => "<nil>" | (k, v) :: r => if String.eqb k name then v else header_value name r end.

Definition validatePublishingIdentity (p : Publishing) (event : Event) (envelope : eventEnvelope) : result unit :=
  if negb (forallb (fun kv => String.eqb (header_value (fst kv) (p_Headers p)) (snd kv)) (identity_headers event envelope))
  then Err (EMsg "AMQP header does not match outbox identity")
  else if negb (String.eqb (p_MessageId p) (EventID event)) || negb (String.eqb (p_CorrelationId p) (AggregateID event))
     || negb (String.eqb (p_Type p) (Event_type event)) || negb (p_Timestamp p =? OccurredAt event)
     || negb (p_Persistent p) || negb (String.eqb (p_ContentType p) "application/json")
     || negb (String.eqb (p_AppId p) "outbox-publisher")
  then Err (EMsg "AMQP properties do not match outbox identity")
  else Ok tt.

(** ** rabbitmq.go: the confirm protocol *)

(** What reaches the publisher after it sent a mandatory message: a returned
    message, the end of the confirm budget, or the broker's answer. *)
Inductive signal : Type := Returned (messageID : string) | Expired (e : error) | Confirmed (acked : bool).

(** One publication's surroundings: the caller's context, the channel, the
    socket and its deadline, the send (and whether it carries a confirmation),
    the hook after it, and the signals, in order. *)
Record net : Type := {
  ctx_err : option error; channel : result unit; socket : bool; deadline : result unit;
  send : result bool; after_send : result unit; signals : list signal }.

Fixpoint drain_returns (eventID : string) (l : list signal) : result unit :=
  match l with
  | Returned m :: rest => if String.eqb m eventID then Err ErrUnroutable else drain_returns eventID rest
  | _ => Ok tt
  end.

Fixpoint wait_confirm (eventID : string) (l : list signal) : result unit :=
  match l with
  | Returned m :: rest => if String.eqb m eventID then Err ErrUnroutable else wait_confirm eventID rest
  | Expired e :: _ => Err (EWrap "wait for publisher confirm" e)
  | Confirmed acked :: rest => if acked then drain_returns eventID rest else Err ErrNotConfirmed
  | [] => Err (EWrap "wait for publisher confirm" (ESentinel "context.DeadlineExceeded"))
  end.

Section Broker.
Context (schema_valid : json -> result unit).

(** The event's checks: the message to send, or why it is refused. *)
Definition prepare (event : Event) : result eventEnvelope :=
  if negb (String.eqb (Event_type event) EventType) then Err (EMsg "unsupported event type")
  else
    _ ← wrap_err "validate outbox payload" (schema_valid (Payload event));
    validateEnvelope event.

(** The outcome, and what was handed to the broker. *)
Definition Publish (n : net) (event : Event) : result unit * option Publishing :=
  match ctx_err n with
  | Some e => (Err e, None)
  | None =>
      match prepare event with
      | Err e => (Err e, None)
      | Ok envelope =>
          match channel n with
          | Err e => (Err e, None)
          | Ok _ =>
              if negb (socket n) then (Err (EMsg "RabbitMQ socket is unavailable"), None)
              else
                match deadline n with
                | Err e => (Err (EWrap "set AMQP I/O deadline" e), None)
                | Ok _ =>
                    let publishing := publishingForEvent event envelope in
                    match validatePublishingIdentity publishing event envelope with
                    | Err e => (Err e, None)
                    | Ok _ =>
                        match send n with
                        | Err e => (Err (EWrap "publish AMQP event" e), Some publishing)
                        | Ok false => (Err ErrNotConfirmed, Some publishing)
                        | Ok true =>
                            match after_send n with
                            | Err e => (Err e, Some publishing)
                            | Ok _ => (wait_confirm (EventID event) (signals n), Some publishing)
                            end
                        end
                    end
                end
          end
      end
  end.

(** ** worker.go *)
Record WorkerConfig : Type := {
  Owner : string; BatchSize : Z; Lease : Z; PollInterval : Z; BackoffBase : Z; BackoffMax : Z; PublishBudget : Z }.
Definition persistenceBudget : Z := 2 * second.

Definition NewWorker (config : WorkerConfig) : result WorkerConfig :=
  if String.eqb (Owner config) "" || (BatchSize config <? 1) || (Lease config <=? 0)
     || (PollInterval config <=? 0) || (BackoffBase config <=? 0)
     || (BackoffMax config <? BackoffBase config) || (PublishBudget config <=? 0)
     || (Lease config <=? wrap64 (PublishBudget config + persistenceBudget))
  then Err (EMsg "invalid outbox worker configuration") else Ok config.

(** The doubling loop: [steps] further attempts from [delay]. *)
Fixpoint backoff (max : Z) (steps : nat) (delay : Z) : Z :=
  match steps with
  | O => delay
  | S k => if delay <? max then (if Z.quot max 2 <? delay then max else backoff max k (delay * 2)) else delay
  end.

(** [scale d] is time.Duration(float64(d) * factor), 0.5 <= factor < 1.5. *)
Definition retryDelay (config : WorkerConfig) (scale : Z -> Z) (attempt : Z) : Z :=
  let attempt := if attempt <? 1 then 1 else attempt in
  let result := scale (backoff (BackoffMax config) (Z.to_nat (attempt - 1)) (BackoffBase config)) in
  if BackoffMax config <? result then BackoffMax config else result.

(** What one iteration of the worker's loop meets. *)
Record turn : Type := {
  tu_claim : call_env; tu_net : net; tu_mark : call_env; tu_elapsed : Z; tu_scale : Z -> Z }.

Context (interval : Z -> Z) (error_text : error -> string).

Record world : Type := { w_rows : rows; w_metrics : Metrics; w_sent : list Publishing }.
Definition is_interrupted (e : error) : bool := errors_is e "outbox.ErrPublicationInterrupted".
Definition record_error (w : world) : world :=
  {| w_rows := w_rows w; w_metrics := RecordError (w_metrics w); w_sent := w_sent w |}.
Definition with_rows (w : world) (t : rows) : world :=
  {| w_rows := t; w_metrics := w_metrics w; w_sent := w_sent w |}.

Definition publishOne (config : WorkerConfig) (tu : turn) (event : Event) (w : world) : result unit * world :=
  let '(published, sent) := Publish (tu_net tu) event in
  let w := {| w_rows := w_rows w; w_metrics := w_metrics w;
              w_sent := (w_sent w ++ match sent with Some p => [p] | None => [] end)%list |} in
  match published with
  | Err err =>
      let w := record_error w in
      if is_interrupted err then (Err err, w)
      else
        let '(released, t) := MarkFailed interval (tu_mark tu) (EventID event) (LeaseOwner event)
              (retryDelay config (tu_scale tu) (Attempts event)) (sanitizeError (error_text err)) (w_rows w) in
        match released with
        | Err releaseErr => (Err (EJoin [err; releaseErr]), with_rows w t)
        | Ok _ => (Err err, with_rows w t)
        end
  | Ok _ =>
      let '(marked, t) := MarkPublished (tu_mark tu) (EventID event) (LeaseOwner event) (w_rows w) in
      match marked with
      | Err err => (Err (EWrap "persist publisher confirm" err), record_error (with_rows w t))
      | Ok _ => (Ok tt, {| w_rows := t; w_metrics := RecordConfirm (tu_elapsed tu) (Attempts event) (w_metrics w);
                           w_sent := w_sent w |})
      end
  end.

Definition join_errors (l : list error) : option error := match l with [] => None | _ => Some (EJoin l) end.

(** The loop of [ProcessOnce]: [remaining] more events, the turn of number
    [processed] next; the count, the joined errors and the world. *)
Fixpoint process (config : WorkerConfig) (turns : nat -> turn) (remaining processed : nat)
    (publishErrors : list error) (w : world) : Z * option error * world :=
  match remaining with
  | O => (Z.of_nat processed, join_errors publishErrors, w)
  | S k =>
      let tu := turns processed in
      let '(claimed, t) := Claim interval (tu_claim tu) (Owner config) 1 (Lease config) (w_rows w) in
      let w := with_rows w t in
      match claimed with
      | Err err => (Z.of_nat processed, join_errors (publishErrors ++ [err])%list, record_error w)
      | Ok [] => (Z.of_nat processed, join_errors publishErrors, w)
      | Ok (event :: _) =>
          let '(r, w) := publishOne config tu event w in
          match r with
          | Err err => if is_interrupted err
                       then (Z.of_nat (S processed), join_errors (publishErrors ++ [err])%list, w)
                       else process config turns k (S processed) (publishErrors ++ [err])%list w
          | Ok _ => process config turns k (S processed) publishErrors w
          end
      end
  end.

Definition ProcessOnce (config : WorkerConfig) (turns : nat -> turn) (w : world) : Z * option error * world :=
  process config turns (Z.to_nat (BatchSize config)) 0 [] w.

(** [Run]: at each tick it processes once and sleeps; the list ends when the
    context is done.  Also what the timer is reset to each time. *)
Fixpoint Run (config : WorkerConfig) (ticks : list (nat -> turn)) (w : world) : list Z * world :=
  match ticks with
  | [] => ([], w)
  | turns :: rest =>
      let '(processed, _, w) := ProcessOnce config turns w in
      let delay := if processed =? BatchSize config then 0 else PollInterval config in
      let '(delays, w) := Run config rest w in
      (delay :: delays, w)
  end.
End Broker.

(** [traceparentFromPayload] *)
Definition traceparentFromPayload (payload : json) : string :=
  match payload with
  | JObj f => match dec_string (jfield "traceparent" f) with Ok s => s | Err _ => "" end
  | _ => ""
  end.

(** ** Publisher operations are rewrites of delivery columns *)
#[export] Instance claimed_before_order : StrictWeakOrder claimed_before.
Proof.
  split; unfold claimed_before.
  - intros a b. apply key_ltb_asym.
  - intros a b c H. destruct (key_ltb_total (claim_key a) (claim_key b)) as [E|[E|E]].
    + right. by rewrite <- E.
    + by left.
    + right. by eapply key_ltb_trans.
Qed.

Lemma same_event_refl o : same_event o o.
Proof. by unfold same_event. Qed.

Lemma same_event_trans a b c : same_event a b -> same_event b c -> same_event a c.
Proof. unfold same_event. intros H K. decompose [and] H. decompose [and] K. splits; congruence. Qed.

(** The rows of [t] with only delivery columns rewritten; a published row is
    final. *)
Definition rewrites (t t' : rows) : Prop := exists f, t' = map f t /\ (forall o, same_event o (f o)) /\
  (forall o, o ∈ t -> unpublished o = false -> f o = o).

Lemma rewrites_refl t : rewrites t t.
Proof. exists (fun o => o). rewrite map_id. splits; [done|apply same_event_refl|done]. Qed.

Lemma rewrites_trans a b c : rewrites a b -> rewrites b c -> rewrites a c.
Proof.
  intros (f & -> & Hf & Ff) (g & -> & Hg & Fg). exists (fun o => g (f o)). rewrite map_map. splits; [done| |].
  - intros o. by eapply same_event_trans.
  - intros o Ho Hp. assert (f o = o) as E by by apply Ff. rewrite E. apply Fg; [|done].
    rewrite <- E. apply list_elem_of_In, List.in_map. by apply list_elem_of_In.
Qed.

Lemma rewrites_events t t' : rewrites t t' -> map o_event t' = map o_event t.
Proof. intros (f & -> & Hf & _). rewrite map_map. apply map_ext. intros o. apply Hf. Qed.

Lemma rewrites_if (hit : outbox_row -> bool) g t : (forall o, same_event o (g o)) ->
  (forall o, o ∈ t -> hit o = true -> unpublished o = true) -> rewrites t (map (fun o => if hit o then g o else o) t).
Proof.
  intros Hg Hh. eexists. split; [reflexivity|]. split.
  - intros o. destruct (hit o); [done|apply same_event_refl].
  - intros o Ho Hp. destruct (hit o) eqn:E; [|done]. rewrite (Hh o Ho E) in Hp. done.
Qed.

Lemma delivery_same o a p n e l : same_event o (with_delivery o a p n e l).
Proof. by unfold same_event. Qed.

(** The store's operations. *)
Inductive store_op : Type :=
  | OClaim (env : call_env) (owner : string) (limit lease : Z)
  | OPublished (env : call_env) (eventID owner : string)
  | OFailed (env : call_env) (eventID owner : string) (delay : Z) (lastError : string).
Definition op_now (op : store_op) : Z :=
  match op with OClaim env _ _ _ | OPublished env _ _ | OFailed env _ _ _ _ => ce_now env end.
Definition run_op (interval : Z -> Z) (op : store_op) (t : rows) : rows :=
  match op with
  | OClaim env owner limit lease => snd (Claim interval env owner limit lease t)
  | OPublished env id owner => snd (MarkPublished env id owner t)
  | OFailed env id owner delay e => snd (MarkFailed interval env id owner delay e t)
  end.
Definition run_ops (interval : Z -> Z) (ops : list store_op) (t : rows) : rows :=
  fold_left (fun t op => run_op interval op t) ops t.

Lemma chosen_in env limit t o : o ∈ select_claimable env limit t ->
  o ∈ t /\ claimable (ce_now env) o = true /\ ce_locked env (o_event o) = false.
Proof.
  unfold select_claimable, claim_order. intros H. apply list.elem_of_take in H as (i & H & _).
  apply list_elem_of_lookup_2 in H. rewrite sort_by_in in H. apply in_filter_iff in H as [H1 H2]. bool_to_prop. done.
Qed.

Lemma event_unique (t : rows) o o' : NoDup (map o_event t) -> o ∈ t -> o' ∈ t -> o_event o = o_event o' -> o = o'.
Proof. apply (NoDup_map_inj o_event). Qed.

Lemma hit_claimable env limit t o : NoDup (map o_event t) -> o ∈ t ->
  existsb (fun c => String.eqb (o_event c) (o_event o)) (select_claimable env limit t) = true ->
  claimable (ce_now env) o = true.
Proof.
  intros Hn Ho H. apply existsb_exists in H as (c & Hc%list_elem_of_In & E). apply String.eqb_eq in E.
  apply chosen_in in Hc as (Hc & Hcl & _). by rewrite (event_unique t o c Hn Ho Hc (eq_sym E)).
Qed.

Lemma update_held_rewrites env ctx id owner g t : (forall o, same_event o (g o)) ->
  rewrites t (snd (update_held env ctx id owner g t)).
Proof.
  intros Hg. unfold update_held.
  assert (rewrites t (map (fun o => if holds id owner o then g o else o) t)) as H.
  { apply rewrites_if; [done|]. unfold holds. intros o _ E. by bool_to_prop. }
  destruct (ce_fault env); [|apply rewrites_refl|done]. by destruct (negb _).
Qed.

Lemma run_op_rewrites interval op t : NoDup (map o_event t) -> rewrites t (run_op interval op t).
Proof.
  intros Hn. destruct op as [env owner limit lease|env id owner|env id owner delay e]; cbn.
  - unfold Claim. destruct (_ || _); [apply rewrites_refl|].
    assert (forall g, (forall o, same_event o (g o)) -> rewrites t (map (fun o =>
      if existsb (fun c => String.eqb (o_event c) (o_event o)) (select_claimable env limit t) then g o else o) t)) as H.
    { intros g Hg. apply rewrites_if; [done|]. intros o Ho E.
      pose proof (hit_claimable _ _ _ _ Hn Ho E) as Hc. unfold claimable in Hc. by bool_to_prop. }
    destruct (ce_fault env); [|apply rewrites_refl|]; (destruct (existsb _ _); [apply rewrites_refl|]);
      cbn; apply H; intros o; apply delivery_same.
  - apply update_held_rewrites. intros o. apply delivery_same.
  - unfold MarkFailed. destruct (delay <? 0); [apply rewrites_refl|]. destruct (negb _); [apply rewrites_refl|].
    apply update_held_rewrites. intros o. apply delivery_same.
Qed.

Lemma run_ops_rewrites interval ops t : NoDup (map o_event t) -> rewrites t (run_ops interval ops t).
Proof.
  revert t. induction ops as [|op ops IH]; intros t Hn; [apply rewrites_refl|]. cbn.
  pose proof (run_op_rewrites interval op t Hn) as H. eapply rewrites_trans; [exact H|]. apply IH.
  by rewrite (rewrites_events _ _ H).
Qed.

Definition with_outbox (db : ledger_db) (t : rows) : ledger_db :=
  {| positions := positions db; entries := entries db; idempotency := idempotency db; outbox := t |}.

(** C17: the publisher's statements, any number of them by any workers in any
    order and with any failures, refine the Ledger's own transitions: they
    never touch an entry, a position or an idempotency record, they keep every
    event's identity, payload and order in the outbox, and an event that was
    marked published is never changed again. *)
Theorem publisher_refines sha256 json_text ll interval ops db :
  steps (ledger_step sha256 json_text ll) empty_db db ->
  let t := run_ops interval ops (outbox db) in
  steps (ledger_step sha256 json_text ll) db (with_outbox db t) /\
  ledger_inv (with_outbox db t) /\
  exists f, t = map f (outbox db) /\ (forall o, same_event o (f o)) /\
    (forall o, o ∈ outbox db -> unpublished o = false -> f o = o).
Proof.
  intros Hs. destruct (steps_spec _ _ _ _ _ Hs empty_inv) as (Hi & _ & _). cbn zeta.
  pose proof (run_ops_rewrites interval ops (outbox db) (inv_events _ Hi)) as H.
  assert (steps (ledger_step sha256 json_text ll) db (with_outbox db (run_ops interval ops (outbox db)))) as Hst.
  { destruct H as (f & -> & Hf & _). eapply steps_cons; [by apply (step_outbox _ _ _ _ f)|apply steps_refl]. }
  splits; [done| |done]. apply (steps_spec _ _ _ _ _ Hst Hi).
Qed.

Lemma publisher_refines_witness :
  let env := {| ce_fault := NoFault; ce_now := sample_now + second; ce_locked := fun _ => false |} in
  exists f, run_ops (fun d => d) [OClaim env "w1" 1 (60 * second)] (outbox sample_db1) = map f (outbox sample_db1) /\
    (forall o, same_event o (f o)).
Proof.
  intros env.
  destruct (publisher_refines sample_sha256 sample_text sample_zone (fun d => d)
    [OClaim env "w1" 1 (60 * second)] sample_db1 sample_steps1) as (_ & _ & f & H1 & H2 & _).
  exists f. split; [exact H1|exact H2].
Defined.

(** ** Leases are exclusive *)

(** The row of [id] is published, or leased to [owner] until [until]. *)
Definition kept (id owner : string) (until : Z) (t : rows) : Prop :=
  NoDup (map o_event t) /\ forall o, o ∈ t -> o_event o = id ->
    unpublished o = false \/ o_lease o = Some (owner, until).

Definition releases (id owner : string) (op : store_op) : Prop :=
  match op with OFailed _ id' owner' _ _ => id' = id /\ owner' = owner | _ => False end.

Lemma kept_claim id owner until t env : kept id owner until t -> ce_now env < until ->
  forall o, o ∈ t -> o_event o = id -> claimable (ce_now env) o = false.
Proof.
  intros [_ Hk] Hnow o Ho Hid. unfold claimable. destruct (Hk o Ho Hid) as [-> | ->]; [done|].
  rewrite (proj2 (Z.leb_gt _ _) Hnow). by rewrite andb_false_r.
Qed.

Lemma kept_op interval id owner until op t : kept id owner until t -> op_now op < until -> ~ releases id owner op ->
  kept id owner until (run_op interval op t).
Proof.
  intros Hk Hnow Hrel. destruct Hk as [Hn Hk]. split.
  { by rewrite (rewrites_events _ _ (run_op_rewrites interval op t Hn)). }
  assert (forall f, (forall o, same_event o (f o)) ->
    (forall o, o ∈ t -> o_event o = id -> unpublished (f o) = false \/ o_lease (f o) = Some (owner, until)) ->
    forall o', o' ∈ map f t -> o_event o' = id -> unpublished o' = false \/ o_lease o' = Some (owner, until)) as Hmap.
  { intros f Hf H o' (o & -> & Ho)%in_map E. apply H; [done|]. by rewrite <- (proj1 (Hf o)). }
  assert (forall env ctx id' owner' g, (forall o, same_event o (g o)) ->
    (forall o, o ∈ t -> o_event o = id -> holds id' owner' o = true ->
       unpublished (g o) = false \/ o_lease (g o) = Some (owner, until)) ->
    forall o, o ∈ snd (update_held env ctx id' owner' g t) -> o_event o = id ->
      unpublished o = false \/ o_lease o = Some (owner, until)) as Hheld.
  { intros env ctx id' owner' g Hg H. unfold update_held.
    assert (forall o, o ∈ map (fun o => if holds id' owner' o then g o else o) t -> o_event o = id ->
      unpublished o = false \/ o_lease o = Some (owner, until)) as Hm.
    { apply Hmap; [intros o; destruct (holds _ _ o); [done|apply same_event_refl]|].
      intros o Ho E. destruct (holds id' owner' o) eqn:Eh; [by apply H|by apply Hk]. }
    destruct (ce_fault env); [|done|done]. by destruct (negb _). }
  destruct op as [env o' limit lease|env id' o'|env id' o' delay e]; cbn in *.
  - unfold Claim. destruct (_ || _); [done|].
    destruct (ce_fault env) eqn:Ef; [|done|]; (destruct (existsb _ _); [done|]); cbn; apply Hmap;
      try (intros o; destruct (existsb _ _); [apply delivery_same|apply same_event_refl]);
      intros o Ho E; (destruct (existsb (fun c => String.eqb (o_event c) (o_event o)) _) eqn:Eh; [|by apply Hk]);
      pose proof (hit_claimable _ _ _ _ Hn Ho Eh) as Hc;
      by rewrite (kept_claim id owner until t env (conj Hn Hk) Hnow o Ho E) in Hc.
  - apply Hheld; [intros o; apply delivery_same|]. intros o _ _ _. by left.
  - unfold MarkFailed. destruct (delay <? 0); [done|]. destruct (negb _); [done|]. apply Hheld; [intros o; apply delivery_same|].
    intros o Ho E Hh. exfalso. unfold holds in Hh. bool_to_prop.
    destruct (Hk o Ho E) as [Hp|Hl]; [congruence|].
    match goal with H : match o_lease o with _ => _ end = true |- _ => rewrite Hl in H; apply String.eqb_eq in H; subst end.
    apply Hrel. split; congruence.
Qed.

Lemma kept_ops interval id owner until ops t : kept id owner until t ->
  (forall op, op ∈ ops -> op_now op < until /\ ~ releases id owner op) -> kept id owner until (run_ops interval ops t).
Proof.
  revert t. induction ops as [|op ops IH]; intros t Hk Ho; [done|]. apply IH; [|intros; apply Ho; by right].
  apply kept_op; [done|apply Ho; left..].
Qed.

Lemma claimed_ok interval env owner limit lease t evs t1 : Claim interval env owner limit lease t = (Ok evs, t1) ->
  evs = map (fun o => event_of_row (lease_row owner (ce_now env + interval lease) o)) (select_claimable env limit t) /\
  t1 = map (fun o => if existsb (fun c => String.eqb (o_event c) (o_event o)) (select_claimable env limit t)
                     then lease_row owner (ce_now env + interval lease) o else o) t.
Proof.
  unfold Claim. intros H. case_hyp H; [done|]. case_hyp H; [|done|]; (case_hyp H; [done|]); [|done].
  injection H as <- <-. done.
Qed.

Lemma claimed_kept interval env owner limit lease t evs t1 ev : NoDup (map o_event t) ->
  Claim interval env owner limit lease t = (Ok evs, t1) -> ev ∈ evs ->
  kept (EventID ev) owner (ce_now env + interval lease) t1.
Proof.
  intros Hn H Hev. pose proof (run_op_rewrites interval (OClaim env owner limit lease) t Hn) as Hr.
  cbn in Hr. rewrite H in Hr. cbn in Hr. split; [by rewrite (rewrites_events _ _ Hr)|].
  apply claimed_ok in H as [-> ->]. apply in_map in Hev as (c & -> & Hc).
  intros o' (o & -> & Ho)%in_map E. destruct (existsb _ _) eqn:Eh; [by right|]. exfalso.
  cbn in E. rewrite <- not_true_iff_false in Eh. apply Eh, existsb_exists. exists c.
  rewrite <- list_elem_of_In. split; [done|]. by apply String.eqb_eq.
Qed.

(** C15: leases are exclusive: once a worker has claimed an event, no claim of
    any worker gets that event before the lease ends, whatever claims,
    publications and failures of all workers happen meanwhile, unless the
    holder itself gives the event back. *)
Theorem claim_exclusive interval env owner limit lease t evs t1 ev ops env' owner' limit' lease' evs' t2 :
  NoDup (map o_event t) -> Claim interval env owner limit lease t = (Ok evs, t1) -> ev ∈ evs ->
  let until := ce_now env + interval lease in
  (forall op, op ∈ ops -> op_now op < until /\ ~ releases (EventID ev) owner op) -> ce_now env' < until ->
  Claim interval env' owner' limit' lease' (run_ops interval ops t1) = (Ok evs', t2) ->
  EventID ev ∉ map EventID evs'.
Proof.
  intros Hn H Hev until Hops Hnow H'. pose proof (claimed_kept _ _ _ _ _ _ _ _ _ Hn H Hev) as Hk. fold until in Hk.
  pose proof (kept_ops interval _ _ _ _ _ Hk Hops) as Hk'.
  apply claimed_ok in H' as [-> _]. rewrite map_map. intros (c & E & Hc)%in_map. cbn in E.
  apply chosen_in in Hc as (Hc & Hcl & _).
  by rewrite (kept_claim _ _ _ _ env' Hk' Hnow c Hc (eq_sym E)) in Hcl.
Qed.

Lemma claim_exclusive_witness :
  let env z := {| ce_fault := NoFault; ce_now := sample_now + z; ce_locked := fun _ => false |} in
  let '(r1, t1) := Claim (fun d => d) (env 5) "w1" 1 (60 * second) (outbox sample_db1) in
  let '(r2, t2) := Claim (fun d => d) (env 9) "w2" 1 (60 * second) t1 in
  exists ev evs, r1 = Ok [ev] /\ r2 = Ok evs /\ EventID ev ∉ map EventID evs.
Proof.
  intros env.
  assert (NoDup (map o_event (outbox sample_db1))) as Hn
    by exact (inv_events _ (proj1 (steps_spec _ _ _ _ _ sample_steps1 empty_inv))).
  destruct (Claim (fun d => d) (env 5) "w1" 1 (60 * second) (outbox sample_db1)) as [r1 t1] eqn:E1.
  destruct (Claim (fun d => d) (env 9) "w2" 1 (60 * second) t1) as [r2 t2] eqn:E2.
  assert (exists ev, r1 = Ok [ev]) as [ev ->] by (vm_compute in E1; injection E1 as <- <-; by eexists).
  assert (exists evs, r2 = Ok evs) as [evs ->]
    by (vm_compute in E1; injection E1 as _ <-; vm_compute in E2; injection E2 as <- _; by eexists).
  exists ev, evs. splits; [reflexivity..|].
  eapply (claim_exclusive (fun d => d) (env 5) "w1" 1 (60 * second) (outbox sample_db1) [ev] t1 ev [] (env 9));
    [exact Hn|exact E1|left|intros op H; by apply elem_of_nil in H| |exact E2].
  vm_compute. reflexivity.
Defined.

(** ** Every event the Ledger writes passes the publisher's checks *)
Lemma minted_id id : minted id -> is_id id /\ pg_uuid id = id.
Proof.
  intros (now & [raw|e] & H); [|done]. split; [by eapply NewUUIDv7_id|]. by eapply NewUUIDv7_lower.
Qed.

Lemma is_id_valid id : is_id id -> to_valid id = id.
Proof. intros H%is_id_ascii. by apply to_valid_ascii. Qed.

Lemma payload_allowed id e now tp j : event_payload id e now tp = Ok j -> prohibitedField j = "".
Proof.
  unfold event_payload. intros H. destruct (enc_time now) as [t|] eqn:Et; [|done].
  destruct (enc_time (Entry.confirmedAt e)) as [c|] eqn:Ec; [|done]. cbn [mbind result_bind] in H.
  injection H as <-. apply enc_time_inv in Et as [-> _]. apply enc_time_inv in Ec as [-> _].
  destruct (Entry.originalEntryID e); vm_compute; reflexivity.
Qed.

Lemma describes_envelope e o : describes e o ->
  exists envelope, unmarshal_envelope (match o_payload o with JObj f => f | _ => [] end) = Ok envelope /\
    (exists f, o_payload o = JObj f) /\ prohibitedField (o_payload o) = "" /\
    n_MerchantID envelope = Entry.merchantID e /\
    envelope_matches envelope (event_of_row o) = String.eqb (Entry.merchantID e) (pg_uuid (Entry.merchantID e)).
Proof.
  intros [Hagg Hmid Hmer Hpos Hty [Hmi Htr] Hrange Hocc _ _ (id & tp & Hid & Hev & _ & Hp)].
  pose proof (payload_allowed _ _ _ _ _ Hp) as Hallow.
  destruct (minted_id _ Hid) as [Hid1 Hid2]. destruct (minted_id _ Hmi) as [Hmi1 Hmi2].
  unfold event_payload in Hp. destruct (enc_time (Entry.confirmedAt e)) as [t|] eqn:Et; [|done].
  cbn [mbind result_bind] in Hp. injection Hp as Hp. rewrite <- Hp in *.
  eexists. split; [|split; [by eexists|split; [done|]]].
  - unfold unmarshal_envelope, enc_string. jfields. rewrite (dec_enc_time _ _ Et). cbn [mbind result_bind].
    rewrite Hrange. cbn [mbind result_bind]. reflexivity.
  - cbn [n_MerchantID]. rewrite is_id_valid by done. split; [done|]. unfold envelope_matches.
    cbn [n_EventID n_EventType n_MerchantID n_MerchantPosition n_EntryID n_OccurredAt n_ConfirmedAt event_of_row
         EventID AggregateID MerchantID MerchantPosition Event_type OccurredAt].
    rewrite (is_id_valid id), (is_id_valid (Entry.id e)), Hev, Hagg, Hmer, Hpos, Hty, Hocc, Hid2, Hmi2 by done.
    assert (to_valid entryEventType = entryEventType) as -> by (vm_compute; reflexivity).
    by rewrite !String.eqb_refl, !Z.eqb_refl, !andb_true_r, !andb_true_l.
Qed.

(** The event of a confirmed entry passes the envelope checks, unless the
    merchant's identifier was given with upper-case letters: the payload keeps
    them while the row has PostgreSQL's lower case, and the publisher refuses
    it every time. *)
Lemma describes_publishable e o : describes e o ->
  (is_ok (validateEnvelope (event_of_row o)) = true <-> pg_uuid (Entry.merchantID e) = Entry.merchantID e).
Proof.
  intros He. destruct (describes_envelope _ _ He) as (env & Hu & (f & Ef) & Hf & _ & Hm).
  unfold validateEnvelope. cbn [Payload event_of_row]. rewrite Ef in *. rewrite Hf. cbn [String.eqb negb].
  rewrite Hu, Hm. destruct (String.eqb_spec (Entry.merchantID e) (pg_uuid (Entry.merchantID e))); [done|].
  split; [done|]. congruence.
Qed.

(** Whatever publishers did to a reachable outbox, each row is the event of a
    confirmed entry. *)
Lemma outbox_described sha256 json_text ll interval ops db o :
  steps (ledger_step sha256 json_text ll) empty_db db -> o ∈ run_ops interval ops (outbox db) ->
  exists e, describes e o /\ row_of_entry e ∈ entries db.
Proof.
  intros Hs Ho. destruct (steps_spec _ _ _ _ _ Hs empty_inv) as (Hi & _ & _).
  assert (ledger_inv (with_outbox db (run_ops interval ops (outbox db)))) as Hi'.
  { destruct (run_ops_rewrites interval ops (outbox db) (inv_events _ Hi)) as (f & E & Hf & _).
    assert (steps (ledger_step sha256 json_text ll) db (with_outbox db (run_ops interval ops (outbox db)))) as Hst.
    { rewrite E. eapply steps_cons; [by apply (step_outbox _ _ _ _ f)|apply steps_refl]. }
    apply (steps_spec _ _ _ _ _ Hst Hi). }
  exact (inv_payloads _ Hi' o Ho).
Qed.

(** ** What leaves the publisher *)

(** The message an event may be sent as. *)
Record sound_message (schema_valid : json -> result unit) (event : Event) (p : Publishing) : Prop := {
  sm_type : Event_type event = EventType;
  sm_schema : is_ok (schema_valid (Payload event)) = true;
  sm_clean : prohibitedField (Payload event) = "";
  sm_envelope : exists f envelope, match Payload event with JObj f' => f = f' | JNull => f = [] | _ => False end /\
    unmarshal_envelope f = Ok envelope /\ envelope_matches envelope event = true /\ p = publishingForEvent event envelope;
  sm_identity : p_MessageId p = EventID event /\ p_Body p = Payload event /\ p_Persistent p = true /\
    header_value "event_id" (p_Headers p) = EventID event /\
    header_value "merchant_id" (p_Headers p) = MerchantID event /\
    header_value "merchant_position" (p_Headers p) = fmt_d (MerchantPosition event) /\
    header_value "entry_id" (p_Headers p) = AggregateID event }.

Lemma publishing_identity event envelope : validatePublishingIdentity (publishingForEvent event envelope) event envelope = Ok tt.
Proof.
  unfold validatePublishingIdentity.
  assert (forallb (fun kv => String.eqb (header_value (fst kv) (p_Headers (publishingForEvent event envelope))) (snd kv))
    (identity_headers event envelope) = true) as ->.
  { unfold identity_headers, publishingForEvent. cbn. by rewrite !String.eqb_refl. }
  cbn. by rewrite !String.eqb_refl, Z.eqb_refl.
Qed.

Lemma prepare_sound schema_valid event envelope : prepare schema_valid event = Ok envelope ->
  sound_message schema_valid event (publishingForEvent event envelope).
Proof.
  unfold prepare. intros H. destruct (String.eqb_spec (Event_type event) EventType) as [Ht|]; [|done]. cbn [negb] in H.
  destruct (schema_valid (Payload event)) as [[]|] eqn:Es; [|done]. cbn [wrap_err mbind result_bind] in H.
  unfold validateEnvelope in H.
  assert (exists f, match Payload event with JObj f' => f = f' | JNull => f = [] | _ => False end /\
    prohibitedField (Payload event) = "" /\ unmarshal_envelope f = Ok envelope /\ envelope_matches envelope event = true)
    as (f & Hf & Hc & Hu & Hm).
  { destruct (Payload event) as [| | | | |items|f] eqn:Ep; try done.
    - exists []. destruct (String.eqb_spec (prohibitedField JNull) ""); [|done]. cbn [negb] in H.
      destruct (unmarshal_envelope []) as [env|] eqn:E; [|done]. by destruct (envelope_matches env event) eqn:Em; simplify_eq.
    - exists f. destruct (String.eqb_spec (prohibitedField (JObj f)) ""); [|done]. cbn [negb] in H.
      destruct (unmarshal_envelope f) as [env|] eqn:E; [|done]. by destruct (envelope_matches env event) eqn:Em; simplify_eq. }
  split; [done|by rewrite Es|done|by exists f, envelope|].
  unfold envelope_matches in Hm. bool_to_prop. splits; [done..|].
  change (n_EntryID envelope = AggregateID event). done.
Qed.

(** The broker's answer: acknowledged, and the message was not returned. *)
Definition acknowledged (eventID : string) (l : list signal) : Prop :=
  exists before after, l = (before ++ Confirmed true :: after)%list /\
    (forall s, s ∈ before -> exists m, s = Returned m /\ m <> eventID) /\
    (forall m rest returned, after = (map Returned returned ++ Returned m :: rest)%list -> m <> eventID).

Lemma drain_returns_ok id l : drain_returns id l = Ok tt ->
  forall m rest returned, l = (map Returned returned ++ Returned m :: rest)%list -> m <> id.
Proof.
  revert l. intros l Hd m rest returned. revert l Hd. induction returned as [|r returned IH]; intros l Hd ->; cbn in Hd.
  - by destruct (String.eqb_spec m id).
  - destruct (String.eqb_spec r id); [done|]. by eapply IH.
Qed.

Lemma wait_confirm_ok id l : wait_confirm id l = Ok tt -> acknowledged id l.
Proof.
  induction l as [|s l IH]; cbn; [done|]. destruct s as [m| |acked]; [|done|].
  - destruct (String.eqb_spec m id); [done|]. intros (b & a & -> & Hb & Ha)%IH.
    exists (Returned m :: b), a. splits; [done| |done]. intros s [-> | Hs]%elem_of_cons; [by exists m|by apply Hb].
  - destruct acked; [|done]. intros Hd. exists [], l. splits; [done|by intros s ?%elem_of_nil|].
    by apply drain_returns_ok.
Qed.

(** C19: nothing reaches the broker but the message of an event that is of the
    Ledger's type, valid for the schema, free of prohibited field names and
    whose payload says the same event, merchant, position, entry and times as
    its row, which is also what the message's headers and identifier say; and
    a publication succeeds only when the broker acknowledged that message and
    did not return it as unroutable. *)
Theorem Publish_sound schema_valid n event :
  let '(r, sent) := Publish schema_valid n event in
  (forall p, sent = Some p -> sound_message schema_valid event p) /\
  (r = Ok tt -> is_Some sent /\ acknowledged (EventID event) (signals n)).
Proof.
  unfold Publish. destruct (ctx_err n); [done|].
  destruct (prepare schema_valid event) as [envelope|] eqn:Ep; [|done].
  pose proof (prepare_sound _ _ _ Ep) as Hs. destruct (channel n); [|done]. destruct (socket n); [|done]. cbn [negb].
  destruct (deadline n); [|done]. rewrite publishing_identity.
  destruct (send n) as [[]|]; [|by split; [intros p [= <-]|]..].
  destruct (after_send n); [|by split; [intros p [= <-]|]].
  split; [by intros p [= <-]|]. intros Hw. split; [done|]. by apply wait_confirm_ok.
Qed.

(** ** Retry delays *)
Lemma backoff_spec max steps delay : 0 < delay <= max -> max <= int64_max ->
  backoff max steps delay = Z.min max (delay * 2 ^ Z.of_nat steps).
Proof.
  revert delay. induction steps as [|steps IH]; intros delay Hd Hm; [cbn; lia|]. cbn [backoff].
  rewrite Nat2Z.inj_succ, Z.pow_succ_r by lia. pose proof (Z.pow_pos_nonneg 2 (Z.of_nat steps) ltac:(lia) ltac:(lia)).
  destruct (Z.ltb_spec delay max) as [Hlt|Hge]; [|nia].
  rewrite Z.quot_div_nonneg by lia. destruct (Z.ltb_spec (max / 2) delay) as [Hh|Hh].
  - rewrite Z.min_l; [done|]. assert (max < 2 * delay) by dlia. nia.
  - rewrite IH by dlia. f_equal. lia.
Qed.

(** The delay before the next attempt of an event doubles with every
    attempt from the base up to the maximum, without overflow, and the jitter
    keeps it between half of that and the maximum. *)
Theorem retryDelay_bounds config scale attempt :
  is_ok (NewWorker config) = true -> BackoffMax config <= int64_max ->
  (forall d, 0 < d <= BackoffMax config -> d / 2 <= scale d) ->
  let nominal := Z.min (BackoffMax config) (BackoffBase config * 2 ^ (Z.max attempt 1 - 1)) in
  retryDelay config scale attempt = Z.min (BackoffMax config) (scale nominal) /\
  nominal / 2 <= retryDelay config scale attempt <= BackoffMax config /\
  (BackoffMax config <= BackoffBase config * 2 ^ (Z.max attempt 1 - 1) -> BackoffMax config / 2 <= retryDelay config scale attempt).
Proof.
  intros Hn Hm Hs nominal. unfold NewWorker in Hn. case_hyp Hn; [done|]. bool_to_prop.
  assert (retryDelay config scale attempt = Z.min (BackoffMax config) (scale nominal)) as E.
  { unfold retryDelay. assert ((if attempt <? 1 then 1 else attempt) = Z.max attempt 1) as ->
      by (destruct (Z.ltb_spec attempt 1); lia).
    rewrite backoff_spec by lia. rewrite Z2Nat.id by lia. fold nominal.
    destruct (Z.ltb_spec (BackoffMax config) (scale nominal)); lia. }
  assert (0 < nominal <= BackoffMax config) as Hr.
  { pose proof (Z.pow_pos_nonneg 2 (Z.max attempt 1 - 1) ltac:(lia) ltac:(lia)). subst nominal. nia. }
  pose proof (Hs nominal Hr) as Hsn. rewrite E.
  assert (nominal / 2 <= nominal) by (apply Z.div_le_upper_bound; lia).
  splits; [done|lia..|]. intros Hbig.
  assert (nominal = BackoffMax config) as Heq by (subst nominal; lia). rewrite Heq in *. lia.
Qed.

Definition sample_config : WorkerConfig :=
  {| Owner := "w1"; BatchSize := 10; Lease := 60 * second; PollInterval := second; BackoffBase := second;
     BackoffMax := 300 * second; PublishBudget := 10 * second |}.

Lemma retryDelay_bounds_witness :
  retryDelay sample_config (fun d => d / 2 + d / 4) 4 = 6 * second.
Proof.
  rewrite (proj1 (retryDelay_bounds sample_config (fun d => d / 2 + d / 4) 4 ltac:(vm_compute; reflexivity)
    ltac:(vm_compute; discriminate) ltac:(intros d Hd; cbv beta; dlia))).
  vm_compute. reflexivity.
Defined.

(** ** A healthy worker drains the outbox *)
Definition confirming (n : net) : Prop :=
  ctx_err n = None /\ channel n = Ok tt /\ socket n = true /\ deadline n = Ok tt /\ send n = Ok true /\
  after_send n = Ok tt /\ signals n = [Confirmed true].
Definition calm (now : Z) : call_env := {| ce_fault := NoFault; ce_now := now; ce_locked := fun _ => false |}.
Definition healthy_turn (now : Z) (tu : turn) : Prop :=
  tu_claim tu = calm now /\ tu_mark tu = calm now /\ confirming (tu_net tu).

Definition queue (now : Z) (t : rows) : rows := claim_order (List.filter (claimable now) t).
Definition is_event (id : string) (o : outbox_row) : bool := String.eqb id (o_event o).
Definition among (l : rows) (o : outbox_row) : bool := existsb (fun c => is_event (o_event c) o) l.
Definition published_row (now : Z) (o : outbox_row) : outbox_row :=
  with_delivery o (o_available o) (Some now) (o_attempts o + 1) None None.
Definition publish_rows (now : Z) (l t : rows) : rows :=
  map (fun o => if among l o then published_row now o else o) t.

Lemma select_calm now limit t : select_claimable (calm now) limit t = take (Z.to_nat limit) (queue now t).
Proof.
  unfold select_claimable, queue. do 2 f_equal. apply filter_ext_eq. intros o _. cbn. by rewrite andb_true_r.
Qed.

Lemma queue_in now t o : o ∈ queue now t <-> o ∈ t /\ claimable now o = true.
Proof. unfold queue, claim_order. rewrite sort_by_in. apply in_filter_iff. Qed.

Lemma filter_map_drop {A} (f hit : A -> bool) g l : (forall a, hit a = true -> f (g a) = false) ->
  List.filter f (map (fun a => if hit a then g a else a) l) = List.filter (fun a => negb (hit a)) (List.filter f l).
Proof.
  intros Hg. rewrite filter_filter. induction l as [|a l IH]; cbn; [done|]. rewrite IH.
  destruct (hit a) eqn:E; [by rewrite Hg, andb_false_r|]. by rewrite andb_true_r.
Qed.

Lemma filter_one {A} (f : A -> bool) (key : A -> string) l x : NoDup (map key l) -> x ∈ l -> f x = true ->
  (forall y, y ∈ l -> f y = true -> key y = key x) -> List.filter f l = [x].
Proof.
  induction l as [|a l IH]; intros Hn Hx Hf Hu; [by apply elem_of_nil in Hx|]. cbn in Hn.
  apply list.NoDup_cons in Hn as [Ha Hn]. cbn. apply elem_of_cons in Hx as [<- | Hx].
  - rewrite Hf. f_equal. destruct (List.filter f l) as [|b k] eqn:E; [done|]. exfalso.
    assert (b ∈ List.filter f l) as Hb by (rewrite E; left). apply in_filter_iff in Hb as [Hb Fb]. apply Ha.
    rewrite <- (Hu b) by (by right || done). apply list_elem_of_In, List.in_map. by apply list_elem_of_In.
  - destruct (f a) eqn:Fa; [|by apply IH; [..|intros y Hy; apply Hu; right]]. exfalso. apply Ha.
    rewrite (Hu a) by (by left || done). apply list_elem_of_In, List.in_map. by apply list_elem_of_In.
Qed.

Lemma prepare_lease schema_valid owner until o :
  prepare schema_valid (event_of_row (lease_row owner until o)) = prepare schema_valid (event_of_row o).
Proof. reflexivity. Qed.

Lemma Publish_confirming schema_valid n event : confirming n -> is_ok (prepare schema_valid event) = true ->
  exists p, Publish schema_valid n event = (Ok tt, Some p) /\ p_MessageId p = EventID event.
Proof.
  intros (H1 & H2 & H3 & H4 & H5 & H6 & H7) Hp. unfold Publish. rewrite H1.
  destruct (prepare schema_valid event) as [envelope|]; [|done].
  rewrite H2, H3, H4. cbn [negb]. rewrite publishing_identity, H5, H6, H7. by eexists.
Qed.

Lemma holds_lease c owner until : holds (o_event c) owner (lease_row owner until c) = unpublished c.
Proof. unfold holds, unpublished. cbn. rewrite !String.eqb_refl. by destruct (o_published c). Qed.

Section Drain.
Context (schema_valid : json -> result unit) (interval : Z -> Z) (error_text : error -> string).
Context (config : WorkerConfig) (turns : nat -> turn) (now : Z).
Context (Hturns : forall i, healthy_turn now (turns i)).
Context (Howner : String.eqb (trim_space (Owner config)) "" = false) (Hlease : 0 < Lease config).

(** What a worker can handle at [now]. *)
Definition ready (t : rows) : Prop := NoDup (map o_event t) /\
  forall o, o ∈ t -> claimable now o = true ->
    o_attempts o < int4_max /\ is_ok (prepare schema_valid (event_of_row o)) = true.

Lemma claim_head i t : ready t ->
  Claim interval (tu_claim (turns i)) (Owner config) 1 (Lease config) t =
    (Ok (map (fun o => event_of_row (lease_row (Owner config) (now + interval (Lease config)) o)) (take 1 (queue now t))),
     map (fun o => if among (take 1 (queue now t)) o
                   then lease_row (Owner config) (now + interval (Lease config)) o else o) t).
Proof.
  intros [Hn Hr]. destruct (Hturns i) as (-> & _). unfold Claim. rewrite Howner.
  rewrite (proj2 (Z.leb_gt _ _)) by done. cbn [orb Z.ltb]. change (1 <? 1) with false. cbn [orb ce_fault calm].
  rewrite select_calm. change (Z.to_nat 1) with 1%nat.
  destruct (existsb _ (take 1 (queue now t))) eqn:E; [|done]. exfalso.
  apply existsb_exists in E as (o & Ho%list_elem_of_In & E). apply list.elem_of_take in Ho as (k & Ho & _).
  apply list_elem_of_lookup_2, queue_in in Ho as [Ho Hc]. destruct (Hr o Ho Hc) as [Ha _]. bool_to_prop. lia.
Qed.

(** One event: claimed, sent, acknowledged and marked. *)
Lemma publish_head i t c q metrics sent : ready t -> queue now t = c :: q ->
  exists m' p, p_MessageId p = o_event c /\
    publishOne schema_valid interval error_text config (turns i)
      (event_of_row (lease_row (Owner config) (now + interval (Lease config)) c))
      {| w_rows := map (fun o => if among [c] o then lease_row (Owner config) (now + interval (Lease config)) o else o) t;
         w_metrics := metrics; w_sent := sent |} =
    (Ok tt, {| w_rows := publish_rows now [c] t; w_metrics := m'; w_sent := sent ++ [p] |}%list).
Proof.
  intros [Hn Hr] Hq. assert (c ∈ queue now t) as Hc by (rewrite Hq; left). apply queue_in in Hc as [Hc Hcl].
  destruct (Hturns i) as (_ & Hmark & Hnet). destruct (Hr c Hc Hcl) as [_ Hp].
  set (until := now + interval (Lease config)).
  destruct (Publish_confirming schema_valid (tu_net (turns i)) (event_of_row (lease_row (Owner config) until c)) Hnet)
    as (p & Hpub & Hid); [by rewrite prepare_lease|].
  unfold publishOne. rewrite Hpub. cbn [w_rows w_metrics w_sent].
  set (t1 := map (fun o => if among [c] o then lease_row (Owner config) until o else o) t).
  assert (unpublished c = true) as Hunp by (unfold claimable in Hcl; by bool_to_prop).
  assert (forall o, o ∈ t -> holds (o_event c) (Owner config)
    (if among [c] o then lease_row (Owner config) until o else o) = among [c] o) as Hholds.
  { intros o Ho. unfold among, is_event. cbn [existsb]. rewrite orb_false_r.
    destruct (String.eqb_spec (o_event c) (o_event o)) as [E|E].
    - assert (c = o) as <- by (by apply (event_unique t)). by rewrite holds_lease.
    - unfold holds. by rewrite (proj2 (String.eqb_neq _ _) (not_eq_sym E)). }
  assert (Z.of_nat (length (List.filter (holds (o_event c) (Owner config)) t1)) = 1) as Hlen.
  { rewrite (filter_one _ o_event t1 (lease_row (Owner config) until c)); [done|..].
    - unfold t1. rewrite map_map. erewrite map_ext; [done|]. intros o. by destruct (among [c] o).
    - apply list_elem_of_In, in_map_iff. exists c. split; [|by apply list_elem_of_In].
      unfold among, is_event. cbn. by rewrite String.eqb_refl.
    - by rewrite holds_lease.
    - intros y _ Hy. unfold holds in Hy. cbn. by bool_to_prop. }
  unfold MarkPublished, update_held. rewrite Hmark. cbn [ce_fault calm EventID LeaseOwner event_of_row lease_row
    with_delivery o_event o_lease]. rewrite Hlen. change (negb (1 =? 1)) with false. cbn iota.
  eexists _, p. split; [exact Hid|]. do 2 f_equal. unfold t1, publish_rows. rewrite map_map. apply map_ext_in.
  intros o Ho%list_elem_of_In. rewrite Hholds by done. by destruct (among [c] o).
Qed.

Lemma queue_publish t c q : ready t -> queue now t = c :: q -> queue now (publish_rows now [c] t) = q.
Proof.
  intros [Hn Hr] Hq. unfold queue, publish_rows. rewrite filter_map_drop by done.
  unfold claim_order. rewrite sort_by_filter by apply _. fold (claim_order (List.filter (claimable now) t)).
  fold (queue now t). rewrite Hq. cbn. unfold among, is_event at 1. cbn. rewrite String.eqb_refl. cbn.
  assert (NoDup (map o_event (queue now t))) as Hnq.
  { unfold queue, claim_order. rewrite (sort_by_perm claimed_before). by apply NoDup_map_filter. }
  rewrite Hq in Hnq. apply list.NoDup_cons in Hnq as [Hc _].
  apply forallb_filter_id, forallb_forall. intros o Ho. unfold is_event. rewrite orb_false_r.
  destruct (String.eqb_spec (o_event c) (o_event o)) as [E|]; [|done]. destruct Hc. rewrite E.
  by apply list_elem_of_In, List.in_map.
Qed.

Lemma ready_publish t l : ready t -> ready (publish_rows now l t).
Proof.
  intros [Hn Hr]. split.
  - unfold publish_rows. rewrite map_map. erewrite map_ext; [done|]. intros o. by destruct (among l o).
  - intros o' (o & -> & Ho)%in_map Hc. destruct (among l o); [done|]. by apply Hr.
Qed.

Lemma publish_rows_app t c q k : ready t -> queue now t = c :: q ->
  publish_rows now (take k q) (publish_rows now [c] t) = publish_rows now (c :: take k q) t.
Proof.
  intros [Hn Hr] Hq. unfold publish_rows. rewrite map_map. apply map_ext. intros o.
  assert (forall l x, among (c :: l) x = is_event (o_event c) x || among l x) as Hcons by done.
  rewrite !Hcons. change (among [] o) with false. rewrite orb_false_r.
  destruct (is_event (o_event c) o) eqn:E; cbn [orb]; [|done].
  assert (among (take k q) (published_row now o) = false) as E2; [|by rewrite E2].
  assert (NoDup (map o_event (queue now t))) as Hnq.
  { unfold queue, claim_order. rewrite (sort_by_perm claimed_before). by apply NoDup_map_filter. }
  rewrite Hq in Hnq. apply list.NoDup_cons in Hnq as [Hc _]. apply String.eqb_eq in E.
  apply not_true_iff_false. intros H%existsb_exists. destruct H as (x & Hx%list_elem_of_In & Ex).
  apply String.eqb_eq in Ex. cbn in Ex. apply Hc. rewrite E, <- Ex.
  apply list_elem_of_In, List.in_map, list_elem_of_In.
  apply list.elem_of_take in Hx as (? & Hx & _). by eapply list_elem_of_lookup_2.
Qed.

Lemma process_drains k : forall p errs w, ready (w_rows w) ->
  exists m' sent, process schema_valid interval error_text config turns k p errs w =
    (Z.of_nat (p + length (take k (queue now (w_rows w)))), join_errors errs,
     {| w_rows := publish_rows now (take k (queue now (w_rows w))) (w_rows w); w_metrics := m';
        w_sent := (w_sent w ++ sent)%list |}) /\
    map p_MessageId sent = map o_event (take k (queue now (w_rows w))).
Proof.
  assert (forall t, publish_rows now [] t = t) as Hnil by (intros t; unfold publish_rows; by rewrite map_id).
  induction k as [|k IH]; intros p errs [t metrics sent0] Hr; cbn [w_rows w_sent w_metrics] in *.
  - exists metrics, []. cbn. by rewrite Nat.add_0_r, Hnil, app_nil_r.
  - cbn [process]. rewrite claim_head by done. unfold with_rows. cbn [w_rows w_metrics w_sent].
    destruct (queue now t) as [|c q] eqn:Hq.
    + exists metrics, []. cbn. by rewrite map_id, Nat.add_0_r, Hnil, app_nil_r.
    + change (take 1 (c :: q)) with [c]. cbn [map].
      destruct (publish_head p t c q metrics sent0 Hr Hq) as (m1 & msg & Hid & ->).
      destruct (IH (S p) errs {| w_rows := publish_rows now [c] t; w_metrics := m1; w_sent := (sent0 ++ [msg])%list |})
        as (m' & sent & -> & Hs); [by apply ready_publish|].
      cbn [w_rows w_sent] in Hs |- *. rewrite (queue_publish _ _ _ Hr Hq) in Hs |- *. exists m', (msg :: sent). split.
      * cbn [take length map]. rewrite publish_rows_app by done.
        by rewrite <- app_assoc, Nat.add_succ_r.
      * cbn [map take]. by rewrite Hid, Hs.
Qed.
End Drain.

(** C16: a worker whose statements succeed and whose broker acknowledges
    publishes, in the order of availability, exactly the claimable events up
    to its batch size: each is sent once, marked published with one more
    attempt and released, every other row is left as it was, and the worker
    reports how many it processed and no error. *)
Theorem ProcessOnce_drains schema_valid interval error_text config turns now w :
  (forall i, healthy_turn now (turns i)) -> is_ok (NewWorker config) = true ->
  String.eqb (trim_space (Owner config)) "" = false -> ready schema_valid now (w_rows w) ->
  let batch := take (Z.to_nat (BatchSize config)) (queue now (w_rows w)) in
  exists metrics sent,
    ProcessOnce schema_valid interval error_text config turns w =
      (Z.of_nat (length batch), None,
       {| w_rows := publish_rows now batch (w_rows w); w_metrics := metrics; w_sent := (w_sent w ++ sent)%list |}) /\
    map p_MessageId sent = map o_event batch.
Proof.
  intros Ht Hw Ho Hr batch.
  assert (0 < Lease config) as Hl by (unfold NewWorker in Hw; case_hyp Hw; [done|]; bool_to_prop; done).
  exact (process_drains schema_valid interval error_text config turns now Ht Ho Hl _ 0 [] w Hr).
Qed.

(** An error text in UTF-8 that the 500th byte cuts inside a character: the
    database takes it whole and refuses what is left, and the release with it. *)
Definition long_text : string := Nat.iter 499 (String "a") (String (chr 195) (String (chr 169) "")).
Lemma cut_text_refused interval env eventID owner delay t : ce_fault env = NoFault -> 0 <= delay ->
  pg_text long_text = true /\
  MarkFailed interval env eventID owner delay long_text t =
    (Err (EWrap "release failed outbox event" (EPg "22021" "")), t).
Proof.
  intros Hf Hd. split; [vm_compute; reflexivity|]. unfold MarkFailed. rewrite (proj2 (Z.ltb_ge _ _)) by done.
  assert (pg_text (sanitizeError long_text) = false) as -> by (vm_compute; reflexivity). by rewrite Hf.
Qed.

Definition sample_turn : turn :=
  {| tu_claim := calm (sample_now + second);
     tu_net := {| ctx_err := None; channel := Ok tt; socket := true; deadline := Ok tt; send := Ok true;
                  after_send := Ok tt; signals := [Confirmed true] |};
     tu_mark := calm (sample_now + second); tu_elapsed := 5; tu_scale := fun d => d |}.
Definition sample_world (t : rows) : world :=
  {| w_rows := t; w_sent := []; w_metrics := {| confirms := 0; errors := 0; attempts := 0; confirmNanos := 0;
     pending := 0; oldestAgeNanos := 0 |} |}.

Lemma ProcessOnce_drains_witness :
  exists w', ProcessOnce (fun _ => Ok tt) (fun d => d) (fun _ => "") sample_config (fun _ => sample_turn)
    (sample_world (outbox sample_db1)) = (1, None, w') /\ forallb unpublished (w_rows w') = false.
Proof.
  assert (ready (fun _ => Ok tt) (sample_now + second) (outbox sample_db1)) as Hr.
  { split; [exact (inv_events _ (proj1 (steps_spec _ _ _ _ _ sample_steps1 empty_inv)))|].
    assert (forallb (fun o => (o_attempts o <? int4_max) && is_ok (prepare (fun _ => Ok tt) (event_of_row o)))
      (outbox sample_db1) = true) as H by (vm_compute; reflexivity).
    intros o Ho _. rewrite forallb_forall in H. apply list_elem_of_In in Ho. specialize (H o Ho). by bool_to_prop. }
  destruct (ProcessOnce_drains (fun _ => Ok tt) (fun d => d) (fun _ => "") sample_config (fun _ => sample_turn)
    (sample_now + second) (sample_world (outbox sample_db1)) ltac:(intros i; repeat split) ltac:(vm_compute; reflexivity)
    ltac:(vm_compute; reflexivity) Hr) as (m & sent & H & _).
  eexists. split; [exact H|]. vm_compute. reflexivity.
Defined.
