(* ===== verification/ConsolidationDomain.v ===== *)
(** * The Consolidation's view of a Ledger event

    services/consolidation/internal/domain/{event,balance}.go: parsing,
    validation, canonical form, financial effect and fingerprint of a confirmed
    entry.

    Arguments: [decode_stream] is the JSON decoder's first value of a text and
    what follows it; [sha256] gives the 32 bytes of the digest.  A business
    date is the instant of its midnight UTC. *)

From S2P Require Import Prelude.
From S2P Require Import GoStrings.
From S2P Require Import GoTime.
From S2P Require Import Json.
From S2P Require Import LedgerDomain.
From Stdlib Require String.
From Stdlib Require Import ZArith Lia Ascii.
Open Scope string_scope.
Open Scope Z_scope.

Definition EntryConfirmedV1 : string := "ledger.entry.confirmed.v1".
Definition CurrencyBRL : string := "BRL".
Definition EntryCredit : string := "credit".
Definition EntryDebit : string := "debit".

(** ** The patterns: one character class per position *)
Fixpoint match_classes (classes : list (ascii -> bool)) (s : string) : bool :=
  match classes, s with
  | [], "" => true
  | p :: ps, String c s' => p c && match_classes ps s'
  | _, _ => false
  end.
Definition dash : list (ascii -> bool) := [Ascii.eqb "-"].
Definition version_digit (c : ascii) : bool := in_range 49 56 c.
Definition variant_digit (c : ascii) : bool :=
  in_range 56 57 c || in_range 97 98 c || in_range 65 66 c.

Definition uuidPattern (s : string) : bool :=
  match_classes (repeat is_hex 8 ++ dash ++ repeat is_hex 4 ++ dash ++ [version_digit] ++ repeat is_hex 3
    ++ dash ++ [variant_digit] ++ repeat is_hex 3 ++ dash ++ repeat is_hex 12)%list s.
Definition traceparentPattern (s : string) : bool :=
  match_classes (repeat is_lower_hex 2 ++ dash ++ repeat is_lower_hex 32 ++ dash ++ repeat is_lower_hex 16
    ++ dash ++ repeat is_lower_hex 2)%list s.

Record EntryConfirmed : Type := {
  EventID : string; EventType : string; OccurredAt : Z; MerchantID : string; MerchantPosition : Z;
  EntryID : string; EntryType : string; AmountMinor : Z; Currency : string; BusinessDate : Z;
  ConfirmedAt : Z; OriginalEntryID : option string; Traceparent : string }.

Definition invalid {A} (field reason : string) : result A := Err (EValidation field reason).

(** The three identifiers are checked in Go's random map order, which only
    picks the field the error names; here, the order they are written in. *)
Definition Validate (e : EntryConfirmed) : result unit :=
  if negb (uuidPattern (EventID e)) then invalid "event_id" "must be a UUID"
  else if negb (uuidPattern (MerchantID e)) then invalid "merchant_id" "must be a UUID"
  else if negb (uuidPattern (EntryID e)) then invalid "entry_id" "must be a UUID"
  else if match OriginalEntryID e with Some o => negb (uuidPattern o) | None => false end
  then invalid "original_entry_id" "must be null or a UUID"
  else if negb (String.eqb (EventType e) EntryConfirmedV1) then invalid "event_type" "unsupported event version"
  else if MerchantPosition e <? 1 then invalid "merchant_position" "must be positive"
  else if negb (String.eqb (EntryType e) EntryCredit) && negb (String.eqb (EntryType e) EntryDebit)
  then invalid "entry_type" "must be credit or debit"
  else if AmountMinor e <? 1 then invalid "amount_minor" "must be positive"
  else if negb (String.eqb (Currency e) CurrencyBRL) then invalid "currency" "must be BRL"
  else if is_zero_time (OccurredAt e) then invalid "occurred_at" "is required"
  else if is_zero_time (ConfirmedAt e) then invalid "confirmed_at" "is required"
  else if is_zero_time (BusinessDate e) then invalid "business_date" "is required"
  else if negb (traceparentPattern (Traceparent e)) then invalid "traceparent" "must follow W3C trace context format"
  else Ok tt.

(** Credits, debits and net of an entry. *)
Definition FinancialEffect (e : EntryConfirmed) : Z * Z * Z :=
  if String.eqb (EntryType e) EntryCredit then (AmountMinor e, 0, AmountMinor e)
  else (0, AmountMinor e, wrap64 (- AmountMinor e)).

Definition Canonical (e : EntryConfirmed) : EntryConfirmed :=
  {| EventID := to_lower (EventID e); EventType := EventType e; OccurredAt := OccurredAt e;
     MerchantID := to_lower (MerchantID e); MerchantPosition := MerchantPosition e;
     EntryID := to_lower (EntryID e); EntryType := EntryType e; AmountMinor := AmountMinor e;
     Currency := Currency e; BusinessDate := BusinessDate e; ConfirmedAt := ConfirmedAt e;
     OriginalEntryID := option_map to_lower (OriginalEntryID e); Traceparent := Traceparent e |}.

(** ** The wire form *)
Record eventWire : Type := {
  wire_EventID : string; wire_EventType : string; wire_OccurredAt : string; wire_MerchantID : string;
  wire_MerchantPosition : Z; wire_EntryID : string; wire_EntryType : string; wire_AmountMinor : Z;
  wire_Currency : string; wire_BusinessDate : string; wire_ConfirmedAt : string;
  wire_OriginalEntryID : option json; wire_Traceparent : string }.

Definition decode_wire (j : json) : result eventWire :=
  f ← (match j with JObj f => Ok f | JNull => Ok [] | _ => bad_json end);
  ei ← dec_string (jfield "event_id" f); ty ← dec_string (jfield "event_type" f);
  oc ← dec_string (jfield "occurred_at" f); m ← dec_string (jfield "merchant_id" f);
  p ← dec_int64 (jfield "merchant_position" f); en ← dec_string (jfield "entry_id" f);
  et ← dec_string (jfield "entry_type" f); a ← dec_int64 (jfield "amount_minor" f);
  c ← dec_string (jfield "currency" f); d ← dec_string (jfield "business_date" f);
  co ← dec_string (jfield "confirmed_at" f); tp ← dec_string (jfield "traceparent" f);
  Ok {| wire_EventID := ei; wire_EventType := ty; wire_OccurredAt := oc; wire_MerchantID := m;
        wire_MerchantPosition := p; wire_EntryID := en; wire_EntryType := et; wire_AmountMinor := a;
        wire_Currency := c; wire_BusinessDate := d; wire_ConfirmedAt := co;
        wire_OriginalEntryID := jfield "original_entry_id" f; wire_Traceparent := tp |}.

(** What a decoder finds behind the first value. *)
Inductive trailing : Type := AtEOF | AnotherValue | Garbage.

Definition ensureSingleJSONValue (t : trailing) : result unit :=
  match t with
  | AtEOF => Ok tt
  | AnotherValue => invalid "payload" "must contain one JSON object"
  | Garbage => invalid "payload" "contains trailing invalid data"
  end.

(** [ParseEntryConfirmed] once the text is decoded. *)
Definition parse_wire (wire : eventWire) : result EntryConfirmed :=
  match parse_rfc3339 (wire_OccurredAt wire) with
  | Err _ => invalid "occurred_at" "must be an RFC3339 timestamp"
  | Ok occurredAt =>
      match parse_rfc3339 (wire_ConfirmedAt wire) with
      | Err _ => invalid "confirmed_at" "must be an RFC3339 timestamp"
      | Ok confirmedAt =>
          match parse_date (wire_BusinessDate wire) with
          | Err _ => invalid "business_date" "must use YYYY-MM-DD"
          | Ok day =>
              original ← match wire_OriginalEntryID wire with
                         | None => invalid "original_entry_id" "is required (use null when absent)"
                         | Some JNull => Ok None
                         | Some (JStr value) => Ok (Some value)
                         | Some _ => invalid "original_entry_id" "must be null or a UUID"
                         end;
              let event := {| EventID := wire_EventID wire; EventType := wire_EventType wire;
                OccurredAt := occurredAt; MerchantID := wire_MerchantID wire;
                MerchantPosition := wire_MerchantPosition wire; EntryID := wire_EntryID wire;
                EntryType := wire_EntryType wire; AmountMinor := wire_AmountMinor wire;
                Currency := wire_Currency wire; BusinessDate := day * day_ns; ConfirmedAt := confirmedAt;
                OriginalEntryID := original; Traceparent := wire_Traceparent wire |} in
              _ ← Validate event;
              Ok (Canonical event)
          end
      end
  end.

Definition ParseEntryConfirmed (decode_stream : string -> result (json * trailing)) (payload : string)
    : result EntryConfirmed :=
  match (p ← decode_stream payload; wire ← decode_wire (fst p); Ok (wire, snd p)) with
  | Err _ => invalid "payload" "must be valid JSON"
  | Ok (wire, t) => _ ← ensureSingleJSONValue t; parse_wire wire
  end.

(** ** The fingerprint *)

(** [binary.Write(hash, binary.BigEndian, value)] of a 64-bit value. *)
Fixpoint be_bytes (n : nat) (z : Z) : string :=
  match n with O => "" | S k => String (chr (Z.shiftr z (8 * Z.of_nat k) mod 256)) (be_bytes k z) end.
Definition be64 (z : Z) : string := be_bytes 8 z.
Definition writeString (value : string) : string := be64 (slen value) +:+ value.
Definition writeInt (value : Z) : string := be64 value.

(** What is hashed. *)
Definition fingerprint_input (e : EntryConfirmed) : string :=
  let e := Canonical e in
  writeString (EventID e) +:+ (writeString (EventType e) +:+ (writeString (format_rfc3339 (OccurredAt e)) +:+
  (writeString (MerchantID e) +:+ (writeInt (MerchantPosition e) +:+ (writeString (EntryID e) +:+
  (writeString (EntryType e) +:+ (writeInt (AmountMinor e) +:+ (writeString (Currency e) +:+
  (writeString (format_date (date_of_time (BusinessDate e))) +:+
  (writeString (format_rfc3339 (ConfirmedAt e)) +:+
  (writeString (default "" (OriginalEntryID e)) +:+ writeString (Traceparent e)))))))))))).

Definition Fingerprint (sha256 : string -> list Z) (e : EntryConfirmed) : string :=
  hex_encode (sha256 (fingerprint_input e)).

(** ** balance.go *)
Record DailyBalance : Type := {
  db_MerchantID : string; db_BusinessDate : Z; CreditsMinor : Z; DebitsMinor : Z; NetMinor : Z;
  EntryCount : Z; ClosingBalanceMinor : Z; Version : Z }.
Record MerchantProgress : Type := {
  mp_MerchantID : string; SourcePosition : Z; AppliedPosition : Z; FirstGap : option Z; UpdatedAt : Z }.
Definition HasGap (p : MerchantProgress) : bool :=
  match FirstGap p with Some _ => true | None => negb (AppliedPosition p =? SourcePosition p) end.

(** ** Lemmas *)
Lemma be_bytes_length n z : String.length (be_bytes n z) = n.
Proof. induction n as [|n IH]; cbn; congruence. Qed.

Lemma be_bytes_inj n z z' : be_bytes n z = be_bytes n z' ->
  z mod 2 ^ (8 * Z.of_nat n) = z' mod 2 ^ (8 * Z.of_nat n).
Proof.
  induction n as [|n IH]; intros H; [by rewrite !Z.mod_1_r|]. cbn [be_bytes] in H. injection H as Hc H.
  specialize (IH H). rewrite !Z.shiftr_div_pow2 in Hc by lia.
  set (P := 2 ^ (8 * Z.of_nat n)) in *.
  assert (0 < P) by (apply Z.pow_pos_nonneg; lia).
  assert (forall x, 0 <= x < 256 -> forall y, 0 <= y < 256 -> chr x = chr y -> x = y) as Hinj.
  { intros x Hx y Hy E. rewrite <- (code_chr x Hx), <- (code_chr y Hy). by rewrite E. }
  apply Hinj in Hc; [|apply Z.mod_pos_bound; lia..].
  replace (2 ^ (8 * Z.of_nat (S n))) with (P * 256) by (subst P; rewrite <- (Z.pow_add_r 2 _ 8) by lia; f_equal; lia).
  rewrite !Z.rem_mul_r by lia. by rewrite IH, Hc.
Qed.

Lemma string_app_inj a b s t : String.length a = String.length b -> a +:+ s = b +:+ t -> a = b /\ s = t.
Proof.
  revert b. induction a as [|c a IH]; intros [|d b]; cbn; try done. intros [= Hl] [= -> E].
  destruct (IH b Hl E) as [-> ->]. done.
Qed.

Definition fits (s : string) : Prop := slen s < 2 ^ 64.

Lemma writeString_inj a b s t : fits a -> fits b -> writeString a +:+ s = writeString b +:+ t -> a = b /\ s = t.
Proof.
  unfold writeString, fits. rewrite !string_app_assoc. intros Ha Hb E.
  apply string_app_inj in E as [E1 E2]; [|unfold be64; by rewrite !be_bytes_length].
  apply be_bytes_inj in E1. change (8 * Z.of_nat 8) with 64 in E1. unfold slen in *.
  rewrite !Z.mod_small in E1 by lia. apply string_app_inj in E2; [done|lia].
Qed.

Lemma writeInt_inj a b s t : int64_min <= a <= int64_max -> int64_min <= b <= int64_max ->
  writeInt a +:+ s = writeInt b +:+ t -> a = b /\ s = t.
Proof.
  unfold writeInt. intros Ha Hb E. apply string_app_inj in E as [E1 E2]; [|unfold be64; by rewrite !be_bytes_length].
  split; [|done]. apply be_bytes_inj in E1. change (2 ^ (8 * Z.of_nat 8)) with 18446744073709551616 in E1.
  unfold int64_min, int64_max in *. dlia.
Qed.

Lemma match_classes_length classes s : match_classes classes s = true -> String.length s = length classes.
Proof.
  revert s. induction classes as [|p ps IH]; intros [|c s]; cbn; try done. intros H. bool_to_prop. f_equal. by apply IH.
Qed.

Lemma to_lower_length s : (String.length (to_lower s) <= String.length s)%nat.
Proof.
  assert (forall n s, (String.length s <= n)%nat -> (String.length (to_lower s) <= String.length s)%nat) as H;
    [|by apply (H (String.length s))].
  clear s. induction n as [|n IH]; intros s Hn; [destruct s; cbn in *; lia|].
  destruct s as [|c1 [|c2 [|c3 r]]]; [cbn; lia..| |].
  - cbn. destruct (_ && _); cbn; lia.
  - rewrite to_lower_cons. cbn [String.length] in Hn.
    pose proof (IH (String c3 r) ltac:(cbn; lia)). pose proof (IH r ltac:(lia)).
    pose proof (IH (String c2 (String c3 r)) ltac:(cbn; lia)).
    destruct (_ && _); [|destruct (_ && _)]; cbn [String.length] in *; lia.
Qed.

Lemma fits_pattern classes s : Z.of_nat (length classes) < 2 ^ 64 -> match_classes classes s = true -> fits (to_lower s) /\ fits s.
Proof.
  intros Hc H%match_classes_length. pose proof (to_lower_length s). unfold fits, slen. lia.
Qed.

(** Open a successful validation. *)
Record validated (e : EntryConfirmed) : Prop := {
  va_event : uuidPattern (EventID e) = true; va_merchant : uuidPattern (MerchantID e) = true;
  va_entry : uuidPattern (EntryID e) = true;
  va_original : forall o, OriginalEntryID e = Some o -> uuidPattern o = true;
  va_type : EventType e = EntryConfirmedV1; va_position : 1 <= MerchantPosition e;
  va_kind : EntryType e = EntryCredit \/ EntryType e = EntryDebit; va_amount : 1 <= AmountMinor e;
  va_currency : Currency e = CurrencyBRL; va_occurred : OccurredAt e <> 0; va_confirmed : ConfirmedAt e <> 0;
  va_date : BusinessDate e <> 0; va_trace : traceparentPattern (Traceparent e) = true }.

Lemma Validate_ok e : Validate e = Ok tt <-> validated e.
Proof.
  unfold Validate, invalid. split.
  - intros H. do 13 (case_hyp H; [done|]). bool_to_prop. unfold is_zero_time in *. bool_to_prop.
    split; try done.
    + intros o Ho. rewrite Ho in *. by bool_to_prop.
    + destruct (String.eqb_spec (EntryType e) EntryCredit); [by left|].
      destruct (String.eqb_spec (EntryType e) EntryDebit); [by right|done].
  - intros []. rewrite va_event0, va_merchant0, va_entry0. cbn [negb].
    assert (match OriginalEntryID e with Some o => negb (uuidPattern o) | None => false end = false) as ->
      by (destruct (OriginalEntryID e) as [o|]; [by rewrite va_original0|done]).
    rewrite va_type0, va_currency0, va_trace0, !String.eqb_refl, !(proj2 (Z.ltb_ge _ _)) by done.
    unfold is_zero_time. rewrite !(proj2 (Z.eqb_neq _ _)) by done. cbn [negb].
    by destruct va_kind0 as [-> | ->].
Qed.

(** Lowering keeps a pattern of classes that contain ASCII only and the lower
    case of what they contain. *)
Definition lower_closed (p : ascii -> bool) : Prop := forall c, p c = true -> (code c <? 128) = true /\ p (lower_ascii c) = true.

Lemma match_classes_lower classes s : Forall lower_closed classes -> match_classes classes s = true ->
  is_ascii s = true /\ match_classes classes (ascii_lower s) = true.
Proof.
  intros Hc. revert s. induction Hc as [|p ps Hp Hps IH]; intros [|c s]; cbn; try done.
  intros [H1 H2]%andb_true_iff. destruct (Hp c H1) as [-> ->]. destruct (IH s H2) as [H3 ->]. by split; [exact H3|].
Qed.

Lemma lower_closed_all (p : ascii -> bool) :
  forallb (fun z => negb (p (chr z)) || (code (chr z) <? 128) && p (lower_ascii (chr z))) (map Z.of_nat (seq 0 256)) = true ->
  lower_closed p.
Proof.
  intros H c Hc. pose proof (below_forall 256 _ H (code c) (code_range c)) as K. cbn beta in K.
  rewrite chr_code, Hc in K. cbn in K. by apply andb_true_iff in K.
Qed.

Lemma Forall_repeated {A} (P : A -> Prop) x n : P x -> Forall P (repeat x n).
Proof. intros H. induction n; cbn; by constructor. Qed.

Lemma uuidPattern_lower s : uuidPattern s = true -> is_ascii s = true /\ uuidPattern (ascii_lower s) = true.
Proof.
  apply match_classes_lower.
  assert (lower_closed is_hex /\ lower_closed (Ascii.eqb "-") /\ lower_closed version_digit /\ lower_closed variant_digit)
    as (H1 & H2 & H3 & H4) by (splits; apply lower_closed_all; vm_compute; reflexivity).
  repeat (apply Forall_app_2 || apply Forall_repeated || apply Forall_cons_2 || apply Forall_nil_2); done.
Qed.

Lemma uuid_lower_idem s : uuidPattern s = true -> uuidPattern (to_lower s) = true /\ to_lower (to_lower s) = to_lower s.
Proof.
  intros [H1 H2]%uuidPattern_lower. rewrite to_lower_ascii by done. split; [done|].
  destruct (uuidPattern_lower _ H2) as [H3 _]. by rewrite to_lower_ascii, ascii_lower_idem.
Qed.

(** The canonical form of a valid event is valid and its own canonical form. *)
Lemma canonical_valid e : validated e -> validated (Canonical e) /\ Canonical (Canonical e) = Canonical e.
Proof.
  intros []. split.
  - split; try done; cbn; try by apply uuid_lower_idem.
    intros o Ho. destruct (OriginalEntryID e) as [o'|]; [|done]. injection Ho as <-. by apply uuid_lower_idem, va_original0.
  - unfold Canonical. cbn. f_equal; try by apply uuid_lower_idem.
    destruct (OriginalEntryID e) as [o|]; [|done]. cbn. f_equal. by apply uuid_lower_idem, va_original0.
Qed.

Lemma parse_wire_ok wire e : parse_wire wire = Ok e -> exists e0, validated e0 /\ e = Canonical e0.
Proof.
  unfold parse_wire, invalid. intros H.
  destruct (parse_rfc3339 (wire_OccurredAt wire)); [|done]. destruct (parse_rfc3339 (wire_ConfirmedAt wire)); [|done].
  destruct (parse_date (wire_BusinessDate wire)); [|done]. destruct (match wire_OriginalEntryID wire with None => _ | Some _ => _ end);
    cbn [mbind result_bind] in H; [|done].
  destruct (Validate _) as [[]|] eqn:Ev; cbn [mbind result_bind] in H; [|done]. injection H as <-.
  eexists. split; [by apply Validate_ok|done].
Qed.

(** A parsed event is valid and in canonical form. *)
Lemma parsed_valid decode_stream payload e : ParseEntryConfirmed decode_stream payload = Ok e -> validated e /\ Canonical e = e.
Proof.
  unfold ParseEntryConfirmed. destruct (p ← decode_stream payload; _) as [[wire t]|]; [|done].
  destruct (ensureSingleJSONValue t); [|done]. cbn [mbind result_bind].
  intros (e0 & Hv & ->)%parse_wire_ok. by apply canonical_valid.
Qed.

(** The values a decoded event can have: int64 numbers, instants whose UTC
    year has four digits, a business date at midnight. *)
Record readable (e : EntryConfirmed) : Prop := {
  rd_position : int64_min <= MerchantPosition e <= int64_max;
  rd_amount : int64_min <= AmountMinor e <= int64_max;
  rd_occurred : printable_date (OccurredAt e / day_ns); rd_confirmed : printable_date (ConfirmedAt e / day_ns);
  rd_date : printable_date (date_of_time (BusinessDate e)) /\ BusinessDate e = date_of_time (BusinessDate e) * day_ns }.

Lemma format_rfc3339_inj t t' : printable_date (t / day_ns) -> printable_date (t' / day_ns) ->
  format_rfc3339 t = format_rfc3339 t' -> t = t'.
Proof.
  intros H%parse_format_rfc3339 H'%parse_format_rfc3339 E. rewrite E in H. congruence.
Qed.

Lemma format_date_inj n n' : printable_date n -> printable_date n' -> format_date n = format_date n' -> n = n'.
Proof. intros H%parse_format_date H'%parse_format_date E. rewrite E in H. congruence. Qed.

Lemma short_fits s : (String.length s <= 40)%nat -> fits s.
Proof. unfold fits, slen. lia. Qed.

Lemma trim_zeros_length s : (String.length (trim_zeros s) <= String.length s)%nat.
Proof. induction s as [|c s IH]; cbn; [done|]. destruct (_ && _); cbn; lia. Qed.

Lemma format_date_length n : printable_date n -> String.length (format_date n) = 10%nat.
Proof.
  intros H. unfold format_date, civil_of_days. destruct (month_scan _ _ _ _) as [m d].
  cbn iota zeta. do 2 (rewrite string_length_app; cbn [String.length]).
  rewrite !pad_dec_length. unfold printable_date in H. unfold fmt_year.
  rewrite (proj2 (Z.ltb_ge _ _)), (proj2 (Z.ltb_lt _ _)), pad_dec_length by lia. done.
Qed.

Lemma format_rfc3339_fits t : printable_date (t / day_ns) -> fits (format_rfc3339 t).
Proof.
  intros H. apply short_fits. unfold format_rfc3339. cbn zeta.
  repeat (rewrite string_length_app; cbn [String.length]).
  rewrite format_date_length, !pad_dec_length by done. unfold fmt_frac.
  destruct (_ =? 0); [cbn; lia|]. cbn [String.length].
  pose proof (trim_zeros_length (pad_dec 9 (t mod day_ns mod second))) as Hl. rewrite pad_dec_length in Hl. lia.
Qed.

Lemma uuid_fits s : uuidPattern s = true -> fits (to_lower s).
Proof. intros H. by apply (fits_pattern _ _) in H as [H _]. Qed.

Lemma trace_fits s : traceparentPattern s = true -> fits s.
Proof. intros H. by apply (fits_pattern _ _) in H as [_ H]. Qed.

Lemma original_fits e : validated e -> fits (default "" (option_map to_lower (OriginalEntryID e))).
Proof.
  intros Hv. destruct (OriginalEntryID e) as [o|] eqn:E; [|by apply short_fits; cbn; lia]. cbn.
  apply uuid_fits, (va_original _ Hv o E).
Qed.

Lemma pattern_nonempty o : uuidPattern o = true -> to_lower o <> "".
Proof.
  intros H%match_classes_length. destruct o as [|c1 [|c2 [|c3 r]]]; [discriminate H..|].
  rewrite to_lower_cons. by destruct (_ && _); [|destruct (_ && _)].
Qed.

(** The fingerprint separates contents: what is hashed for two valid
    events is the same byte string exactly when the events have the same
    canonical content, field by field; no two different contents share it
    through the concatenation. *)
Theorem fingerprint_injective e e' : Validate e = Ok tt -> Validate e' = Ok tt -> readable e -> readable e' ->
  (fingerprint_input e = fingerprint_input e' <-> Canonical e = Canonical e').
Proof.
  intros Hv%Validate_ok Hv'%Validate_ok Hr Hr'. split.
  2:{ intros E. unfold fingerprint_input. by rewrite E. }
  unfold fingerprint_input. cbn [EventID EventType OccurredAt MerchantID MerchantPosition EntryID EntryType AmountMinor
    Currency BusinessDate ConfirmedAt OriginalEntryID Traceparent Canonical]. intros E.
  assert (forall k, k = EntryCredit \/ k = EntryDebit -> fits k) as Hk by (intros k [-> | ->]; apply short_fits; cbn; lia).
  apply writeString_inj in E as [E1 E]; [|apply uuid_fits; by destruct Hv|apply uuid_fits; by destruct Hv'].
  apply writeString_inj in E as [E2 E]; [|rewrite ?(va_type _ Hv), ?(va_type _ Hv'); by apply short_fits; cbn; lia..].
  apply writeString_inj in E as [E3 E]; [|apply format_rfc3339_fits; by destruct Hr, Hr'..].
  apply writeString_inj in E as [E4 E]; [|apply uuid_fits; by destruct Hv|apply uuid_fits; by destruct Hv'].
  apply writeInt_inj in E as [E5 E]; [|by destruct Hr, Hr'..].
  apply writeString_inj in E as [E6 E]; [|apply uuid_fits; by destruct Hv|apply uuid_fits; by destruct Hv'].
  apply writeString_inj in E as [E7 E]; [|apply Hk; by destruct Hv|apply Hk; by destruct Hv'].
  apply writeInt_inj in E as [E8 E]; [|by destruct Hr, Hr'..].
  apply writeString_inj in E as [E9 E]; [|rewrite ?(va_currency _ Hv), ?(va_currency _ Hv'); by apply short_fits; cbn; lia..].
  apply writeString_inj in E as [E10 E];
    [|apply short_fits; rewrite format_date_length by (by destruct Hr, Hr'; tauto); lia..].
  apply writeString_inj in E as [E11 E]; [|apply format_rfc3339_fits; by destruct Hr, Hr'..].
  apply writeString_inj in E as [E12 E]; [|by apply original_fits..].
  assert (writeString (Traceparent e) +:+ "" = writeString (Traceparent e') +:+ "") as E' by by rewrite E.
  apply writeString_inj in E' as [E13 _];
    [|by apply trace_fits; destruct Hv|by apply trace_fits; destruct Hv'].
  apply format_rfc3339_inj in E3; [|by destruct Hr, Hr'..]. apply format_rfc3339_inj in E11; [|by destruct Hr, Hr'..].
  destruct (rd_date _ Hr) as [D1 D2], (rd_date _ Hr') as [D1' D2']. apply format_date_inj in E10; [|done..].
  assert (option_map to_lower (OriginalEntryID e) = option_map to_lower (OriginalEntryID e')) as E14.
  { destruct (OriginalEntryID e) as [o|] eqn:Eo, (OriginalEntryID e') as [o'|] eqn:Eo'; cbn in *; [congruence| | |done].
    - destruct (pattern_nonempty o); [by apply (va_original _ Hv)|done].
    - destruct (pattern_nonempty o'); [by apply (va_original _ Hv')|done]. }
  unfold Canonical. f_equal; congruence.
Qed.

Definition sample_event : EntryConfirmed :=
  {| EventID := "018f0000-0000-7000-8000-000000000001"; EventType := EntryConfirmedV1;
     OccurredAt := 739000 * day_ns + 5; MerchantID := "018f0000-0000-7000-8000-00000000000A"; MerchantPosition := 1;
     EntryID := "018f0000-0000-7000-8000-0000000000e1"; EntryType := EntryCredit; AmountMinor := 1000;
     Currency := "BRL"; BusinessDate := 739000 * day_ns; ConfirmedAt := 739000 * day_ns + 5;
     OriginalEntryID := None; Traceparent := "00-4bf92f3577b34da6a3ce929d0e0e4736-00f067aa0ba902b7-01" |}.

Lemma sample_readable : readable sample_event.
Proof.
  split; [unfold int64_min, int64_max; cbn; lia..| | |]; unfold printable_date; vm_compute;
    repeat split; discriminate.
Qed.

Lemma fingerprint_injective_witness :
  fingerprint_input sample_event = fingerprint_input (Canonical sample_event).
Proof.
  apply (fingerprint_injective sample_event (Canonical sample_event)); [vm_compute; reflexivity..|apply sample_readable| |vm_compute; reflexivity].
  destruct sample_readable. split; assumption.
Defined.
