(* ===== verification/Projection.v ===== *)
(** * The consolidation's projection store

    services/consolidation/internal/adapters/outbound/postgres/store.go and
    application/projector.go over the tables of
    services/consolidation/migrations/*.up.sql: one transaction applies one
    event, another one resumes a recompute.  A SQL statement is the function
    its text describes; it may also fail for a reason outside the schema.  The
    advisory lock serialises a merchant's transactions, so they run one after
    the other.  Dates are day numbers.  A job's count of attempts grows without
    the bound of its INTEGER column. *)

From S2P Require Import Prelude.
From S2P Require Import Sorting.
From S2P Require Import GoStrings.
From S2P Require Import GoTime.
From S2P Require Import ConsolidationDomain.
From Stdlib Require String.
From Stdlib Require Import ZArith Lia Ascii.
Open Scope string_scope.
Open Scope Z_scope.

Definition maxRecomputeSpanDays : Z := 31.

(** ** The tables *)
Record inbox_row : Type := {
  in_event : string; in_type : string; in_fingerprint : string; in_merchant : string; in_position : Z;
  in_entry : string; in_kind : string; in_amount : Z; in_currency : string; in_date : Z;
  in_occurred : Z; in_confirmed : Z; in_original : option string; in_trace : string }.
Record receipt : Type := { rc_merchant : string; rc_position : Z; rc_event : string }.
Record balance_row : Type := {
  b_credits : Z; b_debits : Z; b_net : Z; b_count : Z; b_closing : Z; b_version : Z }.
Record progress_row : Type := {
  p_source : Z; p_applied : Z; p_gap : option Z; p_gap_at : option Z; p_updated : Z }.
Inductive job_status : Type := Pending | Running | Completed | Failed.
Record job_row : Type := {
  j_id : Z; j_event : string; j_merchant : string; j_from : Z; j_through : Z; j_next : option Z;
  j_status : job_status; j_attempts : Z; j_completed : option Z }.

(** A merchant's daily balances by day. *)
Notation calendar := (gmap Z balance_row).
Record cdb : Type := {
  inbox : list inbox_row; receipts : list receipt; balances : gmap string calendar;
  progress : gmap string progress_row; jobs : list job_row; next_job : Z }.
Definition empty_cdb : cdb :=
  {| inbox := []; receipts := []; balances := ∅; progress := ∅; jobs := []; next_job := 1 |}.

Definition days_of (m : string) (db : cdb) : calendar := default ∅ (balances db !! m).
Definition with_days (m : string) (c : calendar) (db : cdb) : cdb :=
  {| inbox := inbox db; receipts := receipts db; balances := <[m := c]> (balances db);
     progress := progress db; jobs := jobs db; next_job := next_job db |}.
Definition with_progress (m : string) (p : progress_row) (db : cdb) : cdb :=
  {| inbox := inbox db; receipts := receipts db; balances := balances db;
     progress := <[m := p]> (progress db); jobs := jobs db; next_job := next_job db |}.
Definition with_jobs (js : list job_row) (next : Z) (db : cdb) : cdb :=
  {| inbox := inbox db; receipts := receipts db; balances := balances db;
     progress := progress db; jobs := js; next_job := next |}.

(** A transaction: what it sees, the outcomes of its statements and the clock. *)
Record ctx : Type := { x_db : cdb; x_faults : list (option error); x_clock : Z }.
Definition with_cdb (s : ctx) (db : cdb) (faults : list (option error)) : ctx :=
  {| x_db := db; x_faults := faults; x_clock := x_clock s |}.

Definition statement {A} (f : cdb -> Z -> result A * cdb) : St ctx A := fun s =>
  match x_faults s with
  | Some e :: fs => (Err e, with_cdb s (x_db s) fs)
  | None :: fs => let '(r, db) := f (x_db s) (x_clock s) in (r, with_cdb s db fs)
  | [] => let '(r, db) := f (x_db s) (x_clock s) in (r, with_cdb s db [])
  end.
Definition read {A} (f : cdb -> result A) : St ctx A := statement (fun db _ => (f db, db)).

Definition out_of_range : error := EPg "22003" "".
Definition unique_violation (name : string) : error := EPg "23505" name.
Definition check_violation (name : string) : error := EPg "23514" name.
Definition ErrNoRows : error := ESentinel "pgx.ErrNoRows".

(** [classifyPersistenceError] *)
Definition as_pg (e : error) : option string := match e with EPg code _ => Some code | _ => None end.
Definition classifyPersistenceError (operation : string) (err : error) : error :=
  match errors_as as_pg err with
  | Some code =>
      if String.eqb code "22003" || String.eqb code "23505" || String.eqb code "23514"
      then EConflict (operation +:+ " violates a financial invariant") else EWrap operation err
  | None => EWrap operation err
  end.
Definition classified {A} (operation : string) (m : St ctx A) : St ctx A := fun s =>
  match m s with (Err e, s') => (Err (classifyPersistenceError operation e), s') | r => r end.

(** ** application/projector.go: results *)
Record ProjectionResult : Type := {
  Duplicate : bool; r_SourcePosition : Z; r_AppliedPosition : Z; r_FirstGap : option Z;
  RecomputedFrom : Z; RecomputedThrough : Z; RecomputePending : bool }.
Record RecomputeResult : Type := {
  Processed : bool; JobID : Z; rr_MerchantID : string; rr_From : Z; rr_Through : Z; rr_Pending : bool }.

Section Store.
Context (sha256 : string -> list Z).

(** ** insertInbox *)
Definition row_of_event (e : EntryConfirmed) : inbox_row :=
  {| in_event := EventID e; in_type := EventType e; in_fingerprint := Fingerprint sha256 e;
     in_merchant := MerchantID e; in_position := MerchantPosition e; in_entry := EntryID e;
     in_kind := EntryType e; in_amount := AmountMinor e; in_currency := Currency e;
     in_date := date_of_time (BusinessDate e); in_occurred := truncate_us (OccurredAt e);
     in_confirmed := truncate_us (ConfirmedAt e); in_original := OriginalEntryID e; in_trace := Traceparent e |}.

Definition fingerprint_check (fp : string) : bool := (slen fp =? 64) && forall_chars is_lower_hex fp.
Definition same_key (id m : string) (p : Z) (r : inbox_row) : bool :=
  String.eqb (in_event r) id || (String.eqb (in_merchant r) m && (in_position r =? p)).

Definition insert_inbox (e : EntryConfirmed) (db : cdb) (_ : Z) : result Z * cdb :=
  let r := row_of_event e in
  if negb (fingerprint_check (in_fingerprint r))
  then (Err (check_violation "inbox_event_payload_fingerprint_check"), db)
  else if existsb (same_key (in_event r) (in_merchant r) (in_position r)) (inbox db) then (Ok 0, db)
  else (Ok 1, {| inbox := inbox db ++ [r]; receipts := receipts db; balances := balances db;
                 progress := progress db; jobs := jobs db; next_job := next_job db |}).
Definition insertInbox (e : EntryConfirmed) : St ctx bool :=
  rows ← classified "record inbox event" (statement (insert_inbox e));
  mret (rows =? 1).

(** INSERT ... ON CONFLICT (merchant_id) DO NOTHING *)
Definition init_progress (m : string) (db : cdb) (clock : Z) : result unit * cdb :=
  match progress db !! m with
  | Some _ => (Ok tt, db)
  | None => (Ok tt, with_progress m {| p_source := 0; p_applied := 0; p_gap := None; p_gap_at := None;
                                       p_updated := truncate_us clock |} db)
  end.

Definition insert_receipt (m : string) (p : Z) (id : string) (db : cdb) (_ : Z) : result unit * cdb :=
  if existsb (fun r => String.eqb (rc_merchant r) m && (rc_position r =? p)) (receipts db)
  then (Err (unique_violation "position_receipt_pkey"), db)
  else if existsb (fun r => String.eqb (rc_event r) id) (receipts db)
  then (Err (unique_violation "position_receipt_event_id_key"), db)
  else (Ok tt, {| inbox := inbox db;
                  receipts := receipts db ++ [{| rc_merchant := m; rc_position := p; rc_event := id |}];
                  balances := balances db; progress := progress db; jobs := jobs db; next_job := next_job db |}).

(** The daily totals: insert, or add to the row of the day. *)
Definition add_totals (m : string) (day : Z) (effect : Z * Z * Z) (db : cdb) (_ : Z) : result unit * cdb :=
  let '(credits, debits, net) := effect in
  let c := days_of m db in
  let row := match c !! day with
             | None => {| b_credits := credits; b_debits := debits; b_net := net; b_count := 1;
                          b_closing := net; b_version := 1 |}
             | Some b => {| b_credits := b_credits b + credits; b_debits := b_debits b + debits;
                            b_net := b_net b + net; b_count := b_count b + 1;
                            b_closing := b_closing b; b_version := b_version b + 1 |}
             end in
  if negb (in_int64 (b_credits row)) || negb (in_int64 (b_debits row)) || negb (in_int64 (b_net row))
     || negb (in_int64 (b_count row)) || negb (in_int64 (b_version row))
  then (Err out_of_range, db)
  else if (b_credits row <? 0) || (b_debits row <? 0) || negb (b_net row =? b_credits row - b_debits row)
  then (Err (check_violation "daily_balance_check"), db)
  else (Ok tt, with_days m (<[day := row]> c) db).

(** SELECT MAX(business_date) *)
Definition max_day (c : calendar) : option Z :=
  map_fold (fun d _ acc => match acc with None => Some d | Some x => Some (Z.max x d) end) None c.

(** ** processRecomputeBlock *)
Record recomputeJob : Type := {
  rj_ID : Z; rj_MerchantID : string; rj_From : Z; rj_Through : Z; rj_Next : Z }.

(** from, from + 1, ..., through *)
Definition date_range (from through : Z) : list Z := seqZ from (through - from + 1).

Definition blank_day : balance_row :=
  {| b_credits := 0; b_debits := 0; b_net := 0; b_count := 0; b_closing := 0; b_version := 1 |}.

Definition materialize (m : string) (from through : Z) (db : cdb) (_ : Z) : result unit * cdb :=
  let c := fold_left (fun c d => match c !! d with Some _ => c | None => <[d := blank_day]> c end)
             (date_range from through) (days_of m db) in
  (Ok tt, with_days m c db).

(** The closing balance of the last row before a day, or zero. *)
Definition baseline (c : calendar) (day : Z) : Z :=
  let earlier := filter (fun p => (fst p < day)%Z) c in
  match max_day earlier with
  | Some d => match earlier !! d with Some b => b_closing b | None => 0 end
  | None => 0
  end.

(** The rows of the days, each with its running sum; the UPDATE touches the
    rows whose closing differs. *)
Fixpoint reclose (days : list Z) (running : Z) (c : calendar) : result calendar :=
  match days with
  | [] => Ok c
  | d :: rest =>
      match c !! d with
      | None => reclose rest running c
      | Some b =>
          let closing := running + b_net b in
          if b_closing b =? closing then reclose rest closing c
          else if negb (in_int64 closing) || negb (in_int64 (b_version b + 1)) then Err out_of_range
          else reclose rest closing
                 (<[d := {| b_credits := b_credits b; b_debits := b_debits b; b_net := b_net b;
                            b_count := b_count b; b_closing := closing; b_version := b_version b + 1 |}]> c)
      end
  end.
Definition recompute_closing (m : string) (from through : Z) (db : cdb) (_ : Z) : result unit * cdb :=
  let c := days_of m db in
  match reclose (date_range from through) (baseline c from) c with
  | Err e => (Err e, db)
  | Ok c' => (Ok tt, with_days m c' db)
  end.

Definition advance_job (id : Z) (status : job_status) (next : option Z) (increment : Z) (db : cdb) (clock : Z)
    : result unit * cdb :=
  (Ok tt, with_jobs (map (fun j => if j_id j =? id
     then {| j_id := j_id j; j_event := j_event j; j_merchant := j_merchant j; j_from := j_from j;
             j_through := j_through j; j_next := next; j_status := status; j_attempts := j_attempts j + increment;
             j_completed := match status with Completed => Some (truncate_us clock) | _ => None end |}
     else j) (jobs db)) (next_job db) db).

Definition processRecomputeBlock (job : recomputeJob) (incrementAttempts : bool) : St ctx RecomputeResult :=
  let last := rj_Next job + (maxRecomputeSpanDays - 1) in
  let blockThrough := if rj_Through job <? last then rj_Through job else last in
  _ ← classified "materialize projection calendar block"
        (statement (materialize (rj_MerchantID job) (rj_Next job) blockThrough));
  _ ← classified "recompute closing balance block"
        (statement (recompute_closing (rj_MerchantID job) (rj_Next job) blockThrough));
  let pending := blockThrough <? rj_Through job in
  _ ← classified "advance recompute continuation"
        (statement (advance_job (rj_ID job) (if pending then Pending else Completed)
                      (if pending then Some (blockThrough + 1) else None) (if incrementAttempts then 1 else 0)));
  mret {| Processed := true; JobID := rj_ID job; rr_MerchantID := rj_MerchantID job;
          rr_From := rj_Next job; rr_Through := blockThrough; rr_Pending := pending |}.

Definition insert_job (event m : string) (from through : Z) (db : cdb) (_ : Z) : result Z * cdb :=
  if through <? from then (Err (check_violation "recompute_job_check"), db)
  else (Ok (next_job db), with_jobs (jobs db ++
    [{| j_id := next_job db; j_event := event; j_merchant := m; j_from := from; j_through := through;
        j_next := Some from; j_status := Pending; j_attempts := 1; j_completed := None |}])%list (next_job db + 1) db).

(** ** Progress *)
Definition has_receipt (m : string) (db : cdb) (p : Z) : bool :=
  existsb (fun r => String.eqb (rc_merchant r) m && (rc_position r =? p)) (receipts db).

(** The recursive query: the last position of the unbroken run of receipts
    that starts at [position], at most [source]; [fuel] steps. *)
Fixpoint contiguous (fuel : nat) (has : Z -> bool) (position source : Z) : Z :=
  match fuel with
  | O => position
  | S k => if (position <? source) && has (position + 1) then contiguous k has (position + 1) source else position
  end.

Definition read_progress (m : string) (db : cdb) : result progress_row :=
  match progress db !! m with Some p => Ok p | None => Err ErrNoRows end.

Definition progress_checks (p : progress_row) : bool :=
  (0 <=? p_source p) && (0 <=? p_applied p) && (p_applied p <=? p_source p) &&
  match p_gap p with None => p_applied p =? p_source p | Some g => (0 <? g) && (g =? p_applied p + 1) end.

Definition update_progress (m : string) (source applied : Z) (gap : option Z) (db : cdb) (clock : Z)
    : result unit * cdb :=
  match progress db !! m with
  | None => (Ok tt, db)
  | Some old =>
      let p := {| p_source := source; p_applied := applied; p_gap := gap;
                  p_gap_at := match gap with
                              | None => None
                              | Some g => match p_gap old with
                                          | Some g' => if g' =? g then p_gap_at old else Some (truncate_us clock)
                                          | None => Some (truncate_us clock)
                                          end
                              end;
                  p_updated := truncate_us clock |} in
      if negb (progress_checks p) then (Err (check_violation "merchant_progress_check"), db)
      else (Ok tt, with_progress m p db)
  end.

Definition advanceProgress (e : EntryConfirmed) : St ctx ProjectionResult :=
  current ← wrap_st "read merchant progress for advance" (read (read_progress (MerchantID e)));
  let source := Z.max (p_source current) (MerchantPosition e) in
  applied ← wrap_st "calculate contiguous position"
    (read (fun db => Ok (contiguous (Z.to_nat (source - p_applied current)) (has_receipt (MerchantID e) db)
                           (p_applied current) source)));
  let gap := if applied <? source then Some (applied + 1) else None in
  _ ← wrap_st "persist merchant progress" (statement (update_progress (MerchantID e) source applied gap));
  mret {| Duplicate := false; r_SourcePosition := source; r_AppliedPosition := applied; r_FirstGap := gap;
          RecomputedFrom := 0; RecomputedThrough := 0; RecomputePending := false |}.

Definition pending_job (m : string) (j : job_row) : bool :=
  String.eqb (j_merchant j) m && match j_status j with Pending | Running => true | _ => false end.
Definition readPendingRecompute (m : string) : St ctx bool :=
  wrap_st "read recompute pending state" (read (fun db => Ok (existsb (pending_job m) (jobs db)))).
Definition readProgress (m : string) : St ctx progress_row :=
  wrap_st "read merchant progress" (read (read_progress m)).

(** ** resolveDuplicate *)

(** WHERE event_id = $1 OR (merchant_id, position) = ($2, $3)
    ORDER BY (event_id = $1) DESC LIMIT 1 *)
Definition find_duplicate (e : EntryConfirmed) (db : cdb) : result inbox_row :=
  match List.find (fun r => String.eqb (in_event r) (EventID e)) (inbox db) with
  | Some r => Ok r
  | None =>
      match List.find (fun r => String.eqb (in_merchant r) (MerchantID e) && (in_position r =? MerchantPosition e)) (inbox db) with
      | Some r => Ok r
      | None => Err ErrNoRows
      end
  end.

Definition ConflictReused : error := EConflict "event_id or merchant position was reused with different content".

Definition resolveDuplicate (e : EntryConfirmed) : St ctx ProjectionResult :=
  row ← wrap_st "resolve inbox uniqueness conflict" (read (find_duplicate e));
  if negb (String.eqb (in_merchant row) (MerchantID e)) || negb (in_position row =? MerchantPosition e)
     || negb (String.eqb (in_fingerprint row) (Fingerprint sha256 e))
  then throw ConflictReused
  else
    p ← readProgress (MerchantID e);
    pending ← readPendingRecompute (MerchantID e);
    mret {| Duplicate := true; r_SourcePosition := p_source p; r_AppliedPosition := p_applied p;
            r_FirstGap := p_gap p; RecomputedFrom := 0; RecomputedThrough := 0; RecomputePending := pending |}.

(** ** Apply *)
Definition apply_new (e : EntryConfirmed) : St ctx ProjectionResult :=
  let m := MerchantID e in
  let day := date_of_time (BusinessDate e) in
  _ ← classified "record merchant position" (statement (insert_receipt m (MerchantPosition e) (EventID e)));
  _ ← classified "update daily totals" (statement (add_totals m day (FinancialEffect e)));
  (** the date, printed and parsed again *)
  from ← lift (match parse_date (format_date day) with
               | Ok from => Ok from
               | Err _ => invalid "business_date" "must use YYYY-MM-DD"
               end);
  through ← wrap_st "find recompute range"
    (read (fun db => match max_day (days_of m db) with Some d => Ok d | None => Err (EMsg "cannot scan NULL") end));
  jobID ← classified "create recompute continuation" (statement (insert_job (EventID e) m from through));
  recompute ← processRecomputeBlock {| rj_ID := jobID; rj_MerchantID := m; rj_From := from;
                                       rj_Through := through; rj_Next := from |} false;
  result ← advanceProgress e;
  pending ← readPendingRecompute m;
  mret {| Duplicate := Duplicate result; r_SourcePosition := r_SourcePosition result;
          r_AppliedPosition := r_AppliedPosition result; r_FirstGap := r_FirstGap result;
          RecomputedFrom := rr_From recompute; RecomputedThrough := rr_Through recompute;
          RecomputePending := pending |}.

Definition apply_body (e : EntryConfirmed) : St ctx ProjectionResult :=
  _ ← wrap_st "lock merchant projection" (read (fun _ => Ok tt));
  _ ← wrap_st "initialize merchant progress" (statement (init_progress (MerchantID e)));
  inserted ← insertInbox e;
  if (inserted : bool) then apply_new e else resolveDuplicate e.

(** COMMIT: it succeeds, fails and leaves nothing, or takes effect while the
    client is told it failed. *)
Inductive commit_outcome : Type := CommitOk | CommitFailed (e : error) | CommitUnknown (e : error).
Record tx_env : Type := {
  begin_fault : option error; faults : list (option error); commit : commit_outcome; clock : Z }.

Definition transact {A} (begin_op : string) (commit_op : A -> string) (env : tx_env) (body : St ctx A) (db : cdb)
    : result A * cdb :=
  match begin_fault env with
  | Some e => (Err (EWrap begin_op e), db)
  | None =>
      match body {| x_db := db; x_faults := faults env; x_clock := clock env |} with
      | (Err e, _) => (Err e, db)
      | (Ok a, s) =>
          match commit env with
          | CommitOk => (Ok a, x_db s)
          | CommitFailed e => (Err (EWrap (commit_op a) e), db)
          | CommitUnknown e => (Err (EWrap (commit_op a) e), x_db s)
          end
      end
  end.

(** [Store.Apply] *)
Definition store_apply (env : tx_env) (e : EntryConfirmed) (db : cdb) : result ProjectionResult * cdb :=
  match Validate e with
  | Err err => (Err err, db)
  | Ok _ => transact "begin projection transaction" 
              (fun r => if Duplicate r then "commit duplicate projection" else "commit projection") env (apply_body (Canonical e)) db
  end.

(** ** ResumeNext *)
Definition resumable (m : string) (j : job_row) : bool :=
  String.eqb (j_merchant j) m && match j_status j with Pending => true | _ => false end.
(** ORDER BY next_date, id *)
Definition job_before (a b : job_row) : bool :=
  let na := default 0 (j_next a) in let nb := default 0 (j_next b) in
  (na <? nb) || ((na =? nb) && (j_id a <? j_id b)).
Definition next_job_row (m : string) (db : cdb) : option job_row :=
  head (sort_by job_before (List.filter (resumable m) (jobs db))).

Definition resume_body (m : string) : St ctx RecomputeResult :=
  _ ← wrap_st "lock merchant recompute continuation" (read (fun _ => Ok tt));
  job ← wrap_st "select recompute continuation" (read (fun db => Ok (next_job_row m db)));
  match job with
  | None => mret {| Processed := false; JobID := 0; rr_MerchantID := ""; rr_From := 0; rr_Through := 0; rr_Pending := false |}
  | Some j =>
      processRecomputeBlock {| rj_ID := j_id j; rj_MerchantID := j_merchant j; rj_From := j_from j;
                               rj_Through := j_through j; rj_Next := default 0 (j_next j) |} true
  end.
Definition ResumeNext (env : tx_env) (merchantID : string) (db : cdb) : result RecomputeResult * cdb :=
  transact "begin recompute continuation"
    (fun r => if Processed r then "commit recompute continuation" else "commit empty recompute continuation")
    env (resume_body (to_lower merchantID)) db.

(** ** application/projector.go *)
Inductive FailureClass : Type := FailureRetry | FailureDLQ.
Definition as_final (e : error) : option unit :=
  match e with EValidation _ _ | EConflict _ => Some tt | _ => None end.
Definition ClassifyFailure (err : error) : FailureClass :=
  match errors_as as_final err with Some _ => FailureDLQ | None => FailureRetry end.

Definition Apply (env : tx_env) (e : EntryConfirmed) (db : cdb) : result ProjectionResult * cdb :=
  match Validate e with
  | Err err => (Err err, db)
  | Ok _ =>
      let '(r, db') := store_apply env (Canonical e) db in
      (wrap_err "apply confirmed ledger entry" r, db')
  end.

Definition ApplyPayload (decode_stream : string -> result (Json.json * trailing)) (env : tx_env) (payload : string)
    (db : cdb) : result ProjectionResult * cdb :=
  match ParseEntryConfirmed decode_stream payload with
  | Err err => (Err err, db)
  | Ok e => Apply env e db
  end.

Definition ResumeRecompute (env : tx_env) (merchantID : string) (db : cdb) : result RecomputeResult * cdb :=
  if String.eqb merchantID "" then (invalid "merchant_id" "is required", db)
  else
    let '(r, db') := ResumeNext env merchantID db in
    (wrap_err "resume consolidation recompute" r, db').
End Store.

(** ** Queries *)
Definition Progress (m : string) (db : cdb) : result MerchantProgress :=
  match read_progress m db with
  | Err e => Err (EWrap "read merchant progress" e)
  | Ok p => Ok {| mp_MerchantID := m; SourcePosition := p_source p; AppliedPosition := p_applied p;
                  FirstGap := p_gap p; UpdatedAt := p_updated p |}
  end.
(** [Store.Balance]: one day's row. *)
Definition Balance (m : string) (d : Z) (db : cdb) : result DailyBalance :=
  match days_of m db !! d with
  | Some b => Ok {| db_MerchantID := m; db_BusinessDate := d; CreditsMinor := b_credits b; DebitsMinor := b_debits b;
                    NetMinor := b_net b; EntryCount := b_count b; ClosingBalanceMinor := b_closing b;
                    Version := b_version b |}
  | None => Err (EWrap "read daily balance" ErrNoRows)
  end.
Definition HasPendingRecompute (m : string) (db : cdb) : bool := existsb (pending_job m) (jobs db).

(** The rows of a date range in order. *)
Definition Balances (m : string) (from through : Z) (db : cdb) : result (list DailyBalance) :=
  if String.eqb m "" || (through <? from) then Err (EMsg "merchant and valid balance range are required")
  else
    Ok (omap (fun d => match days_of m db !! d with
                       | Some b => Some {| db_MerchantID := m; db_BusinessDate := d; CreditsMinor := b_credits b;
                                           DebitsMinor := b_debits b; NetMinor := b_net b; EntryCount := b_count b;
                                           ClosingBalanceMinor := b_closing b; Version := b_version b |}
                       | None => None
                       end) (date_range from through)).

(** [SystemStats]: merchants with a gap, and failed or running recomputes. *)
Definition SystemStats (db : cdb) : Z * Z :=
  (Z.of_nat (length (List.filter (fun p => match p_gap (snd p) with Some _ => true | None => false end)
                       (map_to_list (progress db)))),
   Z.of_nat (length (List.filter (fun j => match j_status j with Failed | Running => true | _ => false end) (jobs db)))).
