(* ===== verification/ProjectionRetry.v ===== *)
(** * Redelivery

    What happens to an event that comes again, and to a different event that
    claims an identity already used. *)

From S2P Require Import Prelude.
From S2P Require Import Sorting.
From S2P Require Import GoStrings.
From S2P Require Import GoTime.
From S2P Require Import LedgerDomain.
From S2P Require Import ConsolidationDomain.
From S2P Require Import Projection.
From S2P Require Import ProjectionInvariant.
From Stdlib Require String.
From Stdlib Require Import ZArith Lia Ascii.
Open Scope string_scope.
Open Scope Z_scope.

(** What the digest yields: 32 bytes. *)
Definition digest_bytes (sha256 : string -> list Z) : Prop :=
  forall s, length (sha256 s) = 32%nat /\ Forall (fun b => 0 <= b < 256) (sha256 s).

Section Redelivery.
Context (sha256 : string -> list Z).

Lemma hex_encode_length l : String.length (hex_encode l) = (2 * length l)%nat.
Proof. induction l as [|b l IH]; cbn in *; [done|]. rewrite IH. lia. Qed.

Lemma digest_check e : digest_bytes sha256 -> fingerprint_check (Fingerprint sha256 e) = true.
Proof.
  intros H. destruct (H (fingerprint_input e)) as [H1 H2]. unfold fingerprint_check, Fingerprint, slen.
  rewrite hex_encode_length, H1, hex_encode_hex by done. done.
Qed.

(** A transaction whose event is known stops at the inbox. *)
Lemma known_body e db clk : known e db = true -> fingerprint_check (Fingerprint sha256 e) = true ->
  apply_body sha256 e (begun (quiet clk) db) =
  resolveDuplicate sha256 e (begun (quiet clk) (snd (init_progress (MerchantID e) db clk))).
Proof.
  intros Hk Hf. unfold apply_body. erewrite st_bind_run by reflexivity.
  assert (exists db1, init_progress (MerchantID e) db clk = (Ok tt, db1) /\ inbox db1 = inbox db) as (db1 & Ei & Eb)
    by (unfold init_progress; destruct (progress db !! MerchantID e); by eexists).
  rewrite Ei. cbn [snd].
  erewrite st_bind_run; [|apply wrap_run; unfold statement; cbn; rewrite Ei; reflexivity].
  erewrite (st_bind_run (insertInbox sha256 e)) with (a := false) (t := begun (quiet clk) db1); [done|].
  unfold insertInbox. erewrite st_bind_run with (a := 0); [reflexivity|].
  unfold classified, statement, begun. cbn [x_faults x_db x_clock quiet faults clock with_cdb]. unfold insert_inbox.
  cbn [in_fingerprint in_event in_merchant in_position row_of_event]. cbn zeta.
  rewrite Hf, Eb. cbn [negb]. unfold known in Hk. by rewrite Hk.
Qed.

Lemma known_row e db r : r ∈ inbox db -> same_key (EventID e) (MerchantID e) (MerchantPosition e) r = true -> known e db = true.
Proof. intros Hr Hk. apply existsb_exists. exists r. by rewrite <- list_elem_of_In. Qed.

Lemma stored_canonical e : validated e -> stored e = Canonical e.
Proof. intros H. unfold stored. by apply canonical_valid. Qed.

Lemma quiet_Apply e db clk : Validate e = Ok tt ->
  Apply sha256 (quiet clk) e db =
  match apply_body sha256 (Canonical e) (begun (quiet clk) db) with
  | (Ok a, s) => (Ok a, x_db s)
  | (Err err, _) => (Err (EWrap "apply confirmed ledger entry" err), db)
  end.
Proof.
  intros Hv. pose proof (proj1 (Validate_ok e) Hv) as [Hc%Validate_ok Hi]%canonical_valid.
  unfold Apply, store_apply, transact. rewrite Hv, Hc, Hi. cbn [begin_fault quiet commit].
  fold (begun (quiet clk) db). by destruct (apply_body _ _ _) as [[a|err] s].
Qed.

Lemma row_exists_progress db r : proj_inv db -> r ∈ inbox db -> is_Some (progress db !! in_merchant r).
Proof.
  intros Hi Hr. pose proof (pi_progress _ Hi (in_merchant r)) as H. destruct (progress db !! in_merchant r); [done|].
  specialize (H (in_position r)). assert (received (in_merchant r) (inbox db) (in_position r) = true) as E; [|congruence].
  apply existsb_exists. exists r. rewrite String.eqb_refl, Z.eqb_refl. by rewrite <- list_elem_of_In.
Qed.

Definition duplicate_result (m : string) (p : progress_row) (db : cdb) : ProjectionResult :=
  {| Duplicate := true; r_SourcePosition := p_source p; r_AppliedPosition := p_applied p; r_FirstGap := p_gap p;
     RecomputedFrom := 0; RecomputedThrough := 0; RecomputePending := HasPendingRecompute m db |}.

Lemma again e db clk : proj_inv db -> Validate e = Ok tt -> row_of_event sha256 (Canonical e) ∈ inbox db ->
  fingerprint_check (Fingerprint sha256 (Canonical e)) = true ->
  exists p, progress db !! MerchantID (Canonical e) = Some p /\
    Apply sha256 (quiet clk) e db = (Ok (duplicate_result (MerchantID (Canonical e)) p db), db).
Proof.
  intros Hi Hv Hr Hf. set (c := Canonical e) in *.
  destruct (row_exists_progress _ _ Hi Hr) as [p Hp]. change (in_merchant (row_of_event sha256 c)) with (MerchantID c) in Hp.
  exists p. split; [done|]. rewrite quiet_Apply by done. fold c.
  rewrite known_body; [|eapply known_row; [exact Hr|]; unfold same_key; cbn [in_event row_of_event]; by rewrite String.eqb_refl|done].
  assert (init_progress (MerchantID c) db clk = (Ok tt, db)) as -> by (unfold init_progress; by rewrite Hp). cbn [snd].
  unfold resolveDuplicate.
  erewrite st_bind_run with (a := row_of_event sha256 c) (t := begun (quiet clk) db).
  2:{ apply wrap_run. unfold read, statement. cbn [begun x_faults quiet faults x_db]. unfold find_duplicate.
      erewrite (find_unique _ _ (row_of_event sha256 c) Hr); [done| |].
      - cbn [in_event row_of_event]. by rewrite String.eqb_refl.
      - intros y Hy Ey%String.eqb_eq. by eapply (NoDup_map_inj in_event); [apply Hi| | |]. }
  cbn [in_merchant in_position in_fingerprint row_of_event]. rewrite !String.eqb_refl, Z.eqb_refl. cbn [negb orb].
  erewrite st_bind_run with (a := p) (t := begun (quiet clk) db).
  2:{ unfold readProgress. apply wrap_run. unfold read, statement, read_progress. cbn [begun x_faults quiet faults x_db].
      by rewrite Hp. }
  erewrite st_bind_run by reflexivity. reflexivity.
Qed.
End Redelivery.

(** C21: exactly once: once an application has recorded an event, whether its
    caller saw it commit or not, and after any number of further
    transactions, applying the event again on a healthy database reports a
    duplicate with the merchant's current progress and leaves the database
    exactly as it was. *)
Theorem apply_once sha256 env e db0 r db1 db2 clk : digest_bytes sha256 ->
  steps (proj_step sha256) empty_cdb db0 -> Apply sha256 env e db0 = (r, db1) -> inbox db1 <> inbox db0 ->
  steps (proj_step sha256) db1 db2 ->
  exists p, progress db2 !! MerchantID (Canonical e) = Some p /\
    Apply sha256 (quiet clk) e db2 = (Ok (duplicate_result (MerchantID (Canonical e)) p db2), db2).
Proof.
  intros Hd H0%proj_reachable Ha Hne H2. assert (proj_inv db1) as H1 by by eapply proj_step_inv; [exact H0|eapply step_apply].
  apply Apply_effect in Ha as [-> | (dbi & _ & Ei & _ & _ & _ & Hb)]; [done| |done].
  destruct (known (stored e) db0); [destruct Hb as [-> _]; by rewrite Ei in Hne|].
  destruct Hb as (_ & [Ai _ _ _ _] & Hv & _). rewrite stored_canonical in Ai by done.
  assert (row_of_event sha256 (Canonical e) ∈ inbox db2 /\ proj_inv db2) as [Hr Hi].
  { assert (row_of_event sha256 (Canonical e) ∈ inbox db1) as Hr by (rewrite Ai; cbn; set_solver).
    clear -H1 H2 Hr. induction H2 as [|s t u Hst _ IH]; [done|]. apply IH; [by eapply proj_step_inv|].
    destruct (step_grows _ _ _ H1 Hst) as [l ->]. apply elem_of_app. by left. }
  apply again; [done|by apply Validate_ok|done|by apply digest_check].
Qed.

(** An identity is never reused: an event whose id or whose (merchant,
    position) some recorded event already has, and whose content no recorded
    event at that position has, is refused as a conflict, which the consumer
    dead-letters, and leaves the database exactly as it was. *)
Theorem reuse_refused sha256 e db r clk : digest_bytes sha256 ->
  steps (proj_step sha256) empty_cdb db -> Validate e = Ok tt ->
  let c := Canonical e in
  r ∈ inbox db -> in_event r = EventID c \/ (in_merchant r = MerchantID c /\ in_position r = MerchantPosition c) ->
  (forall q, q ∈ inbox db -> in_merchant q = MerchantID c -> in_position q = MerchantPosition c ->
     in_fingerprint q <> Fingerprint sha256 c) ->
  Apply sha256 (quiet clk) e db = (Err (EWrap "apply confirmed ledger entry" ConflictReused), db) /\
  ClassifyFailure (EWrap "apply confirmed ledger entry" ConflictReused) = FailureDLQ.
Proof.
  intros Hd Hdb Hv c Hr Hk Hq. split; [|done]. rewrite quiet_Apply by done. fold c.
  rewrite known_body; [|eapply known_row; [exact Hr|]|by apply digest_check].
  2:{ unfold same_key. destruct Hk as [-> | [-> ->]]; [by rewrite String.eqb_refl|].
      by rewrite String.eqb_refl, Z.eqb_refl, orb_true_r. }
  assert (inbox (snd (init_progress (MerchantID c) db clk)) = inbox db) as Ei
    by (unfold init_progress; by destruct (progress db !! MerchantID c)).
  assert (exists q, q ∈ inbox db /\ find_duplicate c (snd (init_progress (MerchantID c) db clk)) = Ok q) as (q & Hin & Ef).
  { unfold find_duplicate. rewrite Ei. destruct (List.find _ (inbox db)) as [q|] eqn:E1.
    - exists q. apply List.find_some in E1 as [E1%list_elem_of_In _]. done.
    - destruct Hk as [Hk|[Hm Hp]].
      + apply (find_none_all _ _ r) in E1; [|done]. cbn beta in E1. by rewrite Hk, String.eqb_refl in E1.
      + destruct (List.find (fun r => _ && _) (inbox db)) as [q|] eqn:E2.
        * exists q. apply List.find_some in E2 as [E2%list_elem_of_In _]. done.
        * apply (find_none_all _ _ r) in E2; [|done]. cbn beta in E2. by rewrite Hm, Hp, String.eqb_refl, Z.eqb_refl in E2. }
  unfold resolveDuplicate.
  erewrite st_bind_run; [|apply wrap_run; unfold read, statement; cbn [begun x_faults quiet faults x_db];
    rewrite Ef; reflexivity].
  destruct (String.eqb_spec (in_merchant q) (MerchantID c)) as [Em|]; [|done].
  destruct (Z.eqb_spec (in_position q) (MerchantPosition c)) as [Ep|]; [|done].
  destruct (String.eqb_spec (in_fingerprint q) (Fingerprint sha256 c)) as [Ey|]; [|done].
  by destruct (Hq q Hin Em Ep).
Qed.

(** ** At concrete inputs *)
Lemma sample_digest_bytes : digest_bytes sample_digest.
Proof.
  intros s. unfold sample_digest. rewrite repeat_length. split; [done|]. apply Forall_repeated.
  assert (forall h, 0 <= h < 256 -> 0 <= checksum h s < 256) as H; [|apply H; lia].
  induction s as [|a s IH]; intros h Hh; [done|]. cbn. apply IH. apply Z.mod_pos_bound. lia.
Qed.

Lemma apply_once_witness :
  let e := event_at "1" 1 0 500 in
  let db1 := apply_all [e] in let db2 := apply_all [e; event_at "2" 2 3 100] in
  exists res, Apply sample_digest (quiet 9) e db2 = (Ok res, db2) /\ Duplicate res = true.
Proof.
  cbn zeta. set (e := event_at "1" 1 0 500).
  destruct (apply_once sample_digest (quiet 0) e empty_cdb (fst (Apply sample_digest (quiet 0) e empty_cdb))
    (apply_all [e]) (apply_all [e; event_at "2" 2 3 100]) 9) as (p & _ & H).
  - apply sample_digest_bytes.
  - apply steps_refl.
  - unfold apply_all. cbn [fold_left]. by destruct (Apply sample_digest (quiet 0) e empty_cdb).
  - vm_compute. discriminate.
  - eapply steps_cons; [|apply steps_refl].
    eapply (step_apply _ _ _ (quiet 0) (event_at "2" 2 3 100)). unfold apply_all. cbn [fold_left].
    apply surjective_pairing.
  - eexists. split; [exact H|done].
Defined.

Lemma reuse_refused_witness :
  fst (Apply sample_digest (quiet 9) (event_at "1" 1 0 501) (apply_all [event_at "1" 1 0 500])) =
  Err (EWrap "apply confirmed ledger entry" ConflictReused).
Proof.
  destruct (reuse_refused sample_digest (event_at "1" 1 0 501) (apply_all [event_at "1" 1 0 500])
    (row_of_event sample_digest (Canonical (event_at "1" 1 0 500))) 9) as [H _].
  - apply sample_digest_bytes.
  - apply apply_all_steps, steps_refl.
  - vm_compute. reflexivity.
  - apply list_elem_of_In. vm_compute. left. reflexivity.
  - left. vm_compute. reflexivity.
  - assert (forallb (fun q => negb (String.eqb (in_fingerprint q) (Fingerprint sample_digest (Canonical (event_at "1" 1 0 501)))))
      (inbox (apply_all [event_at "1" 1 0 500])) = true) as E by (vm_compute; reflexivity).
    intros q Hq _ _ Ey. rewrite forallb_forall in E. specialize (E q (proj1 (list_elem_of_In _ _) Hq)).
    by rewrite Ey, String.eqb_refl in E.
  - by rewrite H.
Defined.
