(* ===== verification/ProjectionClosing.v ===== *)
(** * Closing balances

    As long as every event lies within [maxRecomputeSpanDays] of its
    merchant's last day, each transaction leaves every closing balance equal to
    the running sum of the events received, with nothing left to recompute.
    Beyond that span a later event can be closed over a balance whose
    recompute is still queued. *)

From S2P Require Import Prelude.
From S2P Require Import Sorting.
From S2P Require Import GoStrings.
From S2P Require Import GoTime.
From S2P Require Import LedgerDomain.
From S2P Require Import ConsolidationDomain.
From S2P Require Import Projection.
From S2P Require Import ProjectionInvariant.
From S2P Require Import ProjectionRetry.
From Stdlib Require String.
From Stdlib Require Import ZArith Lia Ascii.
Open Scope string_scope.
Open Scope Z_scope.

(** ** The last day of a calendar and the balance before a day *)
Lemma max_day_spec c : match max_day c with
  | None => c = ∅
  | Some x => is_Some (c !! x) /\ forall d, is_Some (c !! d) -> d <= x
  end.
Proof.
  unfold max_day. apply (map_fold_weak_ind (fun acc m => match acc with
    | None => m = ∅ | Some x => is_Some (m !! x) /\ forall d, is_Some (m !! d) -> d <= x end)); [done|].
  intros d b m acc Hd IH. destruct acc as [x|].
  - destruct IH as [H1 H2]. split.
    + destruct (Z.max_spec x d) as [[? ->]|[? ->]]; [by rewrite lookup_insert_eq|].
      destruct (decide (d = x)) as [-> | ?]; [by rewrite lookup_insert_eq|by rewrite lookup_insert_ne].
    + intros d' H. destruct (decide (d = d')) as [<- | ?]; [lia|]. rewrite lookup_insert_ne in H by done.
      specialize (H2 d' H). lia.
  - subst m. split; [by rewrite lookup_insert_eq|]. intros d' H. destruct (decide (d = d')) as [<- | ?]; [lia|].
    rewrite lookup_insert_ne, lookup_empty in H by done. by destruct H.
Qed.

Lemma due_none m d l : (forall r, r ∈ l -> in_merchant r = m -> d < in_date r) -> due m d l = 0.
Proof.
  unfold due. induction l as [|r l IH]; intros H; [done|]. rewrite sum_if_cons, IH by (intros; apply H; [by right|done]).
  unfold until_day. destruct (String.eqb_spec (in_merchant r) m) as [E|]; [|done].
  specialize (H r ltac:(by left) E). by rewrite (proj2 (Z.leb_gt _ _)).
Qed.

Lemma baseline_due m l c day :
  (forall d b, d < day -> c !! d = Some b -> b_closing b = due m d l) ->
  (forall r, r ∈ l -> in_merchant r = m -> is_Some (c !! in_date r)) -> baseline c day = due m (day - 1) l.
Proof.
  intros Hc Hr. unfold baseline. set (earlier := filter _ c).
  assert (forall d b, earlier !! d = Some b <-> c !! d = Some b /\ d < day) as He
    by (intros d b; unfold earlier; by rewrite map_lookup_filter_Some).
  pose proof (max_day_spec earlier) as Hm. destruct (max_day earlier) as [x|].
  - destruct Hm as [[b Hb] Hm]. rewrite Hb. apply He in Hb as [Hb Hx]. rewrite (Hc x b Hx Hb). symmetry.
    apply due_skip; [lia|]. intros r Hin Em. destruct (Z.leb_spec (in_date r) x); [by left|right].
    destruct (Z.ltb_spec (in_date r) day) as [Hlt|]; [|lia]. destruct (Hr r Hin Em) as [b' Hb'].
    specialize (Hm (in_date r) (ex_intro _ b' (proj2 (He _ _) (conj Hb' Hlt)))). lia.
  - symmetry. apply due_none. intros r Hin Em. destruct (Z.ltb_spec (in_date r) day) as [Hlt|]; [|lia].
    destruct (Hr r Hin Em) as [b' Hb']. pose proof (proj2 (He _ _) (conj Hb' Hlt)) as K. by rewrite Hm, lookup_empty in K.
Qed.

(** ** Closing a run of days *)
Lemma reclose_due m l n : forall from running c c',
  reclose (seqZ from (Z.of_nat n)) running c = Ok c' ->
  (forall d, from <= d < from + Z.of_nat n -> exists b, c !! d = Some b /\ b_net b = sum_if net_of (of_day m d) l) ->
  running = due m (from - 1) l ->
  forall d b, c' !! d = Some b ->
    if decide (from <= d < from + Z.of_nat n) then b_closing b = due m d l else c !! d = Some b.
Proof.
  induction n as [|n IH]; intros from running c c' H Hc Hrun d b Hb.
  { cbn in H. injection H as <-. rewrite decide_False by lia. done. }
  rewrite seqZ_cons in H by lia. replace (Z.pred (Z.of_nat (S n))) with (Z.of_nat n) in H by lia. cbn [reclose] in H.
  destruct (Hc from ltac:(lia)) as (b0 & Eb & En). rewrite Eb, En, Hrun in H.
  assert (due m (from - 1) l + sum_if net_of (of_day m from) l = due m (Z.succ from - 1) l) as Ed
    by (replace (Z.succ from - 1) with from by lia; by rewrite <- due_step).
  rewrite Ed in H.
  destruct (b_closing b0 =? _) eqn:Eq.
  - eapply (IH _ _ _ _ H) in Hb; [|intros d' Hd; apply Hc; lia|done].
    case_decide; [rewrite decide_True by lia; done|]. case_decide; [|done].
    assert (d = from) as -> by lia. rewrite Eb in Hb. injection Hb as <-. apply Z.eqb_eq in Eq.
    by replace (Z.succ from - 1) with from in Eq by lia.
  - destruct (_ || _); [done|]. eapply (IH _ _ _ _ H) in Hb; [| |done].
    + case_decide; [rewrite decide_True by lia; done|]. case_decide.
      * assert (d = from) as -> by lia. rewrite lookup_insert_eq in Hb. injection Hb as <-. cbn. f_equal. lia.
      * by rewrite lookup_insert_ne in Hb by lia.
    + intros d' Hd. rewrite lookup_insert_ne by lia. apply Hc. lia.
Qed.

(** ** Timely histories *)
Section Timely.
Context (sha256 : string -> list Z).

(** The event's day has a printed form, as every parsed one_event, and is less than
    [maxRecomputeSpanDays] before the merchant's last day. *)
Definition timely (e : EntryConfirmed) (db : cdb) : Prop :=
  printable_date (day_of e) /\
  match max_day (days_of (MerchantID (Canonical e)) db) with
  | Some last => last - day_of e < maxRecomputeSpanDays
  | None => True
  end.

Inductive timely_step (db db' : cdb) : Prop :=
  | timely_apply env e r : timely e db -> Apply sha256 env e db = (r, db') -> timely_step db db'
  | timely_resume env m r : ResumeRecompute env m db = (r, db') -> timely_step db db'.

Record closed_inv (db : cdb) : Prop := {
  ci_proj : proj_inv db;
  ci_closing : forall m d b, days_of m db !! d = Some b -> b_closing b = due m d (inbox db);
  ci_jobs : forall j, j ∈ jobs db -> j_status j = Completed }.

Lemma count_row c m l r : (forall d, totals_at c d = day_totals m d l) -> r ∈ l -> in_merchant r = m -> is_Some (c !! in_date r).
Proof.
  intros Ht Hr Em. specialize (Ht (in_date r)). unfold totals_at, day_totals in Ht.
  destruct (c !! in_date r); [done|]. injection Ht as _ _ _ Hone.
  assert (forall k, r ∈ k -> 1 <= sum_if one_event (of_day m (in_date r)) k) as H; [|specialize (H l Hr); lia].
  clear -Em. assert (forall k, 0 <= sum_if one_event (of_day m (in_date r)) k) as H0
    by (intros k; unfold sum_if; apply sumZ_nonneg; done).
  induction k as [|x k IH]; intros Hin; [by apply elem_of_nil in Hin|]. rewrite sum_if_cons. specialize (H0 k).
  apply elem_of_cons in Hin as [<- | Hin].
  - unfold of_day at 1. rewrite Em, String.eqb_refl, Z.eqb_refl. cbn [andb].
    change (one_event r) with 1. lia.
  - specialize (IH Hin). destruct (of_day _ _ x); [change (one_event x) with 1|]; lia.
Qed.

Lemma due_new m d l e : d < day_of e \/ MerchantID e <> m -> due m d (l ++ [row_of_event sha256 e]) = due m d l.
Proof.
  intros H. unfold due. rewrite sum_if_snoc. unfold until_day at 2. cbn [in_merchant in_date row_of_event].
  fold (day_of e). destruct H as [H|H].
  - rewrite (proj2 (Z.leb_gt _ _)) by done. rewrite andb_false_r. lia.
  - apply String.eqb_neq in H. rewrite H. cbn. lia.
Qed.

Lemma max_day_insert c d b : max_day (<[d := b]> c) = Some (match max_day c with Some x => Z.max x d | None => d end).
Proof.
  pose proof (max_day_spec (<[d := b]> c)) as H1. pose proof (max_day_spec c) as H2.
  destruct (max_day (<[d := b]> c)) as [y|]; [|by pose proof (lookup_insert_eq c d b) as K; rewrite H1, lookup_empty in K].
  f_equal. destruct H1 as [[by_ Hy] H1]. assert (d <= y) by (apply H1; by rewrite lookup_insert_eq).
  destruct (max_day c) as [x|].
  - destruct H2 as [Hx H2]. assert (x <= y).
    { apply H1. destruct (decide (d = x)) as [-> | ?]; [by rewrite lookup_insert_eq|by rewrite lookup_insert_ne]. }
    destruct (decide (d = y)); [lia|]. rewrite lookup_insert_ne in Hy by done.
    specialize (H2 y (mk_is_Some _ _ Hy)). lia.
  - subst c. destruct (decide (d = y)); [done|]. by rewrite lookup_insert_ne, lookup_empty in Hy.
Qed.

(** One application closes its whole span at once. *)
Lemma applied_closing e clk db db' : proj_inv db -> proj_inv db' -> printable_date (day_of e) ->
  (forall m d b, days_of m db !! d = Some b -> b_closing b = due m d (inbox db)) ->
  (forall last, max_day (days_of (MerchantID e) db) = Some last -> last - day_of e < maxRecomputeSpanDays) ->
  applied e clk (enqueued sha256 e db) db' ->
  (forall m d b, days_of m db' !! d = Some b -> b_closing b = due m d (inbox db')) /\
  ((forall j, j ∈ jobs db -> j_status j = Completed) -> forall j, j ∈ jobs db' -> j_status j = Completed).
Proof.
  intros Hi Hi' Hp Hc Ht [Ai _ Ao (row & from & thr & T1 & T2 & T3 & T4 & T5 & T6) _].
  change (days_of ?m (enqueued sha256 e db)) with (days_of m db) in *. cbn [inbox jobs next_job enqueued] in *.
  rewrite parse_format_date in T3 by done. injection T3 as <-.
  set (m := MerchantID e) in *. set (day := day_of e) in *. set (job := first_job e (next_job db) day thr) in *.
  assert (day <= thr < day + maxRecomputeSpanDays) as Hspan.
  { rewrite max_day_insert in T4. injection T4 as <-. unfold maxRecomputeSpanDays in *.
    destruct (max_day (days_of m db)) as [x|]; [specialize (Ht x eq_refl)|]; lia. }
  assert (block_through job = thr) as Eb.
  { unfold block_through. cbn [rj_Through rj_Next job first_job]. unfold maxRecomputeSpanDays in *.
    destruct (Z.ltb_spec thr (day + (31 - 1))); lia. }
  assert (forall d, totals_at (filled job (<[day:=row]> (days_of m db))) d = day_totals m d (inbox db')) as Htot.
  { intros d. rewrite <- (pi_totals _ Hi'). unfold closed in T5. apply reclose_keeps in T5. symmetry. apply T5. }
  assert (forall d b, filled job (<[day:=row]> (days_of m db)) !! d = Some b -> day <= d <= thr \/
    (d < day /\ b_closing b = due m d (inbox db'))) as Hrows.
  { intros d b Hb. unfold filled in Hb. rewrite fill_lookup, Eb in Hb. cbn [rj_Next job first_job] in Hb.
    destruct (decide (day <= d <= thr)) as [|Hout]; [by left|right].
    rewrite bool_decide_eq_false_2 in Hb by (unfold date_range; rewrite elem_of_seqZ; lia).
    destruct (<[day:=row]> (days_of m db) !! d) as [b'|] eqn:Ed; [injection Hb as <-|done].
    pose proof (max_day_spec (<[day:=row]> (days_of m db))) as Hm. rewrite T4 in Hm. destruct Hm as [_ Hm].
    specialize (Hm d (mk_is_Some _ _ Ed)). split; [lia|]. rewrite lookup_insert_ne in Ed by lia.
    rewrite (Hc m d b' Ed), Ai. symmetry. apply due_new. left. lia. }
  split.
  - intros m' d b Hb. destruct (decide (m' = m)) as [-> | Hm'].
    + pose proof T5 as H. unfold closed, date_range in H. rewrite Eb in H. cbn [rj_Next job first_job] in H.
      replace (thr - day + 1) with (Z.of_nat (Z.to_nat (thr - day + 1))) in H by lia.
      eapply (reclose_due m (inbox db') _ _ _ _ _ H) in Hb.
      * rewrite Z2Nat.id in Hb by lia. case_decide; [done|]. apply Hrows in Hb. destruct Hb as [|[_ Hb]]; [lia|done].
      * rewrite Z2Nat.id by lia. intros d' Hd'. assert (is_Some (filled job (<[day:=row]> (days_of m db)) !! d')) as [b' Hb'].
        { unfold filled. rewrite fill_lookup, Eb. cbn [rj_Next job first_job]. destruct (_ !! d'); [done|].
          rewrite bool_decide_eq_true_2; [done|]. unfold date_range. rewrite elem_of_seqZ. lia. }
        exists b'. split; [done|]. specialize (Htot d'). unfold totals_at, day_totals in Htot. rewrite Hb' in Htot. congruence.
      * apply baseline_due.
        -- intros d' b' Hd' Hb'. apply Hrows in Hb' as [|[_ Hb']]; [lia|done].
        -- intros r Hr Em. by eapply count_row.
    + rewrite Ao in Hb by done. rewrite Ai, due_new by (by right). by apply Hc.
  - intros Hj j Hin. rewrite T6 in Hin. apply list_elem_of_fmap in Hin as (j0 & -> & Hin). unfold moved_job.
    rewrite Eb. cbn [rj_Through rj_ID job first_job]. rewrite Z.ltb_irrefl. destruct (j_id j0 =? _) eqn:Ej; [done|].
    apply elem_of_app in Hin as [Hin|Hin%list_elem_of_singleton]; [by apply Hj|].
    subst j0. cbn in Ej. by rewrite Z.eqb_refl in Ej.
Qed.

Lemma day_of_canonical e : day_of (Canonical e) = day_of e.
Proof. done. Qed.

Lemma timely_step_inv db db' : closed_inv db -> timely_step db db' -> closed_inv db'.
Proof.
  intros [Hi Hc Hj] Hs.
  assert (proj_inv db') as Hi' by (eapply (proj_step_inv sha256); [exact Hi|];
    destruct Hs as [env e r _ H|env m r H]; [exact (step_apply _ _ _ env e r H)|exact (step_resume _ _ _ env m r H)]).
  destruct Hs as [env e r [Hp Ht] H|env m r H].
  - apply Apply_effect in H as [-> | (db1 & Hi1 & Ei & Eb & Ej & _ & H)]; [done| |done].
    assert (forall m, days_of m db1 = days_of m db) as Ed by (intros m; unfold days_of; by rewrite Eb).
    destruct (known (stored e) db).
    + destruct H as [-> _]. split; [done| |by rewrite Ej]. intros m d b. rewrite Ed, Ei. apply Hc.
    + destruct H as (_ & Ha & Hv & _). rewrite stored_canonical in Ha by done.
      apply applied_closing in Ha as [A B]; [|done|done|done| |].
      * split; [done|done|]. apply B. by rewrite Ej.
      * intros m d b. rewrite Ed, Ei. apply Hc.
      * intros last. rewrite Ed. intros El. rewrite El in Ht. done.
  - apply Resume_cases in H as [-> | (job & c & _ & (j & Hn & _) & _)]; [done|].
    unfold next_job_row in Hn. apply head_Some in Hn as [tl Hn].
    assert (j ∈ sort_by job_before (List.filter (resumable (to_lower m)) (jobs db))) as [Hin Hr]%sort_by_in%list_elem_of_In%List.filter_In
      by (rewrite Hn; by left).
    unfold resumable in Hr. rewrite (Hj j) in Hr by by apply list_elem_of_In. by rewrite andb_false_r in Hr.
Qed.

Lemma timely_is_step db db' : timely_step db db' -> proj_step sha256 db db'.
Proof. intros [env e r _ H|env m r H]; [by eapply step_apply|by eapply step_resume]. Qed.

(** C22: as long as every event applied is less than 31 days before its
    merchant's last day, whatever the order inside that span, the failures
    and the resumes in between, every closing balance on record is the sum of
    the credits less the debits of all the merchant's events up to that day,
    every day with an event has a balance, and nothing is left to recompute. *)
Theorem closing_balances db : steps timely_step empty_cdb db ->
  (forall m d b, days_of m db !! d = Some b -> b_closing b = due m d (inbox db)) /\
  (forall r, r ∈ inbox db -> is_Some (days_of (in_merchant r) db !! in_date r)) /\
  (forall m, HasPendingRecompute m db = false).
Proof.
  intros H. assert (closed_inv db) as [Hi Hc Hj].
  { revert H. apply steps_invariant; [apply timely_step_inv|]. split; [apply inv_empty| |].
    - intros m d b. unfold days_of. cbn. by rewrite lookup_empty.
    - by intros j Hin%elem_of_nil. }
  split; [done|]. split.
  - intros r Hr. eapply count_row; [apply Hi|done|done].
  - intros m. unfold HasPendingRecompute. apply not_true_is_false. intros (j & Hin & Hp)%existsb_exists.
    unfold pending_job in Hp. rewrite (Hj j) in Hp by by apply list_elem_of_In. by rewrite andb_false_r in Hp.
Qed.
End Timely.

(** ** Beyond the span *)
Definition sample_merchant : string := to_lower (MerchantID sample_event).

(** An event of day 40, then one of day 0 (its recompute stops at day 30 and
    is queued up to day 40), then one of day 41, then the queue is resumed. *)
Definition late_history : list EntryConfirmed := [event_at "1" 1 40 500; event_at "2" 2 0 100; event_at "3" 3 41 7].
Definition late_db : cdb :=
  snd (ResumeRecompute (quiet 0) sample_merchant (apply_all late_history)).

(** Outside that span a closing balance can stay wrong: three events are
    applied in position order without any failure, the queued recompute is
    resumed to its end, no position is missing and nothing is pending, and
    yet the last day closes at 507 while its events sum to 607.  The third
    event is closed over a balance the queued job had not reached, and the job
    ends at the last day known when it was created. *)
Theorem late_event_stale_closing :
  steps (proj_step sample_digest) empty_cdb late_db /\
  option_map p_gap (progress late_db !! sample_merchant) = Some None /\
  HasPendingRecompute sample_merchant late_db = false /\
  next_job_row sample_merchant late_db = None /\
  option_map b_closing (days_of sample_merchant late_db !! 739041) = Some 507 /\
  due sample_merchant 739041 (inbox late_db) = 607.
Proof.
  split.
  - unfold late_db. eapply steps_snoc; [apply (apply_all_steps late_history), steps_refl|].
    eapply step_resume. apply surjective_pairing.
  - repeat split; vm_compute; reflexivity.
Qed.

Lemma closing_balances_witness :
  let db := apply_all [event_at "1" 1 20 500; event_at "2" 2 0 100] in
  option_map b_closing (days_of sample_merchant db !! 739020) = Some 600.
Proof.
  cbn zeta. set (db := apply_all _). assert (steps (timely_step sample_digest) empty_cdb db) as H.
  { unfold db, apply_all. cbn [fold_left]. eapply steps_cons; [|eapply steps_cons; [|apply steps_refl]].
    - eapply (timely_apply _ _ _ (quiet 0) (event_at "1" 1 20 500)); [|apply surjective_pairing].
      split; [vm_compute; done|]. vm_compute. done.
    - eapply (timely_apply _ _ _ (quiet 0) (event_at "2" 2 0 100)); [|apply surjective_pairing].
      split; [vm_compute; done|]. vm_compute. done. }
  destruct (closing_balances sample_digest db H) as (Hc & _ & _).
  assert (is_Some (days_of sample_merchant db !! 739020)) as [b Hb] by (vm_compute; by eexists).
  rewrite Hb. cbn. rewrite (Hc _ _ _ Hb). vm_compute. reflexivity.
Defined.
