(* ===== verification/Query.v ===== *)
(** * The consolidation query

    services/consolidation/internal/application/query.go, the handler of
    adapters/inbound/grpc/server.go and the row queries of
    adapters/outbound/postgres/store.go they use.

    The three reads are separate statements of the pool, so each sees a
    database of its own.  [uuid_in] is the input conversion of a uuid
    parameter, [error_text] is [error.Error()]; the Ledger's watermark is an
    input.  Unset dates are the zero time, day 0. *)

From S2P Require Import Prelude.
From S2P Require Import Sorting.
From S2P Require Import GoStrings.
From S2P Require Import GoTime.
From S2P Require Import LedgerDomain.
From S2P Require Import Auth.
From S2P Require Import ConsolidationDomain.
From S2P Require Import Projection.
From S2P Require Import ProjectionInvariant.
From S2P Require Import ProjectionRetry.
From S2P Require Import ProjectionClosing.
From Stdlib Require String.
From Stdlib Require Import ZArith Lia Ascii.
Open Scope string_scope.
Open Scope Z_scope.

(** ** Messages *)
Inductive ConsolidationState : Type := UNSPECIFIED | UPDATED | PROCESSING | DELAYED.
Record DailyBalanceData : Type := {
  Credits : string; Debits : string; Net : string; d_EntryCount : Z; ClosingBalance : string; SnapshotAt : Z }.
Record DailyBalanceMsg : Type := {
  m_BusinessDate : string; m_SourcePosition : Z; m_AppliedPosition : Z; State : ConsolidationState;
  Reason : string; Definitive : bool; Data : option DailyBalanceData }.

Section Query.
Context (uuid_in : string -> result string).

(** ** The store's queries *)
Definition on_rows {A} (operation : string) (fault : option error) (m : string) (f : string -> result A) : result A :=
  match fault with
  | Some e => Err (EWrap operation e)
  | None => match uuid_in m with Err e => Err (EWrap operation e) | Ok u => f u end
  end.
Definition query_Balances (fault : option error) (m : string) (from through : Z) (db : cdb) : result (list DailyBalance) :=
  if String.eqb m "" || (through <? from) then Err (EMsg "merchant and valid balance range are required")
  else on_rows "list daily balances" fault m (fun u => Balances u from through db).
Definition query_Progress (fault : option error) (m : string) (db : cdb) : result MerchantProgress :=
  on_rows "read merchant progress" fault m (fun u => Progress u db).
Definition query_HasPendingRecompute (fault : option error) (m : string) (db : cdb) : result bool :=
  on_rows "read recompute pending state" fault m (fun u => Ok (HasPendingRecompute u db)).

(** ** GetDailyBalances *)
Record query_env : Type := {
  balances_db : cdb; balances_fault : option error; progress_db : cdb; progress_fault : option error;
  jobs_db : cdb; jobs_fault : option error;
  (** GetMerchantWatermark: the Ledger's position and when it was observed *)
  watermark : result (Z * Z);
  (** time.Since and the time.Now of each row *)
  since_now : Z; row_now : Z -> Z }.

Definition no_progress : MerchantProgress :=
  {| mp_MerchantID := ""; SourcePosition := 0; AppliedPosition := 0; FirstGap := None; UpdatedAt := 0 |}.

Record classification : Type := {
  c_State : ConsolidationState; c_Reason : string; c_Definitive : bool; c_Source : Z; c_Applied : Z }.

Definition classify (env : query_env) (progress : MerchantProgress) (pendingRecompute : bool) : classification :=
  let source := wrapu64 (SourcePosition progress) in
  let applied := wrapu64 (AppliedPosition progress) in
  match watermark env with
  | Err _ => {| c_State := DELAYED; c_Reason := "source_unverifiable"; c_Definitive := false;
                c_Source := source; c_Applied := applied |}
  | Ok (sourcePos, observedAt) =>
      let source := if source <? sourcePos then sourcePos else source in
      if negb (pendingRecompute || HasGap progress || (applied <? source))
      then {| c_State := UPDATED; c_Reason := ""; c_Definitive := true; c_Source := source; c_Applied := applied |}
      else {| c_State := if 30 * second <? since_now env - observedAt then DELAYED else PROCESSING;
              c_Reason := ""; c_Definitive := false; c_Source := source; c_Applied := applied |}
  end.

Definition balance_data (env : query_env) (progress : MerchantProgress) (d : Z) (b : DailyBalance) : DailyBalanceData :=
  {| Credits := fmt_d (CreditsMinor b); Debits := fmt_d (DebitsMinor b); Net := fmt_d (NetMinor b);
     d_EntryCount := wrapu64 (EntryCount b); ClosingBalance := fmt_d (ClosingBalanceMinor b);
     SnapshotAt := if is_zero_time (UpdatedAt progress) then row_now env d else UpdatedAt progress |}.

(** The map by printed date. *)
Definition by_date (balances : list DailyBalance) : gmap string DailyBalance :=
  fold_left (fun acc b => <[format_date (db_BusinessDate b) := b]> acc) balances ∅.

(** The interface the service reads through, and its two implementations. *)
Record QueryStore : Type := {
  qs_Ready : result unit;
  qs_Balances : string -> Z -> Z -> result (list DailyBalance);
  qs_Progress : string -> result MerchantProgress;
  qs_HasPendingRecompute : string -> result bool }.
Definition postgres_store (ready : result unit) (env : query_env) : QueryStore :=
  {| qs_Ready := ready;
     qs_Balances m from through := query_Balances (balances_fault env) m from through (balances_db env);
     qs_Progress m := query_Progress (progress_fault env) m (progress_db env);
     qs_HasPendingRecompute m := query_HasPendingRecompute (jobs_fault env) m (jobs_db env) |}.
Definition MockQueryStore : QueryStore :=
  {| qs_Ready := Ok tt; qs_Balances _ _ _ := Ok []; qs_Progress _ := Ok no_progress; qs_HasPendingRecompute _ := Ok false |}.

Definition service_GetDailyBalances (store : QueryStore) (env : query_env) (merchantID : string) (from through : Z)
    : result (list DailyBalanceMsg) :=
  balances ← qs_Balances store merchantID from through;
  let progress := match qs_Progress store merchantID with Ok p => p | Err _ => no_progress end in
  pendingRecompute ← qs_HasPendingRecompute store merchantID;
  let c := classify env progress pendingRecompute in
  match watermark env with
  | Err werr =>
      if (Z.of_nat (length balances) =? 0) && is_zero_time (UpdatedAt progress) then Err werr else Ok tt
  | Ok _ => Ok tt
  end ≫= fun _ =>
  Ok (map (fun d =>
    {| m_BusinessDate := format_date d; m_SourcePosition := c_Source c; m_AppliedPosition := c_Applied c;
       State := c_State c; Reason := c_Reason c; Definitive := c_Definitive c;
       Data := option_map (balance_data env progress d) (by_date balances !! format_date d) |})
    (date_range from through)).
Definition GetDailyBalances (env : query_env) : string -> Z -> Z -> result (list DailyBalanceMsg) :=
  service_GetDailyBalances (postgres_store (Ok tt) env) env.

(** ** server.go *)
Inductive code : Type := Unauthenticated | InvalidArgument | Unavailable.
Inductive response : Type := Response (balances : list DailyBalanceMsg) | Status (c : code) (message : string).
Context (error_text : error -> string).

Definition optional_day (s : string) : result Z := if String.eqb s "" then Ok 0 else parse_date s.

Definition handle_GetDailyBalances (store : QueryStore) (env : query_env) (identity : option Identity) (startDate endDate : string) : response :=
  match identity with
  | None => Status Unauthenticated "missing identity"
  | Some i =>
      match optional_day startDate with
      | Err e => Status InvalidArgument ("invalid start_date: " +:+ error_text e)
      | Ok from =>
          match optional_day endDate with
          | Err e => Status InvalidArgument ("invalid end_date: " +:+ error_text e)
          | Ok through =>
              match service_GetDailyBalances store env (Auth.MerchantID i) from through with
              | Err e => Status Unavailable ("failed to get balances: " +:+ error_text e)
              | Ok balances => Response balances
              end
          end
      end
  end.

(** ** The mock store never passes for the projection

    An API started without a database answers no balance; it calls a day
    definitive only for a merchant without entries, and nothing when the
    Ledger's watermark is unavailable. *)
Theorem mock_store_claims env m from through msgs : service_GetDailyBalances MockQueryStore env m from through = Ok msgs ->
  exists source observed, watermark env = Ok (source, observed) /\
    forall x, x ∈ msgs -> Data x = None /\ m_AppliedPosition x = 0 /\ (Definitive x = true <-> source <= 0).
Proof.
  unfold service_GetDailyBalances, classify. cbn [MockQueryStore qs_Balances qs_Progress qs_HasPendingRecompute mbind result_bind].
  destruct (watermark env) as [[source observed]|]; [|done]. cbn [mbind result_bind]. intros [= <-].
  exists source, observed. split; [done|]. intros x (d & <- & _)%list_elem_of_In%in_map_iff. cbn -[Z.ltb negb orb second].
  change (HasGap no_progress) with false. change (wrapu64 0) with 0. unfold by_date. cbn [fold_left orb].
  rewrite lookup_empty. destruct (Z.ltb_spec 0 source) as [H|H].
  - rewrite (proj2 (Z.ltb_lt 0 source)) by done. cbn. splits; [done..|]. split; [done|lia].
  - change (0 <? 0) with false. by splits.
Qed.

(** ** Lemmas *)
Lemma wrapu64_id z : 0 <= z <= int64_max -> wrapu64 z = z.
Proof. unfold wrapu64, int64_max. intros H. apply Z.mod_small. lia. Qed.

Definition day_row (u : string) (c : calendar) (d : Z) : option DailyBalance :=
  match c !! d with
  | Some b => Some {| db_MerchantID := u; db_BusinessDate := d; CreditsMinor := b_credits b; DebitsMinor := b_debits b;
                      NetMinor := b_net b; EntryCount := b_count b; ClosingBalanceMinor := b_closing b; Version := b_version b |}
  | None => None
  end.

Lemma year_of_days_mono a b : a <= b -> year_of_days a <= year_of_days b.
Proof.
  intros H. pose proof (year_of_days_spec a). pose proof (year_of_days_spec b).
  destruct (Z.le_gt_cases (year_of_days a) (year_of_days b)) as [|Hgt]; [done|].
  pose proof (days_before_year_mono (year_of_days b) (year_of_days a) Hgt). lia.
Qed.

Lemma printable_between a b x : printable_date a -> printable_date b -> a <= x <= b -> printable_date x.
Proof.
  unfold printable_date. intros Ha Hb Hx. pose proof (year_of_days_mono a x ltac:(lia)).
  pose proof (year_of_days_mono x b ltac:(lia)). lia.
Qed.

Lemma by_date_fold u c days d (acc : gmap string DailyBalance) : (forall x, x ∈ days -> printable_date x) -> printable_date d ->
  fold_left (fun acc b => <[format_date (db_BusinessDate b) := b]> acc) (omap (day_row u c) days) acc !! format_date d =
  if decide (d ∈ days) then match day_row u c d with Some b => Some b | None => acc !! format_date d end
  else acc !! format_date d.
Proof.
  revert acc. induction days as [|x days IH]; intros acc Hx Hd; [done|].
  assert (forall y, y ∈ days -> printable_date y) as Hdays by (intros y Hy; apply Hx; by right).
  cbn [omap list_omap]. destruct (day_row u c x) as [b|] eqn:Ex.
  - cbn [fold_left]. rewrite IH by done.
    assert (db_BusinessDate b = x) as Eb by (unfold day_row in Ex; destruct (c !! x); [by injection Ex as <-|done]).
    rewrite Eb. destruct (decide (d = x)) as [-> | Hne].
    + rewrite lookup_insert_eq, Ex, (decide_True (P := x ∈ x :: days)) by by left. by case_decide.
    + rewrite lookup_insert_ne by (intros E%format_date_inj; [done|apply Hx; by left|done]).
      destruct (decide (d ∈ days)); [rewrite decide_True by (by right); done|].
      rewrite decide_False; [done|]. by intros [?|?]%elem_of_cons.
  - rewrite IH by done. destruct (decide (d = x)) as [-> | Hne].
    + rewrite Ex, (decide_True (P := x ∈ x :: days)) by by left. by case_decide.
    + destruct (decide (d ∈ days)); [rewrite decide_True by (by right); done|].
      rewrite decide_False; [done|]. by intros [?|?]%elem_of_cons.
Qed.

Lemma by_date_range u from through db d : printable_date from -> printable_date through -> from <= d <= through ->
  by_date (omap (day_row u (days_of u db)) (date_range from through)) !! format_date d = day_row u (days_of u db) d.
Proof.
  intros Hf Ht Hd. unfold by_date. rewrite by_date_fold.
  - rewrite decide_True by (unfold date_range; rewrite elem_of_seqZ; lia). rewrite lookup_empty. by case_match.
  - intros x Hx. unfold date_range in Hx. rewrite elem_of_seqZ in Hx. apply (printable_between from through); [done..|lia].
  - by apply (printable_between from through).
Qed.
End Query.

(** What a definitive day shows. *)
Record shows_day (l : list inbox_row) (u : string) (d : Z) (closing_due : Prop) (data : option DailyBalanceData) : Prop := {
  sd_none : data = None -> forall r, r ∈ l -> in_merchant r = u -> in_date r <> d;
  sd_some : forall x, data = Some x ->
    Credits x = fmt_d (sum_if credit_of (of_day u d) l) /\ Debits x = fmt_d (sum_if debit_of (of_day u d) l) /\
    Net x = fmt_d (sum_if net_of (of_day u d) l) /\ d_EntryCount x = wrapu64 (sum_if one_event (of_day u d) l) /\
    (closing_due -> ClosingBalance x = fmt_d (due u d l)) }.

Lemma classify_definitive env p pending : 0 <= AppliedPosition p <= SourcePosition p -> SourcePosition p <= int64_max ->
  c_Definitive (classify env p pending) = true ->
  exists pos t, watermark env = Ok (pos, t) /\ pending = false /\
    c_Source (classify env p pending) = Z.max (SourcePosition p) pos /\
    c_Applied (classify env p pending) = AppliedPosition p /\
    c_Source (classify env p pending) <= AppliedPosition p.
Proof.
  intros Ha Hs. unfold classify. rewrite !wrapu64_id by lia. destruct (watermark env) as [[pos t]|]; [|done].
  destruct (negb _) eqn:E; [|done]. intros _. cbn [c_Source c_Applied]. exists pos, t. bool_to_prop.
  split; [done|]. split; [done|]. destruct (Z.ltb_spec (SourcePosition p) pos); lia.
Qed.

(** The progress the service goes on with: what it reads, or nothing when the
    read fails, since the handler drops that error. *)
Definition progress_seen uuid_in (env : query_env) (m : string) : MerchantProgress :=
  match query_Progress uuid_in (progress_fault env) m (progress_db env) with Ok p => p | Err _ => no_progress end.

Lemma query_progress_bounds uuid_in env m u : proj_inv (progress_db env) -> uuid_in m = Ok u ->
  (forall r, r ∈ inbox (progress_db env) -> in_position r <= int64_max) ->
  let p := progress_seen uuid_in env m in
  0 <= AppliedPosition p <= SourcePosition p /\ SourcePosition p <= int64_max /\
  (forall q, 1 <= q <= AppliedPosition p -> received u (inbox (progress_db env)) q = true) /\
  (progress_fault env = None -> forall q, received u (inbox (progress_db env)) q = true -> q <= SourcePosition p).
Proof.
  intros Hi Hu Hr. unfold progress_seen, query_Progress, on_rows. rewrite Hu.
  destruct (progress_fault env); [cbn; unfold int64_max; split; [lia|split; [lia|split; [intros; lia|done]]]|].
  unfold Progress, read_progress. pose proof (pi_progress _ Hi u) as Hp. destruct (progress (progress_db env) !! u) as [p|].
  - cbn. destruct Hp as [Hb Hs Hrun [Hst _] _]. split; [lia|]. split; [|done].
    destruct Hs as [-> | Hs]; [unfold int64_max; lia|]. apply existsb_exists in Hs as (r & Hin & Er).
    apply andb_true_iff in Er as [_ Er%Z.eqb_eq]. rewrite <- Er. apply Hr. by apply list_elem_of_In.
  - cbn. unfold int64_max. split; [lia|]. split; [lia|]. split; [intros; lia|]. intros _ q Hq. by rewrite Hp in Hq.
Qed.

(** C23: what is called definitive is complete: when the three reads see one
    database, a day answered as definitive carries, as its source position, the
    greater of the Ledger's observed position and the store's own, and, as its
    applied position, the store's, which has reached it; no recompute is
    pending; every position up to the one it carries has been received, and
    none beyond it, if the store's progress could be read; and the day shows
    exactly the credits, debits, net and count of the merchant's events of that
    day, or no data when there are none; its closing balance is the sum of all
    events up to that day when the events were timely. *)
Theorem definitive_sound sha256 uuid_in env m u from through msgs d msg :
  steps (proj_step sha256) empty_cdb (balances_db env) ->
  progress_db env = balances_db env -> jobs_db env = balances_db env ->
  (forall r, r ∈ inbox (balances_db env) -> in_position r <= int64_max) ->
  uuid_in m = Ok u -> printable_date from -> printable_date through -> from <= d <= through ->
  GetDailyBalances uuid_in env m from through = Ok msgs ->
  msg ∈ msgs -> m_BusinessDate msg = format_date d -> Definitive msg = true ->
  (exists pos t, watermark env = Ok (pos, t) /\ pos <= m_SourcePosition msg /\
     m_SourcePosition msg = Z.max (SourcePosition (progress_seen uuid_in env m)) pos) /\
  m_AppliedPosition msg = AppliedPosition (progress_seen uuid_in env m) /\
  m_SourcePosition msg <= m_AppliedPosition msg /\
  HasPendingRecompute u (balances_db env) = false /\
  (forall q, 1 <= q <= m_SourcePosition msg -> received u (inbox (balances_db env)) q = true) /\
  (progress_fault env = None -> forall q, received u (inbox (balances_db env)) q = true -> q <= m_SourcePosition msg) /\
  shows_day (inbox (balances_db env)) u d (steps (timely_step sha256) empty_cdb (balances_db env)) (Data msg).
Proof.
  intros Hs Ep Ej Hr Hu Hf Ht Hd H Hin Edate Hdef. unfold GetDailyBalances, service_GetDailyBalances in H. cbn [qs_Balances qs_Progress qs_HasPendingRecompute postgres_store] in H. set (db := balances_db env) in *.
  pose proof (proj_reachable _ _ Hs) as Hi.
  destruct (query_Balances uuid_in (balances_fault env) m from through db) as [rows|] eqn:Eb; cbn [mbind result_bind] in H; [|discriminate H].
  destruct (query_HasPendingRecompute _ _ _ _) as [pending|] eqn:Eq; cbn [mbind result_bind] in H; [|discriminate H].
  change (match query_Progress _ _ _ _ with Ok p => p | Err _ => no_progress end) with (progress_seen uuid_in env m) in H.
  destruct (query_progress_bounds uuid_in env m u) as (B1 & B2 & B3 & B4); [by rewrite Ep|done|by rewrite Ep|].
  rewrite Ep in B3, B4. fold db in B3, B4. set (p := progress_seen uuid_in env m) in *.
  destruct (match watermark env with Ok _ => _ | Err _ => _ end) as [[]|]; cbn [mbind result_bind] in H; [|discriminate H].
  injection H as <-. apply list_elem_of_fmap in Hin as (d' & -> & Hd'). cbn [m_BusinessDate m_SourcePosition m_AppliedPosition Definitive Data] in *.
  unfold date_range in Hd'. rewrite elem_of_seqZ in Hd'.
  apply format_date_inj in Edate as ->; [|apply (printable_between from through); [done..|lia]|by apply (printable_between from through)].
  destruct (classify_definitive env p pending B1 B2 Hdef) as (pos & t & W1 & -> & W3 & W4 & W5).
  split; [exists pos, t; split; [done|split; [lia|done]]|]. split; [done|]. split; [lia|]. split.
  { unfold query_HasPendingRecompute, on_rows in Eq. rewrite Ej in Eq. destruct (jobs_fault env); [done|].
    rewrite Hu in Eq. by injection Eq. }
  split; [intros q Hq; apply B3; lia|]. split; [intros Hp q Hq; pose proof (B4 Hp q Hq); lia|].
  unfold query_Balances, on_rows in Eb. destruct (_ || _); [done|]. destruct (balances_fault env); [done|].
  rewrite Hu in Eb. unfold Balances in Eb. destruct (_ || _); [done|]. injection Eb as <-.
  change (omap _ (date_range from through)) with (omap (day_row u (days_of u db)) (date_range from through)).
  rewrite by_date_range by done. unfold day_row. pose proof (pi_totals _ Hi u d) as Htot. unfold totals_at, day_totals in Htot.
  destruct (days_of u db !! d) as [b|] eqn:Ed; split; try done.
  - intros x [= <-]. injection Htot as T1 T2 T3 T4. cbn. rewrite T1, T2, T3, T4. repeat (split; [done|]).
    intros (Hc & _ & _)%closing_balances. by rewrite (Hc u d b Ed).
  - intros _ r Hr' Em Er. destruct (count_row (days_of u db) u (inbox db) r) as [b Hb]; [apply Hi|done|done|].
    by rewrite Er, Ed in Hb.
Qed.

(** ** Reads that straddle a transaction *)
Definition race_env (before after : cdb) : query_env :=
  {| balances_db := before; balances_fault := None; progress_db := after; progress_fault := None;
     jobs_db := after; jobs_fault := None; watermark := Ok (1, 0); since_now := 0; row_now := fun _ => 0 |}.

(** The three reads are not one: when an event is applied between the read
    of the balances and the read of the progress, the answer is called
    definitive at the event's position while its day shows no data. *)
Theorem definitive_race :
  let before := empty_cdb in let after := apply_all [event_at "1" 1 0 500] in
  proj_step sample_digest before after /\
  received sample_merchant (inbox after) 1 = true /\ sum_if credit_of (of_day sample_merchant 739000) (inbox after) = 500 /\
  GetDailyBalances Ok (race_env before after) sample_merchant 739000 739000 =
    Ok [{| m_BusinessDate := format_date 739000; m_SourcePosition := 1; m_AppliedPosition := 1; State := UPDATED;
           Reason := ""; Definitive := true; Data := None |}].
Proof.
  split; [|repeat split; vm_compute; reflexivity].
  apply (step_apply _ _ _ (quiet 0) (event_at "1" 1 0 500) (fst (Apply sample_digest (quiet 0) (event_at "1" 1 0 500) empty_cdb))).
  unfold apply_all. cbn [fold_left]. apply surjective_pairing.
Qed.

Definition sample_query : query_env :=
  let db := apply_all [event_at "1" 1 20 500; event_at "2" 2 0 100] in
  {| balances_db := db; balances_fault := None; progress_db := db; progress_fault := None;
     jobs_db := db; jobs_fault := None; watermark := Ok (2, 0); since_now := 0; row_now := fun _ => 0 |}.

Definition sample_msg : DailyBalanceMsg :=
  {| m_BusinessDate := format_date 739000; m_SourcePosition := 2; m_AppliedPosition := 2; State := UPDATED; Reason := "";
     Definitive := true;
     Data := Some {| Credits := "100"; Debits := "0"; Net := "100"; d_EntryCount := 1; ClosingBalance := "100"; SnapshotAt := 0 |} |}.

Lemma definitive_sound_witness :
  HasPendingRecompute sample_merchant (balances_db sample_query) = false /\
  received sample_merchant (inbox (balances_db sample_query)) 2 = true /\
  forall q, received sample_merchant (inbox (balances_db sample_query)) q = true -> q <= 2.
Proof.
  assert (GetDailyBalances Ok sample_query sample_merchant 739000 739000 = Ok [sample_msg]) as E by (vm_compute; reflexivity).
  destruct (definitive_sound sample_digest Ok sample_query sample_merchant sample_merchant 739000 739000 [sample_msg] 739000 sample_msg)
    as (_ & _ & _ & H1 & H2 & H3 & _).
  - apply apply_all_steps, steps_refl.
  - reflexivity.
  - reflexivity.
  - assert (forallb (fun r => in_position r <=? int64_max) (inbox (balances_db sample_query)) = true) as K by (vm_compute; reflexivity).
    intros r Hr. apply list_elem_of_In in Hr. pose proof (proj1 (forallb_forall _ _) K r Hr) as L. cbn beta in L.
    by bool_to_prop.
  - reflexivity.
  - vm_compute. split; discriminate.
  - vm_compute. split; discriminate.
  - lia.
  - exact E.
  - by left.
  - reflexivity.
  - reflexivity.
  - split; [exact H1|]. split; [apply H2; cbn [m_SourcePosition sample_msg]; lia|exact (H3 eq_refl)].
Defined.
