(* ===== verification/PendingStore.v ===== *)
(** * The consolidation's pending and dead-letter tables

    services/consolidation/internal/adapters/outbound/postgres/pending_store.go
    over the tables of services/consolidation/migrations/000001: one row per
    event that failed and has not been applied since, and an append-only trail
    of dead letters.

    [json_valid] is json.Valid and [json_quote] the JSON text of a string; a
    uuid column holds its canonical lower-case form.  A call's environment is
    the failure of its statement and the database's clock. *)

From S2P Require Import Prelude.
From S2P Require Import GoStrings.
From S2P Require Import GoTime.
From S2P Require Import ConsolidationDomain.
From Stdlib Require String.
From Stdlib Require Import ZArith Lia Ascii.
Open Scope string_scope.
Open Scope Z_scope.

Definition int4_max : Z := 2147483647.

Record pending_row : Type := {
  pn_event : string; pn_merchant : option string; pn_date : option Z; pn_class : string; pn_attempts : Z;
  pn_first : Z; pn_last : Z; pn_next : option Z; pn_code : string }.
Record dead_row : Type := {
  dl_id : Z; dl_event : option string; dl_merchant : option string; dl_date : option Z; dl_type : string;
  dl_payload : string; dl_code : string; dl_at : Z }.
Record pending_db : Type := { pendings : list pending_row; dead_letters : list dead_row; next_dead : Z }.
Definition empty_pending : pending_db := {| pendings := []; dead_letters := []; next_dead := 1 |}.

Record op_env : Type := { op_fault : option error; op_clock : Z }.
Definition calm (clk : Z) : op_env := {| op_fault := None; op_clock := clk |}.

Definition with_pendings (l : list pending_row) (db : pending_db) : pending_db :=
  {| pendings := l; dead_letters := dead_letters db; next_dead := next_dead db |}.

Definition about (id : string) (r : pending_row) : bool := String.eqb (pn_event r) id.
Definition coalesce {A} (a b : option A) : option A := match a with Some _ => a | None => b end.

(** ** RecordPending *)

(** ON CONFLICT (event_id) DO UPDATE *)
Definition bump (env : op_env) (merchant : option string) (date : option Z) (class code : string) (next : option Z)
    (r : pending_row) : pending_row :=
  {| pn_event := pn_event r; pn_merchant := coalesce (pn_merchant r) merchant; pn_date := coalesce (pn_date r) date;
     pn_class := class; pn_attempts := pn_attempts r + 1; pn_first := pn_first r;
     pn_last := truncate_us (op_clock env); pn_next := next; pn_code := code |}.

Definition upsert_pending (env : op_env) (id : string) (merchant : option string) (date : option Z) (class code : string)
    (next : option Z) (l : list pending_row) : result (Z * list pending_row) :=
  match List.find (about id) l with
  | None =>
      Ok (1, (l ++ [{| pn_event := id; pn_merchant := merchant; pn_date := date; pn_class := class; pn_attempts := 1;
                       pn_first := truncate_us (op_clock env); pn_last := truncate_us (op_clock env);
                       pn_next := next; pn_code := code |}])%list)
  | Some old =>
      let r := bump env merchant date class code next old in
      if int4_max <? pn_attempts r then Err (EPg "22003" "")
      else if pn_last r <? pn_first r then Err (EPg "23514" "event_pending_check")
      else Ok (pn_attempts r, map (fun x => if about id x then r else x) l)
  end.

Definition RecordPending (env : op_env) (eventID : string) (merchantID : option string) (businessDate : option Z)
    (failureClass errorCode : string) (nextAttemptAt : option Z) (db : pending_db) : result Z * pending_db :=
  if String.eqb eventID "" then (Err (EMsg "pending record requires an event id"), db)
  else if negb (String.eqb failureClass "retry") && negb (String.eqb failureClass "dlq")
  then (Err (EMsg "pending record failure class must be retry or dlq"), db)
  else if String.eqb errorCode "" then (Err (EMsg "pending record requires an error code"), db)
  else
    match op_fault env with
    | Some e => (Err (EWrap "record consolidation event pending" e), db)
    | None =>
        match upsert_pending env (ascii_lower eventID) (option_map ascii_lower merchantID) businessDate failureClass
                errorCode (option_map truncate_us nextAttemptAt) (pendings db) with
        | Err e => (Err (EWrap "record consolidation event pending" e), db)
        | Ok (attempts, l) => (Ok attempts, with_pendings l db)
        end
    end.

(** ** RecordDeadLetter *)
Section DeadLetters.
Context (json_valid : string -> bool) (json_quote : string -> string).

Definition RecordDeadLetter (env : op_env) (eventID merchantID : option string) (businessDate : option Z)
    (eventType payload errorCode : string) (db : pending_db) : result unit * pending_db :=
  if slen payload =? 0 then (Err (EMsg "dead letter record requires a payload"), db)
  else
    let payload := if json_valid payload then payload else json_quote payload in
    if String.eqb errorCode "" then (Err (EMsg "dead letter record requires an error code"), db)
    else
      match op_fault env with
      | Some e => (Err (EWrap "record consolidation dead letter event" e), db)
      | None =>
          (Ok tt, {| pendings := pendings db;
                     dead_letters := (dead_letters db ++
                       [{| dl_id := next_dead db; dl_event := option_map ascii_lower eventID;
                           dl_merchant := option_map ascii_lower merchantID; dl_date := businessDate;
                           dl_type := eventType; dl_payload := payload; dl_code := errorCode;
                           dl_at := truncate_us (op_clock env) |}])%list;
                     next_dead := next_dead db + 1 |})
      end.
End DeadLetters.

(** ** ClearPending and PendingBacklog *)
Definition ClearPending (env : op_env) (eventID : string) (db : pending_db) : result unit * pending_db :=
  if String.eqb eventID "" then (Ok tt, db)
  else
    match op_fault env with
    | Some e => (Err (EWrap "clear consolidation event pending" e), db)
    | None => (Ok tt, with_pendings (List.filter (fun r => negb (about (ascii_lower eventID) r)) (pendings db)) db)
    end.

Definition count_class (class : string) (db : pending_db) : Z :=
  Z.of_nat (length (List.filter (fun r => String.eqb (pn_class r) class) (pendings db))).
Definition PendingBacklog (db : pending_db) : Z * Z := (count_class "retry" db, count_class "dlq" db).

(** ** What the operations keep *)

(** One row per event, counted from 1, and the dead letters numbered in order. *)
Record pending_inv (db : pending_db) : Prop := {
  pv_unique : NoDup (map pn_event (pendings db));
  pv_attempts : forall r, r ∈ pendings db -> 1 <= pn_attempts r <= int4_max;
  pv_class : forall r, r ∈ pendings db -> pn_class r = "retry" \/ pn_class r = "dlq" }.

Definition attempts_of (id : string) (db : pending_db) : Z :=
  match List.find (about id) (pendings db) with Some r => pn_attempts r | None => 0 end.

Lemma find_map_row id (r : pending_row) l old : List.find (about id) l = Some old -> pn_event r = id ->
  List.find (about id) (map (fun x => if about id x then r else x) l) = Some r.
Proof.
  induction l as [|x l IH]; intros H Hr; [done|]. cbn in *. destruct (about id x) eqn:E.
  - unfold about at 1. by rewrite Hr, String.eqb_refl.
  - rewrite E. by apply IH.
Qed.

Lemma find_other id id' (r : pending_row) l : id <> id' -> pn_event r = id ->
  List.find (about id') (map (fun x => if about id x then r else x) l) = List.find (about id') l.
Proof.
  intros Hne Hr. induction l as [|x l IH]; [done|]. cbn. destruct (about id x) eqn:E.
  - assert (about id' r = false) as -> by (unfold about; by apply String.eqb_neq; rewrite Hr).
    apply String.eqb_eq in E. assert (about id' x = false) as -> by (unfold about; apply String.eqb_neq; congruence). done.
  - destruct (about id' x); [done|]. apply IH.
Qed.

Lemma map_event_row id (r : pending_row) l : pn_event r = id ->
  map pn_event (map (fun x => if about id x then r else x) l) = map pn_event l.
Proof.
  intros Hr. rewrite map_map. apply map_ext. intros x. destruct (about id x) eqn:E; [|done].
  apply String.eqb_eq in E. congruence.
Qed.

Lemma find_snoc {A} (f : A -> bool) l x :
  List.find f (l ++ [x]) = match List.find f l with Some y => Some y | None => if f x then Some x else None end.
Proof. induction l as [|y l IH]; [done|]. cbn. by destruct (f y). Qed.

(** A recorded failure counts one more attempt of its event and of no other. *)
Lemma RecordPending_ok env id m d class code next db n db' :
  RecordPending env id m d class code next db = (Ok n, db') ->
  let c := ascii_lower id in
  n = attempts_of c db + 1 /\ attempts_of c db' = n /\ (forall x, x <> c -> attempts_of x db' = attempts_of x db) /\
  dead_letters db' = dead_letters db /\ (pending_inv db -> pending_inv db').
Proof.
  unfold RecordPending. intros H. do 3 (case_hyp H; [done|]). destruct (op_fault env); [done|].
  destruct (upsert_pending _ _ _ _ _ _ _ _) as [[a l]|] eqn:E; [|done]. injection H as <- <-.
  cbn zeta. set (c := ascii_lower id) in *. unfold upsert_pending in E.
  assert (class = "retry" \/ class = "dlq") as Hclass.
  { destruct (String.eqb_spec class "retry"); [by left|]. destruct (String.eqb_spec class "dlq"); [by right|done]. }
  unfold attempts_of. cbn [pendings with_pendings].
  destruct (List.find (about c) (pendings db)) as [old|] eqn:Ef.
  - cbn zeta in E. do 2 (case_hyp E; [done|]). injection E as <- <-. bool_to_prop.
    apply List.find_some in Ef as Hf. destruct Hf as [Hin Hab]. apply String.eqb_eq in Hab. apply list_elem_of_In in Hin.
    split; [done|]. split; [by erewrite find_map_row|]. split; [intros x Hx; by rewrite find_other|]. split; [done|].
    intros [U A C]. split; cbn [pendings with_pendings].
    + by rewrite map_event_row.
    + intros r (x & -> & Hx)%list_elem_of_fmap. case_match; [|by apply A]. specialize (A old Hin).
      cbn [pn_attempts bump] in *. lia.
    + intros r (x & -> & Hx)%list_elem_of_fmap. case_match; [done|by apply C].
  - injection E as <- <-. split; [done|].
    split; [rewrite find_snoc, Ef; unfold about; cbn; by rewrite String.eqb_refl|]. split.
    + intros x Hx. rewrite find_snoc. destruct (List.find (about x) (pendings db)); [done|].
      unfold about. cbn [pn_event]. rewrite (proj2 (String.eqb_neq c x)); [done|congruence].
    + split; [done|]. intros [U A C]. split; cbn [pendings with_pendings].
      * rewrite map_app. apply NoDup_snoc; [done|]. cbn [pn_event]. intros (r & Er & Hr)%list_elem_of_fmap.
        apply (find_none_all _ _ r) in Ef; [|done]. unfold about in Ef. by rewrite <- Er, String.eqb_refl in Ef.
      * intros r [Hr|Hr%list_elem_of_singleton]%elem_of_app; [by apply A|]. subst r. cbn. unfold int4_max. lia.
      * intros r [Hr|Hr%list_elem_of_singleton]%elem_of_app; [by apply C|]. by subst r.
Qed.
