(* ===== verification/Consumer.v ===== *)
(** * The consolidation's consumer

    services/consolidation/internal/adapters/inbound/rabbitmq/{consumer,model,
    metrics,topology}.go: what one delivery comes to (applied and acknowledged,
    requeued, or isolated), and what a queue of deliveries comes to.

    Arguments: [decode_stream] and [sha256] as for the projection;
    [schema_decode] and [schema_valid] are the JSON schema library;
    [json_text] is json.Marshal.  What the machine does to one delivery (the
    failures of its transactions, the clock, the random jitter) is its
    environment.  Logging and the dialing of the broker are left out. *)

From S2P Require Import Prelude.
From S2P Require Import Sorting.
From S2P Require Import GoStrings.
From S2P Require Import GoTime.
From S2P Require Import Json.
From S2P Require Import LedgerDomain.
From S2P Require Import ConsolidationDomain.
From S2P Require Import Projection.
From S2P Require Import ProjectionInvariant.
From S2P Require Import ProjectionRetry.
From S2P Require Import PendingStore.
From Stdlib Require String.
From Stdlib Require Import ZArith Lia Ascii.
Open Scope string_scope.
Open Scope Z_scope.

(** ** topology.go *)
Record Topology : Type := { Exchange : string; RoutingKey : string; Queue : string; DLX : string; DLQ : string }.
Definition DefaultTopology : Topology :=
  {| Exchange := "ledger.events"; RoutingKey := EntryConfirmedV1; Queue := "consolidation.ledger-entry-confirmed.v2";
     DLX := "ledger.events.dlx"; DLQ := "consolidation.ledger-entry-confirmed.v2.dlq" |}.
Definition topology_validate (t : Topology) : result unit :=
  if String.eqb (Exchange t) "" || String.eqb (RoutingKey t) "" || String.eqb (Queue t) "" || String.eqb (DLX t) ""
     || String.eqb (DLQ t) ""
  then Err (EMsg "RabbitMQ consumer topology names must not be empty") else Ok tt.

(** ** Config *)
Record Config : Type := {
  URL : string; cf_Topology : Topology; has_schema : bool; ConsumerTag : string; MaxAttempts : Z;
  BackoffBase : Z; BackoffMax : Z; ReconnectDelay : Z;
  InjectFailure : option (EntryConfirmed -> option error); AfterApply : option (EntryConfirmed -> option error) }.

Definition config_validate (c : Config) : result unit :=
  if String.eqb (URL c) "" then Err (EMsg "RabbitMQ consumer URL is required")
  else
    _ ← topology_validate (cf_Topology c);
    if negb (has_schema c) then Err (EMsg "event schema is required")
    else if String.eqb (ConsumerTag c) "" then Err (EMsg "consumer tag is required")
    else if MaxAttempts c <? 1 then Err (EMsg "max attempts must be at least 1")
    else if (BackoffBase c <=? 0) || (BackoffMax c <? BackoffBase c) then Err (EMsg "invalid consumer backoff configuration")
    else if ReconnectDelay c <=? 0 then Err (EMsg "reconnect delay must be positive")
    else Ok tt.

(** ** Deliveries and outcomes: headers by name with their printed values *)
Record delivery : Type := {
  MessageId : string; Type_ : string; CorrelationId : string; Headers : list (string * string); Body : string }.
Inductive deliveryAction : Type := actionAck | actionRequeue | actionDeadLetter.
Record processingResult : Type := {
  action : deliveryAction; pr_eventID : string; pr_duplicate : bool; retryDelay : Z; pr_err : option error }.

Fixpoint header (name : string) (h : list (string * string)) : string :=
  match h with [] => "<nil>" | (k, v) :: rest => if String.eqb k name then v else header name rest end.

(** Go ranges over the expected headers in random order, which only picks the
    header the error names. *)
Definition validateDeliveryIdentity (d : delivery) (e : EntryConfirmed) : result unit :=
  if negb (String.eqb (MessageId d) (EventID e)) then Err (EMsg "AMQP MessageId does not match event_id")
  else if negb (String.eqb (Type_ d) (EventType e)) then Err (EMsg "AMQP Type does not match event_type")
  else if negb (String.eqb (CorrelationId d) (EntryID e)) then Err (EMsg "AMQP CorrelationId does not match entry_id")
  else if forallb (fun kv => String.eqb (header (fst kv) (Headers d)) (snd kv))
            [("event_id", EventID e); ("event_type", EventType e); ("merchant_id", MerchantID e);
             ("merchant_position", fmt_d (MerchantPosition e)); ("entry_id", EntryID e); ("traceparent", Traceparent e)]
  then Ok tt else Err (EMsg "AMQP header does not match event identity").

Definition identityPointer (value : string) : option string := if uuidPattern value then Some value else None.

(** ** backoffDelay: the doubling loop, then the jitter [scale] *)
Fixpoint backoff_steps (max : Z) (steps : nat) (delay : Z) : Z :=
  match steps with
  | O => delay
  | S k => if delay <? max then (if Z.quot max 2 <? delay then max else backoff_steps max k (wrap64 (delay * 2))) else delay
  end.
Definition backoffDelay (c : Config) (scale : Z -> Z) (attempt : Z) : Z :=
  let attempt := if attempt <? 1 then 1 else attempt in
  let result := scale (backoff_steps (BackoffMax c) (Z.to_nat (attempt - 1)) (BackoffBase c)) in
  if BackoffMax c <? result then BackoffMax c else result.

(** ** metrics.go *)
Record Metrics : Type := {
  applied_total : Z; duplicates_total : Z; retries_total : Z; deadLettered_total : Z; connectionErrors_total : Z;
  appliedNanos_total : Z; backlog : Z * Z * Z * Z }.
Definition RecordApplied (duration : Z) (duplicate : bool) (m : Metrics) : Metrics :=
  {| applied_total := wrapu64 (applied_total m + 1);
     duplicates_total := if duplicate then wrapu64 (duplicates_total m + 1) else duplicates_total m;
     retries_total := retries_total m; deadLettered_total := deadLettered_total m;
     connectionErrors_total := connectionErrors_total m;
     appliedNanos_total := wrapu64 (appliedNanos_total m + Z.max duration 0); backlog := backlog m |}.
Definition RecordRetry (m : Metrics) : Metrics :=
  {| applied_total := applied_total m; duplicates_total := duplicates_total m; retries_total := wrapu64 (retries_total m + 1);
     deadLettered_total := deadLettered_total m; connectionErrors_total := connectionErrors_total m;
     appliedNanos_total := appliedNanos_total m; backlog := backlog m |}.
Definition RecordDeadLetterMetric (m : Metrics) : Metrics :=
  {| applied_total := applied_total m; duplicates_total := duplicates_total m; retries_total := retries_total m;
     deadLettered_total := wrapu64 (deadLettered_total m + 1); connectionErrors_total := connectionErrors_total m;
     appliedNanos_total := appliedNanos_total m; backlog := backlog m |}.
Definition UpdateBacklog (b : Z * Z * Z * Z) (m : Metrics) : Metrics :=
  {| applied_total := applied_total m; duplicates_total := duplicates_total m; retries_total := retries_total m;
     deadLettered_total := deadLettered_total m; connectionErrors_total := connectionErrors_total m;
     appliedNanos_total := appliedNanos_total m; backlog := b |}.

Section Consumer.
Context (sha256 : string -> list Z) (decode_stream : string -> result (json * trailing)).
Context (schema_decode : string -> result json) (schema_valid : json -> result unit).
Context (json_valid : string -> bool) (json_quote : string -> string) (json_text : json -> string).
Context (config : Config).

(** The consolidation's database. *)
Record consumer_db : Type := { projection : cdb; pending : pending_db }.
Definition with_pending (p : pending_db) (s : consumer_db) : consumer_db := {| projection := projection s; pending := p |}.

Record delivery_env : Type := {
  de_apply : tx_env; de_clear : op_env; de_retry : op_env; de_dead : op_env; de_dlq : op_env;
  de_now : Z; de_first_scale : Z -> Z; de_scale : Z -> Z }.

(** Keys in the order encoding/json writes a map. *)
Definition mustMarshalEvent (e : EntryConfirmed) : string :=
  json_text (JObj
    [("amount_minor", JInt (AmountMinor e)); ("business_date", JStr (format_date (date_of_time (BusinessDate e))));
     ("confirmed_at", JStr (format_rfc3339 (ConfirmedAt e))); ("currency", enc_string (Currency e));
     ("entry_id", enc_string (EntryID e)); ("entry_type", enc_string (EntryType e));
     ("event_id", enc_string (EventID e)); ("event_type", enc_string (EventType e));
     ("merchant_id", enc_string (MerchantID e)); ("merchant_position", JInt (MerchantPosition e));
     ("occurred_at", JStr (format_rfc3339 (OccurredAt e)));
     ("original_entry_id", match OriginalEntryID e with None => JNull | Some o => enc_string o end);
     ("traceparent", enc_string (Traceparent e))]).

Definition escalate (env : delivery_env) (type body : string) (eventID merchantID : option string) (businessDate : option Z)
    (errorCode : string) (cause : error) (s : consumer_db) : processingResult * consumer_db :=
  let s1 := with_pending (snd (RecordDeadLetter json_valid json_quote (de_dead env) eventID merchantID businessDate type
                                 body errorCode (pending s))) s in
  let s2 := match eventID with
            | Some id => with_pending (snd (RecordPending (de_dlq env) id merchantID businessDate "dlq" errorCode None (pending s1))) s1
            | None => s1
            end in
  ({| action := actionDeadLetter; pr_eventID := default "" eventID; pr_duplicate := false; retryDelay := 0;
      pr_err := Some (EWrap errorCode cause) |}, s2).

Definition escalateParsed (env : delivery_env) (e : EntryConfirmed) (errorCode : string) (cause : error) (s : consumer_db)
    : processingResult * consumer_db :=
  escalate env (EventType e) (mustMarshalEvent e) (Some (EventID e)) (Some (MerchantID e))
    (Some (date_of_time (BusinessDate e))) errorCode cause s.

Definition classifyApplyFailure (env : delivery_env) (e : EntryConfirmed) (applyErr : error) (s : consumer_db)
    : processingResult * consumer_db :=
  let merchantID := Some (MerchantID e) in
  let businessDate := Some (date_of_time (BusinessDate e)) in
  match ClassifyFailure applyErr with
  | FailureDLQ => escalate env "" (mustMarshalEvent e) (Some (EventID e)) merchantID businessDate "financial_conflict" applyErr s
  | FailureRetry =>
      let '(recorded, p) := RecordPending (de_retry env) (EventID e) merchantID businessDate "retry" "transient_apply_error"
                              (Some (de_now env + backoffDelay config (de_first_scale env) 1)) (pending s) in
      let attempts := match recorded with Ok n => n | Err _ => 0 end in
      let s := with_pending p s in
      if MaxAttempts config <=? attempts then escalateParsed env e "retry_attempts_exhausted" applyErr s
      else ({| action := actionRequeue; pr_eventID := EventID e; pr_duplicate := false;
               retryDelay := backoffDelay config (de_scale env) attempts; pr_err := Some applyErr |}, s)
  end.

(** [None]: the process panics. *)
Definition processDelivery (env : delivery_env) (d : delivery) (s : consumer_db) : option processingResult * consumer_db :=
  let out (r : processingResult * consumer_db) := (Some (fst r), snd r) in
  let eventIDPointer := identityPointer (MessageId d) in
  if negb (String.eqb (Type_ d) EntryConfirmedV1)
  then out (escalate env (Type_ d) (Body d) eventIDPointer None None "unsupported_event_type" (EMsg "unsupported event type") s)
  else
    match (instance ← wrap_err "decode event payload" (schema_decode (Body d));
           wrap_err "validate event payload" (schema_valid instance)) with
    | Err err => out (escalate env (Type_ d) (Body d) eventIDPointer None None "schema_violation" err s)
    | Ok _ =>
        match ParseEntryConfirmed decode_stream (Body d) with
        | Err err => out (escalate env (Type_ d) (Body d) eventIDPointer None None "domain_validation" err s)
        | Ok event =>
            match validateDeliveryIdentity d event with
            | Err err =>
                out (escalate env (Type_ d) (Body d) (Some (EventID event)) (Some (MerchantID event))
                       (Some (date_of_time (BusinessDate event))) "identity_mismatch" err s)
            | Ok _ =>
                match InjectFailure config ≫= (fun hook => hook event) with
                | Some err => out (classifyApplyFailure env event err s)
                | None =>
                    let '(applyResult, db) := Apply sha256 (de_apply env) event (projection s) in
                    let s := {| projection := db; pending := pending s |} in
                    match applyResult with
                    | Err err => out (classifyApplyFailure env event err s)
                    | Ok result =>
                        match AfterApply config ≫= (fun hook => hook event) with
                        | Some _ => (None, s)
                        | None =>
                            let s := with_pending (snd (ClearPending (de_clear env) (EventID event) (pending s))) s in
                            (Some {| action := actionAck; pr_eventID := EventID event; pr_duplicate := Duplicate result;
                                     retryDelay := 0; pr_err := None |}, s)
                        end
                    end
                end
            end
        end
    end.

(** ** handle: what is sent to the broker *)
Inductive broker_command : Type := Ack | Requeue | DeadLetter.
Definition handle (env : delivery_env) (elapsed : Z) (ack : result unit) (d : delivery) (m : Metrics) (s : consumer_db)
    : option broker_command * Metrics * consumer_db :=
  let '(r, s) := processDelivery env d s in
  match r with
  | None => (None, m, s)
  | Some r =>
      match action r with
      | actionAck =>
          match ack with
          | Err _ => (None, m, s)
          | Ok _ => (Some Ack, RecordApplied elapsed (pr_duplicate r) m, s)
          end
      | actionRequeue => (match ack with Err _ => None | Ok _ => Some Requeue end, RecordRetry m, s)
      | actionDeadLetter => (match ack with Err _ => None | Ok _ => Some DeadLetter end, RecordDeadLetterMetric m, s)
      end
  end.
End Consumer.
