(* ===== verification/ConsumerQueue.v ===== *)
(** * A queue of deliveries

    The consumer against its queue: a message is published, delivered any
    number of times in any order, acknowledged, requeued or dead-lettered; an
    answer may be lost and the process may die at any delivery.  No message is
    lost, and transient failures end. *)

From S2P Require Import Prelude.
From S2P Require Import Sorting.
From S2P Require Import GoStrings.
From S2P Require Import GoTime.
From S2P Require Import Json.
From S2P Require Import LedgerDomain.
From S2P Require Import ConsolidationDomain.
From S2P Require Import Projection.
From S2P Require Import ProjectionInvariant.
From S2P Require Import ProjectionRetry.
From S2P Require Import PendingStore.
From S2P Require Import Consumer.
From Stdlib Require String.
From Stdlib Require Import ZArith Lia Ascii.
Open Scope string_scope.
Open Scope Z_scope.

Section Queue.
Context (sha256 : string -> list Z) (decode_stream : string -> result (json * trailing)).
Context (schema_decode : string -> result json) (schema_valid : json -> result unit).
Context (json_valid : string -> bool) (json_quote : string -> string) (json_text : json -> string).
Context (config : Config).

Notation process := (processDelivery sha256 decode_stream schema_decode schema_valid json_valid json_quote json_text config).
Notation handling := (handle sha256 decode_stream schema_decode schema_valid json_valid json_quote json_text config).

(** The broker's queue and dead-letter queue, the consolidation's database and
    the consumer's counters. *)
Record world : Type := {
  queue : list delivery; dead_queue : list delivery; state : consumer_db; counters : Metrics }.

(** A handled message leaves the queue only on a command the broker received;
    a requeued or unanswered one may come back anywhere. *)
Inductive broker_step (w w' : world) : Prop :=
  | publish d : queue w' = (queue w ++ [d])%list -> dead_queue w' = dead_queue w -> state w' = state w -> broker_step w w'
  | reorder : queue w' ≡ₚ queue w -> dead_queue w' = dead_queue w -> state w' = state w -> broker_step w w'
  | deliver l1 d l2 env elapsed ack command m s :
      queue w = (l1 ++ d :: l2)%list ->
      handling env elapsed ack d (counters w) (state w) = (command, m, s) ->
      w' = match command with
           | Some Ack => {| queue := l1 ++ l2; dead_queue := dead_queue w; state := s; counters := m |}
           | Some DeadLetter => {| queue := l1 ++ l2; dead_queue := dead_queue w ++ [d]; state := s; counters := m |}
           | Some Requeue | None => {| queue := queue w; dead_queue := dead_queue w; state := s; counters := m |}
           end%list -> broker_step w w'.

(** The event of a message is on record. *)
Definition consumed (d : delivery) (s : consumer_db) : Prop :=
  exists e, ParseEntryConfirmed decode_stream (Body d) = Ok e /\ validateDeliveryIdentity d e = Ok tt /\
    on_record sha256 e (projection s).

Lemma stored_parsed body e : ParseEntryConfirmed decode_stream body = Ok e -> stored e = e.
Proof. intros [_ H]%parsed_valid. unfold stored. by rewrite !H. Qed.

Lemma escalate_state env type body id m d code cause s :
  projection (snd (escalate json_valid json_quote env type body id m d code cause s)) = projection s /\
  action (fst (escalate json_valid json_quote env type body id m d code cause s)) = actionDeadLetter.
Proof. unfold escalate. by destruct id. Qed.

Lemma classify_state env e err s :
  projection (snd (classifyApplyFailure json_valid json_quote json_text config env e err s)) = projection s /\
  action (fst (classifyApplyFailure json_valid json_quote json_text config env e err s)) <> actionAck.
Proof.
  unfold classifyApplyFailure, escalateParsed. destruct (ClassifyFailure err).
  - destruct (RecordPending _ _ _ _ _ _ _ _) as [n p]. destruct (_ <=? _); [|done].
    split; [by rewrite (proj1 (escalate_state _ _ _ _ _ _ _ _ _))|by rewrite (proj2 (escalate_state _ _ _ _ _ _ _ _ _))].
  - split; [by rewrite (proj1 (escalate_state _ _ _ _ _ _ _ _ _))|by rewrite (proj2 (escalate_state _ _ _ _ _ _ _ _ _))].
Qed.

(** Every delivery leaves the projection alone or applies its event to it, and
    is acknowledged only after the event is on record. *)
Lemma process_projection env d s r s' : proj_inv (projection s) -> process env d s = (r, s') ->
  (projection s' = projection s \/ proj_step sha256 (projection s) (projection s')) /\
  (forall x, r = Some x -> action x = actionAck -> consumed d s').
Proof.
  intros Hi. unfold processDelivery.
  assert (forall type body id m dd code cause, let q := escalate json_valid json_quote env type body id m dd code cause s in
    (Some (fst q), snd q) = (r, s') -> (projection s' = projection s \/ proj_step sha256 (projection s) (projection s')) /\
    (forall x, r = Some x -> action x = actionAck -> consumed d s')) as Hesc.
  { intros type body id m dd code cause. cbn zeta. pose proof (escalate_state env type body id m dd code cause s) as HE.
    destruct (escalate _ _ _ _ _ _ _ _ _ _) as [r0 s0]. cbn [fst snd] in *. destruct HE as [E1 E2]. intros [= <- <-].
    split; [by left|]. intros x [= <-] Ha. congruence. }
  cbn zeta in Hesc. destruct (negb _); [apply Hesc|]. destruct (instance ← _; _); [|apply Hesc].
  destruct (ParseEntryConfirmed _ _) as [e|] eqn:Ep; [|apply Hesc].
  destruct (validateDeliveryIdentity d e) as [[]|] eqn:Ev; [|apply Hesc].
  destruct (InjectFailure config ≫= _) as [err|].
  { pose proof (classify_state env e err s) as HE. destruct (classifyApplyFailure _ _ _ _ _ _ _ _) as [r0 s0].
    cbn [fst snd] in *. destruct HE as [E1 E2]. intros [= <- <-]. split; [by left|]. intros x [= <-] Ha. congruence. }
  destruct (Apply sha256 (de_apply env) e (projection s)) as [res db] eqn:Ea.
  assert (proj_step sha256 (projection s) db) as Hstep by by eapply step_apply.
  destruct res as [res|err].
  - assert (on_record sha256 e db) as Ho by (rewrite <- (stored_parsed _ _ Ep); by eapply Apply_records).
    destruct (AfterApply config ≫= _); intros [= <- <-]; (split; [by right|]); [done|].
    intros x _ _. by exists e.
  - pose proof (classify_state env e err {| projection := db; pending := pending s |}) as HE.
    destruct (classifyApplyFailure _ _ _ _ _ _ _ _) as [r0 s0]. cbn [fst snd] in *. destruct HE as [E1 E2].
    intros [= <- <-]. rewrite E1. split; [by right|]. intros x [= <-] Ha. congruence.
Qed.

Lemma consumed_step d s s' : proj_inv (projection s) ->
  projection s' = projection s \/ proj_step sha256 (projection s) (projection s') -> consumed d s -> consumed d s'.
Proof.
  intros Hi [E|Hs] (e & Hp & Hv & Ho); exists e; (split; [done|]); (split; [done|]); [by rewrite E|].
  destruct (step_grows _ _ _ Hi Hs) as [l El]. by eapply on_record_grows.
Qed.

(** Where a message can be. *)
Definition accounted (d : delivery) (w : world) : Prop :=
  d ∈ queue w \/ d ∈ dead_queue w \/ consumed d (state w).

Lemma broker_step_inv w w' : proj_inv (projection (state w)) -> broker_step w w' ->
  proj_inv (projection (state w')) /\ forall d, accounted d w -> accounted d w'.
Proof.
  intros Hi Hs. unfold accounted. destruct Hs as [d Eq Ed Es|Eq Ed Es|l1 d l2 env elapsed ack command m s Eq Eh ->].
  - rewrite Es, Eq, Ed. split; [done|]. intros x. rewrite elem_of_app. tauto.
  - rewrite Es, Ed. split; [done|]. intros x. by rewrite Eq.
  - unfold handle in Eh. destruct (process env d (state w)) as [r s1] eqn:Ep.
    destruct (process_projection _ _ _ _ _ Hi Ep) as [Hproj Hack].
    assert (proj_inv (projection s1)) as Hi1 by (destruct Hproj as [-> | ?]; [done|by eapply proj_step_inv]).
    assert (s = s1 /\ (command = Some Ack -> consumed d s1)) as [-> Hc].
    { destruct r as [r|]; [|by injection Eh as <- <- <-].
      destruct (action r) eqn:Ea; [destruct ack|..]; injection Eh as <- <- <-; (split; [done|]); try done.
      - intros _. by eapply Hack.
      - by destruct ack.
      - by destruct ack. }
    split; [by destruct command as [[]|]|]. intros x Hx. rewrite Eq in Hx.
    assert (consumed x (state w) -> consumed x s1) as Hkeep by by apply consumed_step.
    destruct command as [[]|]; cbn [queue dead_queue state]; rewrite ?Eq, ?elem_of_app, ?elem_of_cons in *;
      destruct Hx as [[Hx|[-> | Hx]]|[Hx|Hx]]; auto 6.
Qed.

(** ** Transient failures *)
Definition failure_recorded (env : delivery_env) (e : EntryConfirmed) (s : consumer_db) : Prop :=
  is_ok (fst (RecordPending (de_retry env) (EventID e) (Some (MerchantID e)) (Some (date_of_time (BusinessDate e))) "retry"
    "transient_apply_error" (Some (de_now env + backoffDelay config (de_first_scale env) 1)) (pending s))) = true.

(** [n] deliveries of one message that are requeued, each failure recorded;
    in between anything may happen that does not forget the event's attempts. *)
Inductive requeued (d : delivery) (e : EntryConfirmed) : nat -> consumer_db -> consumer_db -> Prop :=
  | requeued_none s : requeued d e 0 s s
  | requeued_once n env s r s1 s2 s3 :
      process env d s = (Some r, s1) -> action r = actionRequeue -> failure_recorded env e s ->
      attempts_of (ascii_lower (EventID e)) (pending s1) <= attempts_of (ascii_lower (EventID e)) (pending s2) ->
      requeued d e n s2 s3 -> requeued d e (S n) s s3.

Lemma requeue_counts env d e s r s1 : ParseEntryConfirmed decode_stream (Body d) = Ok e ->
  process env d s = (Some r, s1) -> action r = actionRequeue -> failure_recorded env e s ->
  let id := ascii_lower (EventID e) in
  attempts_of id (pending s1) = attempts_of id (pending s) + 1 /\ attempts_of id (pending s1) < MaxAttempts config.
Proof.
  intros Ep H Ha Hrec. unfold processDelivery in H. rewrite Ep in H.
  assert (forall type body id m dd code cause t, (Some (fst (escalate json_valid json_quote env type body id m dd code cause t)),
    snd (escalate json_valid json_quote env type body id m dd code cause t)) = (Some r, s1) -> False) as Hesc.
  { intros type body id m dd code cause t K. destruct (escalate_state env type body id m dd code cause t) as [_ E2].
    injection K as K _. rewrite <- K in Ha. unfold escalate in Ha. by destruct id. }
  cbn zeta in H. destruct (negb _); [by apply Hesc in H|]. destruct (instance ← _; _); [|by apply Hesc in H].
  destruct (validateDeliveryIdentity d e) as [[]|]; [|by apply Hesc in H].
  assert (forall err t, pending t = pending s ->
    (Some (fst (classifyApplyFailure json_valid json_quote json_text config env e err t)),
     snd (classifyApplyFailure json_valid json_quote json_text config env e err t)) = (Some r, s1) ->
    attempts_of (ascii_lower (EventID e)) (pending s1) = attempts_of (ascii_lower (EventID e)) (pending s) + 1 /\
    attempts_of (ascii_lower (EventID e)) (pending s1) < MaxAttempts config) as Hcl.
  { intros err t Et K. unfold classifyApplyFailure in K. destruct (ClassifyFailure err); [|by apply Hesc in K].
    unfold failure_recorded in Hrec. rewrite Et in K.
    destruct (RecordPending _ _ _ _ _ _ _ _) as [[n|] p] eqn:Er; [|done]. cbn [fst] in Hrec.
    apply RecordPending_ok in Er as (E1 & E2 & _). cbn zeta in E1, E2.
    destruct (Z.leb_spec (MaxAttempts config) n); [by apply Hesc in K|]. injection K as _ <-. cbn. lia. }
  destruct (InjectFailure config ≫= _); [by apply Hcl in H|].
  destruct (Apply sha256 (de_apply env) e (projection s)) as [[res|err] db]; [|by apply Hcl in H].
  destruct (AfterApply config ≫= _); [done|]. injection H as <- _. done.
Qed.

Lemma requeued_attempts d e n s s' : ParseEntryConfirmed decode_stream (Body d) = Ok e -> requeued d e n s s' ->
  (0 < n)%nat -> attempts_of (ascii_lower (EventID e)) (pending s) + Z.of_nat n < MaxAttempts config + 0 * 1.
Proof.
  intros Ep H. induction H as [|n env s r s1 s2 s3 Hp Ha Hrec Hle Hrest IH]; [lia|]. intros _.
  destruct (requeue_counts _ _ _ _ _ _ Ep Hp Ha Hrec) as [E1 E2]. cbn zeta in *.
  destruct n as [|n]; [|specialize (IH ltac:(lia))]; lia.
Qed.
End Queue.

(** C24: no message is lost: whatever happens to the transactions, the pending
    store, the answers to the broker and the process, a message once in the
    queue is still in it, in the dead-letter queue, or its event is on record
    in the projection. *)
Theorem no_message_lost sha256 decode_stream schema_decode schema_valid json_valid json_quote json_text config w w' d :
  steps (proj_step sha256) empty_cdb (projection (state w)) ->
  steps (broker_step sha256 decode_stream schema_decode schema_valid json_valid json_quote json_text config) w w' ->
  d ∈ queue w -> accounted sha256 decode_stream d w'.
Proof.
  intros H0%proj_reachable Hs Hd.
  assert (proj_inv (projection (state w')) /\ accounted sha256 decode_stream d w') as [_ H]; [|done].
  revert Hs. apply (steps_invariant _ (fun x => proj_inv (projection (state x)) /\ accounted sha256 decode_stream d x)).
  - intros x y [Hi Ha] Hxy. destruct (broker_step_inv _ _ _ _ _ _ _ _ _ _ Hi Hxy) as [Hi' Hk]. auto.
  - split; [done|]. by left.
Qed.

(** C25: transient failures end: a message whose failures are recorded is
    requeued fewer than MaxAttempts times in all, whatever else happens to the
    store in between, as long as its attempts are not forgotten; a delivery
    that is recorded once more is not sent round again. *)
Theorem retries_end sha256 decode_stream schema_decode schema_valid json_valid json_quote json_text config d e n s s' :
  config_validate config = Ok tt -> ParseEntryConfirmed decode_stream (Body d) = Ok e -> pending_inv (pending s) ->
  requeued sha256 decode_stream schema_decode schema_valid json_valid json_quote json_text config d e n s s' ->
  Z.of_nat n < MaxAttempts config.
Proof.
  intros Hc Ep Hi H. assert (0 <= attempts_of (ascii_lower (EventID e)) (pending s)) as H0.
  { unfold attempts_of. destruct (List.find _ _) as [r|] eqn:E; [|done]. apply List.find_some in E as [E%list_elem_of_In _].
    pose proof (pv_attempts _ Hi r E). lia. }
  destruct n as [|n].
  - unfold config_validate in Hc. case_hyp Hc; [done|]. destruct (topology_validate _); [|done]. cbn [mbind result_bind] in Hc.
    do 2 (case_hyp Hc; [done|]). case_hyp Hc; [done|]. bool_to_prop. cbn. lia.
  - pose proof (requeued_attempts _ _ _ _ _ _ _ _ _ _ _ _ _ Ep H ltac:(lia)). lia.
Qed.

(** ** At concrete inputs *)
Definition sample_wire : json := JObj
  [("event_id", JStr (EventID sample_event)); ("event_type", JStr EntryConfirmedV1);
   ("occurred_at", JStr (format_rfc3339 (OccurredAt sample_event))); ("merchant_id", JStr (MerchantID sample_event));
   ("merchant_position", JInt 1); ("entry_id", JStr (EntryID sample_event)); ("entry_type", JStr EntryCredit);
   ("amount_minor", JInt 1000); ("currency", JStr "BRL"); ("business_date", JStr (format_date 739000));
   ("confirmed_at", JStr (format_rfc3339 (ConfirmedAt sample_event))); ("original_entry_id", JNull);
   ("traceparent", JStr (Traceparent sample_event))].
Definition sample_decode (_ : string) : result (json * trailing) := Ok (sample_wire, AtEOF).
Definition sample_schema (_ : string) : result json := Ok sample_wire.
Definition sample_delivery : delivery :=
  let e := Canonical sample_event in
  {| MessageId := EventID e; Type_ := EntryConfirmedV1; CorrelationId := EntryID e;
     Headers := [("event_id", EventID e); ("event_type", EventType e); ("merchant_id", MerchantID e);
       ("merchant_position", "1"); ("entry_id", EntryID e); ("traceparent", Traceparent e)]; Body := "event" |}.
Definition sample_consumer : Config :=
  {| URL := "amqps://broker"; cf_Topology := DefaultTopology; has_schema := true; ConsumerTag := "c1"; MaxAttempts := 3;
     BackoffBase := second; BackoffMax := 60 * second; ReconnectDelay := second; InjectFailure := None; AfterApply := None |}.
Definition sample_store : consumer_db := {| projection := empty_cdb; pending := empty_pending |}.
Definition sample_env (tx : tx_env) : delivery_env :=
  {| de_apply := tx; de_clear := calm 0; de_retry := calm 0; de_dead := calm 0; de_dlq := calm 0;
     de_now := 0; de_first_scale := id; de_scale := id |}.
Definition no_metrics : Metrics :=
  {| applied_total := 0; duplicates_total := 0; retries_total := 0; deadLettered_total := 0; connectionErrors_total := 0;
     appliedNanos_total := 0; backlog := (0, 0, 0, 0) |}.
Definition sample_process (tx : tx_env) (s : consumer_db) : option processingResult * consumer_db :=
  processDelivery sample_digest sample_decode sample_schema (fun _ => Ok tt) (fun _ => true) id (fun _ => "json") sample_consumer
    (sample_env tx) sample_delivery s.
Definition broken_tx : tx_env :=
  {| begin_fault := Some (EMsg "connection refused"); faults := []; commit := CommitOk; clock := 0 |}.

Lemma no_message_lost_witness :
  exists w', queue w' = [] /\ accounted sample_digest sample_decode sample_delivery w'.
Proof.
  set (w := {| queue := [sample_delivery]; dead_queue := []; state := sample_store; counters := no_metrics |}).
  destruct (handle sample_digest sample_decode sample_schema (fun _ => Ok tt) (fun _ => true) id (fun _ => "json") sample_consumer
    (sample_env (quiet 0)) 0 (Ok tt) sample_delivery no_metrics sample_store) as [[c m] s] eqn:E.
  assert (c = Some Ack) as Hc by (apply (f_equal (fun x => fst (fst x))) in E; cbn [fst] in E; rewrite <- E; vm_compute; reflexivity).
  exists {| queue := []; dead_queue := []; state := s; counters := m |}. split; [reflexivity|].
  apply (no_message_lost sample_digest sample_decode sample_schema (fun _ => Ok tt) (fun _ => true) id (fun _ => "json") sample_consumer w).
  - apply steps_refl.
  - eapply steps_cons; [|apply steps_refl].
    eapply (deliver _ _ _ _ _ _ _ _ w _ [] sample_delivery [] _ _ _ _ _ _ eq_refl E). rewrite Hc. reflexivity.
  - by left.
Defined.

Lemma retries_end_witness :
  Z.of_nat 2 < MaxAttempts sample_consumer /\
  option_map action (fst (sample_process broken_tx (snd (sample_process broken_tx (snd (sample_process broken_tx sample_store)))))) =
    Some actionDeadLetter.
Proof.
  split; [|vm_compute; reflexivity].
  apply (retries_end sample_digest sample_decode sample_schema (fun _ => Ok tt) (fun _ => true) id (fun _ => "json") sample_consumer
    sample_delivery (Canonical sample_event) 2 sample_store
    (snd (sample_process broken_tx (snd (sample_process broken_tx sample_store))))).
  - vm_compute. reflexivity.
  - vm_compute. reflexivity.
  - split; [constructor|intros r Hr; by apply elem_of_nil in Hr|intros r Hr; by apply elem_of_nil in Hr].
  - assert (exists r, sample_process broken_tx sample_store = (Some r, snd (sample_process broken_tx sample_store)) /\
      action r = actionRequeue) as (r1 & E1 & A1) by (vm_compute; eexists; split; reflexivity).
    assert (exists r, sample_process broken_tx (snd (sample_process broken_tx sample_store)) =
      (Some r, snd (sample_process broken_tx (snd (sample_process broken_tx sample_store)))) /\
      action r = actionRequeue) as (r2 & E2 & A2) by (vm_compute; eexists; split; reflexivity).
    eapply (requeued_once _ _ _ _ _ _ _ _ _ _ _ (sample_env broken_tx)); [exact E1|exact A1|vm_compute; reflexivity|apply Z.le_refl|].
    eapply (requeued_once _ _ _ _ _ _ _ _ _ _ _ (sample_env broken_tx)); [exact E2|exact A2|vm_compute; reflexivity|apply Z.le_refl|].
    apply requeued_none.
Defined.
