(* ===== verification/ConsumerSession.v ===== *)
(** * The consumer's connections

    adapters/inbound/rabbitmq/consumer.go, [Run], [runOnce] and [connect]: the
    consumer connects, takes deliveries one at a time until something ends the
    session, closes what it opened, and connects again after a delay until its
    context ends.  What each call to the broker answers and what each select
    receives are lists of the environment; a session whose list runs out is
    still waiting. *)

From S2P Require Import Prelude.
From S2P Require Import GoStrings.
From S2P Require Import GoTime.
From S2P Require Import Json.
From S2P Require Import ConsolidationDomain.
From S2P Require Import Projection.
From S2P Require Import ProjectionInvariant.
From S2P Require Import PendingStore.
From S2P Require Import Consumer.
From S2P Require Import ConsumerQueue.
From Stdlib Require String.
From Stdlib Require Import ZArith Lia.
Open Scope string_scope.
Open Scope Z_scope.

(** What the consumer does to its connection and to its readiness. *)
Inductive act : Type := OpenConnection | CloseConnection | OpenChannel | CloseChannel | SetReady (b : bool).

(** The answers [connect] meets, in the order of its calls; [ce_budget] is the
    time left of a context with a deadline. *)
Record connect_env : Type := {
  ce_budget : option Z; ce_dial : result unit; ce_channel : result unit; ce_topology : result unit; ce_qos : result unit }.

(** What one pass of the select receives: the context's error, the channel's
    closing (nil or not an error is [None]), a delivery with what handling it
    meets, or the end of the deliveries. *)
Inductive received : Type :=
  | GotContext (err : error)
  | GotClosed (err : option error)
  | GotDelivery (d : delivery) (env : delivery_env) (elapsed : Z) (ack : result unit)
  | DeliveriesClosed.

Record session : Type := { se_connect : connect_env; se_consume : result unit; se_received : list received }.

(** A pass of the loop of [Run]: ctx.Err() before, the session, and what the
    wait for the delay receives if the context ends first. *)
Record round : Type := { ro_err : option error; ro_session : session; ro_wait : option error }.

Definition connectTimeout (budget : option Z) : Z :=
  match budget with Some budget => if budget <? 5 * second then budget else 5 * second | None => 5 * second end.

Definition RecordConnectionError (m : Metrics) : Metrics :=
  {| applied_total := applied_total m; duplicates_total := duplicates_total m; retries_total := retries_total m;
     deadLettered_total := deadLettered_total m; connectionErrors_total := wrapu64 (connectionErrors_total m + 1);
     appliedNanos_total := appliedNanos_total m; backlog := backlog m |}.

Section Session.
Context (sha256 : string -> list Z) (decode_stream : string -> result (json * trailing)).
Context (schema_decode : string -> result json) (schema_valid : json -> result unit).
Context (json_valid : string -> bool) (json_quote : string -> string) (json_text : json -> string).
Context (config : Config) (allowInsecure : bool) (url_parse : string -> result (string * string * bool)).

Notation handling := (handle sha256 decode_stream schema_decode schema_valid json_valid json_quote json_text config).

Definition connect (env : connect_env) : result unit * list act :=
  match url_parse (URL config) with
  | Err _ => (Err (EMsg "invalid RabbitMQ URL"), [])
  | Ok (scheme, host, _) =>
      if String.eqb host "" then (Err (EMsg "invalid RabbitMQ URL"), [])
      else if negb (String.eqb scheme "amqps") && negb (String.eqb scheme "amqp" && allowInsecure)
      then (Err (EMsg "RabbitMQ URL must use amqps unless insecure transport is explicitly enabled"), [])
      else if connectTimeout (ce_budget env) <=? 0 then (Err (ESentinel "context.DeadlineExceeded"), [])
      else
        match ce_dial env with
        | Err err => (Err (EWrap "connect RabbitMQ" err), [])
        | Ok _ =>
            match ce_channel env with
            | Err err => (Err (EWrap "open RabbitMQ channel" err), [OpenConnection; CloseConnection])
            | Ok _ =>
                match ce_topology env with
                | Err err => (Err err, [OpenConnection; OpenChannel; CloseChannel; CloseConnection])
                | Ok _ =>
                    match ce_qos env with
                    | Err err => (Err (EWrap "set RabbitMQ prefetch" err), [OpenConnection; OpenChannel; CloseChannel; CloseConnection])
                    | Ok _ => (Ok tt, [OpenConnection; OpenChannel])
                    end
                end
            end
        end
  end.

(** The select loop: the error it ends with, if it ends. *)
Fixpoint consume (events : list received) (m : Metrics) (s : consumer_db) : option error * Metrics * consumer_db :=
  match events with
  | [] => (None, m, s)
  | GotContext err :: _ => (Some err, m, s)
  | GotClosed None :: _ => (Some (EMsg "RabbitMQ channel closed"), m, s)
  | GotClosed (Some err) :: _ => (Some err, m, s)
  | DeliveriesClosed :: _ => (Some (EMsg "RabbitMQ delivery channel closed"), m, s)
  | GotDelivery d env elapsed ack :: rest =>
      let '(_, m, s) := handling env elapsed ack d m s in consume rest m s
  end.

Definition runOnce (x : session) (m : Metrics) (s : consumer_db) : option error * list act * Metrics * consumer_db :=
  match connect (se_connect x) with
  | (Err err, acts) => (Some err, acts, m, s)
  | (Ok _, acts) =>
      let deferred := [CloseChannel; CloseConnection] in
      match se_consume x with
      | Err err => (Some (EWrap "start RabbitMQ consume" err), acts ++ deferred, m, s)
      | Ok _ =>
          let '(ended, m, s) := consume (se_received x) m s in
          (ended, acts ++ [SetReady true] ++ match ended with Some _ => deferred | None => [] end, m, s)
      end
  end%list.

(** [Run]: what it returns, if it does, and everything it did to its
    connections. *)
Fixpoint Run (rounds : list round) (acts : list act) (m : Metrics) (s : consumer_db)
    : option error * list act * Metrics * consumer_db :=
  match rounds with
  | [] => (None, acts, m, s)
  | r :: rest =>
      match ro_err r with
      | Some err => (Some err, acts, m, s)
      | None =>
          let '(ended, did, m, s) := runOnce (ro_session r) m s in
          match ended with
          | None => (None, (acts ++ did)%list, m, s)
          | Some err =>
              let m := if errors_is err "context.Canceled" then m else RecordConnectionError m in
              let acts := (acts ++ did ++ [SetReady false])%list in
              match ro_wait r with
              | Some err => (Some err, acts, m, s)
              | None => Run rest acts m s
              end
          end
      end
  end.

(** ** Nothing stays open *)
Record line : Type := { open_connections : nat; open_channels : nat; is_ready : bool }.
Definition act_on (a : act) (l : line) : line :=
  match a with
  | OpenConnection => {| open_connections := S (open_connections l); open_channels := open_channels l; is_ready := is_ready l |}
  | CloseConnection => {| open_connections := pred (open_connections l); open_channels := open_channels l; is_ready := is_ready l |}
  | OpenChannel => {| open_connections := open_connections l; open_channels := S (open_channels l); is_ready := is_ready l |}
  | CloseChannel => {| open_connections := open_connections l; open_channels := pred (open_channels l); is_ready := is_ready l |}
  | SetReady b => {| open_connections := open_connections l; open_channels := open_channels l; is_ready := b |}
  end.
Definition line_after (acts : list act) : line :=
  fold_left (fun l a => act_on a l) acts {| open_connections := 0; open_channels := 0; is_ready := false |}.
Definition idle : line := {| open_connections := 0; open_channels := 0; is_ready := false |}.
Definition busy : line := {| open_connections := 1; open_channels := 1; is_ready := true |}.

Lemma consume_projection events m s ended m' s' : proj_inv (projection s) -> consume events m s = (ended, m', s') ->
  steps (proj_step sha256) (projection s) (projection s').
Proof.
  revert m s. induction events as [|[err|[err|]|d env elapsed ack|] rest IH]; intros m s Hi; cbn [consume];
    try (intros [= _ _ <-]; apply steps_refl).
  destruct (handling env elapsed ack d m s) as [[c m1] s1] eqn:Eh. intros H.
  assert (projection s1 = projection s \/ proj_step sha256 (projection s) (projection s1)) as Hs.
  { unfold handle in Eh. destruct (processDelivery _ _ _ _ _ _ _ _ _ _ _) as [r s2] eqn:Ep.
    apply process_projection in Ep as [Ep _]; [|done]. destruct r as [r|]; [destruct (action r), ack|]; by injection Eh as _ _ <-. }
  destruct Hs as [E|Hs]; [rewrite <-E; eapply IH; [by rewrite E|exact H]|].
  eapply steps_cons; [exact Hs|]. eapply IH; [|exact H]. by eapply proj_step_inv.
Qed.

Lemma runOnce_line x m s ended acts m' s' : runOnce x m s = (ended, acts, m', s') ->
  fold_left (fun l a => act_on a l) (acts ++ match ended with Some _ => [SetReady false] | None => [] end) idle =
  match ended with Some _ => idle | None => busy end.
Proof.
  unfold runOnce. destruct (connect (se_connect x)) as [r did] eqn:Ec.
  assert ((is_ok r = true /\ did = [OpenConnection; OpenChannel]) \/ (is_ok r = false /\
    (did = [] \/ did = [OpenConnection; CloseConnection] \/ did = [OpenConnection; OpenChannel; CloseChannel; CloseConnection]))) as Hd.
  { revert Ec. unfold connect. repeat case_goal; intros [= <- <-]; cbn; tauto. }
  destruct r as [[]|err].
  - destruct Hd as [[_ ->]|[? _]]; [|done]. destruct (se_consume x); [|by intros [= <- <- _ _]].
    destruct (consume _ _ _) as [[e m1] s1]. intros [= <- <- _ _]. by destruct e.
  - intros [= <- <- _ _]. by destruct Hd as [[? _]|[_ [-> | [-> | ->]]]].
Qed.

(** The consumer's [Run] ends only with its context, holds one connection and
    one channel while it waits in a session and none otherwise, reports itself
    ready exactly then, and changes the projection only by its ordinary
    steps. *)
Theorem Run_sound rounds m s ended acts m' s' : proj_inv (projection s) -> Run rounds [] m s = (ended, acts, m', s') ->
  (forall err, ended = Some err -> exists r, r ∈ rounds /\ (ro_err r = Some err \/ ro_wait r = Some err)) /\
  (line_after acts = idle \/ ended = None /\ line_after acts = busy) /\
  steps (proj_step sha256) (projection s) (projection s').
Proof.
  assert (forall acts0, line_after acts0 = idle -> proj_inv (projection s) -> Run rounds acts0 m s = (ended, acts, m', s') ->
    (forall err, ended = Some err -> exists r, r ∈ rounds /\ (ro_err r = Some err \/ ro_wait r = Some err)) /\
    (line_after acts = idle \/ ended = None /\ line_after acts = busy) /\
    steps (proj_step sha256) (projection s) (projection s')) as H; [|by apply H].
  revert m s. induction rounds as [|r rest IH]; intros m s acts0 Ha Hi; cbn [Run].
  - intros [= <- <- _ <-]. split; [done|]. split; [by left|apply steps_refl].
  - destruct (ro_err r) as [err|] eqn:Er.
    + intros [= <- <- _ <-]. split; [|split; [by left|apply steps_refl]]. intros ? [= <-]. exists r. split; [left|by left].
    + destruct (runOnce (ro_session r) m s) as [[[e did] m1] s1] eqn:Eo.
      assert (steps (proj_step sha256) (projection s) (projection s1)) as Hs.
      { unfold runOnce in Eo. destruct (connect _) as [[]]; [|injection Eo as _ _ _ <-; apply steps_refl].
        destruct (se_consume _); [|injection Eo as _ _ _ <-; apply steps_refl].
        destruct (consume _ _ _) as [[e2 m2] s2] eqn:Ec. injection Eo as _ _ _ <-. by eapply consume_projection. }
      apply runOnce_line in Eo. destruct e as [err|].
      * assert (line_after (acts0 ++ did ++ [SetReady false]) = idle) as Hl.
        { unfold line_after. rewrite fold_left_app. fold (line_after acts0). by rewrite Ha. }
        destruct (ro_wait r) as [werr|] eqn:Ew.
        -- intros [= <- <- _ <-]. split; [|by split; [left|]]. intros ? [= <-]. exists r. split; [left|by right].
        -- intros H. apply IH in H as (H1 & H2 & H3); [|done|by eapply (steps_invariant _ proj_inv); [|exact Hi|exact Hs]; apply proj_step_inv].
           split; [|split; [done|by eapply steps_trans]]. intros x Hx. destruct (H1 x Hx) as (q & Hq & Hor). exists q. split; [by right|done].
      * intros [= <- <- _ <-]. split; [done|]. split; [right|done]. split; [done|]. unfold line_after. rewrite fold_left_app.
        fold (line_after acts0). rewrite Ha. by rewrite app_nil_r in Eo.
Qed.
End Session.
