(* ===== verification/EventSchema.v ===== *)
(** * The schema of a confirmed entry's event

    api/events: the JSON Schema of ledger.entry.confirmed.v1 and its loading.
    Publisher and consumer both ask it about every event.  The theorems show
    that it accepts whatever the Ledger writes to its outbox, so that the
    publisher refuses no event for its form, and what it guarantees of an
    event from anyone.

    The compiler is third-party: [compile_document] states what draft 2020-12
    says of the keywords the document uses.  [format] decides a format, if the
    compiler asserts formats at all; [matches] is the regular expression
    engine. *)

From S2P Require Import Prelude.
From S2P Require Import GoStrings.
From S2P Require Import GoTime.
From S2P Require Import Json.
From S2P Require Import LedgerDomain.
From S2P Require Import TraceContext.
From S2P Require Import LedgerDB.
From S2P Require Import LedgerService.
From S2P Require Import LedgerCommands.
From S2P Require Import LedgerInvariant.
From S2P Require Import LedgerRetry.
From S2P Require Import LedgerPages.
From S2P Require Import Auth.
From S2P Require Import Outbox.
From S2P Require Import ConsolidationDomain.
From Stdlib Require String.
From Stdlib Require Import ZArith Lia Ascii.
Open Scope string_scope.
Open Scope Z_scope.

(** ** The document *)
Definition strings (l : list string) : json := JArr (map JStr l).
Definition text (keywords : list (string * json)) : json := JObj (("type", JStr "string") :: keywords).
Definition formatted (name : string) : json := text [("format", JStr name)].
Definition positive : json := JObj [("type", JStr "integer"); ("minimum", JInt 1)].
Definition trace_pattern : string := "^[0-9a-f]{2}-[0-9a-f]{32}-[0-9a-f]{16}-[0-9a-f]{2}$".
Definition event_fields : list string :=
  ["event_id"; "event_type"; "occurred_at"; "merchant_id"; "merchant_position"; "entry_id"; "entry_type"; "amount_minor";
   "currency"; "business_date"; "confirmed_at"; "original_entry_id"; "traceparent"].
Definition event_properties : list (string * json) :=
  [("event_id", formatted "uuid"); ("event_type", JObj [("const", JStr "ledger.entry.confirmed.v1")]);
   ("occurred_at", formatted "date-time"); ("merchant_id", formatted "uuid"); ("merchant_position", positive);
   ("entry_id", formatted "uuid"); ("entry_type", JObj [("enum", strings ["credit"; "debit"])]); ("amount_minor", positive);
   ("currency", JObj [("const", JStr "BRL")]); ("business_date", formatted "date"); ("confirmed_at", formatted "date-time");
   ("original_entry_id", JObj [("type", strings ["string"; "null"]); ("format", JStr "uuid")]);
   ("traceparent", text [("pattern", JStr trace_pattern)])].
Definition event_schema : json :=
  JObj [("$schema", JStr "https://json-schema.org/draft/2020-12/schema");
        ("$id", JStr "https://github.com/higordiegoti/keyrus/api/events/ledger.entry.confirmed.v1.schema.json");
        ("title", JStr "ledger.entry.confirmed.v1");
        ("description", JStr "Persistent AMQP event emitted after a durable Ledger confirmation.");
        ("type", JStr "object"); ("required", strings event_fields); ("properties", JObj event_properties);
        ("additionalProperties", JBool true)].

(** ** The keywords of draft 2020-12 it uses *)
Section Keywords.
Context (format matches : string -> string -> bool).
(** Of a number that is not written as an integer: whether it is one, and
    whether it reaches a minimum. *)
Context (integral : string -> bool) (reaches : string -> Z -> bool).

Definition has_type (name : string) (j : json) : bool :=
  match j with
  | JNull => String.eqb name "null"
  | JBool _ => String.eqb name "boolean"
  | JInt _ => String.eqb name "integer" || String.eqb name "number"
  | JNum n => String.eqb name "number" || (String.eqb name "integer" && integral n)
  | JStr _ => String.eqb name "string"
  | JArr _ => String.eqb name "array"
  | JObj _ => String.eqb name "object"
  end.
(** The instance is the text a const, or a member of an enum, asks for. *)
Definition same_text (wanted j : json) : bool :=
  match wanted, j with JStr w, JStr s => String.eqb w s | _, _ => false end.
Definition required (names : list json) (j : json) : bool :=
  match j with
  | JObj fields => forallb (fun n => match n with JStr name => match jraw name fields with Some _ => true | None => false end | _ => true end) names
  | _ => true
  end.

(** A keyword without a meaning for the instance, or with none at all, accepts it. *)
Fixpoint accepts (schema j : json) {struct schema} : bool :=
  match schema with
  | JObj keywords =>
      (fix all (l : list (string * json)) : bool :=
         match l with
         | [] => true
         | (k, v) :: rest =>
             (if String.eqb k "type" then
                match v with
                | JStr name => has_type name j
                | JArr names => existsb (fun n => match n with JStr name => has_type name j | _ => false end) names
                | _ => false
                end
              else if String.eqb k "required" then match v with JArr names => required names j | _ => true end
              else if String.eqb k "const" then same_text v j
              else if String.eqb k "enum" then match v with JArr options => existsb (fun w => same_text w j) options | _ => false end
              else if String.eqb k "minimum" then
                match v, j with JInt bound, JInt z => bound <=? z | JInt bound, JNum n => reaches n bound | _, _ => true end
              else if String.eqb k "pattern" then match v, j with JStr p, JStr s => matches p s | _, _ => true end
              else if String.eqb k "format" then match v, j with JStr f, JStr s => format f s | _, _ => true end
              else if String.eqb k "properties" then
                match v, j with
                | JObj properties, JObj fields =>
                    (fix every (ps : list (string * json)) : bool :=
                       match ps with
                       | [] => true
                       | (name, sub) :: ps => match jraw name fields with Some x => accepts sub x | None => true end && every ps
                       end) properties
                | _, _ => true
                end
              else true) && all rest
         end) keywords
  | JBool b => b
  | _ => true
  end.
End Keywords.

(** ** Loading it *)
Section Load.
Context {resources : Type} (ReadFile : string -> result string) (UnmarshalJSON : string -> result json)
        (AddResource : string -> json -> result resources) (Compile : resources -> string -> result (json -> result unit)).

Definition location : string := "embedded://ledger.entry.confirmed.v1.schema.json".
Definition LedgerEntryConfirmedV1Schema : result (json -> result unit) :=
  content ← wrap_err "read embedded Ledger event schema" (ReadFile "ledger.entry.confirmed.v1.schema.json");
  document ← wrap_err "decode embedded Ledger event schema" (UnmarshalJSON content);
  compiler ← wrap_err "add embedded Ledger event schema" (AddResource location document);
  wrap_err "compile embedded Ledger event schema" (Compile compiler location).
End Load.

(** ** What the Ledger writes conforms *)
Lemma match_text f s n cs t : String.length s = n -> forall_chars f s = true ->
  match_classes (repeat f n ++ cs) (s +:+ t) = match_classes cs t.
Proof.
  intros <-. induction s as [|c s IH]; cbn; [done|]. intros [Hc Hs]%andb_true_iff. by rewrite Hc, IH.
Qed.
Lemma match_dash cs t : match_classes (dash ++ cs) (String "-" t) = match_classes cs t.
Proof. reflexivity. Qed.

Lemma dash_char i s : Ledger.dash_at i s = true -> char_at i s = Some "-"%char.
Proof. unfold Ledger.dash_at. destruct (char_at i s); [|done]. by intros ->%Ascii.eqb_eq. Qed.

(** A traceparent the Ledger accepts has the shape the schema and the consumer
    ask for. *)
Lemma traceparent_shape v : Ledger.ValidateTraceparent v = Ok tt -> traceparentPattern v = true /\ to_valid v = v.
Proof.
  unfold Ledger.ValidateTraceparent. intros H. do 2 (case_hyp H; [done|]). bool_to_prop.
  repeat match goal with H : Ledger.dash_at _ _ = true |- _ => apply dash_char in H end.
  assert (String.length v = 55%nat) as HL by (unfold slen in *; lia).
  assert (v = slice 0 2 v +:+ String "-" (slice 3 35 v +:+ String "-" (slice 36 52 v +:+ String "-" (slice 53 55 v)))) as E.
  { unfold slice. cbn [Nat.sub]. rewrite (string_split_at 2 v "-") at 1 by done. f_equal. f_equal.
    rewrite (string_split_at 32 (drop_chars 3 v) "-") at 1 by (by rewrite char_at_drop).
    rewrite drop_drop. cbn [Nat.add]. rewrite <- substring_drop. f_equal. f_equal.
    rewrite (string_split_at 16 (drop_chars 36 v) "-") at 1 by (by rewrite char_at_drop).
    rewrite drop_drop. cbn [Nat.add]. rewrite <- substring_drop. f_equal. f_equal.
    rewrite substring_drop. symmetry. apply substring_all. rewrite drop_length. lia. }
  unfold Ledger.lowerHex in *.
  assert (traceparentPattern v = true) as Hp.
  { rewrite E. unfold traceparentPattern. rewrite match_text, match_dash, match_text, match_dash, match_text, match_dash
      by (done || (unfold slice; rewrite substring_length; lia)).
    rewrite <- (app_nil_r (repeat is_lower_hex 2)), <- (string_app_nil_r (slice 53 55 v)).
    apply match_text; [unfold slice; rewrite substring_length; lia|done]. }
  split; [done|]. apply to_valid_ascii. unfold is_ascii.
  assert (forall s, forall_chars is_lower_hex s = true -> forall_chars (fun c => code c <? 128) s = true) as Ha.
  { intros s. apply forall_chars_impl. intros c Hc. apply is_hex_ascii. unfold is_hex. by rewrite Hc. }
  rewrite E. rewrite !forall_chars_app. cbn [forall_chars]. rewrite !forall_chars_app. cbn [forall_chars]. rewrite !forall_chars_app.
  cbn [forall_chars]. by rewrite !Ha.
Qed.

Section Conforms.
Context (format matches : string -> string -> bool) (integral : string -> bool) (reaches : string -> Z -> bool).
Notation conforms := (accepts format matches integral reaches).
(** What a format check accepts, if formats are asserted, and what the pattern
    of the document matches. *)
Context (format_uuid : forall s, is_id s -> format "uuid" s = true)
        (format_time : forall t, printable_date (t / day_ns) -> format "date-time" (format_rfc3339 t) = true)
        (matches_trace : forall s, matches trace_pattern s = traceparentPattern s).

Lemma payload_conforms id e tp j : is_id id -> is_id (Entry.id e) -> is_id (Entry.merchantID e) -> wf_entry e ->
  (forall o, Entry.originalEntryID e = Some o -> is_id o) -> Ledger.ValidateTraceparent tp = Ok tt ->
  format "date" (Calendar.date_string (Entry.businessDate e)) = true ->
  event_payload id e (Entry.confirmedAt e) tp = Ok j -> conforms event_schema j = true.
Proof.
  intros Hid Hei Hem Hw Ho [Htp Hv]%traceparent_shape Hd H. unfold event_payload in H.
  destruct (enc_time (Entry.confirmedAt e)) as [t|] eqn:Et; [|done]. cbn [mbind result_bind] in H. injection H as <-.
  apply enc_time_inv in Et as [-> Hprint%format_time]. unfold enc_string, enc_string_ptr.
  rewrite (is_id_valid id), (is_id_valid (Entry.id e)), (is_id_valid (Entry.merchantID e)), Hv by done.
  assert (to_valid (Calendar.date_string (Entry.businessDate e)) = Calendar.date_string (Entry.businessDate e)) as ->
    by (apply to_valid_ascii, format_date_ascii).
  assert ((1 <=? Entry.position e) = true) as Hp by (pose proof (wf_position _ Hw); lia).
  assert ((1 <=? Money.minor (Entry.money e)) = true) as Ha by (pose proof (wf_amount _ Hw); lia).
  apply format_uuid in Hid, Hei, Hem.
  assert (match Entry.originalEntryID e with Some o => format "uuid" o = true | None => True end) as Hor
    by (destruct (Entry.originalEntryID e); [by apply format_uuid, Ho|done]).
  rewrite <- matches_trace in Htp. unfold Money.AmountMinor, Money.Currency.
  assert (exists ty, to_valid (Entry.entryType e) = ty /\ (ty = "credit" \/ ty = "debit")) as (ty & -> & Hty)
    by (eexists; split; [reflexivity|]; destruct (wf_type _ Hw) as [-> | ->]; [by left|by right]).
  change (to_valid entryEventType) with "ledger.entry.confirmed.v1". change (to_valid Money.CurrencyBRL) with "BRL".
  revert Hid Hei Hem Htp Hd Hprint Hp Ha Hor. generalize (Entry.id e) (Entry.merchantID e) (Entry.position e)
    (Money.minor (Entry.money e)) (Calendar.date_string (Entry.businessDate e)) (format_rfc3339 (Entry.confirmedAt e))
    (Entry.originalEntryID e).
  intros eid m p a d t o. intros. cbv -[Z.leb].
  unfold trace_pattern in Htp. rewrite Hid, Hei, Hem, Htp, Hd, Hprint, Hp, Ha.
  by destruct o, Hty as [-> | ->]; rewrite ?Hor.
Qed.

Context {resources : Type} (ReadFile : string -> result string) (UnmarshalJSON : string -> result json)
        (AddResource : string -> json -> result resources) (Compile : resources -> string -> result (json -> result unit)).

(** The embedded file reads as the document, and what the compiler makes of it
    decides as the keywords say. *)
Record embedded : Prop := {
  em_document : exists content, ReadFile "ledger.entry.confirmed.v1.schema.json" = Ok content /\ UnmarshalJSON content = Ok event_schema;
  em_compile : forall r v, AddResource location event_schema = Ok r -> Compile r location = Ok v ->
    forall j, is_ok (v j) = conforms event_schema j }.

Lemma loaded_schema valid : embedded ->
  LedgerEntryConfirmedV1Schema ReadFile UnmarshalJSON AddResource Compile = Ok valid ->
  forall j, is_ok (valid j) = conforms event_schema j.
Proof.
  intros [(content & Hr & Hu) Hc]. unfold LedgerEntryConfirmedV1Schema. rewrite Hr. cbn [wrap_err mbind result_bind]. rewrite Hu.
  cbn [wrap_err mbind result_bind]. destruct (AddResource location event_schema) as [r|] eqn:Ea; [|done]. cbn [wrap_err mbind result_bind].
  destruct (Compile r location) as [v|] eqn:Ec; [|done]. intros [= <-]. by eapply Hc.
Qed.

(** C18: every event of a reachable outbox, whatever its delivery state, belongs to
    a confirmed entry, conforms to the schema and passes all the checks of the
    publisher, the merchants given with upper-case letters aside. *)
Theorem ledger_events_conform sha256 json_text ll interval ops db o valid : embedded ->
  LedgerEntryConfirmedV1Schema ReadFile UnmarshalJSON AddResource Compile = Ok valid ->
  steps (ledger_step sha256 json_text ll) empty_db db -> o ∈ run_ops interval ops (outbox db) ->
  (forall r, r ∈ entries db -> format "date" (format_date (e_date r)) = true) ->
  exists e, describes e o /\ row_of_entry e ∈ entries db /\ is_ok (valid (o_payload o)) = true /\
    (is_ok (prepare valid (event_of_row o)) = true <-> pg_uuid (Entry.merchantID e) = Entry.merchantID e).
Proof.
  intros He Hl Hs Ho Hdates. pose proof (loaded_schema valid He Hl) as Hv.
  destruct (outbox_described sha256 json_text ll interval ops db o Hs Ho) as (e & Hd & Hrow). exists e.
  assert (is_ok (valid (o_payload o)) = true) as Hok.
  { rewrite Hv. destruct Hd as [_ Hm _ _ _ [Hi _] _ _ Hw Hor (id & tp & Hid & _ & Htp & Hp)].
    apply (payload_conforms id e tp); try done; [by apply minted_id|by apply minted_id|]. exact (Hdates _ Hrow). }
  splits; [done..|]. rewrite <- (describes_publishable _ _ Hd). unfold prepare. cbn [Payload Event_type event_of_row].
  rewrite (eo_type _ _ Hd). change (negb (String.eqb entryEventType Outbox.EventType)) with false. cbv iota.
  by destruct (valid (o_payload o)) as [[]|].
Qed.
End Conforms.

(** ** A concrete outbox, formats not asserted *)
Definition sample_accepts : json -> bool :=
  accepts (fun _ _ => true) (fun _ s => traceparentPattern s) (fun _ => false) (fun _ _ => false) event_schema.
Definition sample_valid (j : json) : result unit := if sample_accepts j then Ok tt else Err (EMsg "jsonschema validation failed").

Lemma sample_embedded : embedded (fun _ _ => true) (fun _ s => traceparentPattern s) (fun _ => false) (fun _ _ => false)
  (fun _ => Ok "{}") (fun _ => Ok event_schema) (fun _ _ => Ok tt) (fun _ _ => Ok sample_valid).
Proof.
  split; [by exists "{}"|]. intros r v _ [= <-] j. unfold sample_valid. fold sample_accepts. by destruct (sample_accepts j).
Qed.

Lemma ledger_events_conform_witness :
  exists o e, o ∈ outbox sample_db1 /\ describes e o /\ is_ok (sample_valid (o_payload o)) = true /\
    (is_ok (prepare sample_valid (event_of_row o)) = true <-> pg_uuid (Entry.merchantID e) = Entry.merchantID e).
Proof.
  assert (exists o, outbox sample_db1 = [o]) as [o Ho] by (eexists; reflexivity).
  assert (o ∈ run_ops (fun d => d) [] (outbox sample_db1)) as Hin by (rewrite Ho; left).
  destruct (ledger_events_conform (fun _ _ => true) (fun _ s => traceparentPattern s) (fun _ => false) (fun _ _ => false)
    (fun _ _ => eq_refl) (fun _ _ => eq_refl) (fun _ => eq_refl) (fun _ => Ok "{}") (fun _ => Ok event_schema) (fun _ _ => Ok tt)
    (fun _ _ => Ok sample_valid) sample_sha256 sample_text sample_zone (fun d => d) [] sample_db1 o sample_valid
    sample_embedded eq_refl sample_steps1 Hin (fun _ _ => eq_refl)) as (e & He & _ & Hv & Hp).
  exists o, e. split; [exact Hin|split; [exact He|split; [exact Hv|exact Hp]]].
Defined.
