(* ===== verification/EndToEnd.v ===== *)
(** * From the Ledger's outbox to the Consolidation's inbox

    The two services share no code: the event the Ledger writes is rendered,
    published and parsed again.  Here the publisher's message meets the
    consumer's checks. *)

From S2P Require Import Prelude.
From S2P Require Import GoStrings.
From S2P Require Import GoTime.
From S2P Require Import Json.
From S2P Require Import LedgerDomain.
From S2P Require Import LedgerDB.
From S2P Require Import LedgerService.
From S2P Require Import LedgerCommands.
From S2P Require Import Outbox.
From S2P Require Import ConsolidationDomain.
From S2P Require Import Projection.
From S2P Require Import PendingStore.
From S2P Require Import Consumer.
From S2P Require Import TraceContext.
From S2P Require Import EventSchema.
From Stdlib Require String.
From Stdlib Require Import ZArith Lia Ascii.
Open Scope string_scope.
Open Scope Z_scope.

(** ** Minted identifiers follow the consumer's pattern *)
Lemma hex_digit_is_hex d : 0 <= d < 16 -> is_hex (hex_digit d) = true.
Proof. intros [H _]%hex_digit_spec. unfold is_hex. by rewrite H. Qed.

Lemma byte_digits b : is_byte_value b -> 0 <= b / 16 < 16 /\ 0 <= b mod 16 < 16.
Proof. unfold is_byte_value. intros H. split; [split; [apply Z.div_pos|apply Z.div_lt_upper_bound]|apply Z.mod_pos_bound]; lia. Qed.

Lemma match_hex l cs t : Forall is_byte_value l ->
  match_classes (repeat is_hex (2 * length l) ++ cs) (hex_encode l +:+ t) = match_classes cs t.
Proof.
  induction 1 as [|b l Hb Hl IH]; [done|]. destruct (byte_digits b Hb) as [H1 H2].
  replace (2 * length (b :: l))%nat with (S (S (2 * length l))) by (cbn; lia).
  cbn [repeat app hex_encode String.append match_classes].
  by rewrite (hex_digit_is_hex _ H1), (hex_digit_is_hex _ H2), IH.
Qed.

Lemma version_seven : version_digit (hex_digit 7) = true.
Proof. reflexivity. Qed.

Lemma variant_eight d : 8 <= d < 12 -> variant_digit (hex_digit d) = true.
Proof.
  intros H. assert (d = 8 \/ d = 9 \/ d = 10 \/ d = 11) as [-> | [-> | [-> | ->]]] by lia; reflexivity.
Qed.

Ltac bytes := repeat first [apply Forall_nil_2 | apply Forall_cons_2]; done.

Lemma uuid_text_pattern b : length b = 16%nat -> Forall is_byte_value b ->
  nth 6 b 0 / 16 = 7 -> 8 <= nth 8 b 0 / 16 < 12 -> uuidPattern (uuid_text b) = true.
Proof.
  intros Hl Hb. destruct (list_16 b Hl) as
    (a0 & a1 & a2 & a3 & a4 & a5 & a6 & a7 & a8 & a9 & a10 & a11 & a12 & a13 & a14 & a15 & ->).
  cbn [nth]. intros H6 H8.
  rewrite !list.Forall_cons in Hb.
  destruct Hb as (B0 & B1 & B2 & B3 & B4 & B5 & B6 & B7 & B8 & B9 & B10 & B11 & B12 & B13 & B14 & B15 & _).
  unfold uuidPattern. change (uuid_text _) with (hex_encode [a0;a1;a2;a3] +:+ String "-" (hex_encode [a4;a5] +:+ String "-"
    (String (hex_digit (a6 / 16)) (String (hex_digit (a6 mod 16)) (hex_encode [a7] +:+ String "-"
    (String (hex_digit (a8 / 16)) (String (hex_digit (a8 mod 16)) (hex_encode [a9] +:+ String "-"
    (hex_encode [a10;a11;a12;a13;a14;a15] +:+ ""))))))))).
  destruct (byte_digits a6) as [_ ?]; [done|]. destruct (byte_digits a8) as [_ ?]; [done|].
  pose proof (version_seven) as Hv. pose proof (variant_eight _ H8) as Hw.
  change (repeat is_hex 8) with (repeat is_hex (2 * length [a0;a1;a2;a3])).
  rewrite match_hex by bytes. cbn [match_classes dash app]. change (Ascii.eqb "-" "-") with true. cbn [andb].
  change (repeat is_hex 4) with (repeat is_hex (2 * length [a4;a5])).
  rewrite match_hex by bytes. cbn [match_classes dash app]. change (Ascii.eqb "-" "-") with true. cbn [andb].
  change (repeat is_hex 3) with (is_hex :: repeat is_hex (2 * length [a7])). cbn [app match_classes].
  rewrite H6, Hv, hex_digit_is_hex, match_hex by (done || bytes). cbn [andb match_classes dash app].
  change (Ascii.eqb "-" "-") with true. cbn [andb].
  change (2 * length [a7])%nat with (2 * length [a9])%nat.
  rewrite Hw, hex_digit_is_hex, match_hex by (done || bytes). cbn [andb match_classes dash app].
  change (Ascii.eqb "-" "-") with true. cbn [andb].
  pose proof (match_hex [a10;a11;a12;a13;a14;a15] [] "" ltac:(bytes)) as E. rewrite app_nil_r in E. exact E.
Qed.

Lemma minted_pattern id : minted id -> uuidPattern id = true /\ to_lower id = id.
Proof.
  intros (now & [raw|e] & H); [|done]. unfold uuidGenerator in H. apply NewUUIDv7_lower in H as Hl.
  apply NewUUIDv7_text in H. pose proof (uuid_bytes_range (wrapu64 (unix_milli now)) raw) as Hb.
  assert (uuidPattern id = true) as Hp.
  { rewrite H. apply uuid_text_pattern; [done|done|..].
    - change (nth 6 _ 0) with (Z.lor (Z.land (Z.land (nth 6 raw 0) 255) 15) 112). rewrite uuid_version_byte. dlia.
    - change (nth 8 _ 0) with (Z.lor (Z.land (Z.land (nth 8 raw 0) 255) 63) 128). rewrite uuid_variant_byte. dlia. }
  split; [done|]. destruct (uuidPattern_lower _ Hp) as [Ha _]. by rewrite to_lower_ascii.
Qed.

(** ** The event of an entry, at the Consolidation *)

(** What a confirmed entry is: well formed, with minted identifiers, values of
    their Go types and a business date that prints. *)
Record exportable (e : Entry.entry) : Prop := {
  ex_wf : wf_entry e; ex_original : forall o, Entry.originalEntryID e = Some o -> minted o;
  ex_amount : in_int64 (Money.minor (Entry.money e)) = true;
  ex_date : printable_date (date_of_time (Calendar.value (Entry.businessDate e)));
  ex_day : date_of_time (Calendar.value (Entry.businessDate e)) <> 0 }.

Definition event_for (eventID : string) (e : Entry.entry) (traceparent : string) : EntryConfirmed :=
  {| ConsolidationDomain.EventID := eventID; ConsolidationDomain.EventType := EntryConfirmedV1;
     ConsolidationDomain.OccurredAt := Entry.confirmedAt e; ConsolidationDomain.MerchantID := Entry.merchantID e;
     ConsolidationDomain.MerchantPosition := Entry.position e; ConsolidationDomain.EntryID := Entry.id e;
     EntryType := Entry.entryType e; AmountMinor := Money.minor (Entry.money e); Currency := CurrencyBRL;
     BusinessDate := date_of_time (Calendar.value (Entry.businessDate e)) * day_ns; ConfirmedAt := Entry.confirmedAt e;
     OriginalEntryID := Entry.originalEntryID e; Traceparent := traceparent |}.

Lemma to_valid_minted id : minted id -> to_valid id = id.
Proof. intros [H _]%minted_id. by apply is_id_valid. Qed.

Lemma decoded_event eventID e tp j : exportable e -> minted eventID -> minted (Entry.id e) -> is_id (Entry.merchantID e) ->
  in_int64 (Entry.position e) = true -> event_payload eventID e (Entry.confirmedAt e) tp = Ok j ->
  exists wire, decode_wire j = Ok wire /\ parse_wire wire =
  (_ ← Validate (event_for eventID e (to_valid tp)); Ok (Canonical (event_for eventID e (to_valid tp)))).
Proof.
  intros [Hw Ho Ham Hd Hd0] Hev Hid Hm Hpos H. unfold event_payload in H.
  destruct (enc_time (Entry.confirmedAt e)) as [t|] eqn:Et; [|done]. cbn [mbind result_bind] in H. injection H as <-.
  apply enc_time_inv in Et as [-> Hprint].
  assert (to_valid (Entry.entryType e) = Entry.entryType e) as Ht by (destruct (wf_type _ Hw) as [-> | ->]; reflexivity).
  assert (to_valid (Calendar.date_string (Entry.businessDate e)) = Calendar.date_string (Entry.businessDate e)) as Hds
    by (apply to_valid_ascii, format_date_ascii).
  eexists. split.
  { unfold decode_wire, enc_string, enc_string_ptr.
    rewrite Ht, Hds, (to_valid_minted _ Hev), (to_valid_minted _ Hid), (is_id_valid _ Hm).
    jfields. rewrite Hpos. cbn [mbind result_bind]. unfold Money.AmountMinor. rewrite Ham. reflexivity. }
  unfold parse_wire. cbn [wire_OccurredAt wire_ConfirmedAt wire_BusinessDate wire_OriginalEntryID].
  rewrite !parse_format_rfc3339 by done. unfold Calendar.date_string. rewrite parse_format_date by done.
  assert (to_valid entryEventType = EntryConfirmedV1) as -> by (vm_compute; reflexivity).
  assert (to_valid (Money.Currency (Entry.money e)) = CurrencyBRL) as -> by (vm_compute; reflexivity).
  unfold event_for. by destruct (Entry.originalEntryID e).
Qed.

Lemma event_valid eventID e tp : exportable e -> minted eventID -> minted (Entry.id e) ->
  (Validate (event_for eventID e tp) = Ok tt <-> uuidPattern (Entry.merchantID e) = true /\ traceparentPattern tp = true).
Proof.
  intros [Hw Ho Ham Hd Hd0] Hev Hid. rewrite Validate_ok. split; [by intros []|]. intros [Hm Htp].
  split; try done; cbn.
  - by apply minted_pattern.
  - by apply minted_pattern.
  - intros o Hoo. by apply minted_pattern, Ho.
  - pose proof (wf_position _ Hw). lia.
  - apply (wf_type _ Hw).
  - pose proof (wf_amount _ Hw). lia.
  - apply (wf_confirmed _ Hw).
  - apply (wf_confirmed _ Hw).
  - unfold day_ns, second. lia.
Qed.

Lemma event_canonical eventID e tp : exportable e -> minted eventID -> minted (Entry.id e) ->
  uuidPattern (Entry.merchantID e) = true -> pg_uuid (Entry.merchantID e) = Entry.merchantID e ->
  Canonical (event_for eventID e tp) = event_for eventID e tp.
Proof.
  intros Hx Hev Hid Hm Hl. unfold Canonical, event_for. cbn.
  rewrite (proj2 (minted_pattern _ Hev)), (proj2 (minted_pattern _ Hid)).
  destruct (uuidPattern_lower _ Hm) as [Ha _]. rewrite to_lower_ascii by done. unfold pg_uuid in Hl. rewrite Hl.
  destruct (Entry.originalEntryID e) as [o|] eqn:Eo; [|done]. cbn. by rewrite (proj2 (minted_pattern _ (ex_original _ Hx o Eo))).
Qed.

Lemma envelope_traceparent id e tp f envelope : minted id -> minted (Entry.id e) -> is_id (Entry.merchantID e) ->
  in_int64 (Entry.position e) = true -> event_payload id e (Entry.confirmedAt e) tp = Ok (JObj f) ->
  unmarshal_envelope f = Ok envelope -> n_Traceparent envelope = to_valid tp /\ n_EntryID envelope = Entry.id e.
Proof.
  intros Hid Hmi Hmid Hrange Hp Hu. unfold event_payload in Hp.
  destruct (enc_time (Entry.confirmedAt e)) as [t|] eqn:Et; [|done]. cbn [mbind result_bind] in Hp. injection Hp as Hp.
  assert (exists env, unmarshal_envelope f = Ok env /\ n_Traceparent env = to_valid tp /\ n_EntryID env = Entry.id e)
    as (env & Hu' & H); [|by rewrite Hu in Hu'; injection Hu' as ->].
  rewrite <- Hp. eexists. split.
  - unfold unmarshal_envelope, enc_string. jfields. rewrite (dec_enc_time _ _ Et). cbn [mbind result_bind].
    rewrite Hrange. cbn [mbind result_bind]. reflexivity.
  - cbn. by rewrite (to_valid_minted _ Hmi).
Qed.

(** The publisher's message as the broker delivers it. *)
Definition delivery_of (p : Publishing) (body : string) : delivery :=
  {| MessageId := p_MessageId p; Type_ := p_Type p; CorrelationId := p_CorrelationId p; Headers := p_Headers p; Body := body |}.

Lemma event_delivered decode_stream body e o envelope :
  describes e o -> exportable e -> validateEnvelope (event_of_row o) = Ok envelope ->
  decode_stream body = Ok (o_payload o, AtEOF) ->
  let parsed := ParseEntryConfirmed decode_stream body in
  let d := delivery_of (publishingForEvent (event_of_row o) envelope) body in
  (is_ok parsed = true <-> uuidPattern (Entry.merchantID e) = true) /\
  (forall ev, parsed = Ok ev -> validateDeliveryIdentity d ev = Ok tt /\ Type_ d = EntryConfirmedV1 /\
     ConsolidationDomain.MerchantID ev = o_merchant o /\ ConsolidationDomain.MerchantPosition ev = o_position o /\
     ConsolidationDomain.EntryID ev = Entry.id e /\
     date_of_time (BusinessDate ev) = date_of_time (Calendar.value (Entry.businessDate e)) /\
     snd (FinancialEffect ev) = Entry.signed_amount e).
Proof.
  intros Hdes Hx Hv Hdec parsed d. pose proof (describes_envelope _ _ Hdes) as (env' & Hu & (f & Ef) & Hf & _ & Hmatch).
  unfold validateEnvelope in Hv. cbn [Payload event_of_row] in Hv. rewrite Ef in *. rewrite Hf in Hv. cbn [String.eqb negb] in Hv.
  rewrite Hu, Hmatch in Hv. destruct (String.eqb_spec (Entry.merchantID e) (pg_uuid (Entry.merchantID e))) as [Hl|]; [|done].
  injection Hv as <-. destruct Hdes as [Hagg Hmid Hmer Hpos Hty [Hmi _] Hrange Hocc _ _ (id & tp & Hid & Hev & Htrace & Hp)].
  apply traceparent_shape in Htrace as [Hshape Htpv].
  destruct (decoded_event _ _ _ _ Hx Hid Hmi Hmid Hrange Hp) as (wire & Hwire & Hparse). rewrite Ef in Hwire.
  assert (parsed = (_ ← Validate (event_for id e (to_valid tp)); Ok (Canonical (event_for id e (to_valid tp))))) as Epar
    by (unfold parsed, ParseEntryConfirmed; rewrite Hdec; cbn [mbind result_bind fst snd]; rewrite Hwire; exact Hparse).
  assert (n_Traceparent env' = to_valid tp /\ n_EntryID env' = Entry.id e) as [Etp Een]
    by (eapply envelope_traceparent; [exact Hid|exact Hmi|exact Hmid|exact Hrange|rewrite Ef in Hp; exact Hp|exact Hu]).
  pose proof (event_valid id e (to_valid tp) Hx Hid Hmi) as Hval.
  destruct (Validate (event_for id e (to_valid tp))) as [[]|err] eqn:Ev.
  2:{ assert (parsed = Err err) as -> by by rewrite Epar. split; [split; [done|]|done]. intros Hm.
    by assert (Err err = Ok tt) by (apply Hval; by rewrite Htpv). }
  destruct (proj1 Hval eq_refl) as [Hm Htp].
  assert (parsed = Ok (event_for id e (to_valid tp))) as ->
    by (rewrite Epar; cbn [mbind result_bind]; by rewrite event_canonical).
  split; [done|]. intros ev [= <-]. unfold validateDeliveryIdentity, d, delivery_of, publishingForEvent.
  destruct (minted_id _ Hid) as [_ Hid2]. destruct (minted_id _ Hmi) as [_ Hmi2].
  cbn -[header format_date EntryConfirmedV1 entryEventType].
  rewrite Hev, Hagg, Hty, Hmer, Hpos, Hid2, Hmi2, <- Hl. cbn [header fst snd identity_headers].
  rewrite Een, Etp.
  change entryEventType with EntryConfirmedV1. cbn [String.eqb Ascii.eqb Bool.eqb].
  cbn [Outbox.EventID Outbox.MerchantID Outbox.MerchantPosition Event_type event_of_row].
  rewrite Hev, Hty, Hmer, Hpos, Hid2, <- Hl. change entryEventType with EntryConfirmedV1.
  rewrite !String.eqb_refl. cbn [andb negb]. splits; [done..| |].
  - unfold date_of_time. apply Z.div_mul. unfold day_ns, second. lia.
  - unfold FinancialEffect, event_for, Entry.signed_amount. cbn [EntryType AmountMinor].
    change EntryCredit with Entry.EntryTypeCredit. destruct (String.eqb _ _); [done|]. cbn [snd].
    pose proof (wf_amount _ (ex_wf _ Hx)). pose proof (proj1 (in_int64_spec _) (ex_amount _ Hx)).
    apply wrap64_id. unfold int64_min, int64_max in *. lia.
Qed.

(** C26: an entry the Ledger confirmed reaches the Consolidation as itself: the
    message the publisher builds from its outbox row is accepted by the
    consumer's parser exactly when the merchant's identifier has the
    consumer's UUID form; an accepted message passes every identity check, and carries the row's merchant and position,
    the entry's identifier, day and signed amount. *)
Theorem event_reaches_consolidation decode_stream body e o envelope :
  describes e o -> exportable e -> validateEnvelope (event_of_row o) = Ok envelope ->
  decode_stream body = Ok (o_payload o, AtEOF) ->
  let parsed := ParseEntryConfirmed decode_stream body in
  let d := delivery_of (publishingForEvent (event_of_row o) envelope) body in
  (is_ok parsed = true <-> uuidPattern (Entry.merchantID e) = true) /\
  (forall ev, parsed = Ok ev -> validateDeliveryIdentity d ev = Ok tt /\ Type_ d = EntryConfirmedV1 /\
     ConsolidationDomain.MerchantID ev = o_merchant o /\ ConsolidationDomain.MerchantPosition ev = o_position o /\
     ConsolidationDomain.EntryID ev = Entry.id e /\
     date_of_time (BusinessDate ev) = date_of_time (Calendar.value (Entry.businessDate e)) /\
     snd (FinancialEffect ev) = Entry.signed_amount e).
Proof. apply event_delivered. Qed.

(** From an outbox row to the projection: the message of a confirmed entry's
    event, once the publisher's checks let it through, is applied
    and acknowledged when the projection's transaction succeeds; neither the
    schema nor any other check stands in its way. *)
Theorem confirmed_event_applied json_decode decode_stream schema_valid sha256 json_valid json_quote json_text config env s body e o envelope r db :
  describes e o -> exportable e -> uuidPattern (Entry.merchantID e) = true -> prepare schema_valid (event_of_row o) = Ok envelope ->
  json_decode body = Ok (o_payload o) -> decode_stream body = Ok (o_payload o, AtEOF) ->
  InjectFailure config = None -> AfterApply config = None ->
  (forall ev, ParseEntryConfirmed decode_stream body = Ok ev -> Apply sha256 (de_apply env) ev (projection s) = (Ok r, db)) ->
  exists res s', processDelivery sha256 decode_stream json_decode schema_valid json_valid json_quote json_text config env
    (delivery_of (publishingForEvent (event_of_row o) envelope) body) s = (Some res, s') /\
    action res = actionAck /\ pr_err res = None /\ pr_duplicate res = Duplicate r /\ projection s' = db.
Proof.
  intros Hd Hx Hm Hp Hj Hs Hi Haf Ha. unfold prepare in Hp. cbn [Event_type Payload event_of_row] in Hp. rewrite (eo_type _ _ Hd) in Hp.
  change (negb (String.eqb entryEventType Outbox.EventType)) with false in Hp. cbv iota in Hp.
  destruct (schema_valid (o_payload o)) as [[]|] eqn:Ev; [|done]. cbn [wrap_err mbind result_bind] in Hp.
  destruct (event_delivered decode_stream body e o envelope Hd Hx Hp Hs) as [[_ Hok] Hall].
  specialize (Hok Hm). destruct (ParseEntryConfirmed decode_stream body) as [ev|] eqn:Eparse; [|done].
  destruct (Hall ev eq_refl) as (Hident & Hty & _). unfold processDelivery. rewrite Hty, String.eqb_refl. cbn [negb Body delivery_of].
  rewrite Hj. cbn [wrap_err mbind result_bind]. rewrite Ev, Eparse, Hident, Hi. cbn [option_bind mbind wrap_err].
  rewrite (Ha ev eq_refl), Haf. cbn [option_bind mbind]. do 2 eexists. split; [reflexivity|]. done.
Qed.

(** ** A concrete entry *)
Definition sample_uuid (n : Z) : string :=
  match uuidGenerator (739000 * day_ns) (Ok (repeat n 10)) with Ok v => v | Err _ => "" end.
Definition sample_confirmed : Entry.entry :=
  {| Entry.id := sample_uuid 1; Entry.merchantID := "018f0000-0000-7000-8000-00000000000a"; Entry.position := 7;
     Entry.entryType := Entry.EntryTypeDebit; Entry.money := Money.Build_money 1050;
     Entry.businessDate := Calendar.Build_business_date (738999 * day_ns); Entry.description := "";
     Entry.confirmedAt := 739000 * day_ns; Entry.originalEntryID := None |}.
Definition sample_payload : json :=
  match event_payload (sample_uuid 2) sample_confirmed (739000 * day_ns) (Traceparent sample_event) with
  | Ok j => j | Err _ => JNull end.
Definition sample_row : outbox_row :=
  {| o_event := sample_uuid 2; o_aggregate := sample_uuid 1; o_merchant := Entry.merchantID sample_confirmed; o_position := 7;
     o_type := entryEventType; o_payload := sample_payload; o_occurred := 739000 * day_ns; o_created := 739000 * day_ns;
     o_available := 739000 * day_ns; o_published := None; o_attempts := 0; o_last_error := None; o_lease := None |}.

Lemma sample_minted n : minted (sample_uuid n).
Proof. exists (739000 * day_ns), (Ok (repeat n 10)). reflexivity. Qed.

Lemma sample_wf : wf_entry sample_confirmed.
Proof. split; try (vm_compute; done). by right. Qed.

Lemma sample_describes : describes sample_confirmed sample_row.
Proof.
  split; [vm_compute; reflexivity..| |vm_compute; reflexivity|vm_compute; reflexivity| | |].
  - split; [apply sample_minted|vm_compute; reflexivity].
  - apply sample_wf.
  - done.
  - exists (sample_uuid 2), (Traceparent sample_event). split; [apply sample_minted|]. repeat split; vm_compute; reflexivity.
Qed.

Lemma sample_exportable : exportable sample_confirmed.
Proof.
  split; [apply sample_wf|done|vm_compute; reflexivity|vm_compute; split; discriminate|vm_compute; discriminate].
Qed.

Lemma event_reaches_consolidation_witness :
  exists ev, ParseEntryConfirmed (fun _ => Ok (sample_payload, AtEOF)) "event" = Ok ev /\
    snd (FinancialEffect ev) = -1050 /\ ConsolidationDomain.MerchantPosition ev = 7.
Proof.
  assert (exists envelope, validateEnvelope (event_of_row sample_row) = Ok envelope) as [envelope He] by (vm_compute; by eexists).
  destruct (event_reaches_consolidation (fun _ => Ok (sample_payload, AtEOF)) "event" sample_confirmed sample_row envelope
    sample_describes sample_exportable He eq_refl) as [_ H].
  destruct (ParseEntryConfirmed (fun _ => Ok (sample_payload, AtEOF)) "event") as [ev|] eqn:E;
    [|vm_compute in E; discriminate].
  destruct (H ev eq_refl) as (_ & _ & _ & Hp & _ & _ & Hs). exists ev. split; [reflexivity|]. split; [exact Hs|exact Hp].
Defined.
