(* ===== verification/Reconciliation.v ===== *)
(** * The reconciliation worker

    services/consolidation/internal/reconciliation/worker.go and metrics.go
    over the table of migrations/000003: one transaction compares the Ledger's
    entries up to a cut with the projection and keeps the outcome of the
    greatest cut of each merchant and day.

    A stream is what its receiver sees: it may fail to open, and otherwise
    yields entries until an error ends it, [io.EOF] when it is complete.  The
    merchant's advisory lock keeps its projection still, so the queries of a
    run see one projection.  The key of the lock is the text of the identifier
    as the caller gives it: this holds for the daemon, which reads it back from
    the projection, and for a command given the same text, but one given the
    identifier in other letters takes another lock than the consumer, and its
    queries may see an event between them.  [uuid_in] is the input conversion
    of a uuid. *)

From S2P Require Import Prelude.
From S2P Require Import GoStrings.
From S2P Require Import GoTime.
From S2P Require Import LedgerDomain.
From S2P Require Import LedgerDB.
From S2P Require Import LedgerCommands.
From S2P Require Import LedgerInvariant.
From S2P Require Import LedgerRetry.
From S2P Require Import LedgerPages.
From S2P Require Import LedgerServer.
From S2P Require Import Outbox.
From S2P Require Import ConsolidationDomain.
From S2P Require Import Projection.
From S2P Require Import ProjectionInvariant.
From Stdlib Require String.
From Stdlib Require Import ZArith Lia Ascii.
Import InternalServer.
Open Scope string_scope.
Open Scope Z_scope.

Definition maxStreamAttempts : nat := 3.

Record ReconcileResult : Type := {
  MissingEntries : Z; ExtraEntries : Z; DuplicatedEntries : Z; FinancialDifferenceMinor : Z; Skipped : bool }.

(** ** The stored runs *)
Record run_row : Type := {
  r_cut : Z; r_missing : Z; r_extra : Z; r_duplicated : Z; r_diff : Z;
  r_started : Z; r_completed : Z; r_duration : Z }.
Notation run_table := (gmap (string * Z) run_row).

(** The table's checks. *)
Definition run_checks (r : run_row) : bool :=
  (0 <=? r_cut r) && (0 <=? r_missing r) && (0 <=? r_extra r) && (0 <=? r_duplicated r) && (0 <=? r_duration r).

(** ON CONFLICT (merchant_id, business_date) DO UPDATE ... WHERE the cut grows *)
Definition save_run (m : string) (day : Z) (row : run_row) (runs : run_table) : result run_table :=
  if int64_max <? r_cut row then Err (EMsg "unable to encode the cut")
  else if negb (run_checks row) then Err (EPg "23514" "reconciliation_run_check")
  else match runs !! (m, day) with
       | None => Ok (<[(m, day) := row]> runs)
       | Some old => Ok (if r_cut old <? r_cut row then <[(m, day) := row]> runs else runs)
       end.

(** ** The Ledger's stream *)
Definition EOF : error := ESentinel "io.EOF".
Definition feed : Type := result (list rpc_entry * error).
Record totals : Type := { t_entries : gmap string rpc_entry; t_credits : Z; t_debits : Z }.
Definition no_totals : totals := {| t_entries := ∅; t_credits := 0; t_debits := 0 |}.

Definition tally (e : rpc_entry) (t : totals) : totals :=
  {| t_entries := <[EntryID e := e]> (t_entries t);
     t_credits := if Type_ e =? 1 then wrap64 (t_credits t + AmountMinor e) else t_credits t;
     t_debits := if Type_ e =? 1 then t_debits t
                 else if Type_ e =? 2 then wrap64 (t_debits t + AmountMinor e) else t_debits t |}.

Fixpoint receive (dateStr : string) (es : list rpc_entry) (final : error) (t : totals) : result totals :=
  match es with
  | [] => if errors_is final "io.EOF" then Ok t else Err final
  | e :: rest =>
      if String.eqb (EntryID e) "" then Ok t
      else if negb (String.eqb (BusinessDate e) dateStr) then receive dateStr rest final t
      else receive dateStr rest final (tally e t)
  end.

Definition attemptStream (f : feed) (dateStr : string) : result totals :=
  match f with Err e => Err e | Ok (es, final) => receive dateStr es final no_totals end.

(** [left] attempts remain; [cancelled] tells whether the context has ended. *)
Fixpoint stream_attempts (left : nat) (source : nat -> feed) (cancelled : nat -> bool) (attempt : nat)
    (dateStr : string) (lastErr : error) : result totals :=
  match left with
  | O => Err (EWrap "stream did not complete" lastErr)
  | S left' =>
      match attemptStream (source attempt) dateStr with
      | Ok t => Ok t
      | Err e => if cancelled attempt then Err e
                 else stream_attempts left' source cancelled (S attempt) dateStr e
      end
  end.
Definition streamSourceEntries (source : nat -> feed) (cancelled : nat -> bool) (day : Z) : result totals :=
  stream_attempts maxStreamAttempts source cancelled 1 (format_date day) (EMsg "").

(** ** The comparison *)
Definition at_cut (m : string) (day cut : Z) (r : inbox_row) : bool := of_day m day r && (in_position r <=? cut).
Definition projected_ids (m : string) (day cut : Z) (db : cdb) : list string :=
  map in_entry (List.filter (at_cut m day cut) (inbox db)).
Definition count_one (acc : gmap string Z) (id : string) : gmap string Z := <[id := default 0 (acc !! id) + 1]> acc.
Definition loadProjectedEntryCounts (m : string) (day cut : Z) (db : cdb) : result (gmap string Z) :=
  if int64_max <? cut then Err (EMsg "unable to encode the cut")
  else Ok (fold_left count_one (projected_ids m day cut db) ∅).

Definition compareEntrySets (source : gmap string rpc_entry) (projected : gmap string Z) : Z * Z * Z :=
  (Z.of_nat (length (List.filter (fun p => default 0 (projected !! fst p) =? 0) (map_to_list source))),
   Z.of_nat (length (List.filter (fun p => match source !! fst p with Some _ => false | None => true end)
                      (map_to_list projected))),
   sumZ (fun p => if 1 <? snd p then snd p - 1 else 0) (map_to_list projected)).

(** ** Reconcile *)

(** The failures of a run's statements (a query that finds no row is none),
    its commit, its stream and its clock. *)
Record run_env : Type := {
  begin_err : option error; lock_err : option error; existing_err : option error; balance_err : option error;
  projected_err : option error; save_err : option error; run_commit : commit_outcome;
  source : nat -> feed; cancelled : nat -> bool; started : Z; finished : Z; elapsed_ms : Z }.

Definition on_fault {A} (f : option error) (r : result A) : result A := match f with Some e => Err e | None => r end.

Definition persisted (old : run_row) : ReconcileResult :=
  {| MissingEntries := r_missing old; ExtraEntries := r_extra old; DuplicatedEntries := r_duplicated old;
     FinancialDifferenceMinor := r_diff old; Skipped := true |}.

Definition abs64 (z : Z) : Z := if z <? 0 then wrap64 (- z) else z.

Section Worker.
Context (uuid_in : string -> result string).

Definition loadExistingRun (fault : option error) (merchantID : string) (day : Z) (runs : run_table) : result (option run_row) :=
  on_fault fault (m ← uuid_in merchantID; Ok (runs !! (m, day))).

(** credits_minor and debits_minor of the day's row; no row leaves both zero. *)
Definition projected_totals (fault : option error) (merchantID : string) (day : Z) (db : cdb) : result (Z * Z) :=
  on_fault fault (m ← uuid_in merchantID;
    Ok (match days_of m db !! day with Some b => (b_credits b, b_debits b) | None => (0, 0) end)).

Definition compare_run (env : run_env) (merchantID : string) (day cut : Z) (db : cdb) : result ReconcileResult :=
  t ← wrap_err "stream ledger entries" (streamSourceEntries (source env) (cancelled env) day);
  balance ← projected_totals (balance_err env) merchantID day db;
  projected ← on_fault (projected_err env) (m ← uuid_in merchantID; loadProjectedEntryCounts m day cut db);
  let '(missing, extra, duplicates) := compareEntrySets (t_entries t) projected in
  let netSource := wrap64 (t_credits t - t_debits t) in
  let netProjected := wrap64 (fst balance - snd balance) in
  Ok {| MissingEntries := missing; ExtraEntries := extra; DuplicatedEntries := duplicates;
        FinancialDifferenceMinor := abs64 (wrap64 (netProjected - netSource)); Skipped := false |}.

Definition row_of_result (env : run_env) (cut : Z) (r : ReconcileResult) : run_row :=
  {| r_cut := cut; r_missing := MissingEntries r; r_extra := ExtraEntries r; r_duplicated := DuplicatedEntries r;
     r_diff := FinancialDifferenceMinor r; r_started := truncate_us (started env);
     r_completed := truncate_us (finished env); r_duration := elapsed_ms env |}.

Definition reconcile (env : run_env) (merchantID : string) (day cut : Z) (db : cdb) (runs : run_table)
    : result ReconcileResult * run_table :=
  match on_fault (begin_err env) (Ok tt) with
  | Err e => (Err e, runs)
  | Ok _ =>
      match on_fault (lock_err env) (Ok tt) with
      | Err e => (Err (EWrap "lock merchant projection" e), runs)
      | Ok _ =>
          match loadExistingRun (existing_err env) merchantID day runs with
          | Err e => (Err e, runs)
          | Ok existing =>
              match (match existing with Some old => if cut <=? r_cut old then Some old else None | None => None end) with
              | Some old => (Ok (persisted old), runs)
              | None =>
                  match compare_run env merchantID day cut db with
                  | Err e => (Err e, runs)
                  | Ok r =>
                      match on_fault (save_err env) (m ← uuid_in merchantID; save_run m day (row_of_result env cut r) runs) with
                      | Err e => (Err (EWrap "save reconciliation run" e), runs)
                      | Ok runs' =>
                          match run_commit env with
                          | CommitOk => (Ok r, runs')
                          | CommitFailed e => (Err (EWrap "commit reconciliation" e), runs)
                          | CommitUnknown e => (Err (EWrap "commit reconciliation" e), runs')
                          end
                      end
                  end
              end
          end
      end
  end.

(** ** metrics.go *)
Record run_metrics : Type := {
  runs_total : Z; skipped_total : Z; errors_total : Z; lastCut : Z; lastMissing : Z; lastExtra : Z;
  lastDuplicated : Z; lastFinancial : Z; lastDurationNano : Z; lastRunUnixNano : Z }.

Definition RecordRun (r : result ReconcileResult) (cut duration now : Z) (m : run_metrics) : run_metrics :=
  match r with
  | Err _ =>
      {| runs_total := wrapu64 (runs_total m + 1); skipped_total := skipped_total m;
         errors_total := wrapu64 (errors_total m + 1); lastCut := lastCut m; lastMissing := lastMissing m;
         lastExtra := lastExtra m; lastDuplicated := lastDuplicated m; lastFinancial := lastFinancial m;
         lastDurationNano := lastDurationNano m; lastRunUnixNano := lastRunUnixNano m |}
  | Ok res =>
      {| runs_total := wrapu64 (runs_total m + 1);
         skipped_total := if Skipped res then wrapu64 (skipped_total m + 1) else skipped_total m;
         errors_total := errors_total m; lastCut := cut; lastMissing := MissingEntries res;
         lastExtra := ExtraEntries res; lastDuplicated := DuplicatedEntries res;
         lastFinancial := FinancialDifferenceMinor res; lastDurationNano := Z.max duration 0; lastRunUnixNano := now |}
  end.

Record worker : Type := { w_runs : run_table; w_metrics : option run_metrics }.

Definition Reconcile (env : run_env) (duration now : Z) (merchantID : string) (day cut : Z) (db : cdb) (w : worker)
    : result ReconcileResult * worker :=
  let '(r, runs) := reconcile env merchantID day cut db (w_runs w) in
  (r, {| w_runs := runs; w_metrics := option_map (RecordRun r cut duration now) (w_metrics w) |}).
End Worker.

(** ** Counting with maps *)
Lemma wrap64_cong a b : a mod 18446744073709551616 = b mod 18446744073709551616 -> wrap64 a = wrap64 b.
Proof. intros H. unfold wrap64. f_equal. by rewrite Z.add_mod, H, <- Z.add_mod. Qed.

Lemma wrap64_mod z : wrap64 z mod 18446744073709551616 = z mod 18446744073709551616.
Proof. unfold wrap64. rewrite Zminus_mod_idemp_l. f_equal. lia. Qed.

Lemma wrap64_add a b : wrap64 (wrap64 a + b) = wrap64 (a + b).
Proof. apply wrap64_cong. by rewrite <- Zplus_mod_idemp_l, wrap64_mod, Zplus_mod_idemp_l. Qed.

Lemma wrap64_sub a b : wrap64 (wrap64 a - wrap64 b) = wrap64 (a - b).
Proof. apply wrap64_cong. by rewrite Zminus_mod, !wrap64_mod, <- Zminus_mod. Qed.

Section MapSums.
Context {V : Type} (g : string * V -> Z).

Definition sum_map (c : gmap string V) : Z := sumZ g (map_to_list c).

Lemma sum_map_insert c x v : sum_map (<[x := v]> c) = g (x, v) + sum_map (base.delete x c).
Proof.
  unfold sum_map. rewrite <- insert_delete_eq.
  rewrite (sumZ_perm _ _ _ (map_to_list_insert _ _ v (lookup_delete_eq c x))). done.
Qed.

Lemma sum_map_delete c x : sum_map c = match c !! x with Some v => g (x, v) | None => 0 end + sum_map (base.delete x c).
Proof.
  unfold sum_map. destruct (c !! x) as [v|] eqn:E.
  - by rewrite <- (sumZ_perm _ _ _ (map_to_list_delete c x v E)).
  - by rewrite delete_id.
Qed.
End MapSums.

Lemma counts_spec ids :
  let c := fold_left count_one ids ∅ in
  (forall id, is_Some (c !! id) <-> id ∈ ids) /\ (forall id v, c !! id = Some v -> 1 <= v) /\
  sum_map snd c = Z.of_nat (length ids) /\ dom c = (list_to_set ids : gset string).
Proof.
  induction ids as [|x ids IH] using rev_ind; cbn zeta; cbn [fold_left].
  - split; [|split; [by intros ?? ?|split; [done|by apply dom_empty_L]]]. intros id. rewrite lookup_empty.
    split; [by intros []|by intros ?%elem_of_nil].
  - rewrite fold_left_app. cbn zeta in IH. set (c := fold_left count_one ids ∅) in *. cbn [fold_left]. unfold count_one.
    destruct IH as (H1 & H2 & H3 & H4).
    split; [|split; [|split]].
    + intros id. rewrite elem_of_app, list_elem_of_singleton, <- H1. destruct (decide (x = id)) as [-> | Hn].
      * rewrite lookup_insert_eq. split; [by right|by eexists].
      * rewrite lookup_insert_ne by done. split; [by left|]. by intros [H|H]; [|congruence].
    + intros id v. destruct (decide (x = id)) as [-> | Hn].
      * rewrite lookup_insert_eq. intros [= <-]. destruct (c !! id) eqn:E; cbn; [apply H2 in E; lia|lia].
      * rewrite lookup_insert_ne by done. apply H2.
    + rewrite sum_map_insert, length_app. rewrite (sum_map_delete _ c x) in H3. cbn [snd length] in *.
      destruct (c !! x); cbn [default] in *; unfold id in *; lia.
    + rewrite dom_insert_L, H4. set_solver.
Qed.

Lemma sumZ_less_one (c : gmap string Z) : (forall id v, c !! id = Some v -> 1 <= v) ->
  sumZ (fun p => if 1 <? snd p then snd p - 1 else 0) (map_to_list c) = sum_map snd c - Z.of_nat (size c).
Proof.
  intros H. unfold sum_map. rewrite <- length_map_to_list.
  assert (forall p, p ∈ map_to_list c -> 1 <= snd p) as Hp.
  { intros [k v] Hk%elem_of_map_to_list. by apply H in Hk. }
  clear H. induction (map_to_list c) as [|p l IH]; [done|]. cbn [sumZ length].
  rewrite IH by (intros; apply Hp; by right). pose proof (Hp p ltac:(left)). destruct (Z.ltb_spec 1 (snd p)); lia.
Qed.

Lemma keys_filter_size {V} (c : gmap string V) (p : string * V -> bool) (X : gset string) :
  (forall id, id ∈ X <-> exists v, c !! id = Some v /\ p (id, v) = true) ->
  length (List.filter p (map_to_list c)) = size X.
Proof.
  intros H. pose proof (NoDup_fst_map_to_list c) as Hnd.
  apply (NoDup_map_filter fst p) in Hnd as Hn.
  rewrite <- (length_map fst), <- (size_list_to_set (C := gset string)) by done. f_equal.
  apply set_eq. intros id. rewrite elem_of_list_to_set, H. split.
  - intros ([k v] & -> & Hk)%list_elem_of_fmap. apply list_elem_of_In, filter_In in Hk as [Hk Hp].
    exists v. split; [|done]. by apply elem_of_map_to_list, list_elem_of_In.
  - intros (v & Hv & Hp). apply list_elem_of_fmap. exists (id, v). split; [done|].
    apply list_elem_of_In, filter_In. split; [|done]. by apply list_elem_of_In, elem_of_map_to_list.
Qed.

(** The loops over the two maps count set differences. *)
Lemma compare_spec (src : gmap string rpc_entry) ids :
  compareEntrySets src (fold_left count_one ids ∅) =
  (Z.of_nat (size (dom src ∖ list_to_set ids)), Z.of_nat (size (list_to_set ids ∖ dom src)),
   Z.of_nat (length ids) - Z.of_nat (size (list_to_set ids : gset string))).
Proof.
  destruct (counts_spec ids) as (H1 & H2 & H3 & H4). set (c := fold_left count_one ids ∅) in *.
  unfold compareEntrySets. f_equal; [f_equal|].
  - f_equal. apply keys_filter_size. intros id.
    rewrite elem_of_difference, elem_of_dom, elem_of_list_to_set, <- H1. cbn [fst]. split.
    + intros [[e He] Hc]. exists e. split; [done|]. destruct (c !! id) eqn:E; [destruct Hc; by eexists|done].
    + intros (e & He & Hc). split; [by eexists|]. intros [v Hv]. rewrite Hv in Hc. apply H2 in Hv. cbn in Hc. bool_to_prop. lia.
  - f_equal. apply keys_filter_size. intros id.
    rewrite elem_of_difference, elem_of_dom, elem_of_list_to_set, <- H1. cbn [fst]. split.
    + intros [[v Hv] Hs]. exists v. split; [done|]. destruct (src !! id) eqn:E; [destruct Hs; by eexists|done].
    + intros (v & Hv & Hs). split; [by eexists|]. intros [e He]. by rewrite He in Hs.
  - rewrite sumZ_less_one by done. rewrite H3. by rewrite <- H4, size_dom.
Qed.

(** ** What a stream amounts to *)
Definition on_date (dateStr : string) (e : rpc_entry) : bool := String.eqb (BusinessDate e) dateStr.
Definition credit_in (e : rpc_entry) : Z := if Type_ e =? 1 then AmountMinor e else 0.
Definition debit_in (e : rpc_entry) : Z := if Type_ e =? 1 then 0 else if Type_ e =? 2 then AmountMinor e else 0.

Record tallied (es : list rpc_entry) (t : totals) : Prop := {
  ta_ids : dom (t_entries t) = (list_to_set (map EntryID es) : gset string);
  ta_credits : t_credits t = wrap64 (sumZ credit_in es);
  ta_debits : t_debits t = wrap64 (sumZ debit_in es) }.

Lemma tally_snoc es t e : tallied es t -> tallied (es ++ [e]) (tally e t).
Proof.
  intros [H1 H2 H3]. split; cbn [tally t_entries t_credits t_debits].
  - rewrite dom_insert_L, H1, map_app, list_to_set_app_L. cbn. set_solver.
  - rewrite sumZ_app, H2. cbn [sumZ]. assert (credit_in e = if Type_ e =? 1 then AmountMinor e else 0) as -> by done.
    rewrite Z.add_0_r. destruct (Type_ e =? 1); [apply wrap64_add|by rewrite Z.add_0_r].
  - rewrite sumZ_app, H3. cbn [sumZ].
    assert (debit_in e = if Type_ e =? 1 then 0 else if Type_ e =? 2 then AmountMinor e else 0) as -> by done.
    rewrite Z.add_0_r. destruct (Type_ e =? 1); [by rewrite Z.add_0_r|].
    destruct (Type_ e =? 2); [apply wrap64_add|by rewrite Z.add_0_r].
Qed.

Lemma receive_spec dateStr es : forall seen final t r, (forall e, e ∈ es -> EntryID e <> "") -> tallied seen t ->
  receive dateStr es final t = Ok r ->
  errors_is final "io.EOF" = true /\ tallied (seen ++ List.filter (on_date dateStr) es) r.
Proof.
  induction es as [|e es IH]; intros seen final t r Hid Ht H; cbn in H.
  - destruct (errors_is final "io.EOF"); [|done]. injection H as <-. by rewrite app_nil_r.
  - destruct (String.eqb_spec (EntryID e) "") as [E|]; [by destruct (Hid e ltac:(left))|].
    assert (forall x, x ∈ es -> EntryID x <> "") as Hid' by (intros; apply Hid; by right).
    cbn [List.filter]. unfold on_date at 1. destruct (String.eqb (BusinessDate e) dateStr); cbn [negb] in H.
    + apply tally_snoc with (e := e) in Ht. destruct (IH _ _ _ _ Hid' Ht H) as [H1 H2]. by rewrite <- app_assoc in H2.
    + by apply (IH seen final t r).
Qed.

(** A source that serves one list of entries, and fails some attempts. *)
Definition serves (es : list rpc_entry) (f : feed) : Prop :=
  match f with
  | Err _ => True
  | Ok (got, final) => errors_is final "io.EOF" = true -> got = es
  end.

Lemma stream_attempts_spec source cancelled dateStr es n : forall k last t,
  (forall i, serves es (source i) /\ forall got final, source i = Ok (got, final) -> forall e, e ∈ got -> EntryID e <> "") ->
  stream_attempts n source cancelled k dateStr last = Ok t -> tallied (List.filter (on_date dateStr) es) t.
Proof.
  induction n as [|n IH]; intros k last t Hs H; [done|]. cbn in H.
  destruct (attemptStream (source k) dateStr) as [x|e] eqn:E.
  - injection H as ->. destruct (Hs k) as [Hk Hid]. unfold attemptStream, serves in *.
    destruct (source k) as [[got final]|]; [|done].
    apply (receive_spec dateStr got []) in E as [Ef Et]; [|by apply (Hid got final)|by split].
    by rewrite Hk in Et.
  - case_match; [done|]. by eapply IH.
Qed.

(** The feed of the Ledger's handler. *)
Definition served (uuid_in : string -> result string) (env : rows_env) (merchant : string) (cut : Z) (ldb : ledger_db) : feed :=
  match StreamEntriesAtCut uuid_in env merchant cut collect ldb [] with
  | (Ok _, es) => Ok (es, EOF)
  | (Err e, es) => Ok (es, e)
  end.
(** A failure of the Ledger is not taken for the end of the stream. *)
Definition not_eof (env : rows_env) : Prop :=
  match query_fault env with Some e => errors_is e "io.EOF" = false | None => True end /\
  match rows_fault env with Some (_, e) => errors_is e "io.EOF" = false | None => True end.

Definition ledger_day (m : string) (day cut : Z) (ldb : ledger_db) : list entry_row :=
  List.filter (fun r => String.eqb (format_date (e_date r)) (format_date day)) (cut_rows m cut ldb).

Lemma entry_id_nonempty ldb r : ledger_inv ldb -> r ∈ entries ldb -> e_id r <> "".
Proof.
  intros Hi Hr. assert (entry_corr r ∈ map outbox_corr (outbox ldb)) as (o & Eo & Ho)%list_elem_of_fmap.
  { rewrite (inv_outbox _ Hi). by apply list_elem_of_fmap_2. }
  destruct (inv_payloads _ Hi o Ho) as (e & He & _). destruct (eo_entry _ _ He) as [Hm _].
  destruct (minted_id _ Hm) as [Hid Hl]. unfold entry_corr, outbox_corr in Eo. injection Eo as -> _ _.
  rewrite (eo_aggregate _ _ He), Hl. intros E. rewrite E in Hid. by vm_compute in Hid.
Qed.

Lemma served_spec uuid_in env merchant m cut ldb : ledger_inv ldb -> not_eof env -> uuid_in merchant = Ok m ->
  0 <= cut <= int64_max ->
  serves (map scan_row (cut_rows m cut ldb)) (served uuid_in env merchant cut ldb) /\
  forall got final, served uuid_in env merchant cut ldb = Ok (got, final) -> forall e, e ∈ got -> EntryID e <> "".
Proof.
  intros Hi [Hq Hr] Hm Hc. unfold served, StreamEntriesAtCut.
  assert (forall n e, e ∈ map scan_row (take n (cut_rows m cut ldb)) -> EntryID e <> "") as Hids.
  { intros n e (r & -> & Hin)%list_elem_of_fmap. cbn. apply (entry_id_nonempty ldb); [done|].
    apply elem_of_take in Hin as (k & Hk & _). apply list_elem_of_lookup_2, in_filter_iff in Hk as [Hk _].
    by apply in_filter_iff in Hk as [Hk _]. }
  destruct (query_fault env) as [e|]; cbn [throw].
  - split; [unfold serves; by rewrite Hq|]. intros ? ? [= <- <-] e0 He%elem_of_nil. done.
  - rewrite (proj2 (Z.ltb_ge _ _)) by lia. rewrite Hm. unfold mbind, st_bind. cbn. rewrite select_cut_rows by (done || lia).
    destruct (rows_fault env) as [[n e]|].
    + rewrite yield_collect. cbn. split; [by rewrite Hr|]. intros ? ? [= <- <-]. apply Hids.
    + rewrite yield_collect. cbn. split; [done|]. intros ? ? [= <- <-].
      intros e He. apply (Hids (length (cut_rows m cut ldb))). by rewrite firstn_all.
Qed.

(** ** What a run reports *)
Definition signed_row (r : entry_row) : Z := if String.eqb (e_type r) "credit" then e_amount r else - e_amount r.

(** The reference: sets of entry identifiers and sums over the two sides. *)
Record compared (m : string) (day cut : Z) (ldb : ledger_db) (db : cdb) (r : ReconcileResult) : Prop := {
  cp_missing : MissingEntries r = Z.of_nat (size
    ((list_to_set (map e_id (ledger_day m day cut ldb)) : gset string) ∖ list_to_set (projected_ids m day cut db)));
  cp_extra : ExtraEntries r = Z.of_nat (size
    ((list_to_set (projected_ids m day cut db) : gset string) ∖ list_to_set (map e_id (ledger_day m day cut ldb))));
  cp_duplicated : DuplicatedEntries r = Z.of_nat (length (projected_ids m day cut db)) -
    Z.of_nat (size (list_to_set (projected_ids m day cut db) : gset string));
  cp_difference : FinancialDifferenceMinor r =
    abs64 (wrap64 (sum_if net_of (of_day m day) (inbox db) - sumZ signed_row (ledger_day m day cut ldb))) }.

(** The sources of a run's attempts: the Ledger at any later moment. *)
Definition ledger_source (step : ledger_db -> ledger_db -> Prop) (uuid_in : string -> result string) (merchant : string)
    (cut : Z) (ldb : ledger_db) (env : run_env) : Prop :=
  forall k, exists renv ldb', steps step ldb ldb' /\ not_eof renv /\ source env k = served uuid_in renv merchant cut ldb'.

Lemma ledger_day_stream m day cut ldb :
  map EntryID (List.filter (on_date (format_date day)) (map scan_row (cut_rows m cut ldb))) = map e_id (ledger_day m day cut ldb).
Proof.
  unfold ledger_day. rewrite <- (filter_map_comm scan_row (on_date (format_date day))), map_map. done.
Qed.

Lemma ledger_day_sums m day cut ldb : ledger_inv ldb ->
  let es := List.filter (on_date (format_date day)) (map scan_row (cut_rows m cut ldb)) in
  sumZ credit_in es - sumZ debit_in es = sumZ signed_row (ledger_day m day cut ldb).
Proof.
  intros Hi. cbn zeta. unfold ledger_day. rewrite <- (filter_map_comm scan_row (on_date (format_date day))).
  change (fun x => on_date (format_date day) (scan_row x)) with (fun r => String.eqb (format_date (e_date r)) (format_date day)).
  assert (forall r, r ∈ List.filter (fun r => String.eqb (format_date (e_date r)) (format_date day)) (cut_rows m cut ldb) ->
    is_entry_type (e_type r)) as Ht.
  { intros r [[[Hr _]%in_filter_iff _]%in_filter_iff _]%in_filter_iff. by apply (inv_types _ Hi). }
  induction (List.filter _ (cut_rows m cut ldb)) as [|r l IH]; [done|]. cbn [map sumZ].
  specialize (IH ltac:(intros; apply Ht; by right)). unfold credit_in at 1, debit_in at 1, signed_row at 1. cbn [scan_row Type_ AmountMinor].
  destruct (Ht r ltac:(left)) as [-> | ->]; cbn; lia.
Qed.

Lemma day_net m day db : proj_inv db ->
  (match days_of m db !! day with Some b => b_credits b - b_debits b | None => 0 end) = sum_if net_of (of_day m day) (inbox db).
Proof.
  intros Hi. pose proof (pi_totals _ Hi m day) as H. unfold totals_at, day_totals in H. rewrite net_split.
  destruct (days_of m db !! day); injection H as H1 H2 _ _; lia.
Qed.

Lemma reconcile_cases uuid_in env merchant day cut db runs r runs' :
  reconcile uuid_in env merchant day cut db runs = (Ok r, runs') ->
  exists m, uuid_in merchant = Ok m /\
  ((exists old, runs !! (m, day) = Some old /\ cut <= r_cut old /\ r = persisted old /\ runs' = runs) \/
   (match runs !! (m, day) with Some old => r_cut old < cut | None => True end /\
    compare_run uuid_in env merchant day cut db = Ok r /\
    run_commit env = CommitOk /\ cut <= int64_max /\ runs' = <[(m, day) := row_of_result env cut r]> runs)).
Proof.
  unfold reconcile. intros H.
  destruct (begin_err env); [done|]. cbn [on_fault] in H. destruct (lock_err env); [done|]. cbn [on_fault] in H.
  unfold loadExistingRun in H. destruct (existing_err env); [done|]. cbn [on_fault] in H.
  destruct (uuid_in merchant) as [m|] eqn:Em; [|done]. cbn [mbind result_bind] in H. exists m. split; [done|].
  assert ((exists old, runs !! (m, day) = Some old /\ cut <= r_cut old /\ (Ok (persisted old), runs) = (Ok r, runs')) \/
    (match runs !! (m, day) with Some old => r_cut old < cut | None => True end /\
     match compare_run uuid_in env merchant day cut db with
     | Err e => (Err e, runs)
     | Ok r =>
         match on_fault (save_err env) (save_run m day (row_of_result env cut r) runs) with
         | Err e => (Err (EWrap "save reconciliation run" e), runs)
         | Ok runs' =>
             match run_commit env with
             | CommitOk => (Ok r, runs')
             | CommitFailed e => (Err (EWrap "commit reconciliation" e), runs)
             | CommitUnknown e => (Err (EWrap "commit reconciliation" e), runs')
             end
         end
     end = (Ok r, runs'))) as [(old & E1 & E2 & [= <- <-]) | [Hn H']].
  { destruct (runs !! (m, day)) as [old|]; [|by right].
    destruct (Z.leb_spec cut (r_cut old)); [left; by exists old|by right]. }
  { left. by exists old. }
  clear H. right. split; [done|]. destruct (compare_run _ _ _ _ _ _) as [x|]; [|done].
  destruct (save_err env); [done|]. cbn [on_fault] in H'. unfold save_run in H'.
  cbn [r_cut row_of_result] in H'. destruct (Z.ltb_spec int64_max cut); [done|].
  destruct (negb _); [done|].
  destruct (runs !! (m, day)) as [old|]; [rewrite (proj2 (Z.ltb_lt _ _)) in H' by done|];
    (destruct (run_commit env); [|done..]); injection H' as <- <-; done.
Qed.

Lemma compare_run_spec step uuid_in env merchant m day cut ldb db r :
  (forall x, steps step ldb x -> ledger_inv x /\ cut_rows m cut x = cut_rows m cut ldb) -> proj_inv db ->
  ledger_source step uuid_in merchant cut ldb env -> uuid_in merchant = Ok m -> 0 <= cut <= int64_max ->
  compare_run uuid_in env merchant day cut db = Ok r -> compared m day cut ldb db r.
Proof.
  intros Hl Hp Hs Hm Hc H. unfold compare_run, streamSourceEntries in H.
  destruct (stream_attempts _ _ _ _ _ _) as [t|] eqn:Et; [|done]. cbn [wrap_err mbind result_bind] in H.
  apply (stream_attempts_spec _ _ _ (map scan_row (cut_rows m cut ldb))) in Et.
  2:{ intros k. destruct (Hs k) as (renv & x & Hx & He & Es). destruct (Hl x Hx) as [Hi Er].
      rewrite <- Er, Es. by apply served_spec. }
  unfold projected_totals in H. destruct (balance_err env); [done|]. cbn [on_fault] in H. rewrite Hm in H.
  destruct (projected_err env); [done|]. unfold loadProjectedEntryCounts in H.
  cbn [mbind result_bind on_fault] in H. rewrite (proj2 (Z.ltb_ge _ _)) in H by lia. cbn [mbind result_bind] in H.
  rewrite compare_spec in H. destruct Et as [T1 T2 T3]. rewrite T1, ledger_day_stream in H. injection H as <-.
  split; cbn [MissingEntries ExtraEntries DuplicatedEntries FinancialDifferenceMinor]; [done..|].
  destruct (Hl ldb (steps_refl _ _)) as [Hi _].
  rewrite T2, T3, (wrap64_sub (sumZ credit_in _)), wrap64_sub, (ledger_day_sums _ _ _ _ Hi), <- day_net by done.
  by destruct (days_of m db !! day).
Qed.

(** C27: a reconciliation answers from the sets of entries.  Over any Ledger and
    any projection their transactions can reach, with attempts that fail or
    break off and are retried while the Ledger goes on: a run at a cut no
    later than the watermark that is not skipped counts exactly the entries
    of the day the projection lacks, those it holds beyond the Ledger's and
    its repeated ones, takes the difference of the day's two nets, and keeps
    that outcome for the merchant and day; a run that is skipped changes
    nothing and answers the outcome kept for a cut at least as great. *)
Theorem reconcile_compares sha256 json_text ll sha uuid_in env merchant m day cut ldb db runs r runs' :
  steps (ledger_step sha256 json_text ll) empty_db ldb -> steps (proj_step sha) empty_cdb db ->
  uuid_in merchant = Ok m -> 0 <= cut <= recorded_at ldb m ->
  ledger_source (ledger_step sha256 json_text ll) uuid_in merchant cut ldb env ->
  reconcile uuid_in env merchant day cut db runs = (Ok r, runs') ->
  if Skipped r then runs' = runs /\ exists old, runs !! (m, day) = Some old /\ cut <= r_cut old /\ r = persisted old
  else compared m day cut ldb db r /\ runs' = <[(m, day) := row_of_result env cut r]> runs.
Proof.
  intros Hl Hp%proj_reachable Hm Hc Hs (m' & Em & Hr)%reconcile_cases. rewrite Hm in Em. injection Em as <-.
  destruct (steps_spec _ _ _ _ _ Hl empty_inv) as (Hi & _ & _).
  destruct Hr as [(old & E1 & E2 & -> & ->) | (_ & Hcmp & _ & Hmax & ->)]; [cbn; split; [done|by exists old]|].
  assert (compared m day cut ldb db r) as Hcp.
  { eapply compare_run_spec; [|exact Hp|exact Hs|exact Hm|lia|exact Hcmp].
    intros x Hx. destruct (steps_spec _ _ _ _ _ Hx Hi) as (Hix & Ha & _). split; [done|].
    apply cut_stable; [done..|lia]. }
  destruct (Skipped r) eqn:E; [|done]. unfold compare_run in Hcmp.
  destruct (wrap_err _ _); [|done]. cbn in Hcmp. destruct (projected_totals _ _ _ _ _); [|done]. cbn in Hcmp.
  destruct (on_fault _ _); [|done]. by injection Hcmp as <-.
Qed.

(** ** Agreement at a cut *)
Definition after_cut (m : string) (day cut : Z) (r : inbox_row) : bool := of_day m day r && (cut <? in_position r).

Lemma sum_split m day cut l : sum_if net_of (of_day m day) l =
  sum_if net_of (at_cut m day cut) l + sum_if net_of (after_cut m day cut) l.
Proof.
  induction l as [|r l IH]; [done|]. rewrite !sum_if_cons, IH. unfold at_cut at 2, after_cut at 2.
  destruct (of_day m day r); cbn; [|lia]. destruct (Z.leb_spec (in_position r) cut), (Z.ltb_spec cut (in_position r)); lia.
Qed.

Lemma ledger_ids_NoDup m day cut ldb : ledger_inv ldb -> NoDup (map e_id (ledger_day m day cut ldb)).
Proof.
  intros Hi. unfold ledger_day, cut_rows. apply NoDup_map_filter, NoDup_map_filter, NoDup_map_filter. apply Hi.
Qed.

Lemma size_length (P : list string) : Z.of_nat (size (list_to_set P : gset string)) <= Z.of_nat (length P).
Proof.
  induction P as [|x P IH]; [done|]. cbn [list_to_set length]. rewrite size_union_alt.
  pose proof (subseteq_size (list_to_set P ∖ {[x]} : gset string) (list_to_set P) ltac:(set_solver)).
  rewrite size_singleton. lia.
Qed.

Lemma NoDup_size (P : list string) : Z.of_nat (length P) - Z.of_nat (size (list_to_set P : gset string)) = 0 -> NoDup P.
Proof.
  induction P as [|x P IH]; intros H; [constructor|]. cbn [list_to_set length] in H. pose proof (size_length P).
  apply list.NoDup_cons. destruct (decide (x ∈ P)) as [Hx|Hx].
  - rewrite subseteq_union_1_L in H by set_solver. lia.
  - split; [done|]. apply IH. rewrite size_union, size_singleton in H by set_solver. lia.
Qed.

Lemma counts_zero (L P : list string) : NoDup L ->
  (size ((list_to_set L : gset string) ∖ list_to_set P) = 0%nat /\ size ((list_to_set P : gset string) ∖ list_to_set L) = 0%nat /\
   Z.of_nat (length P) - Z.of_nat (size (list_to_set P : gset string)) = 0) <-> L ≡ₚ P.
Proof.
  intros HL. split.
  - intros (H1%size_empty_inv & H2%size_empty_inv & H3).
    assert (NoDup P) as HP by by apply NoDup_size.
    apply NoDup_Permutation; [done..|]. intros x. specialize (H1 x). specialize (H2 x).
    rewrite elem_of_difference, elem_of_empty, !elem_of_list_to_set in H1, H2.
    destruct (decide (x ∈ L)), (decide (x ∈ P)); tauto.
  - intros H. assert (NoDup P) as HP by by rewrite <- H.
    assert ((list_to_set L : gset string) = list_to_set P) as -> by by apply list_to_set_perm_L.
    rewrite difference_diag_L, size_empty, size_list_to_set by done. lia.
Qed.

Lemma compared_counts m day cut ldb db r : ledger_inv ldb -> compared m day cut ldb db r ->
  (MissingEntries r = 0 /\ ExtraEntries r = 0 /\ DuplicatedEntries r = 0) <->
  map e_id (ledger_day m day cut ldb) ≡ₚ projected_ids m day cut db.
Proof.
  intros Hi [H1 H2 H3 _]. rewrite <- counts_zero by by apply ledger_ids_NoDup. rewrite H1, H2, H3. lia.
Qed.

(** C28: what a clean run says, and what it does not.  For a merchant's day
    that has no outcome yet, at a cut no later than the Ledger's own position:
    the three counts of the run are zero exactly when the Ledger's entries of the day up to the cut
    are, one for one, the entries projected up to the cut.  When the amounts
    agree as well, the financial difference of that run is the net of the
    events of the day projected after the cut: the two sides of the
    difference are not taken at the same position. *)
Theorem reconcile_at_cut sha256 json_text ll sha uuid_in env merchant m day cut ldb db runs r runs' :
  steps (ledger_step sha256 json_text ll) empty_db ldb -> steps (proj_step sha) empty_cdb db ->
  uuid_in merchant = Ok m -> 0 <= cut <= recorded_at ldb m ->
  ledger_source (ledger_step sha256 json_text ll) uuid_in merchant cut ldb env ->
  runs !! (m, day) = None ->
  reconcile uuid_in env merchant day cut db runs = (Ok r, runs') ->
  ((MissingEntries r = 0 /\ ExtraEntries r = 0 /\ DuplicatedEntries r = 0) <->
   map e_id (ledger_day m day cut ldb) ≡ₚ projected_ids m day cut db) /\
  (map (fun x => (e_id x, signed_row x)) (ledger_day m day cut ldb) ≡ₚ
     map (fun x => (in_entry x, net_of x)) (List.filter (at_cut m day cut) (inbox db)) ->
   FinancialDifferenceMinor r = abs64 (wrap64 (sum_if net_of (after_cut m day cut) (inbox db)))).
Proof.
  intros Hl Hp%proj_reachable Hm Hc Hs Hn (m' & Em & Hr)%reconcile_cases. rewrite Hm in Em. injection Em as <-.
  destruct (steps_spec _ _ _ _ _ Hl empty_inv) as (Hi & _ & _).
  destruct Hr as [(old & E1 & _) | (_ & Hcmp & _ & Hmax & _)]; [by rewrite Hn in E1|].
  eapply compare_run_spec in Hcmp; [|  |exact Hp|exact Hs|exact Hm|lia].
  2:{ intros x Hx. destruct (steps_spec _ _ _ _ _ Hx Hi) as (Hix & Ha & _). split; [done|]. apply cut_stable; [done..|lia]. }
  split; [by apply compared_counts|]. intros Hperm. rewrite (cp_difference _ _ _ _ _ _ Hcmp). do 2 f_equal.
  rewrite (sum_split m day cut). apply (sumZ_perm snd) in Hperm. rewrite !sumZ_map in Hperm.
  assert (sum_if net_of (at_cut m day cut) (inbox db) = sumZ signed_row (ledger_day m day cut ldb)) by (symmetry; exact Hperm).
  lia.
Qed.

(** ** The stored runs *)
Definition run_valid (row : run_row) : Prop :=
  0 <= r_cut row <= int64_max /\ 0 <= r_missing row /\ 0 <= r_extra row /\ 0 <= r_duplicated row /\ 0 <= r_duration row.

Inductive run_step (uuid_in : string -> result string) (runs runs' : run_table) : Prop :=
  | step_reconcile env merchant day cut db r :
      reconcile uuid_in env merchant day cut db runs = (r, runs') -> run_step uuid_in runs runs'.

Definition keeps_runs (runs runs' : run_table) : Prop :=
  forall key old, runs !! key = Some old ->
    exists row, runs' !! key = Some row /\ r_cut old <= r_cut row /\ (r_cut row = r_cut old -> row = old).

Lemma save_run_grows m day row runs runs' : save_run m day row runs = Ok runs' ->
  run_valid row /\ keeps_runs runs runs' /\ forall key x, runs' !! key = Some x -> runs !! key = Some x \/ x = row.
Proof.
  unfold save_run. destruct (Z.ltb_spec int64_max (r_cut row)); [done|].
  destruct (run_checks row) eqn:Ec; [|done]. cbn [negb]. unfold run_checks in Ec. bool_to_prop. intros H'. split; [done|].
  destruct (runs !! (m, day)) as [old|] eqn:E; [destruct (Z.ltb_spec (r_cut old) (r_cut row))|]; injection H' as <-.
  - split.
    + intros key o Ho. destruct (decide ((m, day) = key)) as [<- | Hne].
      * rewrite lookup_insert_eq. exists row. rewrite E in Ho. injection Ho as <-. split; [done|]. lia.
      * rewrite lookup_insert_ne by done. exists o. split; [done|]. split; [lia|done].
    + intros key x. rewrite lookup_insert_Some. naive_solver.
  - split; [|by left]. intros key o Ho. exists o. split; [done|]. split; [lia|done].
  - split.
    + intros key o Ho. destruct (decide ((m, day) = key)) as [<- | Hne]; [by rewrite E in Ho|].
      rewrite lookup_insert_ne by done. exists o. split; [done|]. split; [lia|done].
    + intros key x. rewrite lookup_insert_Some. naive_solver.
Qed.

Lemma reconcile_runs uuid_in env merchant day cut db runs r runs' :
  reconcile uuid_in env merchant day cut db runs = (r, runs') ->
  runs' = runs \/ exists m row, save_run m day row runs = Ok runs'.
Proof.
  unfold reconcile. repeat (case_match; try (intros [= _ <-]; by left)); intros [= _ <-]; right;
    match goal with H : on_fault (save_err env) _ = Ok _ |- _ =>
      destruct (save_err env); [done|]; cbn in H; destruct (uuid_in merchant) as [m|]; [|done]; exists m; by eexists end.
Qed.

Lemma keeps_runs_refl runs : keeps_runs runs runs.
Proof. intros key old H. exists old. split; [done|]. split; [lia|done]. Qed.

Lemma keeps_runs_trans a b c : keeps_runs a b -> keeps_runs b c -> keeps_runs a c.
Proof.
  intros H1 H2 key old (x & Hx & L1 & E1)%H1. apply H2 in Hx as (y & Hy & L2 & E2). exists y. split; [done|].
  split; [lia|]. intros E. assert (x = old) as -> by (apply E1; lia). by apply E2.
Qed.

Lemma run_step_keeps uuid_in runs runs' : run_step uuid_in runs runs' ->
  keeps_runs runs runs' /\ ((forall key row, runs !! key = Some row -> run_valid row) ->
                            forall key row, runs' !! key = Some row -> run_valid row).
Proof.
  intros [env merchant day cut db r [-> | (m & row & (Hv & Hk & Hx)%save_run_grows)]%reconcile_runs].
  - split; [apply keeps_runs_refl|done].
  - split; [done|]. intros H key x [Ho | ->]%Hx; [by apply (H key)|done].
Qed.

(** The outcome kept for a merchant and a day only ever moves forward.
    Whatever reconciliations run, for whatever cuts, over whatever
    projections, and whatever fails: a kept outcome is never lost, its cut
    never decreases, a repeated cut never rewrites it, and every kept cut and
    count is in range. *)
Theorem runs_monotone uuid_in runs runs' :
  steps (run_step uuid_in) ∅ runs -> steps (run_step uuid_in) runs runs' ->
  keeps_runs runs runs' /\ forall key row, runs' !! key = Some row -> run_valid row.
Proof.
  intros H0 H1. split.
  - clear H0. induction H1 as [|a b c Hab _ IH]; [apply keeps_runs_refl|].
    eapply keeps_runs_trans; [by eapply run_step_keeps|done].
  - eapply (steps_invariant (run_step uuid_in) (fun t => forall key row, t !! key = Some row -> run_valid row)).
    + intros a b Ha Hab. by eapply run_step_keeps.
    + intros key row Hrow. by rewrite lookup_empty in Hrow.
    + eapply steps_trans; [exact H0|exact H1].
Qed.

(** ** A run without failures *)
Record clean_run (uuid_in : string -> result string) (merchant : string) (cut : Z) (ldb : ledger_db) (env : run_env) : Prop := {
  cl_faults : begin_err env = None /\ lock_err env = None /\ existing_err env = None /\ balance_err env = None /\
    projected_err env = None /\ save_err env = None;
  cl_commit : run_commit env = CommitOk;
  cl_elapsed : 0 <= elapsed_ms env;
  cl_source : source env 1 = served uuid_in {| query_fault := None; rows_fault := None |} merchant cut ldb }.

Lemma receive_total dateStr es t : (forall e, e ∈ es -> EntryID e <> "") -> exists r, receive dateStr es EOF t = Ok r.
Proof.
  revert t. induction es as [|e es IH]; intros t H; cbn; [by eexists|].
  destruct (String.eqb_spec (EntryID e) "") as [E|]; [by destruct (H e ltac:(left))|].
  case_match; apply IH; intros x Hx; apply H; by right.
Qed.

Lemma compare_nonneg (src : gmap string rpc_entry) ids :
  let '(missing, extra, duplicates) := compareEntrySets src (fold_left count_one ids ∅) in
  0 <= missing /\ 0 <= extra /\ 0 <= duplicates.
Proof.
  rewrite compare_spec. pose proof (size_length ids). lia.
Qed.

Lemma clean_reconcile uuid_in env merchant m day cut ldb db runs : ledger_inv ldb -> uuid_in merchant = Ok m ->
  0 <= cut <= int64_max -> clean_run uuid_in merchant cut ldb env ->
  exists r runs' row, reconcile uuid_in env merchant day cut db runs = (Ok r, runs') /\
    runs' !! (m, day) = Some row /\ cut <= r_cut row.
Proof.
  intros Hi Hm Hc [(F1 & F2 & F3 & F4 & F5 & F6) Hcm He Hs].
  assert (exists t, streamSourceEntries (source env) (cancelled env) day = Ok t) as [t Et].
  { unfold streamSourceEntries. cbn [maxStreamAttempts stream_attempts]. rewrite Hs.
    destruct (served_spec uuid_in {| query_fault := None; rows_fault := None |} merchant m cut ldb Hi ltac:(by split) Hm Hc) as [_ Hid].
    unfold served, StreamEntriesAtCut in *. cbn [query_fault rows_fault] in *.
    rewrite (proj2 (Z.ltb_ge _ _)), Hm in * by lia. unfold mbind, st_bind in *. cbn [lift] in *.
    rewrite yield_collect in *. cbn [attemptStream app] in *.
    destruct (receive_total (format_date day) (map scan_row (select_cut m cut ldb)) no_totals) as [t ->]; [|by exists t].
    by apply (Hid _ EOF). }
  unfold reconcile, loadExistingRun. rewrite F1, F2, F3, Hm. cbn [on_fault mbind result_bind].
  assert (exists r, compare_run uuid_in env merchant day cut db = Ok r /\
    0 <= MissingEntries r /\ 0 <= ExtraEntries r /\ 0 <= DuplicatedEntries r) as (r & Er & N1 & N2 & N3).
  { unfold compare_run, projected_totals, loadProjectedEntryCounts. rewrite Et, F4, F5, Hm. cbn [wrap_err on_fault mbind result_bind].
    rewrite (proj2 (Z.ltb_ge _ _)) by lia. cbn [mbind result_bind].
    pose proof (compare_nonneg (t_entries t) (projected_ids m day cut db)).
    destruct (compareEntrySets _ _) as [[a b] c]. eexists. split; [done|]. done. }
  assert (run_checks (row_of_result env cut r) = true) as Hck.
  { unfold run_checks, row_of_result. cbn. rewrite !(proj2 (Z.leb_le _ _)) by lia. done. }
  destruct (runs !! (m, day)) as [old|] eqn:Eo.
  - destruct (Z.leb_spec cut (r_cut old)); [by eexists _, _, old|].
    rewrite Er, F6. cbn [on_fault]. unfold save_run. rewrite Hck, Eo. cbn [r_cut row_of_result negb].
    rewrite (proj2 (Z.ltb_ge _ _)), (proj2 (Z.ltb_lt _ _)), Hcm by lia.
    eexists _, _, _. split; [done|]. rewrite lookup_insert_eq. split; [done|]. cbn. lia.
  - rewrite Er, F6. cbn [on_fault]. unfold save_run. rewrite Hck, Eo. cbn [r_cut row_of_result negb].
    rewrite (proj2 (Z.ltb_ge _ _)), Hcm by lia.
    eexists _, _, _. split; [done|]. rewrite lookup_insert_eq. split; [done|]. cbn. lia.
Qed.

(** ** A reconciliation of the sample ledger *)
Definition mirror (k : ascii) (r : entry_row) : EntryConfirmed :=
  {| ConsolidationDomain.EventID := "018f0000-0000-7000-8000-00000000000" +:+ String k "";
     ConsolidationDomain.EventType := EntryConfirmedV1; ConsolidationDomain.OccurredAt := e_confirmed r;
     ConsolidationDomain.MerchantID := e_merchant r; ConsolidationDomain.MerchantPosition := e_position r;
     ConsolidationDomain.EntryID := e_id r; EntryType := e_type r;
     ConsolidationDomain.AmountMinor := e_amount r; ConsolidationDomain.Currency := "BRL";
     ConsolidationDomain.BusinessDate := e_date r * day_ns; ConsolidationDomain.ConfirmedAt := e_confirmed r;
     ConsolidationDomain.OriginalEntryID := e_original r;
     ConsolidationDomain.Traceparent := ConsolidationDomain.Traceparent sample_event |}.
Definition mirrored : cdb := Eval vm_compute in
  apply_all (match entries sample_db2 with [a; b] => [mirror "1" a; mirror "2" b] | _ => [] end).

Lemma mirrored_steps : steps (proj_step sample_digest) empty_cdb mirrored.
Proof.
  assert (mirrored = apply_all (match entries sample_db2 with [a; b] => [mirror "1" a; mirror "2" b] | _ => [] end)) as ->
    by (vm_compute; reflexivity).
  apply apply_all_steps, steps_refl.
Qed.

(** The first attempt breaks off after one entry; the second one is complete. *)
Definition broken_first (k : nat) : rows_env :=
  {| query_fault := None; rows_fault := if Nat.eqb k 1 then Some (1%nat, EMsg "unavailable") else None |}.
Definition sample_run_env (cut : Z) : run_env :=
  {| begin_err := None; lock_err := None; existing_err := None; balance_err := None; projected_err := None;
     save_err := None; run_commit := CommitOk;
     source := fun k => served Ok (broken_first k) LedgerRetry.sample_merchant cut sample_db2;
     cancelled := fun _ => false; started := 0; finished := 5; elapsed_ms := 0 |}.

Lemma sample_source cut : ledger_source sample_step Ok LedgerRetry.sample_merchant cut sample_db2 (sample_run_env cut).
Proof.
  intros k. exists (broken_first k), sample_db2. split; [apply steps_refl|]. split; [|done].
  split; cbn; [done|]. by destruct (Nat.eqb k 1).
Qed.

Definition sample_reconciled (cut : Z) (runs : run_table) : result ReconcileResult * run_table :=
  reconcile Ok (sample_run_env cut) LedgerRetry.sample_merchant 739000 cut mirrored runs.
Definition sample_answer (cut : Z) : ReconcileResult :=
  {| MissingEntries := 0; ExtraEntries := 0; DuplicatedEntries := 0;
     FinancialDifferenceMinor := if cut =? 1 then 1000 else 0; Skipped := false |}.

Lemma sample_reconciled_ok cut runs : cut = 1 \/ cut = 2 ->
  match runs !! (LedgerRetry.sample_merchant, 739000) with Some old => r_cut old < cut | None => True end ->
  sample_reconciled cut runs =
    (Ok (sample_answer cut), <[(LedgerRetry.sample_merchant, 739000) := row_of_result (sample_run_env cut) cut (sample_answer cut)]> runs).
Proof.
  intros Hc Hn. unfold sample_reconciled, reconcile.
  assert (compare_run Ok (sample_run_env cut) LedgerRetry.sample_merchant 739000 cut mirrored = Ok (sample_answer cut)) as E
    by (destruct Hc as [-> | ->]; vm_compute; reflexivity).
  unfold loadExistingRun. cbn [begin_err lock_err existing_err save_err run_commit sample_run_env on_fault mbind result_bind].
  destruct (runs !! _) as [old|] eqn:Eo; [rewrite (proj2 (Z.leb_gt _ _)) by done|];
    fold (sample_run_env cut); rewrite E; unfold save_run; rewrite Eo; cbn [r_cut row_of_result];
    rewrite ?(proj2 (Z.ltb_lt _ _) Hn); destruct Hc as [-> | ->]; reflexivity.
Qed.

Lemma reconcile_compares_witness :
  compared LedgerRetry.sample_merchant 739000 2 sample_db2 mirrored (sample_answer 2).
Proof.
  refine (proj1 (reconcile_compares sample_sha256 sample_text sample_zone sample_digest Ok (sample_run_env 2)
    LedgerRetry.sample_merchant LedgerRetry.sample_merchant 739000 2 sample_db2 mirrored ∅ (sample_answer 2) _
    sample_steps2 mirrored_steps eq_refl _ (sample_source 2) (sample_reconciled_ok 2 ∅ _ I))).
  - split; [lia|]. vm_compute. discriminate.
  - by right.
Defined.

Lemma reconcile_at_cut_witness :
  FinancialDifferenceMinor (sample_answer 1) = 1000 /\
  map e_id (ledger_day LedgerRetry.sample_merchant 739000 1 sample_db2) ≡ₚ
    projected_ids LedgerRetry.sample_merchant 739000 1 mirrored /\
  FinancialDifferenceMinor (sample_answer 1) =
    abs64 (wrap64 (sum_if net_of (after_cut LedgerRetry.sample_merchant 739000 1) (inbox mirrored))).
Proof.
  split; [reflexivity|].
  destruct (reconcile_at_cut sample_sha256 sample_text sample_zone sample_digest Ok (sample_run_env 1)
    LedgerRetry.sample_merchant LedgerRetry.sample_merchant 739000 1 sample_db2 mirrored ∅ (sample_answer 1)
    (snd (sample_reconciled 1 ∅)) sample_steps2 mirrored_steps eq_refl ltac:(split; [lia|vm_compute; discriminate])
    (sample_source 1) eq_refl ltac:(rewrite sample_reconciled_ok; [reflexivity|by left|done])) as [H1 H2].
  split; [by apply H1|]. apply H2. vm_compute. reflexivity.
Defined.

Lemma runs_monotone_witness :
  keeps_runs (snd (sample_reconciled 1 ∅)) (snd (sample_reconciled 2 (snd (sample_reconciled 1 ∅)))).
Proof.
  assert (forall cut runs, run_step Ok runs (snd (sample_reconciled cut runs))) as Hs.
  { intros cut runs. unfold sample_reconciled. destruct (reconcile _ _ _ _ _ _ _) as [r runs'] eqn:E.
    by eapply step_reconcile. }
  apply (runs_monotone Ok); (eapply steps_cons; [apply Hs|apply steps_refl]).
Defined.
