(* ===== verification/Reprocess.v ===== *)
(** * Dead-letter reprocessing and the reconciliation worker's commands

    services/consolidation/internal/reconciliation/dlq.go over the tables of
    migrations/000001 and 000005, and the commands of
    services/consolidation/cmd/reconciliation-worker/main.go: the protected
    drain, one reconciliation, and one tick of the daemon.

    [jsonb_text] is the text PostgreSQL gives back for a stored payload,
    [error_text] is [error.Error()].  The order in which a query returns rows
    that compare equal is an input, as are the failures of the statements. *)

From S2P Require Import Prelude.
From S2P Require Import GoStrings.
From S2P Require Import GoTime.
From S2P Require Import LedgerDB.
From S2P Require Import LedgerInvariant.
From S2P Require Import Auth.
From S2P Require Import LedgerServer.
From S2P Require Import ConsolidationDomain.
From S2P Require Import Projection.
From S2P Require Import ProjectionInvariant.
From S2P Require Import ProjectionRetry.
From S2P Require Import PendingStore.
From S2P Require Import Consumer.
From S2P Require Import ConsumerQueue.
From S2P Require Import Reconciliation.
From Stdlib Require String.
From Stdlib Require Import ZArith Lia Ascii.
Open Scope string_scope.
Open Scope Z_scope.

(** ** dlq.go *)
Record audit_row : Type := {
  au_actor : string; au_requested : Z; au_completed : Z; au_reprocessed : Z; au_failed : Z; au_outcome : string }.
Record ops_db : Type := { o_cdb : cdb; o_pending : pending_db; o_audit : list audit_row }.

Record Result : Type := { Reprocessed : Z; Failed : Z }.
Definition no_items : Result := {| Reprocessed := 0; Failed := 0 |}.
Record dlqItem : Type := { eventID : string; payload : string }.

Record dlq_env : Type := {
  select_fault : option error; scan_fault : option error; iterate_fault : option error;
  select_order : list dlqItem -> list dlqItem;
  apply_env : nat -> Projection.tx_env; pending_fault : nat -> option error; letter_fault : nat -> option error;
  audit_fault : option error; requestedAt : Z; completedAt : Z }.

Section Reprocess.
Context (sha256 : string -> list Z) (decode_stream : string -> result (Json.json * trailing)).
Context (jsonb_text : string -> string) (error_text : error -> string).

(** dead_letter_event d JOIN event_pending p ON p.event_id = d.event_id WHERE p.failure_class = 'dlq' *)
Definition parked (id : string) (p : pending_row) : bool := about id p && String.eqb (pn_class p) "dlq".
Definition join_letter (pendings : list pending_row) (d : dead_row) : list dlqItem :=
  match dl_event d with
  | None => []
  | Some id => map (fun _ => {| eventID := id; payload := jsonb_text (dl_payload d) |}) (List.filter (parked id) pendings)
  end.
Definition dlq_items (db : pending_db) : list dlqItem := flat_map (join_letter (pendings db)) (dead_letters db).

(** DELETE ... WHERE event_id = $1 *)
Definition delete_parked (id : string) (db : pending_db) : pending_db :=
  with_pendings (List.filter (fun p => negb (parked id p)) (pendings db)) db.
Definition letter_of (id : string) (d : dead_row) : bool :=
  match dl_event d with Some x => String.eqb x id | None => false end.
Definition delete_letters (id : string) (db : pending_db) : pending_db :=
  {| pendings := pendings db; dead_letters := List.filter (fun d => negb (letter_of id d)) (dead_letters db);
     next_dead := next_dead db |}.

Definition fail_one (r : Result) : Result := {| Reprocessed := Reprocessed r; Failed := Failed r + 1 |}.
Definition done_one (r : Result) : Result := {| Reprocessed := Reprocessed r + 1; Failed := Failed r |}.

Definition reprocess_item (env : dlq_env) (i : nat) (item : dlqItem) (s : cdb * pending_db * Result)
    : cdb * pending_db * Result :=
  let '(db, pending, result) := s in
  match ApplyPayload sha256 decode_stream (apply_env env i) (payload item) db with
  | (Err _, db') => (db', pending, fail_one result)
  | (Ok _, db') =>
      match pending_fault env i with
      | Some _ => (db', pending, fail_one result)
      | None =>
          let pending := delete_parked (eventID item) pending in
          match letter_fault env i with
          | Some _ => (db', pending, fail_one result)
          | None => (db', delete_letters (eventID item) pending, done_one result)
          end
      end
  end.

Fixpoint reprocess_items (env : dlq_env) (i : nat) (items : list dlqItem) (s : cdb * pending_db * Result)
    : cdb * pending_db * Result :=
  match items with
  | [] => s
  | item :: rest => reprocess_items env (S i) rest (reprocess_item env i item s)
  end.

Definition audit (env : dlq_env) (actor : string) (r : Result) (outcome : string) (rows : list audit_row) : list audit_row :=
  match audit_fault env with
  | Some _ => rows
  | None => rows ++ [{| au_actor := actor; au_requested := truncate_us (requestedAt env);
                        au_completed := truncate_us (completedAt env); au_reprocessed := Reprocessed r;
                        au_failed := Failed r; au_outcome := outcome |}]
  end.

Definition Reprocess (env : dlq_env) (actor : string) (s : ops_db) : result Result * ops_db :=
  let stop outcome e :=
    (Err e, {| o_cdb := o_cdb s; o_pending := o_pending s; o_audit := audit env actor no_items outcome (o_audit s) |}) in
  match select_fault env with
  | Some e => stop ("query failed: " +:+ error_text e) (EWrap "query dlq" e)
  | None =>
      match scan_fault env with
      | Some e => stop ("scan failed: " +:+ error_text e) e
      | None =>
          match iterate_fault env with
          | Some e => stop ("iterate failed: " +:+ error_text e) e
          | None =>
              let items := select_order env (dlq_items (o_pending s)) in
              let '(db, pending, r) := reprocess_items env 0 items (o_cdb s, o_pending s, no_items) in
              let outcome := if 0 <? Failed r then "partial_failure" else "ok" in
              (Ok r, {| o_cdb := db; o_pending := pending; o_audit := audit env actor r outcome (o_audit s) |})
          end
      end
  end.

(** ** The protected command *)
Section Command.
Context (verify : Verifier -> Z -> string -> result Identity).

(** [operatorVerifier] is identityruntime.Verifier with its certificates and
    key cache, [operatorToken] the environment variable. *)
Definition runDLQCommand (operatorVerifier : result Verifier) (now : Z) (operatorToken : string) (env : dlq_env)
    (s : ops_db) : result unit * ops_db :=
  match operatorVerifier with
  | Err e => (Err (EWrap "configure operator verifier" e), s)
  | Ok v =>
      let operatorToken := trim_space operatorToken in
      if String.eqb operatorToken "" then (Err (EMsg "CASHFLOW_OPERATOR_TOKEN is required to reprocess the DLQ"), s)
      else match verify v now operatorToken with
           | Err e => (Err (EWrap "verify operator token" e), s)
           | Ok identity =>
               match PolicyAuthorize ReconciliationOpsPolicy OperationReprocessDLQ identity with
               | Err e => (Err (EWrap "authorize dlq reprocess" e), s)
               | Ok _ =>
                   match Reprocess env (Subject identity) s with
                   | (Err e, s') => (Err e, s')
                   | (Ok r, s') =>
                       if 0 <? Failed r then (Err (EMsg "dlq reprocess left items failing"), s') else (Ok tt, s')
                   end
               end
           end
  end.
End Command.

(** ** One reconciliation, and one tick of the daemon *)
Context (uuid_in : string -> result string).

Definition runReconcileCommand (watermark : string -> result (Z * Z)) (env : run_env) (duration now : Z)
    (args : list string) (db : cdb) (w : worker) : result unit * worker :=
  match args with
  | merchantID :: dateStr :: _ =>
      match parse_date dateStr with
      | Err e => (Err (EWrap "parse date" e), w)
      | Ok date =>
          match watermark merchantID with
          | Err e => (Err (EWrap "get watermark" e), w)
          | Ok (cut, _) =>
              let '(r, w') := Reconcile uuid_in env duration now merchantID date cut db w in
              (match r with Err e => Err e | Ok _ => Ok tt end, w')
          end
      end
  | _ => (Err (EMsg "usage: run <merchant_id> <business_date>"), w)
  end.

Definition daemonActor : string := "reconciliation-worker/daemon".

Record tick_env : Type := {
  tk_dlq : dlq_env; tk_query : option error;
  (** rows.Scan of a row, and how many rows came before the result broke off *)
  tk_scan : string * Z -> bool; tk_rows : option nat;
  tk_watermark : string -> result (Z * Z); tk_run : string * Z -> run_env; tk_duration : Z; tk_now : Z }.

(** SELECT DISTINCT merchant_id::text, business_date FROM daily_balance *)
Definition merchant_days (db : cdb) : list (string * Z) :=
  flat_map (fun p => map (fun q => (fst p, fst q)) (map_to_list (snd p))) (map_to_list (balances db)).

Definition tick_one (env : tick_env) (db : cdb) (w : worker) (x : string * Z) : worker :=
  match tk_watermark env (fst x) with
  | Err _ => w
  | Ok (cut, _) => snd (Reconcile uuid_in (tk_run env x) (tk_duration env) (tk_now env) (fst x) (snd x) cut db w)
  end.

Definition daemon_tick (env : tick_env) (s : ops_db) (w : worker) : ops_db * worker :=
  let s' := snd (Reprocess (tk_dlq env) daemonActor s) in
  match tk_query env with
  | Some _ => (s', w)
  | None =>
      let rows := merchant_days (o_cdb s') in
      let mds := List.filter (tk_scan env) (match tk_rows env with Some n => take n rows | None => rows end) in
      (s', fold_left (tick_one env (o_cdb s')) mds w)
  end.

(** ** What a drain keeps *)

(** The item's event is in the inbox. *)
Definition settled (it : dlqItem) (db : cdb) : Prop :=
  exists e, ParseEntryConfirmed decode_stream (payload it) = Ok e /\ on_record sha256 (stored e) db.

(** What became of an item: its payload or the first deletion failed and both
    rows are as they were; the pending row went and the second deletion failed;
    both went. *)
Inductive fate : Type := Left | Stranded | Cleared.
Definition freed (f : fate) : bool := match f with Left => false | _ => true end.
Definition cleared (f : fate) : bool := match f with Cleared => true | _ => false end.
Notation story := (list (dlqItem * fate)).

Definition frees (q : pending_row) (x : dlqItem * fate) : bool := freed (snd x) && parked (eventID (fst x)) q.
Definition clears (d : dead_row) (x : dlqItem * fate) : bool := cleared (snd x) && letter_of (eventID (fst x)) d.

(** A fate has its cause: an item is left only when its payload did not apply
    to the projection of its turn, or the statement failed. *)
Definition caused (env : dlq_env) (db db' : cdb) (i : nat) (x : dlqItem * fate) : Prop :=
  match snd x with
  | Left => is_Some (pending_fault env i) \/
      exists db1 db2 e, steps (proj_step sha256) db db1 /\
        ApplyPayload sha256 decode_stream (apply_env env i) (payload (fst x)) db1 = (Err e, db2)
  | Stranded => is_Some (letter_fault env i) /\ settled (fst x) db'
  | Cleared => settled (fst x) db'
  end.

(** The tables a story leaves, and its counts. *)
Record told (xs : story) (p p' : pending_db) (reprocessed failed : Z) : Prop := {
  td_pendings : pendings p' = List.filter (fun q => negb (existsb (frees q) xs)) (pendings p);
  td_letters : dead_letters p' = List.filter (fun d => negb (existsb (clears d) xs)) (dead_letters p);
  td_reprocessed : reprocessed = Z.of_nat (length (List.filter (fun x => cleared (snd x)) xs));
  td_failed : failed = Z.of_nat (length (List.filter (fun x => negb (cleared (snd x))) xs)) }.

(** Rows only go, and only for an event whose payload is on record. *)
Record drained (items : list dlqItem) (db : cdb) (p p' : pending_db) : Prop := {
  dr_letters : forall d, d ∈ dead_letters p' -> d ∈ dead_letters p;
  dr_pendings : forall q, q ∈ pendings p' -> q ∈ pendings p;
  dr_letter_gone : forall d, d ∈ dead_letters p -> d ∈ dead_letters p' \/
    exists it, it ∈ items /\ dl_event d = Some (eventID it) /\ settled it db;
  dr_pending_gone : forall q, q ∈ pendings p -> q ∈ pendings p' \/
    exists it, it ∈ items /\ parked (eventID it) q = true /\ settled it db }.

Lemma drained_refl items db p : drained items db p p.
Proof. split; try done; by left. Qed.

Lemma settled_grows it db db' l : inbox db' = (inbox db ++ l)%list -> settled it db -> settled it db'.
Proof. intros E (e & He & Hr). exists e. split; [done|]. by eapply on_record_grows. Qed.

Lemma inbox_grows db db' : proj_inv db -> steps (proj_step sha256) db db' -> exists l, inbox db' = (inbox db ++ l)%list.
Proof.
  intros Hi S. induction S as [x|x y z Hxy _ IH]; [exists []; by rewrite app_nil_r|].
  destruct (step_grows _ _ _ Hi Hxy) as [l1 E1]. destruct IH as [l2 E2]; [by eapply proj_step_inv|].
  exists (l1 ++ l2)%list. by rewrite E2, E1, app_assoc.
Qed.

(** *** Stories compose *)
Lemma filter_all_true {A} (f : A -> bool) l : (forall x, f x = true) -> List.filter f l = l.
Proof. intros H. induction l as [|a l IH]; cbn; [done|]. by rewrite H, IH. Qed.

Lemma told_nil p : told [] p p 0 0.
Proof. split; cbn; [symmetry; by apply filter_all_true|symmetry; by apply filter_all_true|done|done]. Qed.

Lemma told_cons x xs p p1 p' a b c d : told [x] p p1 a b -> told xs p1 p' c d -> told (x :: xs) p p' (a + c) (b + d).
Proof.
  intros [A1 A2 A3 A4] [B1 B2 B3 B4].
  assert (forall {A} (g : A -> (dlqItem * fate) -> bool) l,
    List.filter (fun q => negb (existsb (g q) xs)) (List.filter (fun q => negb (existsb (g q) [x])) l) =
    List.filter (fun q => negb (existsb (g q) (x :: xs))) l) as Hff.
  { intros A g l. rewrite filter_filter. apply filter_ext_eq. intros q _. cbn. by rewrite orb_false_r, negb_orb. }
  split; [by rewrite B1, A1, Hff|by rewrite B2, A2, Hff| |];
    subst; cbn [List.filter]; destruct (cleared (snd x)); cbn [negb length]; lia.
Qed.

(** The projection at an item's turn: a payload that does not parse never
    reaches the database. *)
Lemma ApplyPayload_steps env text db r db' : proj_inv db -> ApplyPayload sha256 decode_stream env text db = (r, db') ->
  steps (proj_step sha256) db db' /\
  (forall a, r = Ok a -> exists e, ParseEntryConfirmed decode_stream text = Ok e /\ on_record sha256 (stored e) db').
Proof.
  unfold ApplyPayload. intros Hi Ea. destruct (ParseEntryConfirmed _ _) as [e|] eqn:Ep.
  - split; [eapply steps_cons; [by eapply step_apply|apply steps_refl]|]. intros a ->. exists e. split; [done|]. by eapply Apply_records.
  - injection Ea as <- <-. split; [apply steps_refl|done].
Qed.

Lemma item_told env i it db p r db' p' r' : proj_inv db ->
  reprocess_item env i it (db, p, r) = (db', p', r') ->
  steps (proj_step sha256) db db' /\
  exists f, caused env db db' i (it, f) /\ told [(it, f)] p p' (Reprocessed r' - Reprocessed r) (Failed r' - Failed r).
Proof.
  intros Hi H. unfold reprocess_item in H.
  destruct (ApplyPayload _ _ _ _ _) as [res db1] eqn:Ea.
  destruct (ApplyPayload_steps _ _ _ _ _ Hi Ea) as [Hst Hset].
  assert (forall q : pending_row, frees q (it, Left) = false /\ frees q (it, Stranded) = parked (eventID it) q /\
    frees q (it, Cleared) = parked (eventID it) q) as Hfr by done.
  assert (told [(it, Left)] p p 0 1) as Hleft by
    (split; cbn; [symmetry; by apply filter_all_true|symmetry; by apply filter_all_true|done|done]).
  destruct res as [a|e].
  - destruct (pending_fault env i) eqn:Ep; [injection H as <- <- <-|destruct (letter_fault env i) eqn:El; injection H as <- <- <-];
      (split; [done|]); cbn [Reprocessed Failed fail_one done_one]; rewrite Z.sub_diag, Z.add_simpl_l.
    + exists Left. split; [left; by rewrite Ep|done].
    + exists Stranded. split; [split; [by rewrite El|exact (Hset a eq_refl)]|].
      split; cbn; [|symmetry; by apply filter_all_true|done|done]. apply filter_ext_eq. intros q _. by rewrite orb_false_r.
    + exists Cleared. split; [exact (Hset a eq_refl)|].
      split; cbn; [| |done|done]; apply filter_ext_eq; intros q _; by rewrite orb_false_r.
  - injection H as <- <- <-. split; [done|]. cbn [Reprocessed Failed fail_one]. rewrite Z.sub_diag, Z.add_simpl_l.
    exists Left. split; [|done]. right. exists db, db1, e. split; [apply steps_refl|done].
Qed.

Lemma caused_later env db0 db db' db2 i x : proj_inv db' -> steps (proj_step sha256) db0 db -> steps (proj_step sha256) db' db2 ->
  caused env db db' i x -> caused env db0 db2 i x.
Proof.
  intros Hi S0 [l El]%inbox_grows; [|done]. unfold caused. destruct (snd x).
  - intros [H|(d1 & d2 & e & S1 & E)]; [by left|right]. exists d1, d2, e. split; [by eapply steps_trans|done].
  - intros [H Hs]. split; [done|]. by eapply settled_grows.
  - intros Hs. by eapply settled_grows.
Qed.

Lemma items_told env : forall items i db p r db' p' r', proj_inv db ->
  reprocess_items env i items (db, p, r) = (db', p', r') ->
  steps (proj_step sha256) db db' /\
  exists xs : story, map fst xs = items /\ told xs p p' (Reprocessed r' - Reprocessed r) (Failed r' - Failed r) /\
    forall j x, xs !! j = Some x -> caused env db db' (i + j) x.
Proof.
  induction items as [|it items IH]; intros i db p r db' p' r' Hi H.
  - injection H as <- <- <-. split; [apply steps_refl|]. exists []. rewrite !Z.sub_diag. split; [done|]. split; [apply told_nil|done].
  - cbn [reprocess_items] in H. destruct (reprocess_item env i it (db, p, r)) as [[db1 p1] r1] eqn:E1.
    apply item_told in E1 as (S1 & f & C1 & T1); [|done].
    assert (proj_inv db1) as Hi1 by (eapply steps_invariant; [apply proj_step_inv|exact Hi|exact S1]).
    apply IH in H as (S2 & xs & <- & T2 & C2); [|done].
    split; [by eapply steps_trans|]. exists ((it, f) :: xs). split; [done|]. split.
    + replace (Reprocessed r' - Reprocessed r) with (Reprocessed r1 - Reprocessed r + (Reprocessed r' - Reprocessed r1)) by lia.
      replace (Failed r' - Failed r) with (Failed r1 - Failed r + (Failed r' - Failed r1)) by lia. by eapply told_cons.
    + intros [|j] x Hx; cbn in Hx.
      * injection Hx as <-. rewrite Nat.add_0_r. eapply caused_later; [exact Hi1|apply steps_refl|exact S2|exact C1].
      * rewrite Nat.add_succ_r, <- Nat.add_succ_l. eapply caused_later; [|exact S1|apply steps_refl|by apply C2].
        eapply steps_invariant; [apply proj_step_inv|exact Hi1|exact S2].
Qed.

(** *** What a story says of the rows *)
Lemma story_drained env db db' xs p p' a b : told xs p p' a b -> (forall j x, xs !! j = Some x -> caused env db db' j x) ->
  drained (map fst xs) db' p p'.
Proof.
  intros [A1 A2 _ _] Hc.
  assert (forall x, x ∈ xs -> freed (snd x) = true -> settled (fst x) db') as Hs.
  { intros x [j Hj]%list_elem_of_lookup. apply Hc in Hj. unfold caused in Hj. destruct (snd x); cbn; [done|by destruct Hj|done]. }
  split; [by rewrite A2; intros d [? _]%in_filter_iff|by rewrite A1; intros q [? _]%in_filter_iff|..].
  - intros d Hd. destruct (existsb (clears d) xs) eqn:E; [right|left; rewrite A2; apply in_filter_iff; by rewrite E].
    apply existsb_exists in E as (x & Hx%list_elem_of_In & [Hf Hl]%andb_true_iff). exists (fst x).
    split; [by apply list_elem_of_fmap_2|]. unfold letter_of in Hl. destruct (dl_event d); [|done]. apply String.eqb_eq in Hl as ->.
    split; [done|]. apply Hs; [done|]. by destruct (snd x).
  - intros q Hq. destruct (existsb (frees q) xs) eqn:E; [right|left; rewrite A1; apply in_filter_iff; by rewrite E].
    apply existsb_exists in E as (x & Hx%list_elem_of_In & [Hf Hl]%andb_true_iff). exists (fst x).
    split; [by apply list_elem_of_fmap_2|]. split; [done|]. by apply Hs.
Qed.

Lemma told_counts xs p p' a b : told xs p p' a b -> 0 <= a /\ 0 <= b /\ a + b = Z.of_nat (length xs).
Proof.
  intros [_ _ -> ->]. split; [lia|split; [lia|]]. induction xs as [|x xs IH]; [done|]. cbn [List.filter].
  destruct (cleared (snd x)); cbn [negb length]; lia.
Qed.

Lemma told_clean xs p p' a x : told xs p p' a 0 -> x ∈ xs -> snd x = Cleared.
Proof.
  intros [_ _ _ E] Hx. destruct (cleared (snd x)) eqn:Ec; [by destruct (snd x)|exfalso].
  assert (x ∈ List.filter (fun x => negb (cleared (snd x))) xs) as H by (apply in_filter_iff; by rewrite Ec).
  destruct (List.filter _ _); [by apply elem_of_nil in H|cbn in E; lia].
Qed.
End Reprocess.

Lemma dlq_items_in jsonb_text db it : it ∈ dlq_items jsonb_text db <->
  exists d q, d ∈ dead_letters db /\ q ∈ pendings db /\ dl_event d = Some (eventID it) /\ parked (eventID it) q = true /\
    payload it = jsonb_text (dl_payload d).
Proof.
  unfold dlq_items. rewrite list_elem_of_In, in_flat_map. split.
  - intros (d & Hd & Hit). unfold join_letter in Hit. destruct (dl_event d) as [id|] eqn:Ed; [|done].
    apply in_map_iff in Hit as (q & <- & [Hq Hp]%filter_In). exists d, q. cbn. rewrite <- !list_elem_of_In in *. done.
  - intros (d & q & Hd & Hq & Ed & Hp & Epl). exists d. split; [by apply list_elem_of_In|].
    unfold join_letter. rewrite Ed. apply in_map_iff. exists q. split; [by destruct it; cbn in *; subst|].
    apply filter_In. split; [by apply list_elem_of_In|done].
Qed.

Section Runs.
Context (sha256 : string -> list Z) (decode_stream : string -> result (Json.json * trailing)).
Context (jsonb_text : string -> string) (error_text : error -> string).

(** A pending row that a dead letter of its event awaits, and a dead letter
    with such a row: what one run can clear. *)
Definition lettered (p : pending_db) (q : pending_row) : bool :=
  existsb (fun d => match dl_event d with Some id => parked id q | None => false end) (dead_letters p).
Definition awaited (p : pending_db) (d : dead_row) : bool :=
  match dl_event d with Some id => existsb (parked id) (pendings p) | None => false end.

(** A run that read its items. *)
Record drain_run (env : dlq_env) (r : Result) (db db' : cdb) (p p' : pending_db) : Prop := {
  rn_drained : drained sha256 decode_stream (dlq_items jsonb_text p) db' p p';
  rn_counts : 0 <= Reprocessed r /\ 0 <= Failed r /\ Reprocessed r + Failed r = Z.of_nat (length (dlq_items jsonb_text p));
  rn_story : exists xs, map fst xs = select_order env (dlq_items jsonb_text p) /\ told xs p p' (Reprocessed r) (Failed r) /\
    forall i x, xs !! i = Some x -> caused sha256 decode_stream env db db' i x;
  rn_clean : Failed r = 0 -> dlq_items jsonb_text p' = [] /\
    pendings p' = List.filter (fun q => negb (lettered p q)) (pendings p) /\
    dead_letters p' = List.filter (fun d => negb (awaited p d)) (dead_letters p) }.

Lemma clean_tables xs p p' a : (forall it, it ∈ map fst xs <-> it ∈ dlq_items jsonb_text p) -> told xs p p' a 0 ->
  dlq_items jsonb_text p' = [] /\
  pendings p' = List.filter (fun q => negb (lettered p q)) (pendings p) /\
  dead_letters p' = List.filter (fun d => negb (awaited p d)) (dead_letters p).
Proof.
  intros Hin T. assert (forall it, it ∈ dlq_items jsonb_text p -> (it, Cleared) ∈ xs) as Hall.
  { intros it [[it' f] [Hit Hx]]%Hin%list_elem_of_fmap. cbn in Hit. subst. by rewrite <- (told_clean _ _ _ _ _ T Hx). }
  assert (forall q, q ∈ pendings p -> existsb (frees q) xs = lettered p q) as Hp.
  { intros q Hq. apply eq_true_iff_eq. unfold lettered. rewrite !existsb_exists. split.
    - intros (x & Hx%list_elem_of_In & [_ Hl]%andb_true_iff). apply (list_elem_of_fmap_2 fst), Hin, dlq_items_in in Hx as (d & _ & Hd & _ & Ed & _).
      exists d. split; [by apply list_elem_of_In|]. by rewrite Ed.
    - intros (d & Hd%list_elem_of_In & Hl). destruct (dl_event d) as [id|] eqn:Ed; [|done].
      exists ({| eventID := id; payload := jsonb_text (dl_payload d) |}, Cleared). split; [|done].
      apply list_elem_of_In, Hall, dlq_items_in. exists d, q. by splits. }
  assert (forall d, d ∈ dead_letters p -> existsb (clears d) xs = awaited p d) as Hd.
  { intros d Hd. apply eq_true_iff_eq. unfold awaited. rewrite existsb_exists. split.
    - intros (x & Hx%list_elem_of_In & [_ Hl]%andb_true_iff). apply (list_elem_of_fmap_2 fst), Hin, dlq_items_in in Hx as (_ & q & _ & Hq & _ & Hk & _).
      unfold letter_of in Hl. destruct (dl_event d); [|done]. apply String.eqb_eq in Hl as ->.
      apply existsb_exists. exists q. split; [by apply list_elem_of_In|done].
    - destruct (dl_event d) as [id|] eqn:Ed; [|done]. intros (q & Hq%list_elem_of_In & Hk)%existsb_exists.
      exists ({| eventID := id; payload := jsonb_text (dl_payload d) |}, Cleared). split.
      + apply list_elem_of_In, Hall, dlq_items_in. exists d, q. by splits.
      + unfold clears, letter_of. cbn. rewrite Ed. apply String.eqb_refl. }
  assert (pendings p' = List.filter (fun q => negb (lettered p q)) (pendings p)) as E1.
  { rewrite (td_pendings _ _ _ _ _ T). apply filter_ext_eq. intros q Hq. by rewrite Hp. }
  assert (dead_letters p' = List.filter (fun d => negb (awaited p d)) (dead_letters p)) as E2.
  { rewrite (td_letters _ _ _ _ _ T). apply filter_ext_eq. intros d Hq. by rewrite Hd. }
  split; [|done]. destruct (dlq_items jsonb_text p') as [|it l] eqn:Ei; [done|exfalso].
  assert (it ∈ dlq_items jsonb_text p') as (d & q & Hd' & Hq' & Ed & Hk & _)%dlq_items_in by (rewrite Ei; by left).
  rewrite E1 in Hq'. apply in_filter_iff in Hq' as [Hq' Hn%negb_true_iff].
  rewrite E2 in Hd'. apply in_filter_iff in Hd' as [Hd' _].
  unfold lettered in Hn. assert (existsb (fun d => match dl_event d with Some id => parked id q | None => false end) (dead_letters p) = true) as Hy; [|congruence].
  apply existsb_exists. exists d. split; [by apply list_elem_of_In|]. by rewrite Ed.
Qed.

Lemma drain_spec env db p db' p' r : proj_inv db -> (forall l, select_order env l ≡ₚ l) ->
  reprocess_items sha256 decode_stream env 0 (select_order env (dlq_items jsonb_text p)) (db, p, no_items) = (db', p', r) ->
  steps (proj_step sha256) db db' /\ drain_run env r db db' p p'.
Proof.
  intros Hp Ho E. apply items_told in E as (S & xs & Hx & T & C); [|done]. cbn [no_items Reprocessed Failed] in T.
  rewrite !Z.sub_0_r in T. split; [done|].
  assert (forall it, it ∈ map fst xs <-> it ∈ dlq_items jsonb_text p) as Hin by (intros it; by rewrite Hx, Ho).
  split.
  - destruct (story_drained _ _ env db db' xs p p' _ _ T C) as [D1 D2 D3 D4]. split; [done|done|..].
    + intros d Hd. destruct (D3 d Hd) as [|(it & Hit & Hr)]; [by left|right]. exists it. by rewrite <- Hin.
    + intros q Hq. destruct (D4 q Hq) as [|(it & Hit & Hr)]; [by left|right]. exists it. by rewrite <- Hin.
  - destruct (told_counts _ _ _ _ _ T) as (C1 & C2 & C3). rewrite <- (length_map fst), Hx, Ho in C3. done.
  - by exists xs.
  - intros Hf. rewrite Hf in T. by eapply clean_tables.
Qed.

Lemma reprocess_ok env actor s r s' : proj_inv (o_cdb s) -> (forall l, select_order env l ≡ₚ l) ->
  Reprocess sha256 decode_stream jsonb_text error_text env actor s = (Ok r, s') ->
  steps (proj_step sha256) (o_cdb s) (o_cdb s') /\
  drain_run env r (o_cdb s) (o_cdb s') (o_pending s) (o_pending s') /\
  o_audit s' = audit env actor r (if 0 <? Failed r then "partial_failure" else "ok") (o_audit s).
Proof.
  intros Hp Ho H. unfold Reprocess in H. do 3 (case_hyp H; [done|]).
  destruct (reprocess_items _ _ _ _ _ _) as [[db p] x] eqn:E. injection H as <- <-.
  apply drain_spec in E as [S D]; [|done..]. done.
Qed.

Lemma reprocess_err env actor s e s' : Reprocess sha256 decode_stream jsonb_text error_text env actor s = (Err e, s') ->
  exists text, text <> "ok" /\
  s' = {| o_cdb := o_cdb s; o_pending := o_pending s; o_audit := audit env actor no_items text (o_audit s) |}.
Proof.
  unfold Reprocess. intros H. destruct (select_fault env); [|destruct (scan_fault env); [|destruct (iterate_fault env)]].
  4: by destruct (reprocess_items _ _ _ _ _ _) as [[? ?] ?].
  all: injection H as _ <-; eexists; split; [|done]; done.
Qed.

Lemma audit_actor env actor r text rows a : a ∈ audit env actor r text rows -> a ∈ rows \/ au_actor a = actor.
Proof.
  unfold audit. destruct (audit_fault env); [by left|]. intros [H|H%list_elem_of_singleton]%elem_of_app; [by left|right].
  by subst.
Qed.

Lemma reprocess_actor env actor s res s' a : Reprocess sha256 decode_stream jsonb_text error_text env actor s = (res, s') ->
  a ∈ o_audit s' -> a ∈ o_audit s \/ au_actor a = actor.
Proof.
  destruct res as [r|e]; intros H.
  - unfold Reprocess in H. do 3 (case_hyp H; [done|]). destruct (reprocess_items _ _ _ _ _ _) as [[? ?] ?].
    injection H as <- <-. apply audit_actor.
  - apply reprocess_err in H as (text & _ & ->). apply audit_actor.
Qed.
End Runs.

(** C29: draining the dead letters is accounted for, item by item.  Over a
    projection the consumer can reach, whatever statement fails: the projection
    only takes its ordinary steps, and none when the items cannot be read.
    Each item is left, stranded or cleared, in the order read: left only when
    its payload does not apply at its turn or the deletion of its pending row
    fails, stranded only when the deletion of its letters fails after that, and
    freed or cleared only when its payload is valid and its event is now on
    record.  The pending rows and the letters that go are those of the events
    of freed and of cleared items, and no others; so a letter whose own payload
    fails goes with another letter of its event, against what the function's
    comment says.  The counts are the cleared items and all others.  After a
    run without failures the pending rows and letters that matched each other
    are gone, and exactly the others remain: a row parked without a letter, or
    a letter without a row, is not touched.  One audit row, when its insert
    succeeds, names the actor, the counts and whether anything failed. *)
Theorem Reprocess_accounts sha256 decode_stream jsonb_text error_text env actor s res s' :
  steps (proj_step sha256) empty_cdb (o_cdb s) -> (forall l, select_order env l ≡ₚ l) ->
  Reprocess sha256 decode_stream jsonb_text error_text env actor s = (res, s') ->
  let items := dlq_items jsonb_text (o_pending s) in
  steps (proj_step sha256) (o_cdb s) (o_cdb s') /\
  drained sha256 decode_stream items (o_cdb s') (o_pending s) (o_pending s') /\
  match res with
  | Err _ => o_cdb s' = o_cdb s /\ o_pending s' = o_pending s
  | Ok r =>
      (0 <= Reprocessed r /\ 0 <= Failed r /\ Reprocessed r + Failed r = Z.of_nat (length items)) /\
      (exists xs, map fst xs = select_order env items /\ told xs (o_pending s) (o_pending s') (Reprocessed r) (Failed r) /\
         forall i x, xs !! i = Some x -> caused sha256 decode_stream env (o_cdb s) (o_cdb s') i x) /\
      (Failed r = 0 -> dlq_items jsonb_text (o_pending s') = [] /\
         pendings (o_pending s') = List.filter (fun q => negb (lettered (o_pending s) q)) (pendings (o_pending s)) /\
         dead_letters (o_pending s') = List.filter (fun d => negb (awaited (o_pending s) d)) (dead_letters (o_pending s)))
  end /\
  (audit_fault env = None -> exists a, o_audit s' = (o_audit s ++ [a])%list /\ au_actor a = actor /\
     match res with
     | Ok r => au_reprocessed a = Reprocessed r /\ au_failed a = Failed r /\ (au_outcome a = "ok" <-> Failed r = 0)
     | Err _ => au_reprocessed a = 0 /\ au_failed a = 0 /\ au_outcome a <> "ok"
     end).
Proof.
  intros Hp%proj_reachable Ho H items. destruct res as [r|e].
  - apply reprocess_ok in H as (S & [D C X G] & Ea); [|done..]. split; [exact S|]. split; [exact D|]. split; [split; [exact C|split; [exact X|exact G]]|].
    unfold audit in Ea. intros Hf. rewrite Hf in Ea. eexists. split; [exact Ea|]. cbn. splits; [done..|].
    destruct (Z.ltb_spec 0 (Failed r)); split; intros; done || lia.
  - apply reprocess_err in H as (text & Ht & ->). unfold audit. split; [apply steps_refl|]. split; [apply drained_refl|]. split; [done|].
    intros ->. eexists. split; [done|]. done.
Qed.

(** The drain is protected.  Whatever token is presented, the command
    changes nothing unless the token verifies as an identity that holds the
    reconciliation operator's scope; then every audit row it adds names that
    identity's subject, and when it reports success no dead letter has a
    parked row any more, and those that had one went for an event now on
    record. *)
Theorem dlq_protected sha256 decode_stream jsonb_text error_text verify ov now token env s res s' :
  steps (proj_step sha256) empty_cdb (o_cdb s) -> (forall l, select_order env l ≡ₚ l) ->
  runDLQCommand sha256 decode_stream jsonb_text error_text verify ov now token env s = (res, s') ->
  (s' = s /\ is_ok res = false) \/
  exists v id, ov = Ok v /\ verify v now (trim_space token) = Ok id /\ Has (Scopes id) ScopeOpsReconcile = true /\
    (forall a, a ∈ o_audit s' -> a ∈ o_audit s \/ au_actor a = Subject id) /\
    (res = Ok tt -> dlq_items jsonb_text (o_pending s') = [] /\
       drained sha256 decode_stream (dlq_items jsonb_text (o_pending s)) (o_cdb s') (o_pending s) (o_pending s')).
Proof.
  intros Hp%proj_reachable Ho H. unfold runDLQCommand in H.
  destruct ov as [v|e]; [|injection H as <- <-; by left].
  destruct (String.eqb (trim_space token) ""); [injection H as <- <-; by left|].
  destruct (verify v now (trim_space token)) as [id|e] eqn:Ev; [|injection H as <- <-; by left].
  destruct (PolicyAuthorize _ _ _) as [[]|e] eqn:Ea; [|injection H as <- <-; by left].
  right. exists v, id. split; [done|]. split; [done|]. split.
  { unfold PolicyAuthorize in Ea. change (ReconciliationOpsPolicy !! OperationReprocessDLQ) with (Some [ScopeOpsReconcile]) in Ea.
    unfold HasAll in Ea. cbn in Ea. by destruct (Has _ _). }
  destruct (Reprocess _ _ _ _ _ _ _) as [[r|e] s1] eqn:Er.
  - assert (s1 = s') as -> by (by destruct (0 <? Failed r); injection H). split; [intros a; by eapply reprocess_actor|].
    intros ->. apply reprocess_ok in Er as (_ & [D (_ & C & _) _ G] & _); [|done..].
    split; [|done]. apply G. destruct (Z.ltb_spec 0 (Failed r)); [done|lia].
  - injection H as <- <-. split; [intros a; by eapply reprocess_actor|done].
Qed.

(** ** A tick of the daemon *)
Lemma merchant_days_in m d db : (m, d) ∈ merchant_days db <-> is_Some (days_of m db !! d).
Proof.
  unfold merchant_days, days_of. rewrite list_elem_of_In, in_flat_map. split.
  - intros ([k c] & Hk & ([d' b] & [= -> ->] & Hd)%in_map_iff).
    apply list_elem_of_In, elem_of_map_to_list in Hk, Hd. cbn [fst snd] in *. rewrite Hk. by exists b.
  - intros [b Hb]. destruct (balances db !! m) as [c|] eqn:E; [|done]. exists (m, c).
    split; [by apply list_elem_of_In, elem_of_map_to_list|]. apply in_map_iff. exists (d, b).
    split; [done|]. by apply list_elem_of_In, elem_of_map_to_list.
Qed.

(** What a tick meets when nothing fails: every merchant's watermark, and
    clean runs up to it. *)
Record calm_tick (uuid_in : string -> result string) (ldb : ledger_db) (env : tick_env) : Prop := {
  ca_query : tk_query env = None;
  ca_scan : forall x, tk_scan env x = true;
  ca_rows : tk_rows env = None;
  ca_uuid : forall m, uuid_in m = Ok m;
  ca_watermark : forall m, exists at_, tk_watermark env m = Ok (recorded_at ldb m, at_);
  ca_run : forall x, clean_run uuid_in (fst x) (recorded_at ldb (fst x)) ldb (tk_run env x) }.

Definition reconciled_at (runs : run_table) (m : string) (d cut : Z) : Prop :=
  exists row, runs !! (m, d) = Some row /\ cut <= r_cut row.

Lemma reconciled_keeps runs runs' m d cut : keeps_runs runs runs' -> reconciled_at runs m d cut -> reconciled_at runs' m d cut.
Proof. intros Hk (row & Hr & Hc). destruct (Hk _ _ Hr) as (x & Hx & Hle & _). exists x. split; [done|]. lia. Qed.

Lemma tick_one_spec uuid_in ldb env db w x : ledger_inv ldb -> calm_tick uuid_in ldb env ->
  keeps_runs (w_runs w) (w_runs (tick_one uuid_in env db w x)) /\
  reconciled_at (w_runs (tick_one uuid_in env db w x)) (fst x) (snd x) (recorded_at ldb (fst x)).
Proof.
  intros Hi [_ _ _ Hu Hw Hr]. unfold tick_one. destruct (Hw (fst x)) as [at_ ->]. unfold Reconcile.
  destruct (clean_reconcile uuid_in (tk_run env x) (fst x) (fst x) (snd x) (recorded_at ldb (fst x)) ldb db (w_runs w))
    as (r & runs' & row & E & Hrow & Hc); [done|done|apply (inv_range _ Hi)|apply Hr|].
  rewrite E. cbn [snd w_runs]. split; [|by exists row].
  apply reconcile_runs in E as [-> | (m & row' & Hs)]; [apply keeps_runs_refl|]. by apply save_run_grows in Hs as (_ & Hk & _).
Qed.

Lemma tick_all_spec uuid_in ldb env db l w : ledger_inv ldb -> calm_tick uuid_in ldb env ->
  keeps_runs (w_runs w) (w_runs (fold_left (tick_one uuid_in env db) l w)) /\
  forall x, x ∈ l -> reconciled_at (w_runs (fold_left (tick_one uuid_in env db) l w)) (fst x) (snd x) (recorded_at ldb (fst x)).
Proof.
  intros Hi Hc. revert w. induction l as [|y l IH]; intros w; cbn [fold_left].
  - split; [apply keeps_runs_refl|]. by intros x ?%elem_of_nil.
  - destruct (tick_one_spec uuid_in ldb env db w y Hi Hc) as [K1 R1]. destruct (IH (tick_one uuid_in env db w y)) as [K2 R2].
    split; [by eapply keeps_runs_trans|]. intros x [-> | Hx]%elem_of_cons; [by eapply reconciled_keeps|by apply R2].
Qed.

(** The daemon catches up.  A tick that meets no failure, whatever the
    drain of the dead letters did before, leaves every merchant and day that
    has a balance with an outcome kept at a cut no earlier than the Ledger's
    watermark of that merchant, and loses no outcome kept before. *)
Theorem daemon_catches_up sha256 decode_stream jsonb_text error_text json_text sha ll uuid_in ldb env s w s' w' :
  steps (ledger_step sha json_text ll) empty_db ldb -> calm_tick uuid_in ldb env ->
  daemon_tick sha256 decode_stream jsonb_text error_text uuid_in env s w = (s', w') ->
  (forall m d, is_Some (days_of m (o_cdb s') !! d) -> reconciled_at (w_runs w') m d (recorded_at ldb m)) /\
  keeps_runs (w_runs w) (w_runs w').
Proof.
  intros Hl Hc H. destruct (steps_spec _ _ _ _ _ Hl empty_inv) as (Hi & _ & _).
  unfold daemon_tick in H. rewrite (ca_query _ _ _ Hc), (ca_rows _ _ _ Hc) in H. injection H as <- <-.
  set (db := o_cdb _). destruct (tick_all_spec uuid_in ldb env db (List.filter (tk_scan env) (merchant_days db)) w Hi Hc) as [K R].
  split; [|done]. intros m d Hmd%merchant_days_in. apply (R (m, d)). apply in_filter_iff. split; [done|]. apply (ca_scan _ _ _ Hc).
Qed.

(** ** Sample drains *)
Definition text_decode (text : string) : result (Json.json * trailing) :=
  if String.eqb text "event" then Ok (sample_wire, AtEOF) else Err (EMsg "unexpected token").
Definition sample_letter (id : Z) (text : string) : dead_row :=
  {| dl_id := id; dl_event := Some "e1"; dl_merchant := None; dl_date := None; dl_type := EntryConfirmedV1;
     dl_payload := text; dl_code := "retries_exhausted"; dl_at := 0 |}.
Definition sample_parked (letters : list dead_row) : ops_db :=
  {| o_cdb := empty_cdb;
     o_pending := {| pendings := [{| pn_event := "e1"; pn_merchant := None; pn_date := None; pn_class := "dlq";
                                     pn_attempts := 3; pn_first := 0; pn_last := 0; pn_next := None; pn_code := "x" |}];
                     dead_letters := letters; next_dead := 3 |};
     o_audit := [] |}.
Definition sample_drain : dlq_env :=
  {| select_fault := None; scan_fault := None; iterate_fault := None; select_order := id;
     apply_env := fun _ => quiet 0; pending_fault := fun _ => None; letter_fault := fun _ => None;
     audit_fault := None; requestedAt := 0; completedAt := 0 |}.
Definition no_text (_ : error) : string := "".
Definition sample_reprocess (actor : string) (s : ops_db) : result Result * ops_db :=
  Reprocess sample_digest text_decode id no_text sample_drain actor s.

Lemma Reprocess_accounts_witness :
  let s' := snd (sample_reprocess "op" (sample_parked [sample_letter 1 "event"])) in
  dlq_items id (o_pending s') = [] /\ length (inbox (o_cdb s')) = 1%nat /\
  pendings (o_pending s') = [] /\ dead_letters (o_pending s') = [].
Proof.
  set (s := sample_parked [sample_letter 1 "event"]).
  assert (exists r, fst (sample_reprocess "op" s) = Ok r /\ Failed r = 0) as (r & Er & Ef)
    by (vm_compute; eexists; split; reflexivity).
  destruct (Reprocess_accounts sample_digest text_decode id no_text sample_drain "op" s (Ok r) (snd (sample_reprocess "op" s)))
    as (_ & _ & (_ & _ & H) & _); [apply steps_refl|done|rewrite <- Er; apply surjective_pairing|].
  destruct (H Ef) as (H1 & H2 & H3). split; [exact H1|]. split; [vm_compute; reflexivity|].
  split; [rewrite H2|rewrite H3]; vm_compute; reflexivity.
Defined.

(** Two dead letters of one event, of which the second cannot be parsed: the
    first one's success deletes both, and the second is counted as failed. *)
Definition repeated_letter : ops_db := sample_parked [sample_letter 1 "event"; sample_letter 2 "garbage"].
Lemma failed_letter_deleted :
  fst (sample_reprocess "op" repeated_letter) = Ok {| Reprocessed := 1; Failed := 1 |} /\
  dead_letters (o_pending (snd (sample_reprocess "op" repeated_letter))) = [].
Proof. split; vm_compute; reflexivity. Qed.

(** A deletion that fails after the pending row is gone: the dead letter stays
    but is no longer selected. *)
Definition stranding_drain : dlq_env :=
  {| select_fault := None; scan_fault := None; iterate_fault := None; select_order := id;
     apply_env := fun _ => quiet 0; pending_fault := fun _ => None; letter_fault := fun _ => Some ErrNoRows;
     audit_fault := None; requestedAt := 0; completedAt := 0 |}.
Definition stranded : result Result * ops_db :=
  Reprocess sample_digest text_decode id no_text stranding_drain "op" (sample_parked [sample_letter 1 "event"]).
Lemma failed_deletion_strands :
  fst stranded = Ok {| Reprocessed := 0; Failed := 1 |} /\
  length (dead_letters (o_pending (snd stranded))) = 1%nat /\ dlq_items id (o_pending (snd stranded)) = [].
Proof. split; [|split]; vm_compute; reflexivity. Qed.

Definition sample_operator (_ : Verifier) (_ : Z) (token : string) : result Identity :=
  if String.eqb token "operator" then Ok (sample_identity "" "ops:reconcile") else Err ErrTokenMalformed.
Definition sample_verifier : Verifier :=
  {| v_issuer := "i"; v_audience := "a"; v_keys := fun _ => Err ErrKeyUnknown; v_merchant := MerchantForbidden;
     v_algorithms := ∅; v_merchantClaim := "m"; v_scopeClaim := "s"; v_leeway := 0 |}.

Lemma dlq_protected_witness :
  let s := sample_parked [sample_letter 1 "event"] in
  let run := runDLQCommand sample_digest text_decode id no_text sample_operator (Ok sample_verifier) 0 "operator" sample_drain s in
  fst run = Ok tt /\ exists v id, Ok sample_verifier = Ok v /\ sample_operator v 0 "operator" = Ok id /\
    Has (Scopes id) ScopeOpsReconcile = true.
Proof.
  cbv zeta. split; [vm_compute; reflexivity|].
  destruct (dlq_protected sample_digest text_decode id no_text sample_operator (Ok sample_verifier) 0 "operator" sample_drain
    (sample_parked [sample_letter 1 "event"]) _ _ (steps_refl _ _) (fun l => Permutation_refl l) (surjective_pairing _))
    as [[_ H]|(v & i & H1 & H2 & H3 & _)].
  - exfalso. vm_compute in H. discriminate H.
  - exists v, i. split; [exact H1|]. split; [exact H2|exact H3].
Defined.

Definition sample_tick : tick_env :=
  {| tk_dlq := sample_drain; tk_query := None; tk_scan := fun _ => true; tk_rows := None;
     tk_watermark := fun m => Ok (recorded_at LedgerRetry.sample_db2 m, 0);
     tk_run := fun x =>
       {| begin_err := None; lock_err := None; existing_err := None; balance_err := None; projected_err := None;
          save_err := None; run_commit := CommitOk;
          source := fun _ => served Ok {| InternalServer.query_fault := None; InternalServer.rows_fault := None |}
                               (fst x) (recorded_at LedgerRetry.sample_db2 (fst x)) LedgerRetry.sample_db2;
          cancelled := fun _ => false; started := 0; finished := 5; elapsed_ms := 0 |};
     tk_duration := 0; tk_now := 0 |}.
Definition fresh_worker : worker := {| w_runs := ∅; w_metrics := None |}.
Definition mirrored_ops : ops_db := {| o_cdb := mirrored; o_pending := empty_pending; o_audit := [] |}.

Lemma daemon_catches_up_witness :
  let '(_, w) := daemon_tick sample_digest text_decode id no_text Ok sample_tick mirrored_ops fresh_worker in
  reconciled_at (w_runs w) LedgerRetry.sample_merchant 739000 2.
Proof.
  destruct (daemon_tick sample_digest text_decode id no_text Ok sample_tick mirrored_ops fresh_worker) as [s' w] eqn:E.
  assert (recorded_at LedgerRetry.sample_db2 LedgerRetry.sample_merchant = 2) as <- by (vm_compute; reflexivity).
  apply (daemon_catches_up sample_digest text_decode id no_text LedgerRetry.sample_text LedgerRetry.sample_sha256
    LedgerRetry.sample_zone Ok LedgerRetry.sample_db2 sample_tick mirrored_ops fresh_worker s' w).
  - apply LedgerPages.sample_steps2.
  - split; [reflexivity|reflexivity|reflexivity|reflexivity|intros m; exists 0; reflexivity|].
    intros x. split; [repeat split|reflexivity|reflexivity|reflexivity].
  - exact E.
  - assert (s' = fst (daemon_tick sample_digest text_decode id no_text Ok sample_tick mirrored_ops fresh_worker)) as ->
      by by rewrite E.
    vm_compute. eexists. reflexivity.
Defined.
