(* ===== verification/GrpcSecurity.v ===== *)
(** * The private gRPC surface

    internal/platform/grpcsecurity/server.go and client.go: what an inbound
    internal call must show before its handler runs, for unary and streaming
    calls, and what an outbound call carries.

    [verify] is the bearer-token verifier ([Auth.Verify]).  A call's context is
    what the transport puts in it: the peer's TLS state, the deadline, the
    incoming metadata with its keys in lower case.  Spans and logs only
    observe. *)

From S2P Require Import Prelude.
From S2P Require Import GoStrings.
From S2P Require Import GoTime.
From S2P Require Import TraceContext.
From S2P Require Import Auth.
From S2P Require Import LedgerServer.
From Stdlib Require String.
From Stdlib Require Import ZArith Lia Ascii.
Open Scope string_scope.
Open Scope Z_scope.

Definition DefaultMaxRecvMsgBytes : Z := 4194304.
Definition DefaultMaxSendMsgBytes : Z := 4194304.
Definition DefaultMaxDeadline : Z := 5 * second.
Definition authorizationMetadataKey : string := "authorization".
Definition traceParentKey : string := "traceparent".
Definition traceStateKey : string := "tracestate".
Definition healthMethods : list string := ["/grpc.health.v1.Health/Check"; "/grpc.health.v1.Health/Watch"].
Definition isHealthMethod (method : string) : bool := existsb (String.eqb method) healthMethods.

(** ** Contexts *)
Inductive auth_info : Type := NoAuthInfo | OtherAuthInfo | TLSInfo (verifiedChains : nat).
Record call_ctx : Type := {
  x_peer : option auth_info; x_deadline : option Z; x_incoming : option metadata; x_outgoing : option metadata;
  x_carrier : option Edge.carrier; x_identity : option Identity }.

Definition with_identity (i : Identity) (c : call_ctx) : call_ctx :=
  {| x_peer := x_peer c; x_deadline := x_deadline c; x_incoming := x_incoming c; x_outgoing := x_outgoing c;
     x_carrier := x_carrier c; x_identity := Some i |}.
Definition with_carrier (k : Edge.carrier) (c : call_ctx) : call_ctx :=
  {| x_peer := x_peer c; x_deadline := x_deadline c; x_incoming := x_incoming c; x_outgoing := x_outgoing c;
     x_carrier := Some k; x_identity := x_identity c |}.
(** context.WithTimeout: the earlier of the two deadlines. *)
Definition with_timeout (now limit : Z) (c : call_ctx) : call_ctx :=
  {| x_peer := x_peer c;
     x_deadline := Some (match x_deadline c with Some d => Z.min d (now + limit) | None => now + limit end);
     x_incoming := x_incoming c; x_outgoing := x_outgoing c; x_carrier := x_carrier c; x_identity := x_identity c |}.
Definition with_outgoing (md : metadata) (c : call_ctx) : call_ctx :=
  {| x_peer := x_peer c; x_deadline := x_deadline c; x_incoming := x_incoming c; x_outgoing := Some md;
     x_carrier := x_carrier c; x_identity := x_identity c |}.

(** [metadata.MD.Get] of a context's incoming metadata. *)
Definition incoming_values (c : call_ctx) (key : string) : list string :=
  match x_incoming c with Some md => default [] (md !! key) | None => [] end.

(** ** Tenant delegation *)
Definition TenantAuthorizer : Type := Identity -> string -> string -> result unit.
Definition StaticTenantDelegations : Type := gmap string (gset string).

(** [order] lists the policy map in the order the range visits it. *)
Definition NewStaticTenantDelegations (delegations : list (string * list string)) : StaticTenantDelegations :=
  fold_left (fun allowed d =>
    <[trim_space (fst d) := list_to_set (List.filter (fun m => negb (String.eqb m "")) (map trim_space (snd d)))]> allowed)
    delegations ∅.
Definition AuthorizeTenant (d : StaticTenantDelegations) : TenantAuthorizer := fun identity merchant _ =>
  let service := if String.eqb (ClientID identity) "" then Subject identity else ClientID identity in
  match d !! service with
  | None => Err (EMsg "grpcsecurity: service has no tenant delegation")
  | Some merchants => if bool_decide (merchant ∈ merchants) then Ok tt
                      else Err (EMsg "grpcsecurity: merchant is not delegated to service")
  end.

(** ** Configuration *)
Record ServerConfig : Type := {
  sc_Verifier : option Verifier; sc_Policy : option ScopePolicy; sc_Tenants : option TenantAuthorizer;
  sc_RequireMTLS : bool; sc_RequireDeadline : bool; sc_MaxDeadline : Z; sc_MaxRecvMsgBytes : Z; sc_MaxSendMsgBytes : Z }.

Definition config_error {A} (text : string) : result A := Err (EMsg ("grpcsecurity: " +:+ text)).
(** A validated configuration holds its three collaborators. *)
Record server_policy : Type := {
  sp_Verifier : Verifier; sp_Policy : ScopePolicy; sp_Tenants : TenantAuthorizer; sp_limit : Z }.
Definition maxDeadline (c : ServerConfig) : Z := if 0 <? sc_MaxDeadline c then sc_MaxDeadline c else DefaultMaxDeadline.
Definition validate (c : ServerConfig) : result server_policy :=
  match sc_Verifier c with
  | None => config_error "verifier is required"
  | Some v =>
      match sc_Policy c with
      | None => config_error "scope policy is required"
      | Some p =>
          match sc_Tenants c with
          | None => config_error "tenant authorizer is required"
          | Some t =>
              if negb (sc_RequireMTLS c) then config_error "mutual TLS must be required"
              else if negb (sc_RequireDeadline c) then config_error "caller deadlines must be required"
              else if (sc_MaxDeadline c <? 0) || (sc_MaxRecvMsgBytes c <? 0) || (sc_MaxSendMsgBytes c <? 0)
              then config_error "deadline and message limits cannot be negative"
              else Ok {| sp_Verifier := v; sp_Policy := p; sp_Tenants := t; sp_limit := maxDeadline c |}
          end
      end
  end.

(** The two size limits of [ServerOptions]; its interceptors are below. *)
Definition ServerOptions (c : ServerConfig) : result (Z * Z * server_policy) :=
  p ← validate c;
  Ok (if sc_MaxRecvMsgBytes c =? 0 then DefaultMaxRecvMsgBytes else sc_MaxRecvMsgBytes c,
      if sc_MaxSendMsgBytes c =? 0 then DefaultMaxSendMsgBytes else sc_MaxSendMsgBytes c, p).

(** ** Admission *)
Definition hasVerifiedClientCertificate (c : call_ctx) : bool :=
  match x_peer c with Some (TLSInfo chains) => Nat.ltb 0 chains | _ => false end.

Definition TraceParentFrom (c : call_ctx) : option Edge.SpanContext :=
  match Edge.FromContext (x_carrier c) with
  | Some (span, _) => Some span
  | None =>
      match incoming_values c traceParentKey with
      | [] => None
      | v :: _ => match Edge.ParseTraceParent v with Ok span => Some span | Err _ => None end
      end
  end.
Definition incomingTraceState (c : call_ctx) : string :=
  match incoming_values c traceStateKey with v :: _ => Edge.SanitizeTraceState v | [] => "" end.

Section Server.
Context (verify : Verifier -> Z -> string -> result Identity).

Definition authenticate (c : call_ctx) (now : Z) (v : Verifier) : result Identity :=
  match incoming_values c authorizationMetadataKey with
  | [value] =>
      let '(scheme, credential, found) := cut " " (trim_space value) in
      if negb found || negb (equal_fold scheme "Bearer") then Err ErrTokenMissing
      else verify v now (trim_space credential)
  | _ => Err ErrTokenMissing
  end.

Definition admit_call (c : call_ctx) (now : Z) (p : server_policy) (fullMethod : string) : reply call_ctx :=
  if negb (hasVerifiedClientCertificate c)
  then refused Unauthenticated "mutual TLS is required on the internal network"
  else match x_deadline c with
  | None => refused InvalidArgument "a deadline is required"
  | Some deadline =>
      if isHealthMethod fullMethod then Reply c
      else match authenticate c now (sp_Verifier p) with
      | Err _ => refused Unauthenticated "a valid service identity is required"
      | Ok identity =>
          match PolicyAuthorize (sp_Policy p) fullMethod identity with
          | Err _ => refused PermissionDenied "the service identity lacks the required scope"
          | Ok _ =>
              let guarded := with_identity identity c in
              let guarded := match TraceParentFrom c with
                             | Some span => with_carrier (Edge.WithCarrier span (incomingTraceState c)) guarded
                             | None => guarded
                             end in
              Reply (if deadline - now <=? sp_limit p then guarded else with_timeout now (sp_limit p) guarded)
          end
      end
  end.

(** A request that carries a merchant ([GetMerchantId]), or another one. *)
Record message : Type := { merchant_id : option string; body : string }.

Definition authorizeTenant (c : call_ctx) (tenants : TenantAuthorizer) (method : string) (request : message) : reply unit :=
  match merchant_id request with
  | None => refused InvalidArgument "merchant_id is required"
  | Some m =>
      if String.eqb (trim_space m) "" then refused InvalidArgument "merchant_id is required"
      else match x_identity c with
      | None => refused Unauthenticated "a valid service identity is required"
      | Some identity =>
          match tenants identity m method with
          | Err _ => refused PermissionDenied "the service identity is not delegated to the requested merchant"
          | Ok _ => Reply tt
          end
      end
  end.

(** [UnaryServerInterceptor]: the handler runs over the state of the service. *)
Definition unary {S A} (p : server_policy) (method : string) (c : call_ctx) (now : Z) (request : message)
    (handler : call_ctx -> message -> S -> reply A * S) (s : S) : reply A * S :=
  match admit_call c now p method with
  | Refused st => (Refused st, s)
  | Reply guarded =>
      match (if isHealthMethod method then Reply tt else authorizeTenant guarded (sp_Tenants p) method request) with
      | Refused st => (Refused st, s)
      | Reply _ => handler guarded request s
      end
  end.

(** [guardedStream.RecvMsg]: [incoming] is what the transport delivers next. *)
Record guarded_stream : Type := {
  gs_ctx : call_ctx; gs_tenants : TenantAuthorizer; gs_method : string; gs_exempt : bool; gs_authorized : bool }.
Definition RecvMsg (s : guarded_stream) (incoming : reply message) : reply message * guarded_stream :=
  match incoming with
  | Refused st => (Refused st, s)
  | Reply m =>
      if gs_exempt s || gs_authorized s then (Reply m, s)
      else match authorizeTenant (gs_ctx s) (gs_tenants s) (gs_method s) m with
           | Refused st => (Refused st, s)
           | Reply _ => (Reply m, {| gs_ctx := gs_ctx s; gs_tenants := gs_tenants s; gs_method := gs_method s;
                                     gs_exempt := gs_exempt s; gs_authorized := true |})
           end
  end.

(** The stream a streaming handler is given. *)
Definition stream_open (p : server_policy) (method : string) (c : call_ctx) (now : Z) : reply guarded_stream :=
  match admit_call c now p method with
  | Refused st => Refused st
  | Reply guarded => Reply {| gs_ctx := guarded; gs_tenants := sp_Tenants p; gs_method := method;
                              gs_exempt := isHealthMethod method; gs_authorized := false |}
  end.

(** A generated server-streaming handler: it receives its one request, then
    runs the service. *)
Definition server_stream {S A} (p : server_policy) (method : string) (c : call_ctx) (now : Z) (incoming : reply message)
    (handler : call_ctx -> message -> S -> reply A * S) (s : S) : reply A * S :=
  match stream_open p method c now with
  | Refused st => (Refused st, s)
  | Reply stream =>
      match RecvMsg stream incoming with
      | (Refused st, _) => (Refused st, s)
      | (Reply m, stream') => handler (gs_ctx stream') m s
      end
  end.
End Server.

(** ** client.go *)
Record ClientConfig : Type := { cc_Tokens : option (result string); cc_Deadline : Z }.

Definition sharedBudget (c : call_ctx) (now maximum : Z) : call_ctx :=
  match x_deadline c with
  | Some current => if current - now <=? maximum then c else with_timeout now maximum c
  | None => with_timeout now maximum c
  end.

Definition traced (c : call_ctx) (md : metadata) : metadata :=
  let put span state md :=
    let md := <[traceParentKey := [Edge.span_string span]]> md in
    if String.eqb state "" then md else <[traceStateKey := [state]]> md in
  match Edge.FromContext (x_carrier c) with
  | Some (span, state) => put span state md
  | None => match TraceParentFrom c with Some span => put span (incomingTraceState c) md | None => md end
  end.

Definition prepare (c : call_ctx) (now : Z) (token : result string) (deadline : Z) : result call_ctx :=
  let budget := sharedBudget c now deadline in
  token ← token;
  let outgoing := default ∅ (x_outgoing budget) in
  Ok (with_outgoing (traced budget (<[authorizationMetadataKey := ["Bearer " +:+ token]]> outgoing)) budget).

(** The common prologue of the two client interceptors: the checked deadline. *)
Definition client_deadline (cfg : ClientConfig) : result Z :=
  match cc_Tokens cfg with
  | None => config_error "token source is required"
  | Some _ => if cc_Deadline cfg <? 0 then config_error "deadline cannot be negative"
              else Ok (if cc_Deadline cfg =? 0 then DefaultMaxDeadline else cc_Deadline cfg)
  end.

(** [UnaryClientInterceptor] up to the invoked call. *)
Definition client_call (cfg : ClientConfig) (c : call_ctx) (now : Z) : result call_ctx :=
  deadline ← client_deadline cfg;
  match cc_Tokens cfg with None => config_error "token source is required" | Some t => prepare c now t deadline end.

(** ** What an admitted call has shown *)
Section Guarded.
Context (verify : Verifier -> Z -> string -> result Identity).

Record admitted (p : server_policy) (method : string) (c : call_ctx) (now : Z) (request : message)
    (id : Identity) (guarded : call_ctx) : Prop := {
  ad_peer : exists chains, x_peer c = Some (TLSInfo chains) /\ (0 < chains)%nat;
  ad_deadline : exists d, x_deadline c = Some d /\ x_deadline guarded = Some (Z.min d (now + sp_limit p));
  ad_token : exists value scheme credential, incoming_values c authorizationMetadataKey = [value] /\
    cut " " (trim_space value) = (scheme, credential, true) /\ equal_fold scheme "Bearer" = true /\
    verify (sp_Verifier p) now (trim_space credential) = Ok id;
  ad_scopes : exists required, sp_Policy p !! method = Some required /\ HasAll (Scopes id) required = true;
  ad_tenant : exists m, merchant_id request = Some m /\ trim_space m <> "" /\ sp_Tenants p id m method = Ok tt;
  ad_identity : x_identity guarded = Some id;
  ad_body : x_incoming guarded = x_incoming c /\ x_peer guarded = x_peer c }.

Lemma authenticate_spec c now v id : authenticate verify c now v = Ok id <->
  exists value scheme credential, incoming_values c authorizationMetadataKey = [value] /\
    cut " " (trim_space value) = (scheme, credential, true) /\ equal_fold scheme "Bearer" = true /\
    verify v now (trim_space credential) = Ok id.
Proof.
  unfold authenticate. destruct (incoming_values c authorizationMetadataKey) as [|value [|]].
  - split; [done|]. by intros (? & ? & ? & ? & _).
  - destruct (cut " " (trim_space value)) as [[scheme credential] found] eqn:E. split.
    + destruct found, (equal_fold scheme "Bearer") eqn:Eb; try done. intros H. exists value, scheme, credential. done.
    + intros (? & ? & ? & [= <-] & E' & Eb & H). rewrite E in E'. injection E' as -> -> ->. by rewrite Eb.
  - split; [done|]. by intros (? & ? & ? & ? & _).
Qed.

Lemma PolicyAuthorize_ok policy operation id : PolicyAuthorize policy operation id = Ok tt <->
  exists required, policy !! operation = Some required /\ HasAll (Scopes id) required = true.
Proof.
  unfold PolicyAuthorize. destruct (policy !! operation) as [req|]; [|by split; [|intros (? & ? & _)]].
  destruct (HasAll (Scopes id) req) eqn:E; split; try done; [by exists req|].
  intros (? & [= <-] & H). congruence.
Qed.

Lemma peer_spec c : hasVerifiedClientCertificate c = true <-> exists chains, x_peer c = Some (TLSInfo chains) /\ (0 < chains)%nat.
Proof.
  unfold hasVerifiedClientCertificate. destruct (x_peer c) as [[| |n]|].
  3: { rewrite Nat.ltb_lt. split; [by exists n|]. by intros (? & [= <-] & ?). }
  all: split; [done|]; by intros (? & ? & _).
Qed.

(** What [admit_call] hands on, for a method that is not a health check. *)
Lemma admit_spec p method c now guarded : isHealthMethod method = false ->
  admit_call verify c now p method = Reply guarded <->
  exists id d, hasVerifiedClientCertificate c = true /\ x_deadline c = Some d /\
    authenticate verify c now (sp_Verifier p) = Ok id /\ PolicyAuthorize (sp_Policy p) method id = Ok tt /\
    guarded = (let g := match TraceParentFrom c with
                        | Some span => with_carrier (Edge.WithCarrier span (incomingTraceState c)) (with_identity id c)
                        | None => with_identity id c
                        end in
               if d - now <=? sp_limit p then g else with_timeout now (sp_limit p) g).
Proof.
  intros Hm. unfold admit_call. rewrite Hm. split.
  - destruct (hasVerifiedClientCertificate c); [|done]. destruct (x_deadline c) as [d|] eqn:Ed; [|done].
    destruct (authenticate _ _ _ _) as [id|]; [|done]. destruct (PolicyAuthorize _ _ _) as [[]|] eqn:Ep; [|done].
    intros [= <-]. by exists id, d.
  - intros (id & d & -> & -> & -> & -> & ->). done.
Qed.

Lemma guarded_fields span_c now limit d id c : x_deadline c = Some d ->
  let g := match span_c with Some k => with_carrier k (with_identity id c) | None => with_identity id c end in
  let g := if d - now <=? limit then g else with_timeout now limit g in
  x_deadline g = Some (Z.min d (now + limit)) /\ x_identity g = Some id /\ x_incoming g = x_incoming c /\ x_peer g = x_peer c.
Proof.
  intros Hd. cbn zeta. destruct (Z.leb_spec (d - now) limit), span_c; cbn; rewrite ?Hd; splits; try done; f_equal; lia.
Qed.

Lemma authorizeTenant_spec c tenants method request id : x_identity c = Some id ->
  (exists u, authorizeTenant c tenants method request = Reply u) <->
  exists m, merchant_id request = Some m /\ trim_space m <> "" /\ tenants id m method = Ok tt.
Proof.
  intros Hi. unfold authorizeTenant. destruct (merchant_id request) as [m|].
  2: { split; [by intros [? ?]|by intros (? & ? & _)]. }
  destruct (String.eqb_spec (trim_space m) ""); [split; [by intros [? ?]|by intros (? & [= <-] & ? & _)]|].
  rewrite Hi. destruct (tenants id m method) as [[]|] eqn:E; split.
  - intros _. by exists m.
  - by exists tt.
  - by intros [? ?].
  - intros (? & [= <-] & _ & ?). congruence.
Qed.

Lemma unary_cases {S A} p method c now request (handler : call_ctx -> message -> S -> reply A * S) s :
  isHealthMethod method = false ->
  (exists id guarded, admitted p method c now request id guarded /\
     unary verify p method c now request handler s = handler guarded request s) \/
  ((exists st, unary verify p method c now request handler s = (Refused st, s)) /\
   forall id guarded, ~ admitted p method c now request id guarded).
Proof.
  intros Hm. unfold unary. rewrite Hm. destruct (admit_call verify c now p method) as [guarded|st] eqn:Ea.
  - apply admit_spec in Ea as (id & d & Hp & Hd & Hau & Hpo & Hg); [|done].
    pose proof (guarded_fields (option_map (fun span => Edge.WithCarrier span (incomingTraceState c)) (TraceParentFrom c))
      now (sp_limit p) d id c Hd) as Hf. cbn zeta in Hf.
    assert (guarded = (if d - now <=? sp_limit p then
        match option_map (fun span => Edge.WithCarrier span (incomingTraceState c)) (TraceParentFrom c) with
        | Some k => with_carrier k (with_identity id c) | None => with_identity id c end
      else with_timeout now (sp_limit p)
        match option_map (fun span => Edge.WithCarrier span (incomingTraceState c)) (TraceParentFrom c) with
        | Some k => with_carrier k (with_identity id c) | None => with_identity id c end)) as E
      by (rewrite Hg; by destruct (TraceParentFrom c)).
    rewrite <- E in Hf. destruct Hf as (F1 & F2 & F3 & F4). clear E Hg.
    pose proof (authorizeTenant_spec guarded (sp_Tenants p) method request id F2) as Ht.
    destruct (authorizeTenant _ _ _ _) as [u|st] eqn:Et.
    + left. exists id, guarded. split; [|done]. split; try done.
      * by apply peer_spec.
      * by exists d.
      * by apply authenticate_spec.
      * by apply PolicyAuthorize_ok.
      * apply Ht. by exists u.
    + right. split; [by exists st|]. intros id' g' [_ _ Htok _ Hten _ _].
      apply authenticate_spec in Htok. rewrite Hau in Htok. injection Htok as <-. by apply Ht in Hten as [? ?].
  - right. split; [by exists st|]. intros id g [Hp (d & Hd & _) Ht Hs _ _ _].
    apply peer_spec in Hp. apply authenticate_spec in Ht. apply PolicyAuthorize_ok in Hs.
    assert (exists g', admit_call verify c now p method = Reply g') as [g' Eg]; [|congruence].
    eexists. apply admit_spec; [done|]. by exists id, d.
Qed.

Lemma stream_unary {S A} p method c now request (handler : call_ctx -> message -> S -> reply A * S) s :
  server_stream verify p method c now (Reply request) handler s = unary verify p method c now request handler s.
Proof.
  unfold server_stream, stream_open, unary. destruct (admit_call _ _ _ _ _) as [guarded|]; [|done].
  unfold RecvMsg. cbn [gs_exempt gs_authorized gs_ctx gs_tenants gs_method].
  destruct (isHealthMethod method); cbn [orb]; [done|]. by destruct (authorizeTenant _ _ _ _).
Qed.
End Guarded.

Lemma validate_limit c p : validate c = Ok p ->
  0 < sp_limit p /\ (sc_MaxDeadline c <> 0 -> sp_limit p = sc_MaxDeadline c).
Proof.
  unfold validate. repeat case_goal; intros H; try discriminate H. injection H as <-. cbn [sp_limit]. bool_to_prop.
  unfold maxDeadline. destruct (Z.ltb_spec 0 (sc_MaxDeadline c)); unfold DefaultMaxDeadline, second; split; lia.
Qed.

(** C30: an internal handler, unary or streaming, runs exactly for the calls
    that showed everything the configuration demands: a peer with a verified
    client certificate; a deadline of its own; one authorization value, a
    bearer token that verifies; every scope the method requires, for a method
    that is declared; a merchant delegated to that identity.  The handler then
    sees that identity and a deadline no later than the caller's and than the
    configured limit, and a call that is refused changes nothing. *)
Theorem internal_call_guarded verify config limits p method c now request {S A}
    (handler : call_ctx -> message -> S -> reply A * S) s :
  ServerOptions config = Ok (limits, p) -> isHealthMethod method = false ->
  server_stream verify p method c now (Reply request) handler s = unary verify p method c now request handler s /\
  ((exists id guarded, admitted verify p method c now request id guarded /\
      unary verify p method c now request handler s = handler guarded request s) \/
   ((exists st, unary verify p method c now request handler s = (Refused st, s)) /\
    forall id guarded, ~ admitted verify p method c now request id guarded)) /\
  0 < sp_limit p /\ (sc_MaxDeadline config <> 0 -> sp_limit p = sc_MaxDeadline config).
Proof.
  intros Hc Hm. split; [apply stream_unary|]. split; [by apply unary_cases|].
  unfold ServerOptions in Hc. destruct (validate config) as [q|] eqn:Ev; [|done]. injection Hc as _ <-.
  by apply validate_limit.
Qed.

(** ** A prepared call meets the server *)

(** The server's view of a client's call: the transport delivers the outgoing
    metadata and the deadline over a mutually authenticated connection. *)
Definition delivered (c : call_ctx) : call_ctx :=
  {| x_peer := Some (TLSInfo 1); x_deadline := x_deadline c; x_incoming := x_outgoing c; x_outgoing := None;
     x_carrier := None; x_identity := None |}.

Lemma bearer_cut token : forall_chars no_space token = true -> token <> "" ->
  cut " " (trim_space ("Bearer " +:+ token)) = ("Bearer", token, true).
Proof.
  intros Hs Hn. unfold trim_space.
  assert (trim_left ("Bearer " +:+ token) = "Bearer " +:+ token) as -> by reflexivity.
  assert (trim_right token = token) as Ht by by apply trim_right_id.
  assert (forall a s, trim_left (String a s) <> "" -> trim_right (String a s) = String a (trim_right s)) as Hc.
  { intros a s Ha. cbn [trim_right]. by rewrite (proj2 (String.eqb_neq _ _) Ha). }
  assert (trim_right ("Bearer " +:+ token) = "Bearer " +:+ token) as ->; [|reflexivity].
  assert (trim_left (" " +:+ token) <> "") as Hsp.
  { change (trim_left (" " +:+ token)) with (trim_left_fuel (String.length token) token).
    destruct token as [|a t]; [done|]. cbn [String.length trim_left_fuel]. cbn [forall_chars] in Hs. apply andb_true_iff in Hs as [Ha _].
    by rewrite space_rune_none. }
  cbn [String.append] in *. rewrite !Hc, Ht; [done|exact Hsp|by destruct token..].
Qed.

Lemma budget_deadline c now maximum : x_deadline (sharedBudget c now maximum) =
  Some (match x_deadline c with Some d => Z.min d (now + maximum) | None => now + maximum end).
Proof.
  unfold sharedBudget. destruct (x_deadline c) as [d|] eqn:E; [|cbn; by rewrite E].
  destruct (Z.leb_spec (d - now) maximum); cbn; rewrite E; [|done]. f_equal. lia.
Qed.

Lemma budget_rest c now maximum : x_outgoing (sharedBudget c now maximum) = x_outgoing c /\
  x_incoming (sharedBudget c now maximum) = x_incoming c /\ x_carrier (sharedBudget c now maximum) = x_carrier c.
Proof. unfold sharedBudget. destruct (x_deadline c); [destruct (_ <=? _)|]; done. Qed.

Lemma md_other (md : metadata) k v q : k <> q -> <[k := v]> md !! q = md !! q.
Proof. apply (lookup_insert_ne (M := gmap string)). Qed.

Lemma md_same (md : metadata) k v : <[k := v]> md !! k = Some v.
Proof. apply (lookup_insert_eq (M := gmap string)). Qed.

Lemma traced_authorization c md : traced c md !! authorizationMetadataKey = md !! authorizationMetadataKey.
Proof. unfold traced. repeat case_match; rewrite ?md_other by done; done. Qed.

Lemma traced_parent c md span state : Edge.FromContext (x_carrier c) = Some (span, state) ->
  traced c md !! traceParentKey = Some [Edge.span_string span].
Proof.
  intros E. unfold traced. rewrite E. destruct (String.eqb state ""); [apply md_same|]. by rewrite md_other, md_same by done.
Qed.

(** What the client interceptor prepares, the server admits.  With a token
    of printable characters that verifies and holds the method's scopes, the
    prepared call passes every check of the server over a mutually
    authenticated connection; the handler sees the token's identity, a
    deadline within the server's limit, the client's budget and the caller's
    own deadline, and, when the caller carries a well formed trace, that
    trace. *)
Theorem prepared_call_admitted verify config limits p cfg token c now method id budget c' :
  ServerOptions config = Ok (limits, p) -> isHealthMethod method = false ->
  cc_Tokens cfg = Some (Ok token) -> token <> "" -> forall_chars no_space token = true ->
  verify (sp_Verifier p) now token = Ok id -> PolicyAuthorize (sp_Policy p) method id = Ok tt ->
  client_deadline cfg = Ok budget -> client_call cfg c now = Ok c' ->
  exists guarded d, admit_call verify (delivered c') now p method = Reply guarded /\ x_identity guarded = Some id /\
    x_deadline guarded = Some d /\ d <= now + sp_limit p /\ d <= now + budget /\
    (forall own, x_deadline c = Some own -> d <= own) /\
    (forall span state, Edge.FromContext (x_carrier c) = Some (span, state) -> wf_span span ->
       exists k, x_carrier guarded = Some k /\ Edge.c_span k = span).
Proof.
  intros _ Hm Htok Hne Hsp Hv Hpol Hbud Hcall. unfold client_call in Hcall. rewrite Hbud in Hcall. cbn [mbind result_bind] in Hcall.
  rewrite Htok in Hcall. unfold prepare in Hcall. cbn [mbind result_bind] in Hcall. injection Hcall as <-.
  set (shared := sharedBudget c now budget). set (md := traced _ _).
  assert (hasVerifiedClientCertificate (delivered (with_outgoing md shared)) = true) as Hpeer by done.
  assert (authenticate verify (delivered (with_outgoing md shared)) now (sp_Verifier p) = Ok id) as Hau.
  { apply authenticate_spec. exists ("Bearer " +:+ token), "Bearer", token. split.
    - unfold incoming_values. cbn [delivered x_incoming with_outgoing x_outgoing]. unfold md.
      by rewrite traced_authorization, md_same.
    - split; [by apply bearer_cut|]. split; [done|]. by rewrite trim_space_id. }
  pose proof (budget_deadline c now budget) as Hd. fold shared in Hd.
  set (d := match x_deadline c with Some d => Z.min d (now + budget) | None => now + budget end) in *.
  pose proof (guarded_fields (option_map (fun span => Edge.WithCarrier span (incomingTraceState (delivered (with_outgoing md shared))))
    (TraceParentFrom (delivered (with_outgoing md shared)))) now (sp_limit p) d id (delivered (with_outgoing md shared)) Hd) as (G1 & G2 & _).
  eexists _, _. split; [apply admit_spec; [done|]; by exists id, d|].
  split; [destruct (TraceParentFrom _); exact G2|]. split; [destruct (TraceParentFrom _); exact G1|].
  split; [lia|]. split; [unfold d; destruct (x_deadline c); lia|]. split; [intros own E; unfold d; rewrite E; lia|].
  intros span state Hc Hw. assert (TraceParentFrom (delivered (with_outgoing md shared)) = Some span) as Ht.
  { unfold TraceParentFrom, incoming_values. cbn [delivered x_incoming with_outgoing x_outgoing x_carrier Edge.FromContext].
    unfold md. rewrite (traced_parent _ _ span state); [cbn [from_option]; unfold Datatypes.id; by rewrite parse_span_string|].
    unfold shared. by rewrite (proj2 (proj2 (budget_rest c now budget))). }
  rewrite Ht. eexists. split; [by destruct (_ <=? _)|done].
Qed.

(** ** Samples *)
Definition sample_config : ServerConfig :=
  {| sc_Verifier := Some {| v_issuer := "i"; v_audience := "a"; v_keys := fun _ => Err ErrKeyUnknown;
       v_merchant := MerchantForbidden; v_algorithms := ∅; v_merchantClaim := "m"; v_scopeClaim := "s"; v_leeway := 0 |};
     sc_Policy := Some InternalGRPCPolicy;
     sc_Tenants := Some (AuthorizeTenant (NewStaticTenantDelegations [("c", ["m1"; " m2 "])]));
     sc_RequireMTLS := true; sc_RequireDeadline := true; sc_MaxDeadline := 0; sc_MaxRecvMsgBytes := 0; sc_MaxSendMsgBytes := 0 |}.
Definition sample_service (_ : Verifier) (_ : Z) (token : string) : result Identity :=
  if String.eqb token "jwt" then Ok (sample_identity "" "ledger:internal:read") else Err ErrTokenMalformed.
Definition sample_client : ClientConfig := {| cc_Tokens := Some (Ok "jwt"); cc_Deadline := 0 |}.
Definition fresh_ctx : call_ctx :=
  {| x_peer := None; x_deadline := None; x_incoming := None; x_outgoing := None; x_carrier := None; x_identity := None |}.
Definition sample_call : call_ctx := match client_call sample_client fresh_ctx 0 with Ok c => delivered c | Err _ => fresh_ctx end.
Definition sample_policy : server_policy :=
  match ServerOptions sample_config with
  | Ok (_, p) => p
  | Err _ => {| sp_Verifier := {| v_issuer := ""; v_audience := ""; v_keys := fun _ => Err ErrKeyUnknown;
       v_merchant := MerchantForbidden; v_algorithms := ∅; v_merchantClaim := ""; v_scopeClaim := ""; v_leeway := 0 |};
       sp_Policy := ∅; sp_Tenants := fun _ _ _ => Err ErrKeyUnknown; sp_limit := 0 |}
  end.
(** A handler that counts its calls. *)
Definition counting (_ : call_ctx) (_ : message) (n : nat) : reply nat * nat := (Reply n, S n).
Definition ask (m : string) : message := {| merchant_id := Some m; body := "" |}.

Lemma internal_call_guarded_witness :
  snd (unary sample_service sample_policy OperationGetWatermark sample_call 0 (ask "m2") counting 0%nat) = 1%nat /\
  snd (unary sample_service sample_policy OperationGetWatermark sample_call 0 (ask "m3") counting 0%nat) = 0%nat /\
  ((exists id guarded, admitted sample_service sample_policy OperationGetWatermark sample_call 0 (ask "m2") id guarded /\
      unary sample_service sample_policy OperationGetWatermark sample_call 0 (ask "m2") counting 0%nat =
        counting guarded (ask "m2") 0%nat) \/
   ((exists st, unary sample_service sample_policy OperationGetWatermark sample_call 0 (ask "m2") counting 0%nat = (Refused st, 0%nat)) /\
    forall id guarded, ~ admitted sample_service sample_policy OperationGetWatermark sample_call 0 (ask "m2") id guarded)).
Proof.
  split; [vm_compute; reflexivity|]. split; [vm_compute; reflexivity|].
  exact (proj1 (proj2 (internal_call_guarded sample_service sample_config (4194304, 4194304) sample_policy OperationGetWatermark
    sample_call 0 (ask "m2") counting 0%nat eq_refl eq_refl))).
Defined.

Lemma prepared_call_admitted_witness :
  exists guarded d, admit_call sample_service sample_call 0 sample_policy OperationGetWatermark = Reply guarded /\
    x_deadline guarded = Some d /\ d <= 5 * second.
Proof.
  destruct (prepared_call_admitted sample_service sample_config (4194304, 4194304) sample_policy sample_client "jwt" fresh_ctx 0
    OperationGetWatermark (sample_identity "" "ledger:internal:read") (5 * second)
    (match client_call sample_client fresh_ctx 0 with Ok c => c | Err _ => fresh_ctx end)
    eq_refl eq_refl eq_refl ltac:(discriminate) eq_refl eq_refl ltac:(vm_compute; reflexivity) eq_refl eq_refl)
    as (guarded & d & H1 & _ & H2 & H3 & H4 & _).
  exists guarded, d. split; [exact H1|]. split; [exact H2|exact H4].
Defined.
