(* ===== verification/Jwks.v ===== *)
(** * The signing-key cache

    internal/platform/auth/jwks.go: the keys of a JWKS document, and the cache
    that concurrent requests share.  A request runs as a thread whose steps
    are the places where it touches the cache or blocks; a refresh is in
    flight between the claim and its completion, in the foreground of the
    request that claimed it or in a goroutine of its own.

    [quoted] is the %q text of a key id.  An instant of the cache is [None]
    while it is the zero time. *)

From S2P Require Import Prelude.
From S2P Require Import GoStrings.
From S2P Require Import GoTime.
From S2P Require Import Json.
From S2P Require Import Cursor.
From S2P Require Import Auth.
From Stdlib Require String.
From Stdlib Require Import ZArith Lia Ascii.
Open Scope string_scope.
Open Scope Z_scope.

Definition minute : Z := 60 * second.
Definition defaultJWKSRefreshInterval : Z := 15 * minute.
Definition defaultJWKSMinInterval : Z := 30 * second.
Definition defaultJWKSStaleTolerance : Z := 30 * minute.
Definition maxJWKSBytes : Z := 1048576.

(** ** The keys of a document *)

(** big.Int.SetBytes *)
Fixpoint set_bytes (acc : Z) (s : string) : Z :=
  match s with "" => acc | String c s' => set_bytes (acc * 256 + code c) s' end.

Definition rsaKeyFromJWK (modulus exponent : string) : result public_key :=
  match b64_decode modulus, b64_decode exponent with
  | None, _ | _, None => Err (EMsg "illegal base64 data")
  | Some modulusBytes, Some exponentBytes =>
      if (slen exponentBytes =? 0) || (8 <? slen exponentBytes) then Err (EMsg "auth: unusable RSA exponent")
      else
        let n := set_bytes 0 modulusBytes in
        let e := wrap64 (set_bytes 0 exponentBytes) in
        if e <? 3 then Err (EMsg "auth: unusable RSA exponent")
        else if bit_length n <? minRSAModulusBits then Err (EMsg "auth: RSA modulus is below the minimum")
        else Ok (RSAKey n e)
  end.

Record jwk : Type := {
  KeyType : string; jk_KeyID : string; Use : string; jk_Algorithm : string; Modulus : string; Exponent : string }.
Definition unmarshal_jwk (j : json) : result jwk :=
  f ← object_fields j;
  kty ← dec_string (jfield "kty" f); kid ← dec_string (jfield "kid" f); use ← dec_string (jfield "use" f);
  alg ← dec_string (jfield "alg" f); n ← dec_string (jfield "n" f); e ← dec_string (jfield "e" f);
  Ok {| KeyType := kty; jk_KeyID := kid; Use := use; jk_Algorithm := alg; Modulus := n; Exponent := e |}.
Fixpoint unmarshal_jwks (items : list json) : result (list jwk) :=
  match items with
  | [] => Ok []
  | j :: rest => k ← unmarshal_jwk j; ks ← unmarshal_jwks rest; Ok (k :: ks)
  end.
Definition unmarshal_document (j : json) : result (list jwk) :=
  f ← object_fields j;
  match jfield "keys" f with
  | None | Some JNull => Ok []
  | Some (JArr items) => unmarshal_jwks items
  | Some _ => bad_json
  end.

(** The entries the loop of [fetch] keeps. *)
Definition usable (k : jwk) : bool :=
  String.eqb (KeyType k) "RSA" && negb (String.eqb (jk_KeyID k) "") &&
  (String.eqb (Use k) "" || String.eqb (Use k) "sig") &&
  (String.eqb (jk_Algorithm k) "" || match supportedAlgorithms (jk_Algorithm k) with Some _ => true | None => false end).
Notation key_set := (gmap string public_key).
Definition add_key (keys : key_set) (k : jwk) : key_set :=
  if usable k then match rsaKeyFromJWK (Modulus k) (Exponent k) with
                   | Ok key => <[jk_KeyID k := key]> keys
                   | Err _ => keys
                   end
  else keys.

Section Fetch.
Context (json_parse : string -> result json).

(** [fetch]: the response is the transport's failure, or a status and a body
    whose reading may fail; at most [maxJWKSBytes] of it are read. *)
Definition fetch (response : result (Z * result string)) : result key_set :=
  r ← response;
  if negb (fst r =? 200) then Err (EMsg "auth: JWKS endpoint returned another status")
  else
    body ← snd r;
    match (j ← json_parse (String.substring 0 (Z.to_nat maxJWKSBytes) body); unmarshal_document j) with
    | Err e => Err (EWrap "auth: decode JWKS" e)
    | Ok document =>
        let keys := fold_left add_key document ∅ in
        if bool_decide (keys = ∅) then Err (EMsg "auth: JWKS document published no usable RSA signing key") else Ok keys
    end.
End Fetch.

(** ** The cache *)
Record jwks_config : Type := { refreshInterval : Z; minInterval : Z; staleTolerance : Z }.
Definition NewJWKSCache (endpoint : string) (refresh min stale : Z) : result jwks_config :=
  if String.eqb endpoint "" then Err (EMsg "auth: JWKS endpoint is required")
  else Ok {| refreshInterval := if refresh =? 0 then defaultJWKSRefreshInterval else refresh;
             minInterval := if min =? 0 then defaultJWKSMinInterval else min;
             staleTolerance := if stale =? 0 then defaultJWKSStaleTolerance else stale |}.

(** [refreshDone] names the channel of the refresh in flight. *)
Record cache : Type := {
  keys : key_set; fetchedAt : option Z; lastAttempt : option Z; refreshDone : option nat; lastRefreshError : option error }.
Definition empty_cache : cache :=
  {| keys := ∅; fetchedAt := None; lastAttempt := None; refreshDone := None; lastRefreshError := None |}.

(** Where a call of [VerificationKey] stands. *)
Inductive place : Type :=
  | Begin
  | AtClock (now : Z)
  | Claiming (now : Z) (background : option public_key)
  | Waiting (done : nat)
  | Fetching (now : Z) (done : nat)
  | Reading (now : Z)
  | Returned (now : Z) (r : result public_key).

Section Cache.
Context (json_parse : string -> result json) (quoted : string -> string) (cfg : jwks_config).

Definition fresh (now : Z) (c : cache) : bool :=
  match fetchedAt c with Some t => now - t <? refreshInterval cfg | None => false end.
Definition withinStale (now : Z) (c : cache) : bool :=
  match fetchedAt c with Some t => now - t <=? refreshInterval cfg + staleTolerance cfg | None => false end.
Definition refreshDue (now : Z) (c : cache) : bool :=
  match lastAttempt c with Some t => minInterval cfg <=? now - t | None => true end.

Definition unserved (known : bool) (keyID : string) : error :=
  if known then EMsg "auth: cached JWKS exceeded its stale tolerance"
  else EMsg ("auth: key id " +:+ quoted keyID +:+ " is unknown and refresh is rate limited").

(** One pass of the loop, from the snapshot to its next blocking point. *)
Definition decide_pass (now : Z) (keyID : string) (c : cache) : place :=
  let slow (known : bool) :=
    match refreshDone c with
    | Some done => Waiting done
    | None => if negb (refreshDue now c) then Returned now (Err (unserved known keyID)) else Claiming now None
    end in
  match keys c !! keyID with
  | Some key =>
      if fresh now c then Returned now (Ok key)
      else if withinStale now c then
        match refreshDone c with
        | None => if refreshDue now c then Claiming now (Some key) else Returned now (Ok key)
        | Some _ => Returned now (Ok key)
        end
      else slow true
  | None => slow false
  end.

(** The end of a call that refreshed in the foreground. *)
Definition read_result (keyID : string) (c : cache) : result public_key :=
  match lastRefreshError c with
  | Some e => Err (EWrap "auth: refresh JWKS" e)
  | None => match keys c !! keyID with
            | Some key => Ok key
            | None => Err (EMsg ("auth: key id " +:+ quoted keyID +:+ " is not published by the identity provider"))
            end
  end.

Definition claimed (now : Z) (done : nat) (c : cache) : cache :=
  {| keys := keys c; fetchedAt := fetchedAt c; lastAttempt := Some now; refreshDone := Some done;
     lastRefreshError := lastRefreshError c |}.
Definition refreshed (now : Z) (done : nat) (outcome : result key_set) (c : cache) : cache :=
  {| keys := match outcome with Ok ks => ks | Err _ => keys c end;
     fetchedAt := match outcome with Ok _ => Some now | Err _ => fetchedAt c end;
     lastAttempt := lastAttempt c;
     refreshDone := if bool_decide (refreshDone c = Some done) then None else refreshDone c;
     lastRefreshError := match outcome with Ok _ => None | Err e => Some e end |}.

(** ** Concurrent requests *)

(** A refresh in flight: whose it is, the clock reading it was claimed with and
    when its fetch began. *)
Record flight : Type := { f_owner : option nat; f_now : Z; f_began : Z }.
Record world : Type := {
  w_cache : cache; w_threads : gmap nat (string * place); w_flights : gmap nat flight; w_next : nat; w_clock : Z;
  (** every document fetched, with the instant its fetch began *)
  w_log : list (Z * key_set);
  (** every claim, with its instant *)
  w_claims : list Z }.
Definition start_world : world :=
  {| w_cache := empty_cache; w_threads := ∅; w_flights := ∅; w_next := 0; w_clock := 0; w_log := []; w_claims := [] |}.

Definition set_thread (i : nat) (kid : string) (p : place) (w : world) : world :=
  {| w_cache := w_cache w; w_threads := <[i := (kid, p)]> (w_threads w); w_flights := w_flights w; w_next := w_next w;
     w_clock := w_clock w; w_log := w_log w; w_claims := w_claims w |}.
Definition pass_time (d : Z) (w : world) : world :=
  {| w_cache := w_cache w; w_threads := w_threads w; w_flights := w_flights w; w_next := w_next w;
     w_clock := w_clock w + d; w_log := w_log w; w_claims := w_claims w |}.

(** [claimRefresh] and what its caller does with the answer. *)
Definition claim_step (i : nat) (kid : string) (now : Z) (background : option public_key) (w : world) : world :=
  match refreshDone (w_cache w) with
  | Some _ => set_thread i kid (match background with Some key => Returned now (Ok key) | None => Begin end) w
  | None =>
      let done := w_next w in
      let owner := match background with Some _ => None | None => Some i end in
      {| w_cache := claimed now done (w_cache w);
         w_threads := <[i := (kid, match background with Some key => Returned now (Ok key) | None => Fetching now done end)]>
                        (w_threads w);
         w_flights := <[done := {| f_owner := owner; f_now := now; f_began := w_clock w |}]> (w_flights w);
         w_next := S done; w_clock := w_clock w; w_log := w_log w; w_claims := (w_claims w ++ [w_clock w])%list |}
  end.

(** [refresh] once its fetch has an outcome; the owner goes on to read. *)
Definition finish_step (done : nat) (f : flight) (outcome : result key_set) (w : world) : world :=
  {| w_cache := refreshed (f_now f) done outcome (w_cache w);
     w_threads := match f_owner f with
                  | Some i => match w_threads w !! i with
                              | Some (kid, _) => <[i := (kid, Reading (f_now f))]> (w_threads w)
                              | None => w_threads w
                              end
                  | None => w_threads w
                  end;
     w_flights := base.delete done (w_flights w); w_next := w_next w; w_clock := w_clock w;
     w_log := match outcome with Ok ks => (w_log w ++ [(f_began f, ks)])%list | Err _ => w_log w end;
     w_claims := w_claims w |}.

Inductive jstep (w : world) : world -> Prop :=
  | js_request i kid : w_threads w !! i = None -> jstep w (set_thread i kid Begin w)
  | js_time d : 0 <= d -> jstep w (pass_time d w)
  | js_clock i kid : w_threads w !! i = Some (kid, Begin) -> jstep w (set_thread i kid (AtClock (w_clock w)) w)
  | js_snapshot i kid now : w_threads w !! i = Some (kid, AtClock now) ->
      jstep w (set_thread i kid (decide_pass now kid (w_cache w)) w)
  | js_claim i kid now background : w_threads w !! i = Some (kid, Claiming now background) ->
      jstep w (claim_step i kid now background w)
  | js_wake i kid done : w_threads w !! i = Some (kid, Waiting done) -> refreshDone (w_cache w) <> Some done ->
      jstep w (set_thread i kid Begin w)
  | js_cancel i kid done e : w_threads w !! i = Some (kid, Waiting done) ->
      jstep w (set_thread i kid (Returned (w_clock w) (Err e)) w)
  | js_finish done f response : w_flights w !! done = Some f ->
      jstep w (finish_step done f (fetch json_parse response) w)
  | js_read i kid now : w_threads w !! i = Some (kid, Reading now) ->
      jstep w (set_thread i kid (Returned now (read_result kid (w_cache w))) w).
End Cache.

(** ** The invariant *)

(** What a fetched set holds. *)
Definition signing_key (key : public_key) : Prop :=
  exists n e, key = RSAKey n e /\ minRSAModulusBits <= bit_length n /\ 3 <= e <= int64_max.

Lemma rsaKeyFromJWK_ok n e key : rsaKeyFromJWK n e = Ok key -> signing_key key.
Proof.
  unfold rsaKeyFromJWK. repeat case_goal; try done. intros [= <-]. bool_to_prop.
  eexists _, _. split; [done|]. split; [done|]. pose proof (wrap64_range (set_bytes 0 s0)). lia.
Qed.

Lemma add_key_ok ks k kid key : (forall i x, ks !! i = Some x -> i <> "" /\ signing_key x) ->
  add_key ks k !! kid = Some key -> kid <> "" /\ signing_key key.
Proof.
  intros H. unfold add_key. destruct (usable k) eqn:Eu; [|apply H].
  destruct (rsaKeyFromJWK _ _) as [x|] eqn:Ek; [|apply H]. destruct (decide (jk_KeyID k = kid)) as [<- | Hn].
  - rewrite lookup_insert_eq. intros [= <-]. split; [|by eapply rsaKeyFromJWK_ok].
    unfold usable in Eu. bool_to_prop. done.
  - rewrite lookup_insert_ne by done. apply H.
Qed.

Lemma fetch_ok json_parse response ks : fetch json_parse response = Ok ks ->
  ks <> ∅ /\ forall kid key, ks !! kid = Some key -> kid <> "" /\ signing_key key.
Proof.
  unfold fetch. destruct response as [[st body]|]; [|done]. cbn [mbind result_bind fst snd]. destruct (negb _); [done|].
  destruct body as [text|]; [|done]. cbn [mbind result_bind]. destruct (j ← json_parse _; unmarshal_document j) as [doc|]; [|done].
  case_bool_decide as He; [done|]. intros [= <-]. split; [done|]. clear He.
  assert (forall acc, (forall i x, acc !! i = Some x -> i <> "" /\ signing_key x) ->
    forall kid key, fold_left add_key doc acc !! kid = Some key -> kid <> "" /\ signing_key key) as H.
  { induction doc as [|k doc IH]; intros acc Ha; [exact Ha|]. cbn [fold_left]. apply IH. intros i x. by apply add_key_ok. }
  apply H. intros i x Hx. by rewrite lookup_empty in Hx.
Qed.

(** *** What a document publishes

    Said of the JSON itself: an item is an object with a key id, of type RSA,
    for signing with an algorithm the verifier knows or for no stated use, whose
    modulus and exponent are base64url of numbers of the accepted size. *)
Definition member (name : string) (f : list (string * json)) : string :=
  match jfield name f with Some (JStr s) => s | _ => "" end.
Definition publishes (item : json) (kid : string) (key : public_key) : Prop :=
  exists f n e, item = JObj f /\ member "kid" f = kid /\ kid <> "" /\ member "kty" f = "RSA" /\
    member "use" f ∈ [""; "sig"] /\ member "alg" f ∈ [""; "RS256"; "RS384"; "RS512"] /\
    b64_decode (member "n" f) = Some n /\ b64_decode (member "e" f) = Some e /\ 1 <= slen e <= 8 /\
    3 <= wrap64 (set_bytes 0 e) /\ minRSAModulusBits <= bit_length (set_bytes 0 n) /\
    key = RSAKey (set_bytes 0 n) (wrap64 (set_bytes 0 e)).

(** Of the items with one key id that publish a key, the last. *)
Definition last_published (items : list json) (kid : string) (key : public_key) : Prop :=
  exists before item after, items = (before ++ item :: after)%list /\ publishes item kid key /\
    forall x key', x ∈ after -> ~ publishes x kid key'.

Lemma last_published_snoc items x kid key : last_published (items ++ [x]) kid key <->
  publishes x kid key \/ (last_published items kid key /\ forall key', ~ publishes x kid key').
Proof.
  split.
  - intros (before & item & after & E & Hp & Ha). destruct after as [|y after _] using rev_ind.
    + apply app_inj_tail in E as [-> ->]. by left.
    + right. rewrite app_comm_cons, app_assoc in E. apply app_inj_tail in E as [-> ->]. split.
      * exists before, item, after. split; [done|]. split; [done|]. intros z k Hz. apply Ha, elem_of_app. by left.
      * intros k. apply Ha, elem_of_app. right. by left.
  - intros [Hp|[(before & item & after & -> & Hp & Ha) Hx]].
    + exists items, x, []. split; [done|]. split; [done|]. by intros ? ? ?%elem_of_nil.
    + exists before, item, (after ++ [x])%list. split; [by rewrite <- app_assoc|]. split; [done|].
      intros z k [Hz|Hz%list_elem_of_singleton]%elem_of_app; [by apply Ha|subst; apply Hx].
Qed.

Lemma publishes_fun item kid key key' : publishes item kid key -> publishes item kid key' -> key = key'.
Proof. intros (f & n & e & -> & H) (f' & n' & e' & [= <-] & H'). destruct_and?. congruence. Qed.

Lemma rsaKeyFromJWK_iff modulus exponent key : rsaKeyFromJWK modulus exponent = Ok key <->
  exists n e, b64_decode modulus = Some n /\ b64_decode exponent = Some e /\ 1 <= slen e <= 8 /\
    3 <= wrap64 (set_bytes 0 e) /\ minRSAModulusBits <= bit_length (set_bytes 0 n) /\
    key = RSAKey (set_bytes 0 n) (wrap64 (set_bytes 0 e)).
Proof.
  unfold rsaKeyFromJWK. split.
  - destruct (b64_decode modulus) as [n|], (b64_decode exponent) as [e|]; try done. repeat case_goal; try done.
    intros [= <-]. bool_to_prop. exists n, e. unfold slen in *. splits; done || lia.
  - intros (n & e & -> & -> & H1 & H2 & H3 & ->).
    rewrite (proj2 (Z.eqb_neq _ _)), (proj2 (Z.ltb_ge _ _)) by lia. cbn [orb]. cbv zeta.
    by rewrite !(proj2 (Z.ltb_ge _ _)) by lia.
Qed.

Lemma usable_iff k : usable k = true <-> KeyType k = "RSA" /\ jk_KeyID k <> "" /\ Use k ∈ [""; "sig"] /\
  jk_Algorithm k ∈ [""; "RS256"; "RS384"; "RS512"].
Proof.
  unfold usable, supportedAlgorithms. rewrite !andb_true_iff, !orb_true_iff, negb_true_iff, !String.eqb_eq, String.eqb_neq.
  rewrite !elem_of_cons, !elem_of_nil.
  destruct (String.eqb_spec (jk_Algorithm k) "RS256"), (String.eqb_spec (jk_Algorithm k) "RS384"),
    (String.eqb_spec (jk_Algorithm k) "RS512"); naive_solver.
Qed.

Lemma dec_member name f s : dec_string (jfield name f) = Ok s -> member name f = s.
Proof. unfold dec_string, member. destruct (jfield name f) as [[]|]; intros [= <-]; done. Qed.

Lemma publishes_iff item k kid key : unmarshal_jwk item = Ok k ->
  publishes item kid key <-> usable k = true /\ jk_KeyID k = kid /\ rsaKeyFromJWK (Modulus k) (Exponent k) = Ok key.
Proof.
  unfold unmarshal_jwk. intros H. rewrite usable_iff, rsaKeyFromJWK_iff.
  destruct (object_fields item) as [f|] eqn:Ef; [|done]. cbn [mbind result_bind] in H.
  let next x := (let s := fresh "s" in let E := fresh "E" in destruct (dec_string (jfield x f)) as [s|] eqn:E;
    cbn [mbind result_bind] in H; [apply dec_member in E|discriminate H]) in
  next "kty"; next "kid"; next "use"; next "alg"; next "n"; next "e".
  injection H as <-.
  cbn [KeyType jk_KeyID Use jk_Algorithm Modulus Exponent]. subst. unfold publishes. split.
  - intros (f' & n & e & -> & H). cbn in Ef. injection Ef as ->. destruct_and?. subst. splits; try done. exists n, e. by splits.
  - intros ((H1 & H2 & H3 & H4) & <- & n & e & H). destruct item; try done.
    + injection Ef as <-. done.
    + injection Ef as ->. exists f, n, e. destruct_and?. by splits.
Qed.

Lemma fold_published items : forall doc kid key, unmarshal_jwks items = Ok doc ->
  fold_left add_key doc ∅ !! kid = Some key <-> last_published items kid key.
Proof.
  intros doc kid key H. assert (Forall2 (fun j k => unmarshal_jwk j = Ok k) items doc) as HF.
  { revert doc H. induction items as [|j items IH]; intros doc H; cbn in H; [injection H as <-; constructor|].
    destruct (unmarshal_jwk j) as [k|] eqn:Ek; [|done]. cbn [mbind result_bind] in H.
    destruct (unmarshal_jwks items); [|done]. injection H as <-. constructor; [done|by apply IH]. }
  clear H. revert doc HF. induction items as [|j items IH] using rev_ind; intros doc HF.
  - apply Forall2_nil_inv_l in HF as ->. cbn. rewrite lookup_empty. split; [done|].
    intros (before & item & after & E & _). by destruct before.
  - apply Forall2_app_inv_l in HF as (doc' & kl & HF & Hk & ->). apply Forall2_cons_inv_l in Hk as (k & nl & Hk & Hn & ->).
    apply Forall2_nil_inv_l in Hn as ->. rewrite fold_left_app, last_published_snoc, <- (IH doc' HF). cbn [fold_left].
    pose proof (fun key => publishes_iff j k kid key Hk) as Hp. unfold add_key.
    destruct (usable k) eqn:Eu; [|rewrite Hp; naive_solver].
    destruct (rsaKeyFromJWK (Modulus k) (Exponent k)) as [x|] eqn:Ex; [|rewrite Hp; naive_solver].
    destruct (decide (jk_KeyID k = kid)) as [<- | Hne].
    + rewrite lookup_insert_eq, Hp. split; [intros [= <-]; by left|]. intros [(_ & _ & [= <-])|[_ Hx]]; [done|].
      destruct (Hx x). by apply Hp.
    + rewrite lookup_insert_ne, Hp by done. naive_solver.
Qed.

(** A set that was fetched is what the body of a 200 answer publishes. *)
Lemma fetch_published json_parse response ks : fetch json_parse response = Ok ks ->
  exists body f items, response = Ok (200, Ok body) /\
    json_parse (String.substring 0 (Z.to_nat maxJWKSBytes) body) = Ok (JObj f) /\ jfield "keys" f = Some (JArr items) /\
    forall kid key, ks !! kid = Some key <-> last_published items kid key.
Proof.
  unfold fetch. destruct response as [[st body]|]; [|done]. cbn [mbind result_bind fst snd].
  destruct (Z.eqb_spec st 200) as [-> |]; [|done]. cbn [negb]. destruct body as [text|]; [|done]. cbn [mbind result_bind].
  destruct (json_parse _) as [j|] eqn:Ej; [|done]. cbn [mbind result_bind].
  destruct (unmarshal_document j) as [doc|] eqn:Ed; [|done]. case_bool_decide as He; [done|]. intros [= <-].
  unfold unmarshal_document in Ed. destruct (object_fields j) as [f|] eqn:Ef; [|done]. cbn [mbind result_bind] in Ed.
  destruct (jfield "keys" f) as [[]|] eqn:Ek; try (by injection Ed as <-); try done.
  exists text, f, items. split; [done|]. split; [|split; [done|intros kid key; by apply fold_published]].
  rewrite Ej. destruct j; cbn in Ef; try done; injection Ef as <-; done.
Qed.

Section Invariant.
Context (json_parse : string -> result json) (quoted : string -> string) (cfg : jwks_config).
Context (Hrefresh : 0 <= refreshInterval cfg) (Hstale : 0 <= staleTolerance cfg).

(** A key a document published, fetched no longer ago than the two intervals. *)
Definition justified (log : list (Z * key_set)) (kid : string) (now : Z) (key : public_key) : Prop :=
  exists f ks, (f, ks) ∈ log /\ ks !! kid = Some key /\ now - f <= refreshInterval cfg + staleTolerance cfg.

Definition place_ok (log : list (Z * key_set)) (clk : Z) (kid : string) (p : place) : Prop :=
  match p with
  | Begin | Waiting _ => True
  | AtClock now | Fetching now _ | Reading now | Claiming now None => now <= clk
  | Claiming now (Some key) => now <= clk /\ justified log kid now key
  | Returned now (Ok key) => justified log kid now key
  | Returned _ (Err _) => True
  end.

Definition readers_before (threads : gmap nat (string * place)) (bound : Z) : Prop :=
  forall i kid now, threads !! i = Some (kid, Reading now) -> now <= bound.

Record jinv (w : world) : Prop := {
  ji_flight : match refreshDone (w_cache w) with
    | None => w_flights w = ∅
    | Some done => exists fl, w_flights w = {[done := fl]} /\ f_now fl <= f_began fl <= w_clock w /\
        readers_before (w_threads w) (f_began fl) /\
        forall i, f_owner fl = Some i -> exists kid, w_threads w !! i = Some (kid, Fetching (f_now fl) done)
    end;
  ji_keys : match fetchedAt (w_cache w) with
    | None => keys (w_cache w) = ∅ /\ (lastRefreshError (w_cache w) = None -> forall i kid now,
        w_threads w !! i <> Some (kid, Reading now))
    | Some t => exists f, (f, keys (w_cache w)) ∈ w_log w /\ t <= f /\
        (lastRefreshError (w_cache w) = None -> readers_before (w_threads w) f)
    end;
  ji_places : forall i kid p, w_threads w !! i = Some (kid, p) -> place_ok (w_log w) (w_clock w) kid p;
  ji_log : forall f ks, (f, ks) ∈ w_log w -> exists response, fetch json_parse response = Ok ks }.

Lemma justified_grows log log' kid now key : (forall x, x ∈ log -> x ∈ log') -> justified log kid now key -> justified log' kid now key.
Proof. intros H (f & ks & Hin & Hrest). exists f, ks. split; [by apply H|done]. Qed.

Lemma place_ok_grows log log' clk clk' kid p : (forall x, x ∈ log -> x ∈ log') -> clk <= clk' ->
  place_ok log clk kid p -> place_ok log' clk' kid p.
Proof.
  intros Hl Hc. destruct p as [|now|now [key|]|d|now d|now|now [key|e]]; cbn; try done; try lia.
  - intros [Hn Hj]. split; [lia|by eapply justified_grows].
  - by apply justified_grows.
Qed.

Definition not_fetching (p : place) : Prop := match p with Fetching _ _ => False | _ => True end.
Definition not_reading (p : place) : Prop := match p with Reading _ => False | _ => True end.

Lemma readers_set threads i kid p bound : not_reading p -> readers_before threads bound ->
  readers_before (<[i := (kid, p)]> threads) bound.
Proof.
  intros Hp H j k now. destruct (decide (i = j)) as [<- | Hn].
  - rewrite lookup_insert_eq. by intros [= -> ->].
  - rewrite lookup_insert_ne by done. apply H.
Qed.

(** A thread outside a refresh moves on. *)
Lemma inv_set w i kid p : jinv w ->
  match w_threads w !! i with Some (_, q) => not_fetching q | None => True end ->
  not_reading p -> place_ok (w_log w) (w_clock w) kid p -> jinv (set_thread i kid p w).
Proof.
  intros [H1 H2 H3 H4] Hq Hp Hok. split; cbn [set_thread w_cache w_threads w_flights w_clock w_log]; [..|done].
  - destruct (refreshDone (w_cache w)) as [d|]; [|done]. destruct H1 as (fl & F1 & F2 & F3 & F4).
    exists fl. split; [done|]. split; [done|]. split; [by apply readers_set|]. intros j Hj. destruct (F4 j Hj) as [k Hk].
    exists k. rewrite lookup_insert_ne; [done|]. intros ->. by rewrite Hk in Hq.
  - destruct (fetchedAt (w_cache w)) as [t|].
    + destruct H2 as (f & F1 & F2 & F3). exists f. split; [done|]. split; [done|]. intros He. by apply readers_set, F3.
    + destruct H2 as [E F]. split; [done|]. intros He j k now. destruct (decide (i = j)) as [<- | Hn].
      * rewrite lookup_insert_eq. by intros [= -> ->].
      * rewrite lookup_insert_ne by done. by apply F.
  - intros j k q. destruct (decide (i = j)) as [<- | Hn].
    + rewrite lookup_insert_eq. by intros [= <- <-].
    + rewrite lookup_insert_ne by done. apply H3.
Qed.

Lemma decide_ok w now kid : jinv w -> now <= w_clock w ->
  let p := decide_pass quoted cfg now kid (w_cache w) in
  not_reading p /\ place_ok (w_log w) (w_clock w) kid p.
Proof.
  intros [_ H2 _ _] Hn. cbn zeta. unfold decide_pass.
  destruct (keys (w_cache w) !! kid) as [key|] eqn:Ek.
  - assert (withinStale cfg now (w_cache w) = true \/ fresh cfg now (w_cache w) = true -> justified (w_log w) kid now key) as Hj.
    { unfold withinStale, fresh. destruct (fetchedAt (w_cache w)) as [t|]; [|naive_solver].
      destruct H2 as (f & F1 & F2 & _). intros Ht. exists f, (keys (w_cache w)). split; [done|]. split; [done|].
      rewrite Z.leb_le, Z.ltb_lt in Ht. lia. }
    destruct (fresh _ _ _) eqn:Ef; [split; [done|apply Hj; by right]|]. destruct (withinStale _ _ _) eqn:Es.
    + specialize (Hj (or_introl eq_refl)). destruct (refreshDone (w_cache w)); [done|]. by destruct (refreshDue _ _ _).
    + destruct (refreshDone (w_cache w)); [done|]. by destruct (refreshDue _ _ _).
  - destruct (refreshDone (w_cache w)); [done|]. by destruct (refreshDue _ _ _).
Qed.

Lemma read_ok_place w i kid now : jinv w -> w_threads w !! i = Some (kid, Reading now) ->
  place_ok (w_log w) (w_clock w) kid (Returned now (read_result quoted kid (w_cache w))).
Proof.
  intros [_ H2 _ _] Hi. cbn. unfold read_result. destruct (lastRefreshError (w_cache w)); [done|].
  destruct (keys (w_cache w) !! kid) as [key|] eqn:Ek; [|done].
  destruct (fetchedAt (w_cache w)) as [t|]; [|by destruct H2 as [E _]; rewrite E in Ek].
  destruct H2 as (f & F1 & _ & F3). exists f, (keys (w_cache w)). split; [done|]. split; [done|].
  specialize (F3 eq_refl i kid now Hi). lia.
Qed.

Lemma inv_claim w i kid now background : jinv w -> w_threads w !! i = Some (kid, Claiming now background) ->
  jinv (claim_step i kid now background w).
Proof.
  intros Hi Ht. pose proof (ji_places _ Hi _ _ _ Ht) as Hp. unfold claim_step.
  assert (now <= w_clock w /\ (forall key, background = Some key -> justified (w_log w) kid now key)) as [Hn Hj].
  { destruct background as [key|]; cbn in Hp; [|done]. destruct Hp. split; [done|]. by intros ? [= <-]. }
  destruct (refreshDone (w_cache w)) as [d|] eqn:Ed.
  - apply inv_set; [done|by rewrite Ht|by destruct background|destruct background; cbn; auto].
  - destruct Hi as [H1 H2 H3 H4]. rewrite Ed in H1.
    set (p := match background with Some key => Returned now (Ok key) | None => Fetching now (w_next w) end).
    assert (not_reading p) as Hnr by (unfold p; by destruct background).
    split; cbn [w_cache w_threads w_flights w_clock w_log claimed refreshDone fetchedAt keys lastRefreshError]; [..|done].
    + eexists. split; [by rewrite H1|]. cbn [f_now f_began f_owner]. split; [lia|]. split.
      * apply readers_set; [done|]. intros j k x Hx. by apply (H3 j k (Reading x)).
      * intros j Ej. exists kid. unfold p. destruct background; [done|]. injection Ej as <-. by rewrite lookup_insert_eq.
    + destruct (fetchedAt (w_cache w)) as [t|].
      * destruct H2 as (f & F1 & F2 & F3). exists f. split; [done|]. split; [done|]. intros He. by apply readers_set, F3.
      * destruct H2 as [E F]. split; [done|]. intros He j k x. destruct (decide (i = j)) as [<- | Hne].
        -- rewrite lookup_insert_eq. intros [= -> Ep]. by rewrite Ep in Hnr.
        -- rewrite lookup_insert_ne by done. by apply F.
    + intros j k q. destruct (decide (i = j)) as [<- | Hne].
      * rewrite lookup_insert_eq. intros [= <- <-]. unfold p. destruct background; cbn; auto.
      * rewrite lookup_insert_ne by done. apply H3.
Qed.

(** The threads after a refresh: one more reader, with its own instant. *)
Lemma finish_threads w done f outcome i kid p : w_threads (finish_step done f outcome w) !! i = Some (kid, p) ->
  w_threads w !! i = Some (kid, p) \/ (f_owner f = Some i /\ p = Reading (f_now f)).
Proof.
  cbn [finish_step w_threads]. destruct (f_owner f) as [j|]; [|by left]. destruct (w_threads w !! j) as [[k q]|] eqn:E; [|by left].
  destruct (decide (j = i)) as [<- | Hn].
  - rewrite lookup_insert_eq. intros [= <- <-]. by right.
  - rewrite lookup_insert_ne by done. by left.
Qed.

Lemma inv_finish w done f response : jinv w -> w_flights w !! done = Some f ->
  jinv (finish_step done f (fetch json_parse response) w).
Proof.
  set (outcome := fetch json_parse response). intros [H1 H2 H3 H4] Hf. destruct (refreshDone (w_cache w)) as [d|] eqn:Ed; [|by rewrite H1 in Hf].
  destruct H1 as (fl & F1 & F2 & F3 & F4). rewrite F1 in Hf. apply lookup_singleton_Some in Hf as [<- <-].
  assert (forall i kid now, w_threads (finish_step d fl outcome w) !! i = Some (kid, Reading now) -> now <= f_began fl) as Hr.
  { intros i kid now [Hi|[_ [= ->]]]%finish_threads; [by eapply F3|lia]. }
  split.
  - cbn [finish_step w_cache refreshed refreshDone w_flights]. rewrite Ed, bool_decide_true by done. rewrite F1.
    apply delete_singleton_eq.
  - cbn [finish_step w_cache refreshed fetchedAt keys lastRefreshError w_log]. destruct outcome as [ks|e].
    + exists (f_began fl). split; [apply elem_of_app; right; by apply list_elem_of_singleton|]. split; [lia|]. intros _ i kid now. apply Hr.
    + destruct (fetchedAt (w_cache w)) as [t|]; [|by destruct H2]. destruct H2 as (f & G1 & G2 & _). by exists f.
  - intros i kid p [Hi|[Ho ->]]%finish_threads.
    + cbn [finish_step w_log w_clock]. eapply place_ok_grows; [|apply Z.le_refl|by apply (H3 i)].
      intros x Hx. destruct outcome; [|done]. apply elem_of_app. by left.
    + cbn. lia.
  - intros f ks. cbn [finish_step w_log]. destruct outcome as [new|] eqn:Eo; [|apply H4].
    intros [Hin|Hin%list_elem_of_singleton]%elem_of_app; [by eapply H4|]. injection Hin as -> ->. by exists response.
Qed.

Lemma jstep_inv w w' : jinv w -> jstep json_parse quoted cfg w w' -> jinv w'.
Proof.
  intros Hi Hs. destruct Hs as [i kid Ht|d Hd|i kid Ht|i kid now Ht|i kid now bg Ht|i kid d Ht Hd|i kid d e Ht|d f outcome Hf|i kid now Ht].
  - apply inv_set; [done|by rewrite Ht|done..].
  - destruct Hi as [H1 H2 H3 H4]. split; cbn; [|done| |done].
    + destruct (refreshDone (w_cache w)); [|done]. destruct H1 as (fl & F1 & F2 & F3). exists fl. split; [done|]. split; [lia|done].
    + intros i kid p Hp. eapply place_ok_grows; [done| |by apply (H3 i)]. lia.
  - apply inv_set; [done|by rewrite Ht|done|cbn; lia].
  - destruct (decide_ok w now kid Hi) as [D1 D2]; [by apply (ji_places _ Hi _ _ _ Ht)|].
    apply inv_set; [done|by rewrite Ht|done|done].
  - by apply inv_claim.
  - apply inv_set; [done|by rewrite Ht|done..].
  - apply inv_set; [done|by rewrite Ht|done..].
  - by apply inv_finish.
  - apply inv_set; [done|by rewrite Ht|done|by eapply read_ok_place].
Qed.

Lemma start_inv : jinv start_world.
Proof. split; cbn; [done|done| |by intros ? ? ?%elem_of_nil]. intros i kid p H. by rewrite lookup_empty in H. Qed.

Lemma jreach_inv w : steps (jstep json_parse quoted cfg) start_world w -> jinv w.
Proof. apply steps_invariant; [apply jstep_inv|apply start_inv]. Qed.
End Invariant.

(** C31: what concurrent requests get from the key cache.  However requests,
    clocks, claims, background refreshes and their outcomes interleave: at
    most one refresh is in flight, and it is the one the waiting requests wait
    for, so none waits for a refresh that has ended.  Every key a request is
    answered with was published under its key id: the body of a 200 answer has
    an item of its keys with that kid, of type RSA, for signing with a supported
    algorithm or with neither stated, whose modulus and exponent decode to that
    key, and no later item of the kid does so; nothing else of a document is
    kept, under any id.  The key has at least 2048 bits, and comes from a fetch
    that began no earlier than the refresh interval plus the stale tolerance
    before the instant the request looked. *)
Theorem served_keys_recent json_parse quoted cfg w : 0 <= refreshInterval cfg -> 0 <= staleTolerance cfg ->
  steps (jstep json_parse quoted cfg) start_world w ->
  (size (w_flights w) <= 1)%nat /\
  (forall i kid done, w_threads w !! i = Some (kid, Waiting done) ->
     refreshDone (w_cache w) <> Some done \/ is_Some (w_flights w !! done)) /\
  (forall i kid now key, w_threads w !! i = Some (kid, Returned now (Ok key)) ->
     exists began ks response, (began, ks) ∈ w_log w /\ fetch json_parse response = Ok ks /\ ks !! kid = Some key /\
       now - began <= refreshInterval cfg + staleTolerance cfg /\ signing_key key /\
       exists body f items, response = Ok (200, Ok body) /\
         json_parse (String.substring 0 (Z.to_nat maxJWKSBytes) body) = Ok (JObj f) /\ jfield "keys" f = Some (JArr items) /\
         last_published items kid key /\
         (forall kid' key', ks !! kid' = Some key' <-> last_published items kid' key')).
Proof.
  intros Hr Hs [H1 H2 H3 H4]%(jreach_inv json_parse quoted cfg Hr Hs). split; [|split].
  - destruct (refreshDone (w_cache w)); [|rewrite H1, map_size_empty; lia].
    destruct H1 as (fl & -> & _). by rewrite map_size_singleton.
  - intros i kid done _. destruct (refreshDone (w_cache w)) as [d|]; [|by left]. destruct H1 as (fl & -> & _).
    destruct (decide (d = done)) as [-> | Hn]; [right|left; congruence]. rewrite lookup_singleton_eq. by eexists.
  - intros i kid now key (f & ks & Hin & Hk & Hage)%H3. destruct (H4 _ _ Hin) as [response Hf].
    exists f, ks, response. destruct (fetch_ok _ _ _ Hf) as [_ Hks]. destruct (Hks _ _ Hk) as [_ Hsk].
    do 4 (split; [done|]). split; [exact Hsk|]. destruct (fetch_published _ _ _ Hf) as (body & fs & items & -> & Hj & Hi & Hp).
    exists body, fs, items. split; [done|]. split; [done|]. split; [done|]. split; [by apply Hp|exact Hp].
Qed.

(** ** The rate limit *)
Definition refused_fetch : result (Z * result string) := Err (EMsg "connection refused").
Definition act (quoted : string -> string) (cfg : jwks_config) (i : nat) (kid : string) (w : world) : world :=
  set_thread i kid (decide_pass quoted cfg 0 kid (w_cache w)) (set_thread i kid (AtClock 0) (set_thread i kid Begin w)).
Definition both_looked (quoted : string -> string) (cfg : jwks_config) : world :=
  act quoted cfg 1 "forged-2" (act quoted cfg 0 "forged-1" start_world).
Definition first_flight : flight := {| f_owner := Some 0%nat; f_now := 0; f_began := 0 |}.
Definition raced (json_parse : string -> result json) (quoted : string -> string) (cfg : jwks_config) : world :=
  claim_step 1 "forged-2" 0 None
    (finish_step 0 first_flight (fetch json_parse refused_fetch) (claim_step 0 "forged-1" 0 None (both_looked quoted cfg))).

(** The refresh interval does not bound the fetches.  For every minimum
    interval, two requests with unknown key ids that look at the cache before
    either claims the refresh both fetch, one right after the other: whether a
    refresh is due is decided from the snapshot, and the claim only asks that
    none is in flight. *)
Theorem refresh_rate_race json_parse quoted cfg :
  exists w, steps (jstep json_parse quoted cfg) start_world w /\ w_claims w = [0; 0] /\ w_clock w = 0 /\
    (exists d, w_threads w !! 1%nat = Some ("forged-2", Fetching 0 d)).
Proof.
  exists (raced json_parse quoted cfg). split; [|split; [reflexivity|split; [reflexivity|by eexists]]].
  assert (forall i kid w, w_threads w !! i = None -> w_clock w = 0 -> steps (jstep json_parse quoted cfg) w (act quoted cfg i kid w)) as Hact.
  { intros i kid w Hi Hc. eapply steps_cons; [by apply (js_request _ _ _ _ i kid)|].
    eapply steps_cons; [apply (js_clock _ _ _ _ i kid); apply lookup_insert_eq|]. cbn [w_clock set_thread]. rewrite Hc.
    eapply steps_cons; [apply (js_snapshot _ _ _ _ i kid 0); apply lookup_insert_eq|]. apply steps_refl. }
  apply (steps_trans _ _ (both_looked quoted cfg)).
  { eapply steps_trans; [apply (Hact 0%nat "forged-1"); reflexivity|]. apply (Hact 1%nat "forged-2"); reflexivity. }
  refine (steps_cons _ _ (claim_step 0 "forged-1" 0 None (both_looked quoted cfg)) _ _
    (steps_cons _ _ (finish_step 0 first_flight (fetch json_parse refused_fetch) (claim_step 0 "forged-1" 0 None (both_looked quoted cfg)))
      _ _ (steps_cons _ _ _ _ _ (steps_refl _ _)))).
  - apply js_claim. reflexivity.
  - apply js_finish. reflexivity.
  - apply js_claim. reflexivity.
Qed.

Definition sample_jwks : jwks_config :=
  {| refreshInterval := defaultJWKSRefreshInterval; minInterval := defaultJWKSMinInterval; staleTolerance := defaultJWKSStaleTolerance |}.

Fixpoint repeat_char (n : nat) (c : ascii) : string := match n with O => "" | S m => String c (repeat_char m c) end.
Definition sample_document (_ : string) : result json :=
  Ok (JObj [("keys", JArr [JObj [("kty", JStr "RSA"); ("kid", JStr "k"); ("use", JStr "sig"); ("alg", JStr "RS256");
                                 ("n", JStr (repeat_char 342 "_")); ("e", JStr "AQAB")]])]).
Definition same (s : string) : string := s.
Definition sample_response : result (Z * result string) := Ok (200, Ok "document").
Definition sample_flight : flight := {| f_owner := Some 0%nat; f_now := 0; f_began := 0 |}.
Definition sample_served : world :=
  let w := claim_step 0 "k" 0 None (act same sample_jwks 0 "k" start_world) in
  let w := finish_step 0 sample_flight (fetch sample_document sample_response) w in
  set_thread 0 "k" (Returned 0 (read_result same "k" (w_cache w))) w.

Lemma served_keys_recent_witness :
  exists key, w_threads sample_served !! 0%nat = Some ("k", Returned 0 (Ok key)) /\ signing_key key /\
    exists items, last_published items "k" key.
Proof.
  assert (exists key, w_threads sample_served !! 0%nat = Some ("k", Returned 0 (Ok key))) as [key Hk]
    by (vm_compute; eexists; reflexivity).
  exists key. split; [exact Hk|].
  destruct (served_keys_recent sample_document same sample_jwks sample_served) as (_ & _ & H).
  - vm_compute. discriminate.
  - vm_compute. discriminate.
  - eapply steps_cons; [apply (js_request _ _ _ _ 0%nat "k"); reflexivity|].
    eapply steps_cons; [apply (js_clock _ _ _ _ 0%nat "k"); apply lookup_insert_eq|].
    eapply steps_cons; [apply (js_snapshot _ _ _ _ 0%nat "k" 0); apply lookup_insert_eq|].
    eapply steps_cons; [apply (js_claim _ _ _ _ 0%nat "k" 0 None); reflexivity|].
    eapply steps_cons; [apply (js_finish _ _ _ _ 0%nat sample_flight sample_response); reflexivity|].
    eapply steps_cons; [apply (js_read _ _ _ _ 0%nat "k" 0); reflexivity|].
    apply steps_refl.
  - destruct (H 0%nat "k" 0 key Hk) as (began & ks & response & _ & _ & _ & _ & Hs & _ & _ & items & _ & _ & _ & Hp & _).
    split; [exact Hs|]. exists items. exact Hp.
Defined.
