(* ===== verification/KrakendConfig.v ===== *)
(** * The edge policy of the KrakenD configuration

    internal/platform/edge/krakendconfig/config.go and policy.go: decoding the
    versioned configuration, and the invariants it must satisfy.

    A raw message is the JSON tree of its text.  [json_parse] is the JSON
    parser, [url_parse] gives the scheme and host of a URL, [error_text] is
    [error.Error()].  The ranges over maps visit them in the listed order, and
    violations that compare equal keep it. *)

From S2P Require Import Prelude.
From S2P Require Import Sorting.
From S2P Require Import GoStrings.
From S2P Require Import GoTime.
From S2P Require Import Json.
From S2P Require Import Auth.
From Stdlib Require String.
From Stdlib Require Import ZArith Lia Ascii.
Open Scope string_scope.
Open Scope Z_scope.

(** ** config.go *)
Definition raw_map : Type := list (string * json).
Record Backend : Type := {
  URLPattern : string; be_Method : string; be_Encoding : string; Host : list string; be_ExtraConfig : raw_map }.
Record Endpoint : Type := {
  Path : string; Method : string; OutputEncoding : string; Timeout : string; InputHeaders : option (list string);
  InputQueryStrings : list string; ExtraConfig : raw_map; Backends : list Backend; Raw : option json }.
Record KConfig : Type := {
  kc_Version : Z; kc_Name : string; kc_Port : Z; kc_Timeout : string; kc_ExtraConfig : raw_map; kc_Endpoints : list Endpoint }.
Record JWTValidator : Type := {
  jv_Algorithm : string; JWKURL : string; jv_Issuer : string; jv_Audience : list string; jv_Scopes : list string;
  ScopesKey : string; ScopesMatcher : string; DisableJWKSecurity : bool; OperationDebug : bool }.
Definition ValidatorNamespace : string := "auth/validator".

Definition dec_map (j : option json) : result raw_map :=
  match j with None | Some JNull => Ok [] | Some (JObj f) => Ok f | Some _ => bad_json end.
Definition dec_slice (j : option json) : result (option (list string)) :=
  match j with
  | None | Some JNull => Ok None
  | Some (JArr items) => l ← dec_strings items; Ok (Some l)
  | Some _ => bad_json
  end.
Definition dec_bool (j : option json) : result bool :=
  match j with None | Some JNull => Ok false | Some (JBool b) => Ok b | Some _ => bad_json end.
Fixpoint dec_all {A} (f : json -> result A) (items : list json) : result (list A) :=
  match items with [] => Ok [] | j :: rest => a ← f j; l ← dec_all f rest; Ok (a :: l) end.
Definition dec_array {A} (f : json -> result A) (j : option json) : result (list A) :=
  match j with None | Some JNull => Ok [] | Some (JArr items) => dec_all f items | Some _ => bad_json end.

Definition unmarshal_backend (j : json) : result Backend :=
  f ← object_fields j;
  url ← dec_string (jfield "url_pattern" f); method ← dec_string (jfield "method" f);
  encoding ← dec_string (jfield "encoding" f); host ← dec_slice (jfield "host" f);
  extra ← dec_map (jfield "extra_config" f);
  Ok {| URLPattern := url; be_Method := method; be_Encoding := encoding; Host := default [] host; be_ExtraConfig := extra |}.

(** [Endpoint.UnmarshalJSON] *)
Definition unmarshal_endpoint (j : json) : result Endpoint :=
  f ← object_fields j;
  path ← dec_string (jfield "endpoint" f); method ← dec_string (jfield "method" f);
  output ← dec_string (jfield "output_encoding" f); timeout ← dec_string (jfield "timeout" f);
  headers ← dec_slice (jfield "input_headers" f); query ← dec_slice (jfield "input_query_strings" f);
  extra ← dec_map (jfield "extra_config" f); backend ← dec_array unmarshal_backend (jfield "backend" f);
  Ok {| Path := path; Method := method; OutputEncoding := output; Timeout := timeout; InputHeaders := headers;
        InputQueryStrings := default [] query; ExtraConfig := extra; Backends := backend; Raw := Some j |}.

Definition Route (e : Endpoint) : string := Method e +:+ String " " (Path e).

Definition unmarshal_validator (j : json) : result JWTValidator :=
  f ← object_fields j;
  alg ← dec_string (jfield "alg" f); jwk ← dec_string (jfield "jwk_url" f); issuer ← dec_string (jfield "issuer" f);
  audience ← dec_slice (jfield "audience" f); scopes ← dec_slice (jfield "scopes" f);
  scopesKey ← dec_string (jfield "scopes_key" f); matcher ← dec_string (jfield "scopes_matcher" f);
  disable ← dec_bool (jfield "disable_jwk_security" f); debug ← dec_bool (jfield "operation_debug" f);
  Ok {| jv_Algorithm := alg; JWKURL := jwk; jv_Issuer := issuer; jv_Audience := default [] audience;
        jv_Scopes := default [] scopes; ScopesKey := scopesKey; ScopesMatcher := matcher;
        DisableJWKSecurity := disable; OperationDebug := debug |}.

Definition EndpointValidator (e : Endpoint) : result (option JWTValidator) :=
  match jraw ValidatorNamespace (ExtraConfig e) with
  | None => Ok None
  | Some raw => match unmarshal_validator raw with Err err => Err (EWrap "krakendconfig: decode auth/validator" err) | Ok v => Ok (Some v) end
  end.

Definition unmarshal_config (j : json) : result KConfig :=
  f ← object_fields j;
  version ← dec_int64 (jfield "version" f); name ← dec_string (jfield "name" f); port ← dec_int64 (jfield "port" f);
  timeout ← dec_string (jfield "timeout" f); extra ← dec_map (jfield "extra_config" f);
  endpoints ← dec_array unmarshal_endpoint (jfield "endpoints" f);
  Ok {| kc_Version := version; kc_Name := name; kc_Port := port; kc_Timeout := timeout; kc_ExtraConfig := extra;
        kc_Endpoints := endpoints |}.

Fixpoint no_duplicates (seen : gset string) (endpoints : list Endpoint) : result unit :=
  match endpoints with
  | [] => Ok tt
  | e :: rest => if bool_decide (Route e ∈ seen) then Err (EMsg ("krakendconfig: duplicate route " +:+ Route e))
                 else no_duplicates ({[Route e]} ∪ seen) rest
  end.
Definition Parse (json_parse : string -> result json) (contents : string) : result KConfig :=
  match (j ← json_parse contents; unmarshal_config j) with
  | Err e => Err (EWrap "krakendconfig: decode" e)
  | Ok config => _ ← no_duplicates ∅ (kc_Endpoints config); Ok config
  end.

(** ** policy.go *)
Inductive Rule : Type :=
  | RouteDeclared | UnexpectedRoute | JWTRequired | JWTPolicy | ScopeRequired | PrivateSurface | HeaderAllowList
  | HeaderForwarded | SpoofableHeader | NoCommandRetry | TimeoutRequired | NoDebugSurface | RateLimitDeclared
  | WildcardRouteAbsent.
Definition rule_name (r : Rule) : string :=
  match r with
  | RouteDeclared => "route-declared" | UnexpectedRoute => "unexpected-route" | JWTRequired => "jwt-required"
  | JWTPolicy => "jwt-policy" | ScopeRequired => "scope-required" | PrivateSurface => "private-surface-not-public"
  | HeaderAllowList => "header-allow-list" | HeaderForwarded => "required-header-forwarded"
  | SpoofableHeader => "spoofable-header-forwarded" | NoCommandRetry => "no-command-retry"
  | TimeoutRequired => "timeout-required" | NoDebugSurface => "no-debug-surface"
  | RateLimitDeclared => "rate-limit-declared" | WildcardRouteAbsent => "wildcard-route-absent"
  end.
Record Violation : Type := { vi_Rule : Rule; Location : string; Detail : string }.
Definition violation (r : Rule) (location detail : string) : list Violation :=
  [{| vi_Rule := r; Location := location; Detail := detail |}].
Definition unless (ok : bool) (v : list Violation) : list Violation := if ok then [] else v.

Record Policy : Type := {
  po_Issuer : string; po_Audience : string; ProtectedRoutes : list (string * list string); PublicRoutes : list string;
  CommandRoutes : list string; RateLimitedRoutes : list string; ForbiddenPathFragments : list string }.

Definition DefaultPolicy : Policy :=
  {| po_Issuer := "https://edge.cashflow.local/realms/cashflow"; po_Audience := "cashflow-public-api";
     ProtectedRoutes := [
       ("POST /v1/entries", ["ledger:write"]); ("POST /v1/entries/{entry_id}/reversals", ["ledger:write"]);
       ("GET /v1/entries/{entry_id}", ["ledger:read"]); ("GET /v1/entries", ["ledger:read"]);
       ("GET /v1/daily-balances", ["consolidation:read"])];
     PublicRoutes := [
       "GET /realms/cashflow/.well-known/openid-configuration"; "GET /realms/cashflow/protocol/openid-connect/certs";
       "GET /realms/cashflow/protocol/openid-connect/auth"; "POST /realms/cashflow/login-actions/{action}";
       "POST /realms/cashflow/protocol/openid-connect/token"; "GET /realms/cashflow/protocol/openid-connect/userinfo";
       "POST /realms/cashflow/protocol/openid-connect/logout"];
     CommandRoutes := ["POST /v1/entries"; "POST /v1/entries/{entry_id}/reversals"];
     RateLimitedRoutes := [
       "POST /v1/entries"; "POST /v1/entries/{entry_id}/reversals"; "GET /v1/entries/{entry_id}"; "GET /v1/entries";
       "GET /v1/daily-balances"; "POST /realms/cashflow/protocol/openid-connect/token";
       "POST /realms/cashflow/login-actions/{action}"];
     ForbiddenPathFragments := ["/admin"; "/realms/master"; "/health"; "/metrics"; "/clients-registrations";
       "/token/introspect"; "cashflow.ledger.internal.v1"; "/__debug"; "/__echo"; "*"] |}.

Definition requiredForwardedHeaders : list string := ["Authorization"; "traceparent"; "tracestate"].
Definition spoofableHeaders : list string :=
  ["x-merchant-id"; "x-tenant-id"; "x-authenticated-user"; "x-forwarded-for"; "x-forwarded-host"; "x-forwarded-proto";
   "x-real-ip"; "forwarded"; "baggage"].

Definition listed (x : string) (l : list string) : bool := existsb (String.eqb x) l.
Fixpoint scopes_of (route : string) (l : list (string * list string)) : option (list string) :=
  match l with [] => None | (r, scopes) :: rest => if String.eqb r route then Some scopes else scopes_of route rest end.

(** The keys of a decoded document: a repeated key keeps its last value. *)
Fixpoint collectKeys (document : json) : list string :=
  match document with
  | JObj fields =>
      (fix keys (fs : list (string * json)) : list string :=
         match fs with
         | [] => []
         | (k, v) :: rest => (if listed k (map fst rest) then [] else k :: collectKeys v) ++ keys rest
         end) fields
  | JArr items => (fix keys (l : list json) : list string := match l with [] => [] | j :: rest => collectKeys j ++ keys rest end) items
  | _ => []
  end%list.

Section Policy.
Context (url_parse : string -> result (string * string)) (error_text : error -> string).

Definition validateGlobals (config : KConfig) : list Violation :=
  (flat_map (fun namespace =>
     match jraw namespace (kc_ExtraConfig config) with
     | Some (JBool true) => violation NoDebugSurface "root" (namespace +:+ " is enabled")
     | _ => []
     end) ["debug_endpoint"; "echo_endpoint"] ++
   unless (negb (String.eqb (kc_Timeout config) "")) (violation TimeoutRequired "root" "no global timeout is declared"))%list.

Definition fragment_rule (fragment : string) : Rule := if String.eqb fragment "*" then WildcardRouteAbsent else PrivateSurface.
Definition validatePaths (e : Endpoint) (policy : Policy) : list Violation :=
  flat_map (fun fragment =>
    (unless (negb (contains_sub fragment (Path e)))
       (violation (fragment_rule fragment) (Route e) ("route path contains forbidden fragment " +:+ fragment)) ++
     flat_map (fun b => unless (negb (contains_sub fragment (URLPattern b)))
       (violation (fragment_rule fragment) (Route e)
          ("upstream path " +:+ (URLPattern b +:+ (" contains forbidden fragment " +:+ fragment))))) (Backends e))%list)
    (ForbiddenPathFragments policy).

Definition forwarded (e : Endpoint) : list string := map to_lower (default [] (InputHeaders e)).
Definition validateHeaders (e : Endpoint) (policy : Policy) (isProtected : bool) : list Violation :=
  (unless (match InputHeaders e with Some _ => true | None => false end)
     (violation HeaderAllowList (Route e) "no input_headers allow list is declared; header handling must be explicit") ++
   flat_map (fun h => unless (negb (listed h (forwarded e)))
     (violation SpoofableHeader (Route e) ("forwards spoofable header " +:+ h))) spoofableHeaders ++
   unless (negb (listed "*" (forwarded e)))
     (violation HeaderAllowList (Route e) "forwards every header instead of an allow list") ++
   if negb isProtected then []
   else
     flat_map (fun h => unless (listed (to_lower h) (forwarded e))
       (violation HeaderForwarded (Route e) ("does not forward required header " +:+ h))) requiredForwardedHeaders ++
     unless (negb (listed (Route e) (CommandRoutes policy)) || listed "idempotency-key" (forwarded e))
       (violation HeaderForwarded (Route e) "command route does not forward Idempotency-Key"))%list.

Definition retry_key (key : string) : bool :=
  contains_sub "retr" (to_lower key) || contains_sub "backoff" (to_lower key).
Definition validateRetry (e : Endpoint) (policy : Policy) : list Violation :=
  if negb (listed (Route e) (CommandRoutes policy)) then []
  else match Raw e with
       | None => violation NoCommandRetry (Route e) "endpoint declaration is not inspectable"
       | Some document => flat_map (fun key => unless (negb (retry_key key))
           (violation NoCommandRetry (Route e) ("command route declares " +:+ key))) (collectKeys document)
       end.

Definition validateValidator (route : string) (v : JWTValidator) (requiredScopes : list string) (policy : Policy) : list Violation :=
  (unless (String.eqb (jv_Algorithm v) "RS256")
     (violation JWTPolicy route ("algorithm is " +:+ (jv_Algorithm v +:+ ", expected RS256"))) ++
   unless (negb (DisableJWKSecurity v)) (violation JWTPolicy route "disable_jwk_security is true") ++
   unless (negb (OperationDebug v)) (violation JWTPolicy route "operation_debug is true and would log credential material") ++
   (if String.eqb (JWKURL v) "" then violation JWTPolicy route "no jwk_url is configured"
    else match url_parse (JWKURL v) with
         | Ok (scheme, host) => unless (String.eqb scheme "https" && negb (String.eqb host ""))
             (violation JWTPolicy route "jwk_url must use HTTPS with an explicit host")
         | Err _ => violation JWTPolicy route "jwk_url must use HTTPS with an explicit host"
         end) ++
   unless (String.eqb (jv_Issuer v) (po_Issuer policy))
     (violation JWTPolicy route ("issuer is " +:+ (jv_Issuer v +:+ (", expected " +:+ po_Issuer policy)))) ++
   unless (listed (po_Audience policy) (jv_Audience v)) (violation JWTPolicy route ("audience does not pin " +:+ po_Audience policy)) ++
   unless (String.eqb (ScopesMatcher v) "all")
     (violation JWTPolicy route ("scopes_matcher is " +:+ (ScopesMatcher v +:+ ", expected all"))) ++
   flat_map (fun s => unless (listed s (jv_Scopes v)) (violation ScopeRequired route ("does not require scope " +:+ s))) requiredScopes ++
   flat_map (fun s => unless (listed s requiredScopes) (violation ScopeRequired route ("requires undeclared scope " +:+ s))) (jv_Scopes v))%list.

Definition validateEndpoint (e : Endpoint) (policy : Policy) : list Violation :=
  let required := scopes_of (Route e) (ProtectedRoutes policy) in
  let isProtected := match required with Some _ => true | None => false end in
  (unless (isProtected || listed (Route e) (PublicRoutes policy))
     (violation UnexpectedRoute (Route e) "route is not part of the approved public surface") ++
   validatePaths e policy ++
   unless (negb (String.eqb (Timeout e) "")) (violation TimeoutRequired (Route e) "endpoint declares no timeout") ++
   validateHeaders e policy isProtected ++
   validateRetry e policy ++
   unless (negb (listed (Route e) (RateLimitedRoutes policy)) ||
           match jraw "qos/ratelimit/router" (ExtraConfig e) with Some _ => true | None => false end)
     (violation RateLimitDeclared (Route e)
        "no router rate limit is declared; the Community edition limit is per replica and must still be present") ++
   match required with
   | None => []
   | Some requiredScopes =>
       match EndpointValidator e with
       | Err err => violation JWTPolicy (Route e) (error_text err)
       | Ok None => violation JWTRequired (Route e) "protected route declares no auth/validator"
       | Ok (Some v) => validateValidator (Route e) v requiredScopes policy
       end
   end)%list.

Definition violation_before (a b : Violation) : bool :=
  if String.eqb (Location a) (Location b) then String.ltb (rule_name (vi_Rule a)) (rule_name (vi_Rule b))
  else String.ltb (Location a) (Location b).

Definition Validate (config : KConfig) (policy : Policy) : list Violation :=
  let present := map Route (kc_Endpoints config) in
  sort_by violation_before
    (validateGlobals config ++
     flat_map (fun e => validateEndpoint e policy) (kc_Endpoints config) ++
     flat_map (fun r => unless (listed (fst r) present)
       (violation RouteDeclared (fst r) "expected public route is not declared")) (ProtectedRoutes policy) ++
     flat_map (fun r => unless (listed r present)
       (violation RouteDeclared r "expected OIDC route is not declared")) (PublicRoutes policy))%list.
End Policy.

(** ** What an accepted configuration satisfies *)
Lemma unless_nil ok v : v <> [] -> unless ok v = [] <-> ok = true.
Proof. destruct ok; cbn; split; congruence || done. Qed.

Lemma listed_spec x l : listed x l = true <-> x ∈ l.
Proof.
  unfold listed. rewrite existsb_exists, list_elem_of_In. split; [by intros (y & Hy & ->%String.eqb_eq)|].
  intros H. exists x. by rewrite String.eqb_refl.
Qed.

Lemma sort_by_nil {A} (before : A -> A -> bool) l : sort_by before l = [] <-> l = [].
Proof.
  split; [|by intros ->]. intros H. pose proof (sort_by_perm before l) as Hp. rewrite H in Hp. by apply Permutation_nil.
Qed.

Ltac rules := repeat first
  [ rewrite app_nil | rewrite flat_map_nil | rewrite unless_nil by discriminate | rewrite negb_true_iff
  | rewrite String.eqb_eq | rewrite String.eqb_neq | rewrite listed_spec ].

Section Spec.
Context (url_parse : string -> result (string * string)) (error_text : error -> string).

Record validator_ok (policy : Policy) (scopes : list string) (v : JWTValidator) : Prop := {
  vo_alg : jv_Algorithm v = "RS256";
  vo_flags : DisableJWKSecurity v = false /\ OperationDebug v = false;
  vo_url : JWKURL v <> "" /\ exists host, url_parse (JWKURL v) = Ok ("https", host) /\ host <> "";
  vo_issuer : jv_Issuer v = po_Issuer policy;
  vo_audience : po_Audience policy ∈ jv_Audience v;
  vo_scopes : ScopesMatcher v = "all" /\ forall s, s ∈ jv_Scopes v <-> s ∈ scopes }.

Record endpoint_ok (policy : Policy) (e : Endpoint) : Prop := {
  eo_paths : forall fragment, fragment ∈ ForbiddenPathFragments policy ->
    contains_sub fragment (Path e) = false /\ forall b, b ∈ Backends e -> contains_sub fragment (URLPattern b) = false;
  eo_timeout : Timeout e <> "";
  eo_headers : exists hs, InputHeaders e = Some hs /\
    forall h, h ∈ map to_lower hs -> h ∉ spoofableHeaders /\ h <> "*";
  eo_command : Route e ∈ CommandRoutes policy ->
    exists document, Raw e = Some document /\ forall k, k ∈ collectKeys document -> retry_key k = false;
  eo_limited : Route e ∈ RateLimitedRoutes policy -> is_Some (jraw "qos/ratelimit/router" (ExtraConfig e));
  eo_surface : match scopes_of (Route e) (ProtectedRoutes policy) with
    | None => Route e ∈ PublicRoutes policy
    | Some scopes =>
        (forall h, h ∈ requiredForwardedHeaders -> to_lower h ∈ forwarded e) /\
        (Route e ∈ CommandRoutes policy -> "idempotency-key" ∈ forwarded e) /\
        exists v, EndpointValidator e = Ok (Some v) /\ validator_ok policy scopes v
    end }.

Lemma validator_spec route v scopes policy :
  validateValidator url_parse route v scopes policy = [] <-> validator_ok policy scopes v.
Proof.
  unfold validateValidator. rules. split.
  - intros (H1 & H2 & H3 & H4 & H5 & H6 & H7 & H8 & H9). split; try done.
    + destruct (String.eqb_spec (JWKURL v) ""); [done|]. split; [done|].
      destruct (url_parse (JWKURL v)) as [[scheme host]|]; [|done].
      rewrite unless_nil, andb_true_iff, negb_true_iff, String.eqb_eq, String.eqb_neq in H4 by discriminate.
      destruct H4 as [-> Hh]. by exists host.
    + split; [done|]. intros s. split; intros Hs.
      * specialize (H9 s Hs). rewrite unless_nil, listed_spec in H9 by discriminate. done.
      * specialize (H8 s Hs). rewrite unless_nil, listed_spec in H8 by discriminate. done.
  - intros [V1 [V2 V3] (V4 & host & V5 & V6) V7 V8 [V9 V10]]. splits; try done.
    + rewrite (proj2 (String.eqb_neq _ _) V4), V5. rewrite (proj2 (String.eqb_neq _ _) V6). done.
    + intros s Hs. rewrite unless_nil, listed_spec by discriminate. by apply V10.
    + intros s Hs. rewrite unless_nil, listed_spec by discriminate. by apply V10.
Qed.

Lemma paths_spec e policy : validatePaths e policy = [] <->
  forall fragment, fragment ∈ ForbiddenPathFragments policy ->
    contains_sub fragment (Path e) = false /\ forall b, b ∈ Backends e -> contains_sub fragment (URLPattern b) = false.
Proof.
  unfold validatePaths. rewrite flat_map_nil. split; intros H fragment Hf; specialize (H fragment Hf); revert H; rules.
  - intros [H1 H2]. split; [done|]. intros b Hb. specialize (H2 b Hb). revert H2. rules. done.
  - intros [H1 H2]. split; [done|]. intros b Hb. rules. by apply H2.
Qed.

Lemma headers_spec e policy prot : validateHeaders e policy prot = [] <->
  (exists hs, InputHeaders e = Some hs /\ forall h, h ∈ map to_lower hs -> h ∉ spoofableHeaders /\ h <> "*") /\
  (prot = true -> (forall h, h ∈ requiredForwardedHeaders -> to_lower h ∈ forwarded e) /\
     (Route e ∈ CommandRoutes policy -> "idempotency-key" ∈ forwarded e)).
Proof.
  unfold validateHeaders. rewrite !app_nil, unless_nil, flat_map_nil, unless_nil by discriminate.
  assert ((if negb prot then [] else
    flat_map (fun h => unless (listed (to_lower h) (forwarded e))
       (violation HeaderForwarded (Route e) ("does not forward required header " +:+ h))) requiredForwardedHeaders ++
     unless (negb (listed (Route e) (CommandRoutes policy)) || listed "idempotency-key" (forwarded e))
       (violation HeaderForwarded (Route e) "command route does not forward Idempotency-Key"))%list = [] <->
    (prot = true -> (forall h, h ∈ requiredForwardedHeaders -> to_lower h ∈ forwarded e) /\
     (Route e ∈ CommandRoutes policy -> "idempotency-key" ∈ forwarded e))) as ->.
  { destruct prot; cbn [negb]; [|by split]. rewrite app_nil, flat_map_nil, unless_nil, orb_true_iff, negb_true_iff by discriminate.
    rewrite <- not_true_iff_false, !listed_spec. split.
    - intros [H1 H2] _. split; [|tauto]. intros h Hh. specialize (H1 h Hh). revert H1. rules. done.
    - intros H. destruct (H eq_refl) as [H1 H2]. split; [intros h Hh; rules; by apply H1|].
      destruct (decide (Route e ∈ CommandRoutes policy)); tauto. }
  unfold forwarded. destruct (InputHeaders e) as [hs|]; cbn [from_option]; unfold id.
  - split.
    + intros (_ & H1 & H2 & H3). split; [|done]. exists hs. split; [done|]. intros h Hh. split.
      * intros Hs. specialize (H1 h Hs). rewrite unless_nil, negb_true_iff, <- not_true_iff_false, listed_spec in H1 by discriminate. done.
      * intros ->. by rewrite negb_true_iff, <- not_true_iff_false, listed_spec in H2.
    + intros [(x & [= <-] & H) H3]. splits; try done.
      * intros h Hs. rewrite unless_nil, negb_true_iff, <- not_true_iff_false, listed_spec by discriminate. intros Hh. by apply H in Hh as [? _].
      * rewrite negb_true_iff, <- not_true_iff_false, listed_spec. intros Hh. by apply H in Hh as [_ ?].
  - split; [by intros [? _]|by intros [(? & ? & _) _]].
Qed.

Lemma retry_spec e policy : validateRetry e policy = [] <->
  (Route e ∈ CommandRoutes policy ->
    exists document, Raw e = Some document /\ forall k, k ∈ collectKeys document -> retry_key k = false).
Proof.
  unfold validateRetry. rewrite <- listed_spec. destruct (listed _ _); cbn [negb]; [|by split].
  destruct (Raw e) as [doc|].
  - rewrite flat_map_nil. split.
    + intros H _. exists doc. split; [done|]. intros k Hk. specialize (H k Hk). revert H. rules. done.
    + intros H k Hk. rules. destruct (H eq_refl) as (? & [= <-] & H'). by apply H'.
  - split; [done|]. intros H. by destruct (H eq_refl) as (? & ? & _).
Qed.

Lemma endpoint_spec e policy : validateEndpoint url_parse error_text e policy = [] <-> endpoint_ok policy e.
Proof.
  unfold validateEndpoint. rewrite !app_nil, paths_spec, headers_spec, retry_spec, !unless_nil, orb_true_iff, listed_spec,
    negb_true_iff, String.eqb_neq by discriminate.
  assert ((negb (listed (Route e) (RateLimitedRoutes policy)) ||
    match jraw "qos/ratelimit/router" (ExtraConfig e) with Some _ => true | None => false end = true) <->
    (Route e ∈ RateLimitedRoutes policy -> is_Some (jraw "qos/ratelimit/router" (ExtraConfig e)))) as ->.
  { rewrite <- listed_spec. destruct (listed _ _), (jraw _ _); cbn; split; try done.
    intros H. by destruct (H eq_refl). }
  assert (forall scopes, match EndpointValidator e with
     | Err err => violation JWTPolicy (Route e) (error_text err)
     | Ok None => violation JWTRequired (Route e) "protected route declares no auth/validator"
     | Ok (Some v) => validateValidator url_parse (Route e) v scopes policy
     end = [] <-> exists v, EndpointValidator e = Ok (Some v) /\ validator_ok policy scopes v) as Hv.
  { intros scopes. destruct (EndpointValidator e) as [[v|]|].
    - rewrite validator_spec. split; [by exists v|]. by intros (? & [= <-] & ?).
    - split; [done|]. by intros (? & ? & _).
    - split; [done|]. by intros (? & ? & _). }
  destruct (scopes_of (Route e) (ProtectedRoutes policy)) as [scopes|] eqn:Es.
  - rewrite Hv. split.
    + intros (_ & H2 & H3 & [H4 H5] & H6 & H7 & H8). destruct (H5 eq_refl). split; try done. by rewrite Es.
    + intros [E1 E2 E3 E4 E5 E6]. rewrite Es in E6. destruct E6 as (F1 & F2 & F3). splits; try done. by left.
  - split.
    + intros ([?|H1] & H2 & H3 & [H4 _] & H6 & H7 & _); [done|]. split; try done. by rewrite Es.
    + intros [E1 E2 E3 E4 E5 E6]. rewrite Es in E6. splits; try done. by right.
Qed.
End Spec.

Lemma scopes_of_spec r l : (exists scopes, scopes_of r l = Some scopes) <-> r ∈ map fst l.
Proof.
  induction l as [|[k s] l IH]; cbn; [split; [by intros [? ?]|by intros ?%elem_of_nil]|].
  rewrite elem_of_cons, <- IH. destruct (String.eqb_spec k r) as [-> | Hn].
  - split; [by left|]. intros _. by exists s.
  - split; [by right|]. by intros [->|?].
Qed.

Lemma no_duplicates_ok seen l : no_duplicates seen l = Ok tt ->
  NoDup (map Route l) /\ forall e, e ∈ l -> Route e ∉ seen.
Proof.
  revert seen. induction l as [|e l IH]; intros seen H; [split; [constructor|by intros ? ?%elem_of_nil]|].
  cbn in H. case_bool_decide as Hs; [done|]. apply IH in H as [H1 H2]. split.
  - cbn. apply list.NoDup_cons. split; [|done]. intros (x & Ex & Hx)%list_elem_of_fmap. apply H2 in Hx. set_solver.
  - intros x [-> | Hx]%elem_of_cons; [done|]. apply H2 in Hx. set_solver.
Qed.

Lemma globals_spec config : validateGlobals config = [] <->
  kc_Timeout config <> "" /\
  forall ns, ns ∈ ["debug_endpoint"; "echo_endpoint"] -> jraw ns (kc_ExtraConfig config) <> Some (JBool true).
Proof.
  unfold validateGlobals. rewrite app_nil, flat_map_nil, unless_nil, negb_true_iff, String.eqb_neq by discriminate.
  split; intros [H1 H2]; split; try done; intros ns Hns.
  - specialize (H1 ns Hns). by destruct (jraw ns (kc_ExtraConfig config)) as [[| [] | | | | |]|].
  - specialize (H2 ns Hns). by destruct (jraw ns (kc_ExtraConfig config)) as [[| [] | | | | |]|].
Qed.

(** C33: an empty report is the proof of the edge's surface.  For a policy that
    names each route once, a configuration that parses has no violation
    exactly when its routes are the policy's protected and public ones, each
    once and no other; no debug surface is enabled among the extra_config
    namespaces and a timeout is declared globally and per endpoint; no route or upstream path has a forbidden
    fragment; headers are allow-listed without a spoofable one; commands
    declare no retry anywhere; the listed routes are rate limited; and every
    protected route forwards the required headers and validates RS256 tokens
    of the issuer and audience, over HTTPS keys, for exactly its scopes. *)
Theorem edge_approved json_parse url_parse error_text contents config policy :
  NoDup (map fst (ProtectedRoutes policy) ++ PublicRoutes policy) -> Parse json_parse contents = Ok config ->
  (Validate url_parse error_text config policy = [] <->
   map Route (kc_Endpoints config) ≡ₚ map fst (ProtectedRoutes policy) ++ PublicRoutes policy /\
   (forall e, e ∈ kc_Endpoints config -> endpoint_ok url_parse policy e) /\
   kc_Timeout config <> "" /\
   (forall ns, ns ∈ ["debug_endpoint"; "echo_endpoint"] -> jraw ns (kc_ExtraConfig config) <> Some (JBool true))).
Proof.
  intros Hnd Hp. unfold Parse in Hp. destruct (j ← json_parse contents; unmarshal_config j) as [c|]; [|done].
  destruct (no_duplicates ∅ (kc_Endpoints c)) as [[]|] eqn:Ed; [|done]. injection Hp as ->. apply no_duplicates_ok in Ed as [Hroutes _].
  unfold Validate. rewrite sort_by_nil, !app_nil, globals_spec, !flat_map_nil.
  assert (forall e, e ∈ kc_Endpoints config -> validateEndpoint url_parse error_text e policy = [] <-> endpoint_ok url_parse policy e) as He
    by (intros; apply endpoint_spec).
  split.
  - intros ([H1 H2] & H3 & H4 & H5). split; [|split; [intros e Hin; by apply He, H3|done]].
    apply NoDup_Permutation; [done..|]. intros r. split.
    + intros (e & -> & Hin)%list_elem_of_fmap. apply H3 in Hin. apply endpoint_spec in Hin.
      pose proof (eo_surface _ _ _ Hin) as Hs. apply elem_of_app.
      destruct (scopes_of (Route e) (ProtectedRoutes policy)) as [scopes|] eqn:Es; [left; apply scopes_of_spec; by exists scopes|by right].
    + intros [([r' s] & -> & Hin)%list_elem_of_fmap|Hin]%elem_of_app.
      * specialize (H4 _ Hin). rewrite unless_nil, listed_spec in H4 by discriminate. done.
      * specialize (H5 _ Hin). rewrite unless_nil, listed_spec in H5 by discriminate. done.
  - intros (Hperm & H3 & H1 & H2). split; [done|]. split; [intros e Hin; by apply He, H3|]. split.
    + intros [r s] Hin. rewrite unless_nil, listed_spec, Hperm by discriminate. apply elem_of_app. left.
      apply list_elem_of_fmap. by exists (r, s).
    + intros r Hin. rewrite unless_nil, listed_spec, Hperm by discriminate. apply elem_of_app. by right.
Qed.

(** ** A configuration of the approved surface *)
Definition split_route (route : string) : string * string := let '(m, p, _) := cut " " route in (m, p).
Definition sample_endpoint (route : string) (extra : list (string * json)) : json :=
  let '(m, p) := split_route route in
  JObj [("endpoint", JStr p); ("method", JStr m); ("timeout", JStr "3s");
        ("input_headers", JArr [JStr "Authorization"; JStr "traceparent"; JStr "tracestate"; JStr "Idempotency-Key"]);
        ("extra_config", JObj (("qos/ratelimit/router", JObj []) :: extra));
        ("backend", JArr [JObj [("url_pattern", JStr p)]])].
Definition sample_validator_block (scopes : list string) : string * json :=
  (ValidatorNamespace, JObj [("alg", JStr "RS256"); ("jwk_url", JStr "https://edge.cashflow.local/certs");
     ("issuer", JStr (po_Issuer DefaultPolicy)); ("audience", JArr [JStr (po_Audience DefaultPolicy)]);
     ("scopes", JArr (map JStr scopes)); ("scopes_matcher", JStr "all")]).
Definition sample_krakend (_ : string) : result json :=
  Ok (JObj [("version", JInt 3); ("timeout", JStr "5s");
    ("endpoints", JArr (map (fun r => sample_endpoint (fst r) [sample_validator_block (snd r)]) (ProtectedRoutes DefaultPolicy) ++
                        map (fun r => sample_endpoint r []) (PublicRoutes DefaultPolicy)))]).
Definition sample_url (_ : string) : result (string * string) := Ok ("https", "edge.cashflow.local").
Definition sample_kconfig : KConfig :=
  match Parse sample_krakend "" with Ok c => c | Err _ => {| kc_Version := 0; kc_Name := ""; kc_Port := 0; kc_Timeout := "";
    kc_ExtraConfig := []; kc_Endpoints := [] |} end.

Lemma edge_approved_witness :
  Validate sample_url (fun _ => "") sample_kconfig DefaultPolicy = [] /\
  map Route (kc_Endpoints sample_kconfig) ≡ₚ map fst (ProtectedRoutes DefaultPolicy) ++ PublicRoutes DefaultPolicy.
Proof.
  assert (Validate sample_url (fun _ => "") sample_kconfig DefaultPolicy = []) as H by (vm_compute; reflexivity).
  split; [exact H|].
  refine (proj1 (proj1 (edge_approved sample_krakend sample_url (fun _ => "") "" sample_kconfig DefaultPolicy _ _) H)).
  - apply (bool_decide_eq_true_1 (NoDup _)). vm_compute. reflexivity.
  - vm_compute. reflexivity.
Defined.
