(* ===== verification/TopologyMigration.v ===== *)
(** * The cutover of the event topology

    topology_migration.go moves the backlog of one queue to another and
    switches the bindings, forwards (upgrade) or back (rollback); the
    publisher's ensureChannel refuses a broker whose cutover is not marked.

    RabbitMQ is behind the class [AMQP]: the calls the command makes, each of
    which may fail.  [AMQPLaws] states what AMQP documents about them in terms
    of what can be observed of a broker: the messages a queue holds, the one
    delivered and not yet acknowledged, and the wiring.  A process that dies is
    a broker that refuses every later call: the requests it never sends and
    the ones that fail leave the same queues.  Nobody else publishes or
    consumes while the command runs: the runbook (deploy/rabbitmq/README.md)
    pauses the publishers, and that no consumer takes from the two queues
    meanwhile is assumed on top of it.

    [quoted] is %q, [url_parse] gives the scheme, the host and whether the URL
    holds credentials.  The TLS configuration and the timeouts are the
    broker's. *)

From S2P Require Import Prelude.
From S2P Require Import GoStrings.
From S2P Require Import Outbox.
From Stdlib Require String.
From Stdlib Require Import ZArith Lia Ascii.
Open Scope string_scope.
Open Scope Z_scope.

(** ** The AMQP library *)
Module Amqp.
Record Publishing : Type := {
  Headers : list (string * string); ContentType : string; ContentEncoding : string; DeliveryMode : Z; Priority : Z;
  CorrelationId : string; ReplyTo : string; Expiration : string; MessageId : string; Timestamp : Z; Type_ : string;
  UserId : string; AppId : string; Body : string }.
Record Delivery : Type := {
  d_Headers : list (string * string); d_ContentType : string; d_ContentEncoding : string; d_DeliveryMode : Z;
  d_Priority : Z; d_CorrelationId : string; d_ReplyTo : string; d_Expiration : string; d_MessageId : string;
  d_Timestamp : Z; d_Type : string; d_UserId : string; d_AppId : string; d_Body : string;
  d_DeliveryTag : Z; d_Redelivered : bool; d_Exchange : string; d_RoutingKey : string }.
Record exchange_spec : Type := { kind : string; durable : bool; internal : bool }.

(** What becomes of a publication whose confirm is awaited. *)
Inductive confirm : Type :=
  | SendFailed (e : error)
  | NoConfirmation
  | WaitFailed (e : error)
  | Answered (acked : bool).
End Amqp.
Notation table := (list (string * string)).

Class AMQP (B : Type) : Type := {
  Dial : string -> St B unit;
  OpenChannel : St B unit;
  CloseChannel : B -> B;
  CloseConnection : B -> B;
  ConfirmMode : St B unit;
  ExchangeDeclare : string -> Amqp.exchange_spec -> St B unit;
  ExchangeDeclarePassive : string -> Amqp.exchange_spec -> St B unit;
  ExchangeDelete : string -> St B unit;
  QueueDeclare : string -> table -> St B unit;
  QueueBind : string -> string -> string -> St B unit;
  QueueUnbind : string -> string -> string -> St B unit;
  Get : string -> St B (option Amqp.Delivery);
  PublishConfirmed : string -> string -> Amqp.Publishing -> B -> Amqp.confirm * B;
  AckDelivery : Amqp.Delivery -> St B unit;
  NackRequeue : Amqp.Delivery -> St B unit }.

(** ** The topologies *)
Definition topologyCutoverMarker : string := "ledger.outbox.topology.v2.ready".
Definition ErrTopologyUpgradeRequired : error := ESentinel "ErrTopologyUpgradeRequired".
Definition topic : Amqp.exchange_spec := {| Amqp.kind := "topic"; Amqp.durable := true; Amqp.internal := false |}.
Definition marker_spec : Amqp.exchange_spec := {| Amqp.kind := "fanout"; Amqp.durable := true; Amqp.internal := true |}.

Definition hardenedQueueArguments (t : Topology) : table :=
  [("x-queue-type", "quorum"); ("x-dead-letter-exchange", t_DLX t); ("x-dead-letter-routing-key", t_RoutingKey t);
   ("x-dead-letter-strategy", "at-least-once"); ("x-overflow", "reject-publish")].
Definition legacyArguments (t : Topology) : table :=
  [("x-queue-type", "quorum"); ("x-dead-letter-exchange", t_DLX t); ("x-dead-letter-routing-key", t_RoutingKey t)].
Definition quorum_only : table := [("x-queue-type", "quorum")].

Definition copyPublishing (d : Amqp.Delivery) : Amqp.Publishing :=
  {| Amqp.Headers := Amqp.d_Headers d; Amqp.ContentType := Amqp.d_ContentType d;
     Amqp.ContentEncoding := Amqp.d_ContentEncoding d; Amqp.DeliveryMode := Amqp.d_DeliveryMode d;
     Amqp.Priority := Amqp.d_Priority d; Amqp.CorrelationId := Amqp.d_CorrelationId d;
     Amqp.ReplyTo := Amqp.d_ReplyTo d; Amqp.Expiration := Amqp.d_Expiration d;
     Amqp.MessageId := Amqp.d_MessageId d; Amqp.Timestamp := Amqp.d_Timestamp d;
     Amqp.Type_ := Amqp.d_Type d; Amqp.UserId := Amqp.d_UserId d; Amqp.AppId := Amqp.d_AppId d;
     Amqp.Body := Amqp.d_Body d |}.

Section Program.
Context {B : Type} `{AMQP B} (quoted : string -> string).

Definition preflightExactLegacy (t : Topology) : St B unit :=
  _ ← wrap_st ("legacy topology preflight failed before mutation: exchange " +:+ quoted (t_Exchange t) +:+ " is not the 0ac21b5 resource")
        (ExchangeDeclarePassive (t_Exchange t) topic);
  _ ← wrap_st ("legacy topology preflight failed before mutation: DLX " +:+ quoted (t_DLX t) +:+ " is not the 0ac21b5 resource")
        (ExchangeDeclarePassive (t_DLX t) topic);
  _ ← wrap_st ("legacy topology preflight failed before mutation: queue " +:+ quoted (t_Queue t) +:+
               " arguments differ from 0ac21b5; pause and inspect manually")
        (QueueDeclare (t_Queue t) (legacyArguments t));
  wrap_st ("legacy topology preflight failed before mutation: DLQ " +:+ quoted (t_DLQ t) +:+ " differs from 0ac21b5")
    (QueueDeclare (t_DLQ t) quorum_only).

Definition preflightExactHardened (t : Topology) : St B unit :=
  _ ← wrap_st ("hardened topology preflight failed before rollback: queue " +:+ quoted (t_Queue t) +:+ " is absent or incompatible")
        (QueueDeclare (t_Queue t) (hardenedQueueArguments t));
  wrap_st ("hardened topology preflight failed before rollback: DLQ " +:+ quoted (t_DLQ t) +:+ " is absent or incompatible")
    (QueueDeclare (t_DLQ t) quorum_only).

Definition declareUnboundHardenedTopology (t : Topology) : St B unit :=
  _ ← wrap_st "declare Ledger exchange" (ExchangeDeclare (t_Exchange t) topic);
  _ ← wrap_st "declare Ledger dead-letter exchange" (ExchangeDeclare (t_DLX t) topic);
  _ ← wrap_st "declare versioned hardened queue" (QueueDeclare (t_Queue t) (hardenedQueueArguments t));
  _ ← wrap_st "declare versioned dead-letter queue" (QueueDeclare (t_DLQ t) quorum_only);
  wrap_st "bind versioned dead-letter queue" (QueueBind (t_DLQ t) (t_RoutingKey t) (t_DLX t)).

(** ** The migration command *)
Record TopologyMigrationConfig : Type := {
  URL : string; AllowInsecure : bool; ConfirmBudget : Z; AfterMove : option (string -> nat -> option error) }.
Record MigrationReport : Type := { Direction : string; Moved : nat }.

Definition dialMigration (url_parse : string -> result (string * string * bool)) (config : TopologyMigrationConfig) : St B unit :=
  if ConfirmBudget config <=? 0 then throw (EMsg "topology migration confirm budget must be positive")
  else match url_parse (URL config) with
       | Ok (scheme, host, true) =>
           if String.eqb host "" then throw (EMsg "topology migration requires a valid RabbitMQ URL with credentials")
           else if negb (String.eqb scheme "amqps") && negb (String.eqb scheme "amqp" && AllowInsecure config)
           then throw (EMsg "topology migration requires amqps unless insecure transport is explicitly enabled")
           else wrap_st "connect topology migration" (Dial (URL config))
       | _ => throw (EMsg "topology migration requires a valid RabbitMQ URL with credentials")
       end.

(** One pass of the loop over a delivery: copy, await the confirm, acknowledge. *)
Definition move (config : TopologyMigrationConfig) (direction : string) (dest : string) (d : Amqp.Delivery) : St B unit :=
  fun b =>
    let id := quoted (Amqp.d_MessageId d) in
    let abandon (e : error) (b : B) : result unit * B := (Err e, snd (NackRequeue d b)) in
    match PublishConfirmed "" dest (copyPublishing d) b with
    | (Amqp.SendFailed e, b) => abandon (EWrap ("copy " +:+ direction +:+ " backlog message " +:+ id) e) b
    | (Amqp.NoConfirmation, b) =>
        abandon (EMsg ("copy " +:+ direction +:+ " backlog message " +:+ id +:+ ": missing publisher confirm")) b
    | (Amqp.WaitFailed e, b) => abandon (EWrap ("confirm " +:+ direction +:+ " backlog message " +:+ id) e) b
    | (Amqp.Answered false, b) =>
        abandon (EMsg ("confirm " +:+ direction +:+ " backlog message " +:+ id +:+ ": ack=false")) b
    | (Amqp.Answered true, b) =>
        wrap_st ("ack " +:+ direction +:+ " source message " +:+ id +:+ " after confirm") (AckDelivery d) b
    end.

(** [None] when the fuel runs out. *)
Fixpoint move_backlog (fuel : nat) (config : TopologyMigrationConfig) (direction source dest : string) (moved : nat) (b : B)
  : option (nat * result unit * B) :=
  match fuel with
  | O => None
  | S fuel' =>
      match wrap_st ("read " +:+ direction +:+ " backlog") (Get source) b with
      | (Err e, b) => Some (moved, Err e, b)
      | (Ok None, b) => Some (moved, Ok tt, b)
      | (Ok (Some d), b) =>
          match move config direction dest d b with
          | (Err e, b) => Some (moved, Err e, b)
          | (Ok _, b) =>
              match AfterMove config with
              | Some hook =>
                  match hook (Amqp.d_MessageId d) (S moved) with
                  | Some e => Some (S moved, Err (EWrap (direction +:+ " interrupted after confirmed moves") e), b)
                  | None => move_backlog fuel' config direction source dest (S moved) b
                  end
              | None => move_backlog fuel' config direction source dest (S moved) b
              end
          end
      end
  end.

(** The bindings, and the marker that commits an upgrade. *)
Definition switch_bindings (direction : string) (source dest : Topology) (upgrade : bool) : St B unit :=
  _ ← wrap_st ("activate " +:+ direction +:+ " destination binding") (QueueBind (t_Queue dest) (t_RoutingKey dest) (t_Exchange dest));
  _ ← wrap_st ("deactivate " +:+ direction +:+ " source binding") (QueueUnbind (t_Queue source) (t_RoutingKey source) (t_Exchange source));
  _ ← wrap_st ("activate " +:+ direction +:+ " destination dead-letter binding") (QueueBind (t_DLQ dest) (t_RoutingKey dest) (t_DLX dest));
  _ ← wrap_st ("deactivate " +:+ direction +:+ " source dead-letter binding") (QueueUnbind (t_DLQ source) (t_RoutingKey source) (t_DLX source));
  if upgrade then wrap_st "commit topology cutover marker" (ExchangeDeclare topologyCutoverMarker marker_spec) else mret tt.

Definition prepare_channel (source dest : Topology) (upgrade : bool) : St B unit :=
  _ ← preflightExactLegacy LegacyTopology;
  _ ← (if upgrade then declareUnboundHardenedTopology dest else preflightExactHardened source);
  wrap_st "enable migration publisher confirms" ConfirmMode.

Definition disable_publishers (upgrade : bool) : St B unit :=
  if upgrade then mret tt else wrap_st "disable v2 publishers before rollback" (ExchangeDelete topologyCutoverMarker).

Definition direction_of (upgrade : bool) : string := if upgrade then "upgrade" else "rollback".

(** The channel is closed by the deferred call once it is open. *)
Definition migrate_channel (fuel : nat) (config : TopologyMigrationConfig) (source dest : Topology) (upgrade : bool) (b : B)
  : option (nat * result unit * B) :=
  let direction := direction_of upgrade in
  match prepare_channel source dest upgrade b with
  | (Err e, b) => Some (O, Err e, b)
  | (Ok _, b) =>
      match move_backlog fuel config direction (t_Queue source) (t_Queue dest) O b with
      | Some (moved, Ok _, b) => let '(r, b) := switch_bindings direction source dest upgrade b in Some (moved, r, b)
      | stopped => stopped
      end
  end.

Definition migrate_open (fuel : nat) (config : TopologyMigrationConfig) (source dest : Topology) (upgrade : bool) (b : B)
  : option (nat * result unit * B) :=
  match wrap_st "open topology migration channel" OpenChannel b with
  | (Err e, b) => Some (O, Err e, b)
  | (Ok _, b) => '(moved, r, b) ← migrate_channel fuel config source dest upgrade b; Some (moved, r, CloseChannel b)
  end.

Definition migrate_connection (fuel : nat) (config : TopologyMigrationConfig) (source dest : Topology) (upgrade : bool) (b : B)
  : option (nat * result unit * B) :=
  match wrap_st "open topology preflight channel" OpenChannel b with
  | (Err e, b) => Some (O, Err e, b)
  | (Ok _, b) =>
      match disable_publishers upgrade b with
      | (Err e, b) => Some (O, Err e, CloseChannel b)
      | (Ok _, b) => migrate_open fuel config source dest upgrade (CloseChannel b)
      end
  end.

Definition migrateTopology (fuel : nat) (url_parse : string -> result (string * string * bool))
    (config : TopologyMigrationConfig) (source dest : Topology) (upgrade : bool) (b : B)
  : option (MigrationReport * result unit * B) :=
  let report moved := {| Direction := direction_of upgrade; Moved := moved |} in
  match dialMigration url_parse config b with
  | (Err e, b) => Some (report O, Err e, b)
  | (Ok _, b) =>
      '(moved, r, b) ← migrate_connection fuel config source dest upgrade b; Some (report moved, r, CloseConnection b)
  end.

Definition UpgradeTopology fuel url_parse config : B -> option (MigrationReport * result unit * B) :=
  migrateTopology fuel url_parse config LegacyTopology DefaultTopology true.
Definition RollbackTopology fuel url_parse config : B -> option (MigrationReport * result unit * B) :=
  migrateTopology fuel url_parse config DefaultTopology LegacyTopology false.

(** ** The publisher's channel *)
Definition requireTopologyCutover : St B unit :=
  fun b => match ExchangeDeclarePassive topologyCutoverMarker marker_spec b with
           | (Ok _, b) => (Ok tt, b)
           | (Err _, b) => (Err (EWrap "run outbox-topology upgrade before starting publishers" ErrTopologyUpgradeRequired), b)
           end.

Definition declareTopology (t : Topology) : St B unit :=
  _ ← wrap_st "declare Ledger exchange" (ExchangeDeclare (t_Exchange t) topic);
  _ ← wrap_st "declare Ledger dead-letter exchange" (ExchangeDeclare (t_DLX t) topic);
  _ ← wrap_st "declare consolidation queue" (QueueDeclare (t_Queue t) (hardenedQueueArguments t));
  _ ← wrap_st "bind consolidation queue" (QueueBind (t_Queue t) (t_RoutingKey t) (t_Exchange t));
  _ ← wrap_st "declare consolidation dead-letter queue" (QueueDeclare (t_DLQ t) quorum_only);
  wrap_st "bind consolidation dead-letter queue" (QueueBind (t_DLQ t) (t_RoutingKey t) (t_DLX t)).

(** The handles a publisher holds, and whether the library has closed them. *)
Record link : Type := { held_handles : bool; conn_open : bool; channel_open : bool }.
Definition no_link : link := {| held_handles := false; conn_open := false; channel_open := false |}.
Definition new_link : link := {| held_handles := true; conn_open := true; channel_open := true |}.
Definition resetLocked (l : link) (b : B) : B :=
  let b := if held_handles l && channel_open l then CloseChannel b else b in
  if held_handles l && conn_open l then CloseConnection b else b.

(** [Close]: the socket is interrupted first, so the closes below usually meet a
    connection that is gone.  [from_channel] and [from_conn] are their answers,
    [protocol_code] the code of an AMQP error, [error_text] err.Error(). *)
Definition ignoreAlreadyClosed (protocol_code : error -> option Z) (error_text : error -> string) (err : option error) : option error :=
  match err with
  | None => None
  | Some e =>
      if errors_is e "amqp091.ErrClosed" || errors_is e "net.ErrClosed" then None
      else if match errors_as protocol_code e with Some c => c =? 504 | None => false end then None
      else if contains_sub "use of closed network connection" (to_lower (error_text e)) then None
      else Some e
  end.
Definition Close (protocol_code : error -> option Z) (error_text : error -> string) (from_channel from_conn : option error) (l : link) (b : B)
  : option error * link * B :=
  let first := if held_handles l && channel_open l then ignoreAlreadyClosed protocol_code error_text from_channel else None in
  let second := if held_handles l && conn_open l then ignoreAlreadyClosed protocol_code error_text from_conn else None in
  (match first with Some e => Some e | None => second end, no_link, resetLocked l b).

(** [ctx_err] is the context's error, [remaining] the time to its deadline. *)
Definition ensureChannel (ctx_err : option error) (remaining : option Z) (url : string) (t : Topology) (l : link) (b : B)
  : result unit * link * B :=
  match ctx_err with
  | Some e => (Err e, l, b)
  | None =>
      if held_handles l && conn_open l && channel_open l then (Ok tt, l, b)
      else
        let b := resetLocked l b in
        let connectTimeout := match remaining with Some r => Z.min r 5000000000 | None => 5000000000 end in
        if connectTimeout <=? 0 then (Err (ESentinel "context.DeadlineExceeded"), no_link, b)
        else
          match wrap_st "connect RabbitMQ" (Dial url) b with
          | (Err e, b) => (Err e, no_link, b)
          | (Ok _, b) =>
              match wrap_st "open RabbitMQ channel" OpenChannel b with
              | (Err e, b) => (Err e, no_link, CloseConnection b)
              | (Ok _, b) =>
                  match (_ ← requireTopologyCutover; _ ← declareTopology t;
                         wrap_st "enable RabbitMQ publisher confirms" ConfirmMode) b with
                  | (Err e, b) => (Err e, no_link, CloseConnection (CloseChannel b))
                  | (Ok _, b) => (Ok tt, new_link, b)
                  end
              end
          end
  end.

(** The consumer of the consolidation declares the same resources. *)
Definition consumer_declareTopology (t : Topology) : St B unit :=
  let mismatch what (m : St B unit) : St B unit :=
    fun b => match m b with
             | (Err _, b) => (Err (EWrap what (ESentinel "ErrTopologyMismatch")), b)
             | ok => ok
             end in
  _ ← mismatch "declare Ledger exchange" (ExchangeDeclare (t_Exchange t) topic);
  _ ← mismatch "declare Ledger dead-letter exchange" (ExchangeDeclare (t_DLX t) topic);
  _ ← mismatch "declare consolidation queue" (QueueDeclare (t_Queue t) (hardenedQueueArguments t));
  _ ← wrap_st "bind consolidation queue" (QueueBind (t_Queue t) (t_RoutingKey t) (t_Exchange t));
  _ ← mismatch "declare consolidation dead-letter queue" (QueueDeclare (t_DLQ t) quorum_only);
  wrap_st "bind consolidation dead-letter queue" (QueueBind (t_DLQ t) (t_RoutingKey t) (t_DLX t)).
End Program.

(** ** What AMQP promises *)
Record wiring : Type := {
  exchanges : gset string; queues : gset string; bindings : gset (string * string * string) }.

Class Observed (B : Type) : Type := {
  held : B -> string -> list Amqp.Publishing;
  outstanding : B -> option (string * Amqp.Publishing);
  wired : B -> wiring }.

Section Observations.
Context {B : Type} `{Observed B}.

(** Every queue holds the same messages, in the same order or in some order. *)
Definition kept (b b' : B) : Prop := forall q, held b' q = held b q.
Definition shuffled (b b' : B) : Prop := forall q, held b' q ≡ₚ held b q.
Definition gained (q : string) (p : Amqp.Publishing) (b b' : B) : Prop :=
  held b' q ≡ₚ p :: held b q /\ forall q', q' <> q -> held b' q' ≡ₚ held b q'.

(** A call that concerns the wiring alone: an answer means it took effect. *)
Definition control {A} (f : wiring -> wiring) (m : St B A) : Prop :=
  forall b r b', m b = (r, b') ->
    shuffled b b' /\
    (is_ok r = true -> kept b b' /\ outstanding b' = outstanding b /\ wired b' = f (wired b)) /\
    (wired b' = wired b \/ wired b' = f (wired b)).

Definition with_exchange (x : string) (w : wiring) : wiring :=
  {| exchanges := {[x]} ∪ exchanges w; queues := queues w; bindings := bindings w |}.
Definition without_exchange (x : string) (w : wiring) : wiring :=
  {| exchanges := exchanges w ∖ {[x]}; queues := queues w; bindings := filter (fun t => t.1.1 <> x) (bindings w) |}.
Definition with_queue (q : string) (w : wiring) : wiring :=
  {| exchanges := exchanges w; queues := {[q]} ∪ queues w; bindings := bindings w |}.
Definition with_binding (q k x : string) (w : wiring) : wiring :=
  {| exchanges := exchanges w; queues := queues w; bindings := {[(x, k, q)]} ∪ bindings w |}.
Definition without_binding (q k x : string) (w : wiring) : wiring :=
  {| exchanges := exchanges w; queues := queues w; bindings := bindings w ∖ {[(x, k, q)]} |}.

Definition carries (d : Amqp.Delivery) (p : Amqp.Publishing) : Prop :=
  (Amqp.d_Headers d = Amqp.Headers p /\ Amqp.d_ContentType d = Amqp.ContentType p /\
   Amqp.d_ContentEncoding d = Amqp.ContentEncoding p /\ Amqp.d_DeliveryMode d = Amqp.DeliveryMode p /\
   Amqp.d_Priority d = Amqp.Priority p /\ Amqp.d_CorrelationId d = Amqp.CorrelationId p /\
   Amqp.d_ReplyTo d = Amqp.ReplyTo p) /\
  (Amqp.d_Expiration d = Amqp.Expiration p /\ Amqp.d_MessageId d = Amqp.MessageId p /\
   Amqp.d_Timestamp d = Amqp.Timestamp p /\ Amqp.d_Type d = Amqp.Type_ p /\ Amqp.d_UserId d = Amqp.UserId p /\
   Amqp.d_AppId d = Amqp.AppId p /\ Amqp.d_Body d = Amqp.Body p).
End Observations.

Class AMQPLaws (B : Type) `{AMQP B} `{Observed B} : Prop := {
  dial_law url b r b' : Dial url b = (r, b') ->
    wired b' = wired b /\ shuffled b b' /\ (r = Ok tt -> kept b b' /\ outstanding b' = None);
  open_law : control id (OpenChannel (B := B));
  confirm_law : control id (ConfirmMode (B := B));
  close_channel_law b : wired (CloseChannel b) = wired b /\ shuffled b (CloseChannel b) /\
    (outstanding b = None -> kept b (CloseChannel b) /\ outstanding (CloseChannel b) = None);
  close_connection_law b : wired (CloseConnection b) = wired b /\ shuffled b (CloseConnection b) /\
    (outstanding b = None -> kept b (CloseConnection b) /\ outstanding (CloseConnection b) = None);
  declare_law x s : control (with_exchange x) (ExchangeDeclare (B := B) x s);
  passive_law x s : control id (ExchangeDeclarePassive (B := B) x s);
  passive_exists x s b b' : ExchangeDeclarePassive x s b = (Ok tt, b') -> x ∈ exchanges (wired b);
  delete_law x : control (without_exchange x) (ExchangeDelete (B := B) x);
  queue_law q a : control (with_queue q) (QueueDeclare (B := B) q a);
  bind_law q k x : control (with_binding q k x) (QueueBind (B := B) q k x);
  unbind_law q k x : control (without_binding q k x) (QueueUnbind (B := B) q k x);
  (** A requeued message may go to the back of its queue. *)
  nack_law d b r b' : NackRequeue d b = (r, b') -> wired b' = wired b /\ shuffled b b';
  get_law q b r b' : outstanding b = None -> Get q b = (r, b') -> wired b' = wired b /\
    match r with
    | Ok (Some d) => kept b b' /\ exists p rest, held b q = p :: rest /\ carries d p /\ outstanding b' = Some (q, p)
    | Ok None => kept b b' /\ held b q = [] /\ outstanding b' = None
    | Err _ => shuffled b b'
    end;
  (** The default exchange routes to the queue the key names. *)
  publish_law q p b c b' : q ∈ queues (wired b) -> PublishConfirmed "" q p b = (c, b') -> wired b' = wired b /\
    match c with
    | Amqp.Answered true => outstanding b' = outstanding b /\ held b' q = (held b q ++ [p])%list /\
        forall q', q' <> q -> held b' q' = held b q'
    | _ => shuffled b b' \/ gained q p b b'
    end;
  ack_law q d p rest b r b' : outstanding b = Some (q, p) -> carries d p -> held b q = p :: rest -> AckDelivery d b = (r, b') ->
    wired b' = wired b /\
    match r with
    | Ok _ => held b' q = rest /\ (forall q', q' <> q -> held b' q' = held b q') /\ outstanding b' = None
    | Err _ => shuffled b b' \/ gained q p b' b
    end }.

Lemma copyPublishing_faithful d p : carries d p -> copyPublishing d = p.
Proof.
  destruct p. unfold carries, copyPublishing. cbn.
  intros [(-> & -> & -> & -> & -> & -> & ->) (-> & -> & -> & -> & -> & -> & ->)]. done.
Qed.

(** ** Programs over the wiring *)
Section Programs.
Context {B : Type} `{Laws : AMQPLaws B}.
Implicit Types b : B.

Lemma kept_shuffled b b' : kept b b' -> shuffled b b'.
Proof. intros E q. by rewrite E. Qed.
#[global] Instance kept_preorder : PreOrder (kept (B := B)).
Proof. split; [done|]. intros a b c E1 E2 q. by rewrite E2. Qed.
#[global] Instance shuffled_preorder : PreOrder (shuffled (B := B)).
Proof. split; [by intros b q|]. intros a b c E1 E2 q. by rewrite (E2 q). Qed.

Definition marked (w : wiring) : Prop := topologyCutoverMarker ∈ exchanges w.

(** A program that rewires by [f] when it succeeds, and never marks the cutover. *)
Definition steady {A} (f : wiring -> wiring) (m : St B A) : Prop :=
  forall b r b', m b = (r, b') ->
    shuffled b b' /\
    (is_ok r = true -> kept b b' /\ outstanding b' = outstanding b /\ wired b' = f (wired b)) /\
    (marked (wired b') -> marked (wired b)).
Definition answers {A} (m : St B A) : Prop := forall b, is_ok (fst (m b)) = true.

Lemma control_steady {A} f (m : St B A) : control f m -> (forall w, marked (f w) -> marked w) -> steady f m.
Proof.
  intros Hc Hf b r b' E. destruct (Hc _ _ _ E) as (Hs & Ho & Hw). split; [done|]. split; [done|].
  destruct Hw as [-> | ->]; auto.
Qed.
Lemma steady_ret {A} (x : A) : steady id (mret x : St B A).
Proof. intros b r b' [= <- <-]. by split. Qed.
Lemma steady_wrap {A} f what (m : St B A) : steady f m -> steady f (wrap_st what m).
Proof.
  intros Hm b r b'. unfold wrap_st. destruct (m b) as [r1 b1] eqn:E. intros [= <- <-].
  destruct (Hm _ _ _ E) as (Hs & Ho & Hw). split; [done|]. split; [by destruct r1|done].
Qed.
Lemma steady_bind {A C} f g (m : St B A) (k : A -> St B C) :
  steady f m -> (forall x, steady g (k x)) -> steady (g ∘ f) (x ← m; k x).
Proof.
  intros Hm Hk b r b'. unfold mbind, st_bind. destruct (m b) as [[x|e] b1] eqn:E; destruct (Hm _ _ _ E) as (Hs & Ho & Hw).
  - intros E2. destruct (Hk _ _ _ _ E2) as (Hs2 & Ho2 & Hw2). destruct (Ho eq_refl) as (K1 & K2 & K3).
    split; [by etrans|]. split; [|auto]. intros Hr. destruct (Ho2 Hr) as (K4 & K5 & K6).
    split; [by etrans|]. split; [by rewrite K5|]. cbn. by rewrite K6, K3.
  - intros [= <- <-]. split; [done|]. split; [done|auto].
Qed.

Lemma answers_wrap {A} what (m : St B A) : answers m -> answers (wrap_st what m).
Proof. intros Hm b. unfold wrap_st. specialize (Hm b). by destruct (m b) as [[] ?]. Qed.
Lemma answers_bind {A C} (m : St B A) (k : A -> St B C) : answers m -> (forall x, answers (k x)) -> answers (x ← m; k x).
Proof. intros Hm Hk b. unfold mbind, st_bind. specialize (Hm b). destruct (m b) as [[] ?]; [apply Hk|done]. Qed.
End Programs.

Create HintDb amqp discriminated.
#[export] Hint Resolve steady_ret answers_wrap answers_bind : amqp.

(** ** What two queues hold between them *)
Section Covering.
Context {B : Type} `{Observed B}.
Implicit Types b : B.

(** Nothing of the two queues is lost or made up, and the others keep theirs. *)
Definition covers (s d : string) (b b' : B) : Prop :=
  (held b s ++ held b d)%list ⊆+ (held b' s ++ held b' d)%list /\
  (forall p, p ∈ (held b' s ++ held b' d)%list -> p ∈ (held b s ++ held b d)%list) /\
  (forall q, q <> s -> q <> d -> held b' q ≡ₚ held b q).

#[global] Instance covers_preorder s d : PreOrder (covers s d).
Proof.
  split.
  - intros b. split; [done|]. split; [done|]. intros q _ _. done.
  - intros a b c (E1 & E2 & E3) (F1 & F2 & F3). split; [by etrans|]. split; [auto|].
    intros q Hs Hd. rewrite (F3 q Hs Hd). auto.
Qed.
Lemma covers_swap s d b b' : covers s d b b' -> covers d s b b'.
Proof.
  intros (E1 & E2 & E3). split; [|split].
  - by rewrite (Permutation_app_comm (held b d)), (Permutation_app_comm (held b' d)).
  - intros p. rewrite (Permutation_app_comm (held b d)), (Permutation_app_comm (held b' d)). auto.
  - auto.
Qed.
Lemma shuffled_covers s d b b' : shuffled b b' -> covers s d b b'.
Proof.
  intros Hs. split; [|split].
  - by rewrite (Hs s), (Hs d).
  - intros p. by rewrite (Hs s), (Hs d).
  - auto.
Qed.
Lemma gained_covers s d p b b' : s <> d -> p ∈ held b s -> gained d p b b' -> covers s d b b'.
Proof.
  intros Hsd Hp [Hd Ho]. split; [|split].
  - rewrite Hd, (Ho s Hsd). apply submseteq_skips_l. by apply submseteq_cons.
  - intros x. rewrite Hd, (Ho s Hsd), !elem_of_app, elem_of_cons. intros [?|[-> | ?]]; auto.
  - auto.
Qed.
(** The source gives up a message the destination has received. *)
Lemma lost_covers s d p b b' : s <> d -> gained s p b' b -> p ∈ held b d ->
  forall b0, covers s d b0 b -> (held b0 s ++ held b0 d)%list ⊆+ (held b' s ++ held b' d)%list -> covers s d b0 b'.
Proof.
  intros Hsd [Hs Ho] Hp b0 (E1 & E2 & E3) E4. split; [done|]. split.
  - intros x Hx. apply E2. rewrite Hs. rewrite (Ho d) by done. rewrite elem_of_app, elem_of_cons in *. tauto.
  - intros q H1 H2. rewrite <- (Ho q H1). auto.
Qed.
End Covering.

(** ** The loop *)
Section Loop.
Context {B : Type} `{Laws : AMQPLaws B} (quoted : string -> string) (config : TopologyMigrationConfig) (direction s d : string).
Context (distinct : s <> d).
Implicit Types b : B.

(** A broker that answers every call, and confirms what it can route. *)
Record Reliable : Prop := {
  reliable_dial url : answers (Dial (B := B) url);
  reliable_open : answers (OpenChannel (B := B));
  reliable_confirm : answers (ConfirmMode (B := B));
  reliable_declare x sp : answers (ExchangeDeclare (B := B) x sp);
  reliable_passive x sp b : x ∈ exchanges (wired b) -> is_ok (fst (ExchangeDeclarePassive x sp b)) = true;
  reliable_delete x : answers (ExchangeDelete (B := B) x);
  reliable_queue q a : answers (QueueDeclare (B := B) q a);
  reliable_bind q k x : answers (QueueBind (B := B) q k x);
  reliable_unbind q k x : answers (QueueUnbind (B := B) q k x);
  reliable_get q : answers (Get (B := B) q);
  reliable_publish q p b : q ∈ queues (wired b) -> fst (PublishConfirmed "" q p b) = Amqp.Answered true;
  reliable_ack dl : answers (AckDelivery (B := B) dl) }.

(** One message: either it moved, or the two queues still hold it between them. *)
Lemma move_spec dl p rest b r b' :
  outstanding b = Some (s, p) -> carries dl p -> held b s = p :: rest -> d ∈ queues (wired b) ->
  move quoted config direction d dl b = (r, b') ->
  wired b' = wired b /\ covers s d b b' /\ (Reliable -> r = Ok tt) /\
  (is_ok r = true -> held b' s = rest /\ held b' d = (held b d ++ [p])%list /\ outstanding b' = None /\
    forall q, q <> s -> q <> d -> held b' q = held b q).
Proof.
  intros Ho Hc Hh Hq. unfold move. rewrite (copyPublishing_faithful _ _ Hc).
  destruct (PublishConfirmed "" d p b) as [c b1] eqn:Ep. destruct (publish_law _ _ _ _ _ Hq Ep) as [W1 P1].
  assert (p ∈ held b s) as Hp by (rewrite Hh; left).
  assert (forall e, (shuffled b b1 \/ gained d p b b1) -> c <> Amqp.Answered true -> (Err e, snd (NackRequeue dl b1)) = (r, b') ->
    wired b' = wired b /\ covers s d b b' /\ (Reliable -> r = Ok tt) /\
    (is_ok r = true -> held b' s = rest /\ held b' d = (held b d ++ [p])%list /\ outstanding b' = None /\
      forall q, q <> s -> q <> d -> held b' q = held b q)) as Habandon.
  { intros e Hb Hne [= <- <-]. destruct (NackRequeue dl b1) as [rn bn] eqn:En. destruct (nack_law _ _ _ _ En) as (N2 & N1).
    cbn [snd]. split; [by rewrite N2|]. split; [|split; [|done]].
    - transitivity b1; [destruct Hb; [by apply shuffled_covers|by eapply gained_covers]|by apply shuffled_covers].
    - intros HR. destruct Hne. by rewrite <- (reliable_publish HR d p b Hq), Ep. }
  destruct c as [e| |e|[]]; [by apply Habandon..| |by apply Habandon].
  destruct P1 as (O1 & D1 & K1). unfold wrap_st. destruct (AckDelivery dl b1) as [ra ba] eqn:Ea. intros [= <- <-].
  assert (held b1 s = p :: rest) as Hh1 by (rewrite K1; done).
  destruct (ack_law _ _ _ rest _ _ _ (eq_trans O1 Ho) Hc Hh1 Ea) as [W2 A2].
  assert (covers s d b b1) as Hc1.
  { eapply gained_covers; [done..|]. split; [rewrite D1; symmetry; apply Permutation_cons_append|]. intros q Hq'. by rewrite K1. }
  assert (gained s p ba b1 -> covers s d b ba) as Hlost.
  { intros Hg. eapply lost_covers; [done..| |exact Hc1|]; [rewrite D1; set_solver|].
    destruct Hg as [G1 G2]. rewrite <- (G2 d) by done. rewrite D1, Hh. cbn.
    rewrite Hh1 in G1. apply Permutation_cons_inv in G1. rewrite <- G1.
    by rewrite (Permutation_app_comm (held b d) [p]), (Permutation_middle rest). }
  split; [congruence|]. split; [|split].
  - destruct ra as [u|e].
    + destruct A2 as (A3 & A4 & A5). apply Hlost. split; [by rewrite Hh1, A3|]. intros q Hn. by rewrite A4.
    + destruct A2 as [A3|A3]; [|by apply Hlost]. transitivity b1; [done|by apply shuffled_covers].
  - intros HR. pose proof (reliable_ack HR dl b1) as Hr. rewrite Ea in Hr. by destruct ra as [[]|].
  - destruct ra as [u|e]; [|done]. intros _. destruct A2 as (A3 & A4 & A5).
    split; [done|]. split; [rewrite A4 by done; by rewrite D1|]. split; [done|].
    intros q H1 H2. by rewrite A4, K1.
Qed.

(** The loop ends, and unless a call failed the backlog is at the destination. *)
Lemma move_backlog_spec fuel moved b :
  outstanding b = None -> d ∈ queues (wired b) -> (length (held b s) < fuel)%nat ->
  exists n r b', move_backlog quoted fuel config direction s d moved b = Some (n, r, b') /\
    wired b' = wired b /\ covers s d b b' /\ (moved <= n)%nat /\
    (Reliable -> AfterMove config = None -> r = Ok tt) /\
    (is_ok r = true -> held b' s = [] /\ held b' d = (held b d ++ held b s)%list /\ outstanding b' = None /\
      n = (moved + length (held b s))%nat /\ forall q, q <> s -> q <> d -> held b' q = held b q).
Proof.
  revert moved b. induction fuel as [|fuel IH]; intros moved b Ho Hq Hf; [lia|]. cbn [move_backlog]. unfold wrap_st.
  destruct (Get s b) as [rg b1] eqn:Eg. destruct (get_law _ _ _ _ Ho Eg) as [W1 G1].
  destruct rg as [[dl|]|e]; cbn [wrap_err].
  - destruct G1 as (K1 & p & rest & Hh & Hc & O1). rewrite <- K1 in Hh.
    destruct (move quoted config direction d dl b1) as [rm b2] eqn:Em.
    destruct (move_spec dl p rest b1 rm b2) as (W2 & C2 & R2 & D2); [done..|by rewrite W1|done|].
    assert (covers s d b b2) as C3 by (transitivity b1; [by apply shuffled_covers, kept_shuffled|done]).
    destruct rm as [u|e].
    + destruct (D2 eq_refl) as (H1 & H2 & O2 & H3). rewrite K1 in Hh. rewrite K1 in H2.
      assert (exists n r b', move_backlog quoted fuel config direction s d (S moved) b2 = Some (n, r, b') /\
        wired b' = wired b /\ covers s d b b' /\ (moved <= n)%nat /\
        (Reliable -> AfterMove config = None -> r = Ok tt) /\
        (is_ok r = true -> held b' s = [] /\ held b' d = (held b d ++ held b s)%list /\ outstanding b' = None /\
          n = (moved + length (held b s))%nat /\ forall q, q <> s -> q <> d -> held b' q = held b q)) as Hrec.
      { destruct (IH (S moved) b2) as (n & r & b' & E & W & C & L & R & D);
          [done|by rewrite W2, W1|rewrite H1; rewrite Hh in Hf; cbn in Hf; lia|].
        exists n, r, b'. split; [done|]. split; [congruence|]. split; [by etrans|]. split; [lia|]. split; [done|].
        intros Hr. destruct (D Hr) as (D3 & D4 & D5 & D6 & D7). split; [done|].
        split; [rewrite D4, H2, H1, Hh, <- app_assoc; done|]. split; [done|].
        split; [rewrite D6, H1, Hh; cbn; lia|]. intros q Hs Hd. by rewrite D7, H3, K1. }
      destruct (AfterMove config) as [hook|]; [|done]. destruct (hook _ _); [|].
      * eexists _, _, _. split; [done|]. split; [congruence|]. split; [done|]. split; [lia|]. done.
      * destruct Hrec as (n & r & b' & Hrec). exists n, r, b'. naive_solver.
    + eexists _, _, _. split; [done|]. split; [congruence|]. split; [done|]. split; [lia|]. split; [|done].
      intros HR _. by specialize (R2 HR).
  - destruct G1 as (K1 & E0 & O1). exists moved, (Ok tt), b1. split; [done|]. split; [done|].
    split; [by apply shuffled_covers, kept_shuffled|]. split; [lia|]. split; [done|]. intros _.
    rewrite !K1, E0, app_nil_r. splits; done.
  - eexists _, _, _. split; [done|]. split; [done|]. split; [by apply shuffled_covers|]. split; [lia|]. split; [|done].
    intros HR _. pose proof (reliable_get HR s b) as Hr. by rewrite Eg in Hr.
Qed.
End Loop.

(** ** The command *)
Definition source_of (upgrade : bool) : Topology := if upgrade then LegacyTopology else DefaultTopology.
Definition dest_of (upgrade : bool) : Topology := if upgrade then DefaultTopology else LegacyTopology.
Definition from (upgrade : bool) : string := t_Queue (source_of upgrade).
Definition to (upgrade : bool) : string := t_Queue (dest_of upgrade).

(** Where the events and the dead letters go, and that publishers may start. *)
Definition switched (upgrade : bool) (w : wiring) : Prop :=
  let s := source_of upgrade in let t := dest_of upgrade in
  ((t_Exchange t, t_RoutingKey t, t_Queue t) ∈ bindings w /\ (t_Exchange s, t_RoutingKey s, t_Queue s) ∉ bindings w) /\
  ((t_DLX t, t_RoutingKey t, t_DLQ t) ∈ bindings w /\ (t_DLX s, t_RoutingKey s, t_DLQ s) ∉ bindings w).

Section Command.
Context {B : Type} `{Laws : AMQPLaws B}.
Implicit Types b : B.

Lemma from_to upgrade : from upgrade <> to upgrade.
Proof. by destruct upgrade. Qed.

(** Programs that may mark the cutover, with their last call. *)
Definition commits {A} (f : wiring -> wiring) (m : St B A) : Prop :=
  forall b r b', m b = (r, b') ->
    shuffled b b' /\
    (is_ok r = true -> kept b b' /\ outstanding b' = outstanding b /\ wired b' = f (wired b)) /\
    (marked (wired b') -> marked (wired b) \/ wired b' = f (wired b)).
Lemma control_commits {A} f (m : St B A) : control f m -> commits f m.
Proof. intros Hc b r b' E. destruct (Hc _ _ _ E) as (Hs & Ho & [Hw|Hw]); (split; [done|]); (split; [done|]); [rewrite Hw|]; auto. Qed.
Lemma steady_commits {A} f (m : St B A) : steady f m -> commits f m.
Proof. intros Hc b r b' E. destruct (Hc _ _ _ E) as (Hs & Ho & Hw). split; [done|]. split; [done|auto]. Qed.
Lemma commits_wrap {A} f what (m : St B A) : commits f m -> commits f (wrap_st what m).
Proof.
  intros Hm b r b'. unfold wrap_st. destruct (m b) as [r1 b1] eqn:E. intros [= <- <-].
  destruct (Hm _ _ _ E) as (Hs & Ho & Hw). split; [done|]. split; [by destruct r1|done].
Qed.
Lemma commits_bind {A C} f g (m : St B A) (k : A -> St B C) :
  steady f m -> (forall x, commits g (k x)) -> commits (g ∘ f) (x ← m; k x).
Proof.
  intros Hm Hk b r b'. unfold mbind, st_bind. destruct (m b) as [[x|e] b1] eqn:E; destruct (Hm _ _ _ E) as (Hs & Ho & Hw).
  - intros E2. destruct (Hk _ _ _ _ E2) as (Hs2 & Ho2 & Hw2). destruct (Ho eq_refl) as (K1 & K2 & K3).
    split; [by etrans|]. split.
    + intros Hr. destruct (Ho2 Hr) as (K4 & K5 & K6). split; [by etrans|]. split; [by rewrite K5|]. cbn. by rewrite K6, K3.
    + cbn. rewrite <- K3. intros Hm'. destruct (Hw2 Hm'); auto.
  - intros [= <- <-]. split; [done|]. split; [done|auto].
Qed.

Lemma call_declare x sp what : x <> topologyCutoverMarker -> steady (B := B) (with_exchange x) (wrap_st what (ExchangeDeclare x sp)).
Proof. intros Hx. apply steady_wrap, control_steady; [apply declare_law|]. unfold marked. cbn. set_solver. Qed.
Lemma call_passive x sp what : steady (B := B) id (wrap_st what (ExchangeDeclarePassive x sp)).
Proof. apply steady_wrap, control_steady; [apply passive_law|done]. Qed.
Lemma call_queue q a what : steady (B := B) (with_queue q) (wrap_st what (QueueDeclare q a)).
Proof. apply steady_wrap, control_steady; [apply queue_law|done]. Qed.
Lemma call_bind q k x what : steady (B := B) (with_binding q k x) (wrap_st what (QueueBind q k x)).
Proof. apply steady_wrap, control_steady; [apply bind_law|done]. Qed.
Lemma call_unbind q k x what : steady (B := B) (without_binding q k x) (wrap_st what (QueueUnbind q k x)).
Proof. apply steady_wrap, control_steady; [apply unbind_law|done]. Qed.
Lemma call_confirm what : steady (B := B) id (wrap_st what ConfirmMode).
Proof. apply steady_wrap, control_steady; [apply confirm_law|done]. Qed.
Lemma call_open what : steady (B := B) id (wrap_st what OpenChannel).
Proof. apply steady_wrap, control_steady; [apply open_law|done]. Qed.
Lemma call_delete x what : steady (B := B) (without_exchange x) (wrap_st what (ExchangeDelete x)).
Proof. apply steady_wrap, control_steady; [apply delete_law|]. unfold marked. cbn. set_solver. Qed.
End Command.

#[export] Hint Resolve call_passive call_queue call_bind call_unbind call_confirm call_open call_delete : amqp.
#[export] Hint Extern 3 (steady _ (wrap_st _ (ExchangeDeclare _ _))) => apply call_declare; vm_compute; discriminate : amqp.

(** Descend a program, closing each call by its law. *)
Ltac steady_calls :=
  lazymatch goal with
  | |- steady _ (mbind _ _) => eapply steady_bind; [|intros _]; steady_calls
  | |- steady _ (wrap_st _ _) => solve [eauto with amqp]
  end.

Section Command2.
Context {B : Type} `{Laws : AMQPLaws B} (quoted : string -> string).
Implicit Types b : B.

Lemma prepare_steady upgrade : exists f, steady (B := B) f (prepare_channel quoted (source_of upgrade) (dest_of upgrade) upgrade) /\
  forall w, to upgrade ∈ queues (f w).
Proof.
  eexists. split.
  - unfold prepare_channel, preflightExactLegacy, declareUnboundHardenedTopology, preflightExactHardened.
    eapply steady_bind; [steady_calls|intros _]. eapply steady_bind; [|intros _; steady_calls].
    instantiate (1 := if upgrade then _ else _). destruct upgrade; cbv match; steady_calls.
  - intros w. destruct upgrade; cbn; set_solver.
Qed.

Lemma switch_commits upgrade : exists f, commits (B := B) f (switch_bindings (direction_of upgrade) (source_of upgrade) (dest_of upgrade) upgrade) /\
  forall w, switched upgrade (f w) /\ (upgrade = true -> marked (f w)) /\ (upgrade = false -> ~ marked w -> ~ marked (f w)).
Proof.
  eexists. split.
  - unfold switch_bindings. do 4 (eapply commits_bind; [steady_calls|intros _]).
    instantiate (1 := if upgrade then _ else _).
    destruct upgrade; cbv match; [apply commits_wrap, control_commits, declare_law|apply steady_commits, steady_ret].
  - intros w. unfold switched, marked. destruct upgrade; cbn; set_solver.
Qed.

Lemma answers_seq {A C} (m : St B A) (k : A -> St B C) b :
  is_ok (fst (m b)) = true -> (forall x b1, m b = (Ok x, b1) -> is_ok (fst (k x b1)) = true) -> is_ok (fst ((x ← m; k x) b)) = true.
Proof. unfold mbind, st_bind. destruct (m b) as [[] ?]; cbn; [auto|done]. Qed.

Lemma answers_wrap_at {A} what (m : St B A) b : is_ok (fst (m b)) = true -> is_ok (fst (wrap_st what m b)) = true.
Proof. unfold wrap_st. by destruct (m b) as [[] ?]. Qed.

Lemma prepare_answers upgrade b : Reliable (B := B) -> {["ledger.events"; "ledger.events.dlx"]} ⊆ exchanges (wired b) ->
  is_ok (fst (prepare_channel quoted (source_of upgrade) (dest_of upgrade) upgrade b)) = true.
Proof.
  intros HR Hx. unfold prepare_channel.
  assert (forall what q a, answers (wrap_st what (QueueDeclare (B := B) q a))) as AQ by (intros; apply answers_wrap, reliable_queue, HR).
  apply answers_seq; [|intros x b1 _; clear x; revert b1].
  - unfold preflightExactLegacy. apply answers_seq.
    + apply answers_wrap_at, (reliable_passive HR "ledger.events" topic b). set_solver.
    + intros [] b1 E. unfold wrap_st in E. destruct (ExchangeDeclarePassive _ _ b) as [r b2] eqn:E2.
      destruct (passive_law _ _ _ _ _ E2) as (_ & Ho & _). destruct r; [|done]. injection E as _ <-.
      destruct (Ho eq_refl) as (_ & _ & W). apply answers_seq; [|intros x b3 _; clear x; revert b3].
      * apply answers_wrap_at, (reliable_passive HR "ledger.events.dlx" topic b2). rewrite W. cbn. set_solver.
      * intros b3. apply answers_seq; [apply AQ|intros [] b4 _; apply AQ].
  - apply answers_bind; [|intros _; apply answers_wrap, reliable_confirm, HR].
    destruct upgrade; unfold declareUnboundHardenedTopology, preflightExactHardened;
      repeat (apply answers_bind; [|intros _]); try apply AQ;
      apply answers_wrap; [apply reliable_declare|apply reliable_declare|apply reliable_bind]; done.
Qed.

Lemma switch_answers direction s t upgrade : Reliable (B := B) -> answers (B := B) (switch_bindings direction s t upgrade).
Proof.
  intros HR. unfold switch_bindings.
  repeat (apply answers_bind; [apply answers_wrap; (apply reliable_bind || apply reliable_unbind); done|intros _]).
  destruct upgrade; [apply answers_wrap, reliable_declare, HR|by intros b].
Qed.
End Command2.

Section Outcome.
Context {B : Type} `{Laws : AMQPLaws B} (quoted : string -> string) (config : TopologyMigrationConfig) (upgrade : bool).
Implicit Types b : B.

(** The whole backlog followed what the destination held. *)
Definition emptied b b' (n : nat) : Prop :=
  (held b' (from upgrade) = [] /\ held b' (to upgrade) = (held b (to upgrade) ++ held b (from upgrade))%list) /\
  n = length (held b (from upgrade)) /\ forall q, q <> from upgrade -> q <> to upgrade -> held b' q = held b q.
(** Publishers are let in only by an upgrade that has done all the rest. *)
Definition marked_last b b' : Prop :=
  marked (wired b') -> marked (wired b) \/ (upgrade = true /\ held b' (from upgrade) = [] /\ switched upgrade (wired b')).
Definition favourable b : Prop :=
  Reliable (B := B) /\ AfterMove config = None /\ {["ledger.events"; "ledger.events.dlx"]} ⊆ exchanges (wired b).
Definition outcome b (n : nat) (r : result unit) b' : Prop :=
  covers (from upgrade) (to upgrade) b b' /\ (favourable b -> is_ok r = true) /\
  (is_ok r = true -> emptied b b' n /\ outstanding b' = None /\ switched upgrade (wired b') /\
    (upgrade = true -> marked (wired b'))) /\
  marked_last b b'.

Lemma emptied_kept b b1 b' n : kept b b1 -> emptied b1 b' n -> emptied b b' n.
Proof. intros K [[E1 E2] [E3 E4]]. unfold emptied. rewrite <- !K. split; [done|]. split; [done|]. intros. rewrite <- K. auto. Qed.

Lemma migrate_channel_spec fuel b : outstanding b = None -> (length (held b (from upgrade)) < fuel)%nat ->
  exists n r b', migrate_channel quoted fuel config (source_of upgrade) (dest_of upgrade) upgrade b = Some (n, r, b') /\
    outcome b n r b' /\ (upgrade = false -> marked (wired b') -> marked (wired b)).
Proof.
  intros Ho Hf. unfold migrate_channel.
  destruct (prepare_channel _ _ _ _ b) as [r1 b1] eqn:E1.
  destruct (prepare_steady (B := B) quoted upgrade) as (f & Hp & Hq). destruct (Hp _ _ _ E1) as (S1 & O1 & M1).
  assert (favourable b -> is_ok r1 = true) as R1.
  { intros (HR & _ & Hx). pose proof (prepare_answers quoted upgrade b HR Hx) as Hr. by rewrite E1 in Hr. }
  destruct r1 as [u|e].
  2:{ eexists _, _, _. split; [done|]. split; [|done]. split; [by apply shuffled_covers|].
      split; [intros HF; by specialize (R1 HF)|]. split; [done|]. intros Hm. left. auto. }
  destruct (O1 eq_refl) as (K1 & O2 & W1).
  destruct (move_backlog_spec quoted config (direction_of upgrade) (from upgrade) (to upgrade) (from_to upgrade) fuel 0 b1)
    as (n & r2 & b2 & E2 & W2 & C2 & _ & R2 & D2); [congruence|rewrite W1; apply Hq|by rewrite K1|].
  unfold from, to in E2. rewrite E2.
  assert (covers (from upgrade) (to upgrade) b b2) as C3 by (transitivity b1; [by apply shuffled_covers|done]).
  assert (marked (wired b2) -> marked (wired b)) as M2 by (rewrite W2; done).
  destruct r2 as [u2|e].
  2:{ eexists _, _, _. split; [done|]. split; [|done]. split; [done|].
      split; [|split; [done|intros Hm; left; auto]]. intros (HR & HA & _). by specialize (R2 HR HA). }
  destruct (D2 eq_refl) as (D3 & D4 & D5 & D6 & D7).
  destruct (switch_bindings _ _ _ _ b2) as [r3 b3] eqn:E3.
  destruct (switch_commits (B := B) upgrade) as (g & Hg & Hw). destruct (Hg _ _ _ E3) as (S3 & O3 & M3).
  destruct (Hw (wired b2)) as (H1 & H2 & H3).
  exists n, r3, b3. split; [done|].
  assert (upgrade = false -> marked (wired b3) -> marked (wired b)) as Hback.
  { intros Hu Hm. destruct (M3 Hm) as [Hm'|Hm']; [auto|]. rewrite Hm' in Hm. destruct (Hm, decide (marked (wired b2))) as [_ [|Hn]]; [auto|].
    by destruct (H3 Hu Hn). }
  split; [|done]. split; [transitivity b2; [done|by apply shuffled_covers]|].
  split; [|split].
  - intros (HR & _). pose proof (switch_answers (direction_of upgrade) (source_of upgrade) (dest_of upgrade) upgrade HR b2) as Hr.
    by rewrite E3 in Hr.
  - intros Hr. destruct (O3 Hr) as (K3 & O4 & W3). rewrite W3. split; [|split; [congruence|split; [done|auto]]].
    apply (emptied_kept b b1); [done|]. unfold emptied. rewrite !K3. split; [done|]. split; [done|].
    intros q Hs Hd. rewrite K3. auto.
  - intros Hm. destruct (M3 Hm) as [Hm'|Hm']; [left; auto|]. destruct upgrade eqn:Eu; [right|left; by apply Hback].
    rewrite Hm'. split; [done|]. split; [|done]. apply Permutation_nil. by rewrite (S3 (from true)), D3.
Qed.

(** Closing a channel or a connection puts an unacknowledged message back. *)
Definition closes b b' : Prop :=
  wired b' = wired b /\ shuffled b b' /\ (outstanding b = None -> kept b b' /\ outstanding b' = None).

Lemma outcome_close b n r b1 b2 : outcome b n r b1 -> closes b1 b2 -> outcome b n r b2.
Proof.
  intros (C & F & O & M) (W & S & K). split; [transitivity b1; [done|by apply shuffled_covers]|]. split; [done|]. split.
  - intros Hr. destruct (O Hr) as ((E1 & E2 & E3) & O1 & Sw & Mk). destruct (K O1) as [K1 O2]. rewrite W.
    split; [|done]. split; [by rewrite !K1|]. split; [done|]. intros q Hs Hd. rewrite K1. auto.
  - unfold marked_last. rewrite W. intros Hm. destruct (M Hm) as [?|(U & E & Sw)]; [by left|right].
    split; [done|]. split; [|done]. apply Permutation_nil. by rewrite (S (from upgrade)), E.
Qed.
Lemma outcome_fails b e b' : shuffled b b' -> (marked (wired b') -> marked (wired b)) -> (favourable b -> False) -> outcome b 0 (Err e) b'.
Proof. intros S M F. split; [by apply shuffled_covers|]. split; [intros HF; by destruct F|]. split; [done|]. intros Hm. left. auto. Qed.
Lemma outcome_after b b1 n r b' : kept b b1 -> (marked (wired b1) -> marked (wired b)) -> (favourable b -> favourable b1) ->
  outcome b1 n r b' -> outcome b n r b'.
Proof.
  intros K M F (C & F1 & O & M1). split; [transitivity b1; [by apply shuffled_covers, kept_shuffled|done]|].
  split; [auto|]. split; [|intros Hm; destruct (M1 Hm); [left; auto|by right]].
  intros Hr. destruct (O Hr) as (E & O1). split; [by eapply emptied_kept|done].
Qed.

Lemma disable_steady : exists f, steady (B := B) f (disable_publishers upgrade) /\
  forall w, ({["ledger.events"; "ledger.events.dlx"]} ⊆ exchanges w -> {["ledger.events"; "ledger.events.dlx"]} ⊆ exchanges (f w)) /\
    (upgrade = false -> ~ marked (f w)).
Proof.
  unfold disable_publishers. destruct upgrade.
  - exists id. split; [apply steady_ret|]. done.
  - eexists. split; [eauto with amqp|]. intros w. split; [|intros _; unfold marked; cbn; set_solver].
    intros Hw x Hx. apply elem_of_difference. split; [by apply Hw|]. set_unfold. intros ->. by destruct Hx.
Qed.

Lemma favourable_step b b' : favourable b -> {["ledger.events"; "ledger.events.dlx"]} ⊆ exchanges (wired b') -> favourable b'.
Proof. intros (HR & HA & _). done. Qed.

Lemma step_outcome f (m : St B unit) b r b1 : steady f m -> (favourable b -> answers m) -> m b = (r, b1) ->
  match r with
  | Err e => outcome b 0 (Err e) b1
  | Ok _ => kept b b1 /\ outstanding b1 = outstanding b /\ wired b1 = f (wired b)
  end.
Proof.
  intros Hm HA E. destruct (Hm _ _ _ E) as (S1 & O1 & M1). destruct r as [u|e]; [by apply O1|].
  apply outcome_fails; [done..|]. intros HF. specialize (HA HF b). by rewrite E in HA.
Qed.

Lemma migrate_open_spec fuel b : outstanding b = None -> (length (held b (from upgrade)) < fuel)%nat ->
  exists n r b', migrate_open quoted fuel config (source_of upgrade) (dest_of upgrade) upgrade b = Some (n, r, b') /\
    outcome b n r b' /\ (upgrade = false -> marked (wired b') -> marked (wired b)).
Proof.
  intros Ho Hf. unfold migrate_open.
  destruct (wrap_st "open topology migration channel" OpenChannel b) as [r1 b1] eqn:E1.
  pose proof (step_outcome _ _ _ _ _ (call_open _) (fun HF => answers_wrap _ _ (reliable_open (proj1 HF))) E1) as H1.
  destruct r1 as [u|e].
  - destruct H1 as (K1 & O1 & W1). destruct (migrate_channel_spec fuel b1) as (n & r & b2 & E & Hout & Hm); [congruence|by rewrite K1|].
    rewrite E. cbn. exists n, r, (CloseChannel b2). destruct (close_channel_law b2) as (W2 & HC). split; [done|]. split.
    + eapply outcome_close; [|by split]. apply (outcome_after b b1); [done|by rewrite W1| |done].
      intros HF. apply (favourable_step b); [done|]. rewrite W1. apply HF.
    + intros Hu. rewrite W2. intros Hmm%Hm; [|done]. by rewrite W1 in Hmm.
  - eexists _, _, _. split; [done|]. split; [done|]. intros _. by apply (call_open _ _ _ _ E1).
Qed.

Lemma migrate_connection_spec fuel b : outstanding b = None -> (length (held b (from upgrade)) < fuel)%nat ->
  exists n r b', migrate_connection quoted fuel config (source_of upgrade) (dest_of upgrade) upgrade b = Some (n, r, b') /\
    outcome b n r b' /\ (upgrade = false -> (is_ok r = true \/ (0 < n)%nat) -> ~ marked (wired b')).
Proof.
  intros Ho Hf. unfold migrate_connection.
  destruct (wrap_st "open topology preflight channel" OpenChannel b) as [r1 b1] eqn:E1.
  pose proof (step_outcome _ _ _ _ _ (call_open _) (fun HF => answers_wrap _ _ (reliable_open (proj1 HF))) E1) as H1.
  destruct r1 as [u|e]; [|eexists _, _, _; split; [done|]; split; [done|]; intros _ [|]; [done|lia]].
  destruct H1 as (K1 & O1 & W1). destruct (disable_publishers upgrade b1) as [r2 b2] eqn:E2.
  destruct disable_steady as (f & Hd & Hx). destruct (close_channel_law b2) as (W3 & HC).
  assert (favourable b -> favourable b1) as F1 by (intros HF; apply (favourable_step b); [done|rewrite W1; apply HF]).
  assert (favourable b1 -> answers (disable_publishers (B := B) upgrade)) as A2.
  { intros (HR & _). unfold disable_publishers. destruct upgrade; [by intros ?|]. apply answers_wrap, reliable_delete, HR. }
  pose proof (step_outcome _ _ _ _ _ Hd A2 E2) as H2. destruct r2 as [u2|e].
  2:{ eexists _, _, _. split; [done|]. split; [|intros _ [|]; [done|lia]].
      apply (outcome_after b b1); [done|by rewrite W1|done|]. eapply outcome_close; [done|by split]. }
  destruct H2 as (K2 & O2 & W2). destruct (proj2 HC ltac:(congruence)) as [K3 O3].
  assert (kept b (CloseChannel b2)) as K by (transitivity b1; [done|by transitivity b2]).
  assert (wired (CloseChannel b2) = f (wired b)) as W by (rewrite W3, W2, W1; done).
  destruct (migrate_open_spec fuel (CloseChannel b2)) as (n & r & b' & E & Hout & Hm); [done|by rewrite K|].
  exists n, r, b'. split; [done|]. split.
  - apply (outcome_after b (CloseChannel b2)); [done| | |done].
    + rewrite W3. intros Hm'. apply (Hd _ _ _ E2) in Hm'. by rewrite W1 in Hm'.
    + intros HF. apply (favourable_step b); [done|]. rewrite W. apply Hx, HF.
  - intros Hu _ Hmm%Hm; [|done]. rewrite W in Hmm. revert Hmm. by apply Hx.
Qed.
End Outcome.

Section Commands.
Context {B : Type} `{Laws : AMQPLaws B} (quoted : string -> string) (url_parse : string -> result (string * string * bool)).
Implicit Types b : B.

Definition migration (upgrade : bool) (fuel : nat) (config : TopologyMigrationConfig) : B -> option (MigrationReport * result unit * B) :=
  if upgrade then UpgradeTopology quoted fuel url_parse config else RollbackTopology quoted fuel url_parse config.
Definition valid_config (config : TopologyMigrationConfig) : Prop :=
  0 < ConfirmBudget config /\ exists scheme host, url_parse (URL config) = Ok (scheme, host, true) /\ host <> "" /\
    (scheme = "amqps" \/ (scheme = "amqp" /\ AllowInsecure config = true)).

Lemma dial_spec config b r b1 : dialMigration url_parse config b = (r, b1) ->
  wired b1 = wired b /\ shuffled b b1 /\ (r = Ok tt -> kept b b1 /\ outstanding b1 = None) /\
  (valid_config config -> Reliable (B := B) -> is_ok r = true).
Proof.
  assert (forall e, throw (S := B) (A := unit) e b = (r, b1) -> wired b1 = wired b /\ shuffled b b1 /\
    (r = Ok tt -> kept b b1 /\ outstanding b1 = None)) as Ht by by intros e [= <- <-].
  unfold dialMigration. intros E. assert (valid_config config -> wrap_st "connect topology migration" (Dial (URL config)) b = (r, b1)) as Hv.
  { intros (Hb & scheme & host & Hp & Hh & Hs). rewrite Hp in E. destruct (Z.leb_spec (ConfirmBudget config) 0); [lia|].
    destruct (String.eqb_spec host ""); [done|]. destruct Hs as [-> | [-> Ha]]; [done|]. by rewrite Ha in E. }
  assert (wrap_st "connect topology migration" (Dial (URL config)) b = (r, b1) ->
    wired b1 = wired b /\ shuffled b b1 /\ (r = Ok tt -> kept b b1 /\ outstanding b1 = None)) as Hd.
  { unfold wrap_st. destruct (Dial _ b) as [r0 b0] eqn:E0. intros [= <- <-].
    destruct (dial_law _ _ _ _ E0) as (W & S & O). split; [done|]. split; [done|]. by destruct r0 as [[]|]. }
  assert (valid_config config -> Reliable (B := B) -> is_ok r = true) as HR.
  { intros Hc Hr. specialize (Hv Hc). pose proof (answers_wrap "connect topology migration" _ (reliable_dial Hr (URL config)) b) as Ha.
    by rewrite Hv in Ha. }
  cut (wired b1 = wired b /\ shuffled b b1 /\ (r = Ok tt -> kept b b1 /\ outstanding b1 = None)); [tauto|].
  destruct (_ <=? _); [by eapply Ht|].
  destruct (url_parse _) as [[[scheme host] []]|]; try by eapply Ht.
  destruct (String.eqb host ""); [by eapply Ht|]. destruct (_ && _); [by eapply Ht|auto].
Qed.

Lemma migration_spec upgrade fuel config b : (length (held b (from upgrade)) < fuel)%nat ->
  exists report r b', migration upgrade fuel config b = Some (report, r, b') /\
    (covers (from upgrade) (to upgrade) b b' /\ (valid_config config -> favourable config b -> r = Ok tt)) /\
    (is_ok r = true -> emptied upgrade b b' (Moved report) /\ outstanding b' = None /\ switched upgrade (wired b') /\
      (upgrade = true -> marked (wired b'))) /\
    marked_last upgrade b b' /\ (upgrade = false -> (is_ok r = true \/ (0 < Moved report)%nat) -> ~ marked (wired b')).
Proof.
  intros Hf. assert (migration upgrade fuel config b = migrateTopology quoted fuel url_parse config (source_of upgrade) (dest_of upgrade) upgrade b)
    as -> by by destruct upgrade.
  unfold migrateTopology. destruct (dialMigration url_parse config b) as [r1 b1] eqn:E1.
  destruct (dial_spec _ _ _ _ E1) as (W1 & S1 & O1 & R1). destruct r1 as [[]|e].
  - destruct (O1 eq_refl) as [K1 O2].
    destruct (migrate_connection_spec quoted config upgrade fuel b1) as (n & r & b2 & E & Hout & Hm); [done|by rewrite K1|].
    rewrite E. cbn. destruct (close_connection_law b2) as (W2 & HC).
    assert (outcome config upgrade b n r (CloseConnection b2)) as (C & F & O & M).
    { eapply outcome_close; [|by split]. apply (outcome_after _ _ b b1); [done|by rewrite W1| |done].
      intros HF. apply (favourable_step _ b); [done|]. rewrite W1. apply HF. }
    eexists _, _, _. split; [done|]. split; [|split; [done|split; [done|by rewrite W2]]].
    split; [done|]. intros _ HF. specialize (F HF). by destruct r as [[]|].
  - eexists _, _, _. split; [done|]. split; [|split; [done|split; [|intros _ [|Hlt]; [done|cbn in Hlt; lia]]]].
    + split; [by apply shuffled_covers|]. intros Hc (HR & _). by specialize (R1 Hc HR).
    + intros Hm. left. by rewrite <- W1.
Qed.

(** Publishers of the new topology start on a marked broker only. *)
Lemma unmarked_refused b : ~ marked (wired b) -> is_ok (fst (requireTopologyCutover b)) = false.
Proof.
  intros Hm. unfold requireTopologyCutover. destruct (ExchangeDeclarePassive _ _ b) as [[[]|] b'] eqn:E; [|done].
  by apply passive_exists in E.
Qed.

(** A publisher that (re)connects has seen the marker, and binds its queue. *)
Lemma declare_binds (t : Topology) b r b' : t_Exchange t <> topologyCutoverMarker -> t_DLX t <> topologyCutoverMarker ->
  declareTopology t b = (r, b') -> is_ok r = true ->
  kept b b' /\ exchanges (wired b) ⊆ exchanges (wired b') /\
  (t_Exchange t, t_RoutingKey t, t_Queue t) ∈ bindings (wired b') /\ (t_DLX t, t_RoutingKey t, t_DLQ t) ∈ bindings (wired b').
Proof.
  intros Hx Hd E Hr. assert (exists f, steady (B := B) f (declareTopology t) /\
    forall w, exchanges w ⊆ exchanges (f w) /\ (t_Exchange t, t_RoutingKey t, t_Queue t) ∈ bindings (f w) /\ (t_DLX t, t_RoutingKey t, t_DLQ t) ∈ bindings (f w)) as (f & Hf & Hb).
  { eexists. split; [unfold declareTopology|].
    - eapply steady_bind; [by apply call_declare|intros _]. eapply steady_bind; [by apply call_declare|intros _]. steady_calls.
    - intros w. cbn. set_solver. }
  destruct (Hf _ _ _ E) as (_ & O & _). destruct (O Hr) as (K & _ & ->). split; [done|apply Hb].
Qed.
Lemma ensureChannel_ready ctx_err remaining url l b l' b' :
  ensureChannel ctx_err remaining url DefaultTopology l b = (Ok tt, l', b') ->
  (l' = l /\ b' = b /\ held_handles l = true) \/
  (l' = new_link /\ marked (wired b') /\
   (t_Exchange DefaultTopology, t_RoutingKey DefaultTopology, t_Queue DefaultTopology) ∈ bindings (wired b')).
Proof.
  unfold ensureChannel. destruct ctx_err; [done|]. destruct (_ && _) eqn:El; [intros [= <- <-]; bool_to_prop; auto|].
  destruct (_ <=? 0); [done|]. destruct (wrap_st _ (Dial url) _) as [[] b1]; [|done].
  destruct (wrap_st _ OpenChannel b1) as [[] b2]; [|done].
  assert (forall r b3, (_ ← requireTopologyCutover; _ ← declareTopology DefaultTopology; wrap_st "enable RabbitMQ publisher confirms" ConfirmMode) b2 = (r, b3) ->
    is_ok r = true -> marked (wired b3) /\
    (t_Exchange DefaultTopology, t_RoutingKey DefaultTopology, t_Queue DefaultTopology) ∈ bindings (wired b3)) as Hp.
  { intros r b3. unfold mbind, st_bind. destruct (requireTopologyCutover b2) as [[[]|] b4] eqn:E4; [|by intros [= <- <-]].
    destruct (declareTopology DefaultTopology b4) as [[u|] b5] eqn:E5; [|by intros [= <- <-]]. intros E6 Hr.
    destruct (call_confirm (B := B) _ _ _ _ E6) as (_ & O6 & _). destruct (O6 Hr) as (_ & _ & ->).
    destruct (declare_binds DefaultTopology b4 _ b5 ltac:(done) ltac:(done) E5 eq_refl) as (_ & Hx & Hb & _). split; [|done].
    apply Hx. unfold requireTopologyCutover in E4.
    destruct (ExchangeDeclarePassive topologyCutoverMarker marker_spec b2) as [[[]|] b6] eqn:E; [|done]. injection E4 as <-.
    destruct (passive_law _ _ _ _ _ E) as (_ & O & _). destruct (O eq_refl) as (_ & _ & ->). by eapply passive_exists. }
  destruct (mbind (M := St B) _ _ b2) as [[] b3] eqn:E3; [|done]. intros [= <- <-]. right. split; [done|]. by eapply Hp.
Qed.

(** A broker that was closed holds nothing, and closing it again does nothing;
    of two failing closes the channel's is reported. *)
Lemma Close_closed protocol_code error_text from_channel from_conn l b :
  let '(r, l', b') := Close protocol_code error_text from_channel from_conn l b in
  l' = no_link /\ (forall c d, Close protocol_code error_text c d l' b' = (None, no_link, b')) /\
  (r = None -> forall e, (held_handles l && channel_open l = true /\ from_channel = Some e) \/ (held_handles l && conn_open l = true /\ from_conn = Some e) ->
     ignoreAlreadyClosed protocol_code error_text (Some e) = None).
Proof.
  unfold Close. split; [done|]. split; [done|].
  destruct (held_handles l && channel_open l); [destruct (ignoreAlreadyClosed _ _ from_channel) eqn:E1; [done|]|];
    destruct (held_handles l && conn_open l); intros Hr e Hor; destruct Hor as [[? ->]|[? ->]]; done.
Qed.

(** Both services declare the same resources with the same arguments; only
    the names of the errors differ. *)
Lemma consumer_declares_alike (t : Topology) b :
  snd (consumer_declareTopology t b) = snd (declareTopology t b) /\
  is_ok (fst (consumer_declareTopology t b)) = is_ok (fst (declareTopology t b)).
Proof.
  unfold consumer_declareTopology, declareTopology, mbind, st_bind, wrap_st.
  destruct (ExchangeDeclare (t_Exchange t) topic b) as [[] b1]; [|done]. cbn.
  destruct (ExchangeDeclare (t_DLX t) topic b1) as [[] b2]; [|done]. cbn.
  destruct (QueueDeclare (t_Queue t) (hardenedQueueArguments t) b2) as [[] b3]; [|done]. cbn.
  destruct (QueueBind (t_Queue t) (t_RoutingKey t) (t_Exchange t) b3) as [[] b4]; [|done]. cbn.
  by destruct (QueueDeclare (t_DLQ t) quorum_only b4) as [[] b5].
Qed.

(** Commands one after another, each with the fuel its queue asks for. *)
Definition run_command (c : bool * TopologyMigrationConfig) (b : B) : option B :=
  '(_, _, b) ← migration (fst c) (S (length (held b (from (fst c))))) (snd c) b; Some b.
Fixpoint run_commands (cs : list (bool * TopologyMigrationConfig)) (b : B) : option B :=
  match cs with [] => Some b | c :: cs => b ← run_command c b; run_commands cs b end.
End Commands.

(** ** A broker

    A concrete RabbitMQ for the witnesses.  A [limited] one serves [fuse] more
    calls and then refuses them all. *)
Module Rabbit.
Record t (limited : bool) : Type := {
  store : gmap string (list Amqp.Publishing); out : option (string * Amqp.Publishing); wires : wiring; fuse : nat }.
Arguments store {limited} _.
Arguments out {limited} _.
Arguments wires {limited} _.
Arguments fuse {limited} _.
Arguments Build_t {limited} _ _ _ _.
Section Rabbit.
Context {limited : bool}.
Local Notation rabbit := (t limited).
#[global] Instance observed : Observed rabbit :=
  {| held b q := default [] (store b !! q); outstanding := out; wired := wires |}.
Definition call {A} (f : rabbit -> result A * rabbit) : St rabbit A :=
  fun b => if limited && Nat.eqb (fuse b) 0 then (Err (EMsg "connection closed"), b)
           else f {| store := store b; out := out b; wires := wires b; fuse := pred (fuse b) |}.
Definition rewire (f : wiring -> wiring) : St rabbit unit :=
  call (fun b => (Ok tt, {| store := store b; out := out b; wires := f (wires b); fuse := fuse b |})).
Definition release (b : rabbit) : rabbit := {| store := store b; out := None; wires := wires b; fuse := fuse b |}.
Definition deliver (p : Amqp.Publishing) : Amqp.Delivery :=
  {| Amqp.d_Headers := Amqp.Headers p; Amqp.d_ContentType := Amqp.ContentType p;
     Amqp.d_ContentEncoding := Amqp.ContentEncoding p; Amqp.d_DeliveryMode := Amqp.DeliveryMode p;
     Amqp.d_Priority := Amqp.Priority p; Amqp.d_CorrelationId := Amqp.CorrelationId p;
     Amqp.d_ReplyTo := Amqp.ReplyTo p; Amqp.d_Expiration := Amqp.Expiration p; Amqp.d_MessageId := Amqp.MessageId p;
     Amqp.d_Timestamp := Amqp.Timestamp p; Amqp.d_Type := Amqp.Type_ p; Amqp.d_UserId := Amqp.UserId p;
     Amqp.d_AppId := Amqp.AppId p; Amqp.d_Body := Amqp.Body p; Amqp.d_DeliveryTag := 1; Amqp.d_Redelivered := false;
     Amqp.d_Exchange := "ledger.events"; Amqp.d_RoutingKey := "ledger.entry.confirmed.v1" |}.
#[global] Instance amqp : AMQP rabbit := {|
  Dial _ := call (fun b => (Ok tt, release b));
  OpenChannel := rewire id;
  CloseChannel := release;
  CloseConnection := release;
  ConfirmMode := rewire id;
  ExchangeDeclare x _ := rewire (with_exchange x);
  ExchangeDeclarePassive x _ :=
    call (fun b => if decide (x ∈ exchanges (wires b)) then (Ok tt, b) else (Err (EMsg "NOT_FOUND"), b));
  ExchangeDelete x := rewire (without_exchange x);
  QueueDeclare q _ := rewire (with_queue q);
  QueueBind q k x := rewire (with_binding q k x);
  QueueUnbind q k x := rewire (without_binding q k x);
  Get q := call (fun b => match held b q with
                          | [] => (Ok None, b)
                          | p :: _ => (Ok (Some (deliver p)), {| store := store b; out := Some (q, p); wires := wires b; fuse := fuse b |})
                          end);
  PublishConfirmed _ q p b :=
    if limited && Nat.eqb (fuse b) 0 then (Amqp.WaitFailed (EMsg "connection closed"), b)
    else (Amqp.Answered true,
          {| store := <[q := (held b q ++ [p])%list]> (store b); out := out b; wires := wires b; fuse := pred (fuse b) |});
  AckDelivery _ := call (fun b => match out b with
                                  | Some (q, _) => (Ok tt, {| store := <[q := tail (held b q)]> (store b); out := None; wires := wires b; fuse := fuse b |})
                                  | None => (Ok tt, b)
                                  end);
  NackRequeue _ := rewire id |}.

Lemma call_control f m : (forall b, let '(r, b') := m b in store b' = store b /\ out b' = out b /\
    (is_ok r = true -> wires b' = f (wires b)) /\ (wires b' = wires b \/ wires b' = f (wires b))) -> control (A := unit) f (call m).
Proof.
  intros Hm b r b'. unfold call. destruct (_ && _).
  - intros [= <- <-]. split; [by intros q|]. split; [done|by left].
  - specialize (Hm {| store := store b; out := out b; wires := wires b; fuse := pred (fuse b) |}). destruct (m _) as [r1 b1].
    destruct Hm as (Es & Eo & Ew & Hw). intros [= <- <-]. cbn in *.
    split; [intros q; cbn; by rewrite Es|]. split; [|done]. intros Hr. split; [intros q; cbn; by rewrite Es|auto].
Qed.
Lemma rewire_control f : control f (rewire f).
Proof. apply call_control. cbn. intros b. auto. Qed.

#[global] Instance laws : AMQPLaws rabbit.
Proof.
  split; try (intros; apply rewire_control).
  - intros url b r b'. cbn. unfold call. destruct (_ && _); intros [= <- <-]; (split; [done|]); (split; [by intros q|]); [done|].
    intros _. split; [by intros q|done].
  - intros b. split; [done|]. split; [by intros q|]. intros _. split; [by intros q|done].
  - intros b. split; [done|]. split; [by intros q|]. intros _. split; [by intros q|done].
  - intros x sp. apply call_control. intros b. destruct (decide _); cbn; auto.
  - intros x sp b b'. cbn. unfold call. destruct (_ && _); [done|]. by destruct (decide _).
  - intros d b r b' E. destruct (rewire_control id b r b' E) as (Hs & _ & [Hw|Hw]); by split.
  - intros q b r b' Ho. cbn. unfold call. destruct (_ && _); [intros [= <- <-]; by split|]. cbn.
    destruct (default [] (store b !! q)) as [|p rest] eqn:E; intros [= <- <-]; cbn; (split; [done|]); [by split|].
    split; [by intros q'|]. exists p, rest. split; [done|]. split; [|done]. done.
  - intros q p b c b' _. cbn. destruct (_ && _); intros [= <- <-]; (split; [done|]); [left; by intros q'|].
    split; [done|]. cbn. split; [by rewrite lookup_insert_eq|]. intros q' Hn. by rewrite lookup_insert_ne.
  - intros q d p rest b r b' Ho _ Hh. cbn in *. unfold call. destruct (_ && _); [intros [= <- <-]; split; [done|left; by intros q']|].
    cbn. rewrite Ho. intros [= <- <-]. split; [done|]. cbn. rewrite Hh. split; [by rewrite lookup_insert_eq|].
    split; [|done]. intros q' Hn. by rewrite lookup_insert_ne.
Qed.

End Rabbit.

(** An unlimited broker answers. *)
Lemma call_answers {A} (m : t false -> result A * t false) : (forall b, is_ok (fst (m b)) = true) -> answers (call m).
Proof. intros Hm b. apply Hm. Qed.
Lemma reliable : Reliable (B := t false).
Proof.
  split; try (intros; apply call_answers; intros b; cbn; by repeat case_match).
  - intros x sp b Hx. cbn. unfold call. cbn. by rewrite decide_True.
  - by intros.
Qed.
End Rabbit.

(** ** Witness data *)
Definition demo_message (id : string) : Amqp.Publishing :=
  {| Amqp.Headers := [("event_id", id)]; Amqp.ContentType := "application/json"; Amqp.ContentEncoding := "";
     Amqp.DeliveryMode := 2; Amqp.Priority := 0; Amqp.CorrelationId := "e"; Amqp.ReplyTo := ""; Amqp.Expiration := "";
     Amqp.MessageId := id; Amqp.Timestamp := 0; Amqp.Type_ := "ledger.entry.confirmed.v1"; Amqp.UserId := "";
     Amqp.AppId := "outbox-publisher"; Amqp.Body := "{}" |}.
Definition demo_wiring : wiring :=
  {| exchanges := {["ledger.events"; "ledger.events.dlx"]}; queues := {["consolidation.ledger-entry-confirmed.v1"]};
     bindings := {[("ledger.events", "ledger.entry.confirmed.v1", "consolidation.ledger-entry-confirmed.v1")]} |}.
Definition demo_broker (limited : bool) (fuse : nat) : Rabbit.t limited :=
  Rabbit.Build_t {[ "consolidation.ledger-entry-confirmed.v1" := [demo_message "1"; demo_message "2"] ]} None demo_wiring fuse.
Definition demo_parse (url : string) : result (string * string * bool) := Ok ("amqps", "broker", true).
Definition demo_config : TopologyMigrationConfig :=
  {| URL := "amqps://u:p@broker"; AllowInsecure := false; ConfirmBudget := 10000000000; AfterMove := None |}.

(** ** The contract *)

(** C36: a migration that has the queues to itself returns, and what it
    answers is so.  A success has moved
    the whole backlog, in order and behind what the destination already held,
    to a queue that now takes the events and the dead letters in the place of
    the old ones, has left every other queue alone, reports the number of
    messages, and lets new publishers start exactly when it was an upgrade.
    On a broker that answers every call, with a valid configuration and no
    interruption, it does succeed. *)
Theorem migration_completes {B} `{AMQPLaws B} quoted url_parse upgrade fuel config (b : B) :
  (length (held b (from upgrade)) < fuel)%nat ->
  exists report r b', migration quoted url_parse upgrade fuel config b = Some (report, r, b') /\
    (r = Ok tt -> emptied upgrade b b' (Moved report) /\ switched upgrade (wired b') /\
      (upgrade = true -> marked (wired b')) /\
      (upgrade = false -> fst (requireTopologyCutover b') =
         Err (EWrap "run outbox-topology upgrade before starting publishers" ErrTopologyUpgradeRequired))) /\
    (valid_config url_parse config -> favourable config b -> r = Ok tt).
Proof.
  intros Hf. destruct (migration_spec quoted url_parse upgrade fuel config b Hf) as (report & r & b' & E & [_ F] & O & _ & Hm).
  exists report, r, b'. split; [done|]. split; [|done]. intros ->. destruct (O eq_refl) as (O1 & _ & O2 & O3).
  split; [done|]. split; [done|]. split; [done|]. intros Hu. specialize (Hm Hu (or_introl eq_refl)).
  pose proof (unmarked_refused b' Hm) as Hr. revert Hr. unfold requireTopologyCutover.
  by destruct (ExchangeDeclarePassive _ _ _) as [[]].
Qed.
Lemma migration_completes_witness :
  exists r b', migration (fun s => s) demo_parse true 3 demo_config (demo_broker false 0) = Some ({| Direction := "upgrade"; Moved := 2 |}, r, b') /\
    emptied true (demo_broker false 0) b' 2 /\ switched true (wired b') /\ r = Ok tt.
Proof.
  assert (length (held (demo_broker false 0) (from true)) < 3)%nat as Hf by exact (le_n 3).
  destruct (migration_completes (fun s => s) demo_parse true 3 demo_config (demo_broker false 0) Hf) as (report & r & b' & E & O & F).
  assert (r = Ok tt) as Hr.
  { apply F.
    - split; [vm_compute; reflexivity|]. exists "amqps", "broker". split; [reflexivity|]. split; [discriminate|left; reflexivity].
    - split; [exact Rabbit.reliable|]. split; [reflexivity|]. intros x Hx. exact Hx. }
  destruct (O Hr) as (E1 & E2 & _). destruct report as [direction n]. destruct E1 as [Eq [En Eo]]. cbn [Moved] in En.
  exists r, b'. split.
  - assert (match migration (fun s => s) demo_parse true 3 demo_config (demo_broker false 0) with
            | Some (rp, _, _) => Direction rp | None => "" end = "upgrade") as Hd by (vm_compute; reflexivity).
    rewrite E in Hd. cbn in Hd. subst direction. rewrite E, En. reflexivity.
  - split; [split; [exact Eq|split; [vm_compute; reflexivity|exact Eo]]|]. split; [exact E2|exact Hr].
Defined.

(** C37: upgrades and rollbacks, in any number and order, each of them
    succeeding, refused, interrupted after any message or cut off at any call,
    with nothing else using the queues, lose no message: between them the two queues hold every message they held
    before, as often as before, and no message that neither of them held; no
    other queue gains or loses one. *)
Theorem migrations_lose_nothing {B} `{AMQPLaws B} quoted url_parse commands (b : B) :
  exists b', run_commands quoted url_parse commands b = Some b' /\
    covers (t_Queue LegacyTopology) (t_Queue DefaultTopology) b b'.
Proof.
  revert b. induction commands as [|[upgrade config] cs IH]; intros b; [by exists b|].
  cbn [run_commands]. unfold run_command. cbn [fst snd].
  destruct (migration_spec quoted url_parse upgrade (S (length (held b (from upgrade)))) config b ltac:(lia))
    as (report & r & b1 & E & [C _] & _). rewrite E. cbn. destruct (IH b1) as (b' & E' & C'). exists b'. split; [done|].
  etrans; [|exact C']. destruct upgrade; [exact C|by apply covers_swap].
Qed.

Lemma migrations_lose_nothing_witness : exists b' : Rabbit.t true,
  run_commands (fun s => s) demo_parse [(true, demo_config); (true, demo_config); (false, demo_config)] (demo_broker true 17) = Some b' /\
  covers (t_Queue LegacyTopology) (t_Queue DefaultTopology) (demo_broker true 17) b'.
Proof.
  exact (migrations_lose_nothing (fun s => s) demo_parse [(true, demo_config); (true, demo_config); (false, demo_config)] (demo_broker true 17)).
Defined.

(** The marker that lets the new publishers start is the last thing an
    upgrade does and the first a rollback undoes: whatever the outcome, an
    upgrade that leaves a marker it did not find has emptied the old queue and
    switched the bindings, and after a rollback that succeeded, or moved a
    message, no publisher starts. *)
Theorem cutover_last {B} `{AMQPLaws B} quoted url_parse upgrade fuel config (b b' : B) report r :
  (length (held b (from upgrade)) < fuel)%nat -> migration quoted url_parse upgrade fuel config b = Some (report, r, b') ->
  (upgrade = true -> is_ok (fst (requireTopologyCutover b')) = true -> ~ marked (wired b) ->
    held b' (from upgrade) = [] /\ switched upgrade (wired b')) /\
  (upgrade = false -> is_ok r = true \/ (0 < Moved report)%nat -> is_ok (fst (requireTopologyCutover b')) = false).
Proof.
  intros Hf E. destruct (migration_spec quoted url_parse upgrade fuel config b Hf) as (report' & r' & b1 & E' & _ & _ & M & D).
  rewrite E in E'. injection E' as <- <- <-. split.
  - intros _ Hr Hn. assert (marked (wired b')) as Hm.
    { unfold marked. apply dec_stable. intros Hu%(unmarked_refused b'). congruence. }
    destruct (M Hm) as [?|(_ & H3 & H4)]; [done|by split].
  - intros Hu Ho. apply unmarked_refused. by apply D.
Qed.
