(* ===== verification/BrokerSession.v ===== *)
(** * The publisher's connection

    RabbitBroker of services/ledger/internal/outbox/rabbitmq.go keeps one
    connection, its channel and the socket below them from one publication to
    the next: Outbox.v has the confirm protocol, TopologyMigration.v opens and
    closes the connection, and here Publish, Ready and Close act on what the
    broker holds.  The mutex [mu] makes them one step each; [socketMu] only
    lets Close interrupt a publication in progress, which then meets a failing
    deadline, send or wait. *)

From S2P Require Import Prelude.
From S2P Require Import GoStrings.
From S2P Require Import Json.
From S2P Require Import Outbox.
From S2P Require Import TopologyMigration.
From Stdlib Require Import ZArith Lia.
Open Scope string_scope.
Open Scope Z_scope.

(** [conn] and [channel] as TopologyMigration has them, and [socket]: whether
    there is one and whether it is still open. *)
Record session : Type := { s_link : link; s_socket : option bool }.
Definition no_session : session := {| s_link := no_link; s_socket := None |}.

Definition activeSocket (s : session) : option bool := s_socket s.
Definition setActiveSocket (socket : option bool) (s : session) : session := {| s_link := s_link s; s_socket := socket |}.
Definition interruptSocket (s : session) : session := setActiveSocket (option_map (fun _ => false) (s_socket s)) s.

(** Whether the wait for the confirm ends with the context. *)
Fixpoint wait_expires (eventID : string) (l : list signal) : bool :=
  match l with
  | Returned m :: rest => if String.eqb m eventID then false else wait_expires eventID rest
  | Confirmed _ :: _ => false
  | Expired _ :: _ | [] => true
  end.

Section Broker.
Context {B : Type} `{AMQP B} (schema_valid : json -> result unit) (url : string) (topology : Topology).

(** ensureChannel, with the socket its dialer records: the context's error
    and the time it has left are read when it is called. *)
Definition socket_dialed (ctx_err : option error) (remaining : option Z) (s : session) (b : B) : option bool :=
  let l := s_link s in
  match ctx_err with
  | Some _ => s_socket s
  | None =>
      if held_handles l && conn_open l && channel_open l then s_socket s
      else if match remaining with Some r => Z.min r 5000000000 | None => 5000000000 end <=? 0 then None
      else match Dial url (resetLocked l b) with (Ok _, _) => Some true | (Err _, _) => None end
  end.
Definition ensure (ctx_err : option error) (remaining : option Z) (s : session) (b : B) : result unit * session * B :=
  let '(r, l, b') := ensureChannel ctx_err remaining url topology (s_link s) b in
  (r, {| s_link := l; s_socket := socket_dialed ctx_err remaining s b |}, b').

Definition reset (s : session) (b : B) : session * B := (no_session, resetLocked (s_link s) b).

(** What of a publication on an open channel ends in [resetLocked]. *)
Definition resets (n : net) (event : Event) (envelope : eventEnvelope) : bool :=
  negb (socket n) || negb (is_ok (deadline n)) ||
  is_ok (validatePublishingIdentity (publishingForEvent event envelope) event envelope) &&
  match send n with
  | Err _ | Ok false => true
  | Ok true => negb (is_ok (after_send n)) || wait_expires (EventID event) (signals n)
  end.

(** [expired] is the error of the publication's own context when the channel
    is asked for; the channel's answer and the socket are those of the session. *)
Definition Publish (n : net) (expired : option error) (remaining : option Z) (event : Event) (s : session) (b : B)
    : result unit * option Publishing * session * B :=
  match ctx_err n, prepare schema_valid event with
  | None, Ok envelope =>
      let '(r, s', b') := ensure expired remaining s b in
      let n := {| ctx_err := None; channel := r; socket := bool_decide (is_Some (activeSocket s')); deadline := deadline n;
                  send := send n; after_send := after_send n; signals := signals n |} in
      let '(outcome, sent) := Outbox.Publish schema_valid n event in
      if is_ok r && resets n event envelope
      then let '(s'', b'') := reset s' b' in (outcome, sent, s'', b'')
      else (outcome, sent, s', b')
  | _, _ => let '(outcome, sent) := Outbox.Publish schema_valid n event in (outcome, sent, s, b)
  end.

Definition Ready (ctx_err : option error) (remaining : option Z) (s : session) (b : B) : result unit * session * B :=
  ensure ctx_err remaining s b.

Definition Close (protocol_code : error -> option Z) (error_text : error -> string) (from_channel from_conn : option error)
    (s : session) (b : B) : option error * session * B :=
  let s := interruptSocket s in
  let '(e, l, b') := TopologyMigration.Close protocol_code error_text from_channel from_conn (s_link s) b in
  (e, setActiveSocket None {| s_link := l; s_socket := s_socket s |}, b').
End Broker.

(** [PostgresStore.Ready], the readiness probe's other half: [writable] is the
    answer to its query of the role's privileges. *)
Definition PostgresStore_Ready (writable : result bool) : result unit :=
  privileged ← wrap_err "probe outbox store" writable;
  if (privileged : bool) then Ok tt else Err (EMsg "outbox publisher role lacks required privileges").

(** ** What happens to a broker *)
Section Session.
Context {B : Type} `{AMQP B} (schema_valid : json -> result unit) (url : string) (topology : Topology).
(** The open connections: one more for each that is dialed, one less for each
    that is closed, and no other call opens or closes one. *)
Context (connections : B -> nat).
Context (dial_one : forall b r b', Dial url b = (r, b') -> connections b' = (connections b + if is_ok r then 1 else 0)%nat).
Context (close_one : forall b, connections (CloseConnection b) = pred (connections b)).
Definition quiet {A} (m : St B A) : Prop := forall b, connections (snd (m b)) = connections b.
Context (open_quiet : quiet OpenChannel) (close_quiet : forall b, connections (CloseChannel b) = connections b).
Context (exchange_quiet : forall x e, quiet (ExchangeDeclare x e)) (passive_quiet : forall x e, quiet (ExchangeDeclarePassive x e)).
Context (queue_quiet : forall q a, quiet (QueueDeclare q a)) (bind_quiet : forall q k x, quiet (QueueBind q k x)).
Context (confirm_quiet : quiet ConfirmMode).

Inductive session_step : session * B -> session * B -> Prop :=
  | step_publish n expired remaining event s b r p s' b' :
      Publish schema_valid url topology n expired remaining event s b = (r, p, s', b') -> session_step (s, b) (s', b')
  | step_ready ctx_err remaining s b r s' b' :
      Ready url topology ctx_err remaining s b = (r, s', b') -> session_step (s, b) (s', b')
  | step_close code text c d s b e s' b' :
      Close code text c d s b = (e, s', b') -> session_step (s, b) (s', b')
  (** The library closed the channel, or the connection with its channel. *)
  | step_channel_lost s b :
      session_step (s, b) ({| s_link := {| held_handles := held_handles (s_link s); conn_open := conn_open (s_link s);
                                           channel_open := false |}; s_socket := s_socket s |}, b)
  | step_connection_lost s b b' : connections b' = (connections b - if held_handles (s_link s) && conn_open (s_link s) then 1 else 0)%nat ->
      session_step (s, b) ({| s_link := {| held_handles := held_handles (s_link s); conn_open := false; channel_open := false |};
                              s_socket := s_socket s |}, b').

(** The broker holds the only connection there is, and its socket. *)
Definition session_inv (x : session * B) : Prop :=
  let '(s, b) := x in
  connections b = (if held_handles (s_link s) && conn_open (s_link s) then 1 else 0)%nat /\
  (held_handles (s_link s) = true -> is_Some (s_socket s)).

Lemma calm_wrap {A} context (m : St B A) : quiet m -> quiet (wrap_st context m).
Proof. intros Hm b. unfold wrap_st. specialize (Hm b). by destruct (m b) as [[] b']. Qed.
Lemma calm_bind {A C} (m : St B A) (f : A -> St B C) : quiet m -> (forall a, quiet (f a)) -> quiet (m ≫= f).
Proof.
  intros Hm Hf b. unfold mbind, st_bind. specialize (Hm b). destruct (m b) as [[a|] b']; [|done]. by rewrite Hf.
Qed.

(** What opening a channel declares neither opens nor closes a connection. *)
Lemma calm_setup : quiet (_ ← requireTopologyCutover; _ ← declareTopology topology;
                           wrap_st "enable RabbitMQ publisher confirms" ConfirmMode).
Proof.
  apply calm_bind; [|intros _; apply calm_bind; [|intros _; by apply calm_wrap]].
  - intros b. unfold requireTopologyCutover. pose proof (passive_quiet topologyCutoverMarker marker_spec b).
    by destruct (ExchangeDeclarePassive _ _ b) as [[] b'].
  - unfold declareTopology. repeat (apply calm_bind; [by apply calm_wrap|intros _]). by apply calm_wrap.
Qed.

Definition held_one (l : link) : nat := if held_handles l && conn_open l then 1 else 0.

Lemma reset_none l b : connections b = held_one l -> connections (resetLocked l b) = 0%nat.
Proof.
  unfold held_one, resetLocked. intros Hb.
  destruct (held_handles l && channel_open l), (held_handles l && conn_open l); rewrite ?close_one, ?close_quiet; lia.
Qed.

Lemma ensureChannel_connections ctx_err remaining l b r l' b' : connections b = held_one l ->
  ensureChannel ctx_err remaining url topology l b = (r, l', b') -> connections b' = held_one l'.
Proof.
  intros Hb. pose proof (reset_none l b Hb) as Hr. unfold ensureChannel. destruct ctx_err; [by intros [= _ <- <-]|].
  destruct (_ && _); [by intros [= _ <- <-]|]. destruct (_ <=? 0); [by intros [= _ <- <-]|].
  unfold wrap_st at 1. destruct (Dial url _) as [[[]|e] b1] eqn:E1; pose proof (dial_one _ _ _ E1) as D; cbn in D; [|by intros [= _ <- <-]; cbn; lia].
  pose proof (calm_wrap "open RabbitMQ channel" _ open_quiet b1) as Q. destruct (wrap_st _ OpenChannel b1) as [[[]|e] b2]; cbn in Q;
    [|intros [= _ <- <-]; rewrite close_one; cbn; lia].
  pose proof (calm_setup b2) as S. destruct (mbind (M := St B) _ _ b2) as [[[]|e] b3]; cbn in S; intros [= _ <- <-];
    rewrite ?close_one, ?close_quiet; cbn; lia.
Qed.

Lemma ensure_inv ctx_err remaining s b r s' b' : session_inv (s, b) ->
  ensure url topology ctx_err remaining s b = (r, s', b') ->
  session_inv (s', b') /\ (is_ok r = true -> held_handles (s_link s') = true).
Proof.
  intros [Hc Hs]. unfold ensure. destruct (ensureChannel _ _ _ _ _ _) as [[r0 l] b0] eqn:E. intros [= <- <- <-].
  pose proof (ensureChannel_connections _ _ _ _ _ _ _ Hc E) as Hl. unfold session_inv. cbn.
  enough ((held_handles l = true -> is_Some (socket_dialed url ctx_err remaining s b)) /\
          (is_ok r0 = true -> held_handles l = true)) by naive_solver.
  clear Hl. unfold ensureChannel, socket_dialed in *. destruct ctx_err; [by injection E as <- <- <-|].
  destruct (held_handles (s_link s) && conn_open (s_link s) && channel_open (s_link s)) eqn:El;
    [injection E as <- <- <-; bool_to_prop; auto|].
  destruct (_ <=? 0); [by injection E as <- <- <-|]. unfold wrap_st at 1 in E.
  destruct (Dial url _) as [[[]|e] b1]; [|by injection E as <- <- <-].
  destruct (wrap_st _ OpenChannel b1) as [[[]|e] b2]; [|by injection E as <- <- <-].
  destruct (mbind (M := St B) _ _ b2) as [[[]|e] b3]; injection E as <- <- <-; done.
Qed.

Lemma publish_inv n expired remaining event s b r p s' b' : session_inv (s, b) ->
  Publish schema_valid url topology n expired remaining event s b = (r, p, s', b') -> session_inv (s', b').
Proof.
  intros Hi. unfold Publish.
  destruct (ctx_err n); [by destruct (Outbox.Publish _ _ _) as [o m]; intros [= <- <- <- <-]|].
  destruct (prepare schema_valid event) as [envelope|]; [|by destruct (Outbox.Publish _ _ _) as [o m]; intros [= <- <- <- <-]].
  destruct (ensure _ _ _ _ _ _) as [[r1 s1] b1] eqn:Ee. apply ensure_inv in Ee as [Hi1 _]; [|done].
  destruct (Outbox.Publish _ _ _) as [o m]. case_goal; intros [= _ _ <- <-]; [|done].
  split; [|done]. destruct Hi1 as [Hc _]. by rewrite (reset_none _ _ Hc).
Qed.

Lemma close_inv code text c d s b e s' b' : session_inv (s, b) ->
  Close code text c d s b = (e, s', b') -> s' = no_session /\ connections b' = 0%nat.
Proof.
  intros [Hc _]. unfold Close, TopologyMigration.Close. intros [= _ <- <-]. split; [done|]. by apply reset_none.
Qed.

Lemma session_step_inv x y : session_inv x -> session_step x y -> session_inv y.
Proof.
  intros Hi Hs. destruct Hs as [n ex rem ev s b r p s' b' Hp|ce rem s b r s' b' Hr|code text c d s b e s' b' Hc|s b|s b b' Hb].
  - by eapply publish_inv.
  - by eapply ensure_inv.
  - eapply close_inv in Hc as [-> Hc]; [|done]. split; [done|]. done.
  - destruct Hi as [Hc Hs]. by split.
  - destruct Hi as [Hc Hs]. split; [|done]. cbn. rewrite andb_false_r, Hb, Hc. lia.
Qed.

(** A message handed to the broker without a verdict costs the connection: if
    the broker still holds its handles after the publication, the outcome is
    the broker's, a confirm, a return or a refusal. *)
Lemma publish_verdict n expired remaining event s b r p s' b' :
  Publish schema_valid url topology n expired remaining event s b = (r, Some p, s', b') ->
  s' = no_session \/ r = Ok tt \/ r = Err ErrUnroutable \/ r = Err ErrNotConfirmed.
Proof.
  unfold Publish. destruct (ctx_err n) eqn:Ec; [unfold Outbox.Publish; rewrite Ec; by intros [= <-]|].
  destruct (prepare schema_valid event) as [envelope|] eqn:Ep; [|unfold Outbox.Publish; rewrite Ec, Ep; by intros [= <-]].
  destruct (ensure _ _ _ _ _ _) as [[r1 s1] b1]. unfold Outbox.Publish. cbn. rewrite Ep.
  destruct r1 as [u|e]; [|by intros [= <-]]. unfold resets. cbn.
  destruct (bool_decide _); cbn; [|by intros [= <-]].
  destruct (deadline n); cbn; [|by intros [= <-]].
  destruct (validatePublishingIdentity _ _ _); cbn; [|by intros [= <-]].
  destruct (send n) as [[]|]; cbn; [|by intros [= _ _ <- _]; left..].
  destruct (after_send n); cbn; [|by intros [= _ _ <- _]; left].
  destruct (wait_expires (EventID event) (signals n)) eqn:Ew; cbn; [by intros [= _ _ <- _]; left|].
  intros [= <- _ _ _]. right. clear -Ew. induction (signals n) as [|[m|e|acked] l IH]; cbn in *; try done.
  - destruct (m =? EventID event)%string; auto.
  - destruct acked; [|auto]. clear Ew IH. induction l as [|[m|e|a] l IH]; cbn; auto. destruct (m =? EventID event)%string; auto.
Qed.

(** However publications, probes, closes and lost connections follow each
    other: the broker never has more than one connection open, the one it
    holds; a channel that is ready has its socket, so no publication fails for
    want of one; and a closed broker holds nothing. *)
Theorem sessions_hold_one b0 s b : connections b0 = 0%nat -> steps session_step (no_session, b0) (s, b) ->
  (connections b <= 1)%nat /\ (s = no_session -> connections b = 0%nat) /\
  (forall ctx_err remaining r s' b', ensure url topology ctx_err remaining s b = (r, s', b') ->
     is_ok r = true -> is_Some (activeSocket s')) /\
  (forall code text c d, let '(_, s', b') := Close code text c d s b in s' = no_session /\ connections b' = 0%nat).
Proof.
  intros H0 Hst. assert (session_inv (s, b)) as Hi.
  { eapply (steps_invariant _ session_inv session_step_inv); [|exact Hst]. by split. }
  split; [destruct Hi as [-> _]; by destruct (_ && _); lia|]. split; [by intros ->; apply Hi|]. split.
  - intros ce rem r s' b' He Hr. apply ensure_inv in He as [[_ Hs] Hh]; [|done]. auto.
  - intros code text c d. destruct (Close _ _ _ _ _ _) as [[e s'] b'] eqn:Ec. by eapply close_inv.
Qed.
End Session.
