(* ===== verification/Redact.v ===== *)
(** * Log redaction

    internal/platform/observability/redact/redact.go and slog.go: the handler
    every service logs through.  Credentials in free text are replaced, the
    values under sensitive names are dropped, and so is everything an error
    says.

    A logged value is a tree of what reflection sees of it: the interface it
    answers to first (error, LogValuer, Stringer) and its shape.  A value of
    slog has been resolved.  A Go map that is built is the list of its writes.
    [hmac] is HMAC-SHA256. *)

From S2P Require Import Prelude.
From S2P Require Import GoStrings.
From Stdlib Require String.
From Stdlib Require Import ZArith Lia Ascii.
Open Scope string_scope.
Open Scope Z_scope.

(** ** redact.go: credentials in free text *)
Definition Placeholder : string := "[redacted]".

Definition sensitiveKeys : list string :=
  ["authorization"; "proxy-authorization"; "cookie"; "set-cookie"; "x-api-key"; "idempotency-key"; "idempotency_key";
   "x-idempotency-key"; "token"; "access_token"; "refresh_token"; "id_token"; "client_secret"; "password"; "secret";
   "description"; "amount"; "amount_minor"; "credits"; "debits"; "net"; "balance"; "closing_balance"].
Definition IsSensitiveKey (name : string) : bool := existsb (String.eqb (to_lower (trim_space name))) sensitiveKeys.

Definition is_letter (c : ascii) : bool := is_upper c || in_range 97 122 c.
Definition is_word (c : ascii) : bool := is_letter c || is_digit c || is_byte 95 c.

(** One letter of a case-insensitive literal: the long s folds to s. *)
Definition fold_one (a : ascii) (s : string) : option nat :=
  match s with
  | "" => None
  | String c r =>
      if Ascii.eqb (lower_ascii c) a then Some 1%nat
      else match r with
           | String c2 _ => if Ascii.eqb a "s" && is_byte 197 c && is_byte 191 c2 then Some 2%nat else None
           | "" => None
           end
  end.
Fixpoint lit_fold (p s : string) : option nat :=
  match p with
  | "" => Some O
  | String a p' => w ← fold_one a s; n ← lit_fold p' (drop_chars w s); Some (w + n)%nat
  end.

(** [\s] *)
Definition is_re_space (c : ascii) : bool := in_range 9 10 c || in_range 12 13 c || is_byte 32 c.
Fixpoint space_run (s : string) : nat :=
  match s with String c r => if is_re_space c then S (space_run r) else O | "" => O end.

(** [[A-Za-z0-9._~+/=-]], with the two runes that fold into it. *)
Definition token_char (c : ascii) : bool :=
  is_letter c || is_digit c || existsb (fun z => is_byte z c) [46; 95; 126; 43; 47; 61; 45].
Fixpoint token_run (s : string) : nat :=
  match s with
  | "" => O
  | String c r =>
      if token_char c then S (token_run r)
      else match r with
           | "" => O
           | String c2 r2 =>
               if is_byte 197 c && is_byte 191 c2 then S (S (token_run r2))
               else match r2 with
                    | String c3 r3 =>
                        if is_byte 226 c && is_byte 132 c2 && is_byte 170 c3 then S (S (S (token_run r3))) else O
                    | "" => O
                    end
           end
  end.

(** [[A-Za-z0-9_-]] *)
Definition url_char (c : ascii) : bool := is_letter c || is_digit c || is_byte 95 c || is_byte 45 c.
Fixpoint url_run (s : string) : nat :=
  match s with String c r => if url_char c then S (url_run r) else O | "" => O end.

(** The bytes a pattern takes of [s] at a position that follows [prev]. *)
Definition matcher : Type := option ascii -> string -> option nat.
Definition bearerPattern : matcher := fun prev s =>
  if match prev with Some c => is_word c | None => false end then None
  else
    n ← match lit_fold "bearer" s with Some n => Some n | None => lit_fold "basic" s end;
    let spaces := space_run (drop_chars n s) in
    let token := token_run (drop_chars spaces (drop_chars n s)) in
    if Nat.eqb spaces 0 || Nat.eqb token 0 then None else Some (n + spaces + token)%nat.

(** Four characters or more, and the dot that ends them. *)
Definition jwt_part (s : string) : option nat :=
  let k := url_run s in
  match drop_chars k s with
  | String c _ => if Nat.leb 4 k && is_byte 46 c then Some (S k) else None
  | "" => None
  end.
Definition jwtPattern : matcher := fun _ s =>
  if negb (has_prefix "eyJ" s) then None
  else
    a ← jwt_part (drop_chars 3 s);
    b ← jwt_part (drop_chars a (drop_chars 3 s));
    let k := url_run (drop_chars b (drop_chars a (drop_chars 3 s))) in
    if Nat.leb 4 k then Some (3 + a + b + k)%nat else None.

(** ReplaceAllString: leftmost matches, none overlapping; [skip] bytes of the
    current match are still to be passed over. *)
Fixpoint replace_all (m : matcher) (prev : option ascii) (s : string) (skip : nat) : string :=
  match s with
  | "" => ""
  | String c r =>
      match skip with
      | S k => replace_all m (Some c) r k
      | O => match m prev s with
             | Some (S k) => Placeholder +:+ replace_all m (Some c) r k
             | _ => String c (replace_all m (Some c) r O)
             end
      end
  end.

(** [String] *)
Definition scrub (value : string) : string :=
  replace_all jwtPattern None (replace_all bearerPattern None value 0) 0.
Definition Value (name value : string) : string := if IsSensitiveKey name then Placeholder else scrub value.
Definition Map (values : gmap string string) : gmap string string := map_imap (fun name value => Some (Value name value)) values.

Definition MerchantID (hmac : list Z -> string -> list Z) (salt : list Z) (merchantID : string) : string :=
  if String.eqb merchantID "" then "" else "m_" +:+ String.substring 0 16 (hex_encode (hmac salt merchantID)).

(** ** slog.go *)
Inductive struct_field : Type := Field (exported : bool) (name tag : string).
Inductive value : Type :=
  | VNil
  | Val (i : iface) (s : shape)
with iface : Type :=
  | IError (text : string)
  | ILogValuer (v : slog)
  | IStringer (text : string)
  | IPlain
with shape : Type :=
  | SString (s : string)
  | SBool (b : bool)
  | SInt (z : Z)
  | SUint (z : Z)
  | SFloat (bits : Z)
  | SBytes (s : string)
  | SList (items : list (option value))
  | SMap (entries : list (option string * option value))
  | SStruct (fields : list (struct_field * value))
  | SPointer (target : option shape)
  | SOther (printed : option string)
with slog : Type :=
  | LGroup (members : list (string * slog))
  | LAny (v : value)
  | LString (s : string)
  | LScalar (text : string).

Inductive out : Type :=
  | ONil
  | OString (s : string)
  | OBool (b : bool)
  | OInt (z : Z)
  | OUint (z : Z)
  | OFloat (bits : Z)
  | OList (items : list out)
  | OMap (writes : list (string * out))
  | OScalar (text : string).

(** The name a field is logged under, if it is. *)
Definition field_name (f : struct_field) : option string :=
  let '(Field exported name tag) := f in
  if negb exported then None
  else
    let '(jsonName, _, found) := cut "," tag in
    if found || negb (String.eqb jsonName "") then
      if String.eqb jsonName "-" then None
      else Some (if String.eqb jsonName "" then name else jsonName)
    else Some name.

Definition too_deep (depth : nat) : bool := Nat.ltb 16 depth.

(** [sanitizeReflect] looks at the depth on entry, before the loop that follows
    pointers. *)
Fixpoint sanitizeAny (v : value) (depth : nat) : out :=
  match v with
  | VNil => ONil
  | Val i s =>
      if too_deep depth then OString Placeholder
      else match i with
           | IError _ => OString Placeholder
           | ILogValuer lv => sanitizeSlogValue lv (S depth)
           | IStringer text => OString (scrub text)
           | IPlain => if too_deep depth then OString Placeholder else sanitizeReflect s depth
           end
  end
with sanitizeSlogValue (v : slog) (depth : nat) : out :=
  match v with
  | LGroup members =>
      OMap (map (fun m => (fst m, if IsSensitiveKey (fst m) then OString Placeholder
                                  else sanitizeSlogValue (snd m) (S depth))) members)
  | LAny v => sanitizeAny v (S depth)
  | LString s => OString (scrub s)
  | LScalar text => OScalar text
  end
with sanitizeReflect (s : shape) (depth : nat) : out :=
  match s with
  | SString s => OString (scrub s)
  | SBool b => OBool b
  | SInt z => OInt z
  | SUint z => OUint z
  | SFloat z => OFloat z
  | SBytes s => OString (scrub s)
  | SList items =>
      OList (map (fun item => match item with Some v => sanitizeAny v (S depth) | None => OString Placeholder end) items)
  | SMap entries =>
      OMap (omap (fun e => match fst e with
                           | None => None
                           | Some name =>
                               Some (name, if IsSensitiveKey name then OString Placeholder
                                           else match snd e with
                                                | Some v => sanitizeAny v (S depth)
                                                | None => OString Placeholder
                                                end)
                           end) entries)
  | SStruct fields =>
      OMap (omap (fun f => match field_name (fst f) with
                           | None => None
                           | Some name =>
                               Some (name, if IsSensitiveKey name then OString Placeholder else sanitizeAny (snd f) (S depth))
                           end) fields)
  | SPointer None => ONil
  | SPointer (Some target) => sanitizeReflect target depth
  | SOther (Some text) => OString (scrub text)
  | SOther None => OString Placeholder
  end.

(** Attributes as the handler passes them on. *)
Inductive logged : Type :=
  | Leaf (o : out)
  | Group (members : list (string * logged)).
Notation attr := (string * slog)%type.
Notation logged_attr := (string * logged)%type.

Fixpoint scrub_value (v : slog) : logged :=
  match v with
  | LGroup members =>
      Group (map (fun m => (fst m, if IsSensitiveKey (fst m) then Leaf (OString Placeholder) else scrub_value (snd m))) members)
  | LString s => Leaf (OString (scrub s))
  | LAny v => Leaf (sanitizeAny v 0)
  | LScalar text => Leaf (OScalar text)
  end.
Definition scrubAttr (a : attr) : logged_attr :=
  (fst a, if IsSensitiveKey (fst a) then Leaf (OString Placeholder) else scrub_value (snd a)).

Record record (A : Type) : Type := { Time : Z; Level : Z; Message : string; PC : Z; Attrs : list A }.
Arguments Time {A} _.
Arguments Level {A} _.
Arguments Message {A} _.
Arguments PC {A} _.
Arguments Attrs {A} _.

(** What the wrapped handler has been given: bound attributes and groups, in
    order. *)
Inductive binding : Type := BoundAttrs (attrs : list logged_attr) | BoundGroup (name : string).
Definition handler : Type := list binding.
Definition NewHandler : handler := [].
Definition WithAttrs (h : handler) (attrs : list attr) : handler := (h ++ [BoundAttrs (map scrubAttr attrs)])%list.
Definition WithGroup (h : handler) (name : string) : handler := (h ++ [BoundGroup name])%list.

(** A record the wrapped handler emits. *)
Definition Handle (h : handler) (r : record attr) : handler * record logged_attr :=
  (h, {| Time := Time r; Level := Level r; Message := scrub (Message r); PC := PC r; Attrs := map scrubAttr (Attrs r) |}).

(** ** Free text *)
Lemma drop_chars_app n u x : (n <= String.length u)%nat -> drop_chars n (u +:+ x) = drop_chars n u +:+ x.
Proof. revert u. induction n as [|n IH]; intros [|c u] H; cbn in *; [done..|lia|]. apply IH. lia. Qed.

(** Runs that stop at a character outside the class, and what follows a prefix
    they stayed in. *)
Definition stop : ascii := "["%char.

Lemma space_run_stop u v w : (space_run (u +:+ String stop v) <= String.length u)%nat /\
  ((space_run (u +:+ String stop v) < String.length u)%nat -> space_run (u +:+ w) = space_run (u +:+ String stop v)).
Proof.
  induction u as [|c u [H1 H2]]; [split; [done|intros H; by apply Nat.nlt_0_r in H]|].
  cbn [String.append space_run String.length]. destruct (is_re_space c); [|split; [lia|done]].
  split; [lia|]. intros H. f_equal. apply H2. lia.
Qed.
Lemma url_run_stop u v w : (url_run (u +:+ String stop v) <= String.length u)%nat /\
  ((url_run (u +:+ String stop v) < String.length u)%nat -> url_run (u +:+ w) = url_run (u +:+ String stop v)) /\
  (url_run (u +:+ String stop v) <= url_run (u +:+ w))%nat.
Proof.
  induction u as [|c u (H1 & H2 & H3)]; [split; [done|]; split; [intros H; by apply Nat.nlt_0_r in H|apply Nat.le_0_l]|].
  cbn [String.append url_run String.length]. destruct (url_char c); [|split; [lia|]; split; [done|lia]].
  split; [lia|]. split; [|lia]. intros H. f_equal. apply H2. lia.
Qed.
Lemma token_run_stop u v w : (token_run (u +:+ String stop v) <= String.length u)%nat /\
  (token_run (u +:+ String stop v) <= token_run (u +:+ w))%nat.
Proof.
  remember (String.length u) as n eqn:Hn. assert (String.length u <= n)%nat as H by lia. rewrite Hn. clear Hn.
  revert u H. induction n as [|n IH]; intros u H.
  - destruct u; [|cbn in H; lia]. destruct v as [|? [|? ?]]; split; (apply le_n || apply Nat.le_0_l).
  - destruct u as [|c u]; [destruct v as [|? [|? ?]]; split; (apply le_n || apply Nat.le_0_l)|].
    cbn [String.append token_run String.length] in *. destruct (token_char c).
    { destruct (IH u ltac:(lia)). lia. }
    destruct u as [|c2 u].
    { cbn [String.append]. replace (is_byte 191 stop) with false by reflexivity. rewrite andb_false_r.
      destruct v as [|c3 v]; [lia|]. replace (is_byte 132 stop) with false by reflexivity. rewrite andb_false_r. cbn [andb]. lia. }
    cbn [String.append String.length] in *. destruct (is_byte 197 c && is_byte 191 c2); [destruct (IH u ltac:(lia)); lia|].
    destruct u as [|c3 u].
    { cbn [String.append]. replace (is_byte 170 stop) with false by reflexivity. rewrite andb_false_r. lia. }
    cbn [String.append String.length] in *. destruct (_ && is_byte 170 c3); [destruct (IH u ltac:(lia)); lia|lia].
Qed.
Lemma lit_fold_stop p u v w n : forall_chars is_letter p = true -> lit_fold p (u +:+ String stop v) = Some n ->
  (n <= String.length u)%nat /\ lit_fold p (u +:+ w) = Some n.
Proof.
  revert u n. induction p as [|a p IH]; intros u n Hp; cbn [lit_fold]; [intros [= <-]; split; [lia|done]|].
  cbn in Hp. apply andb_true_iff in Hp as [Ha Hp].
  assert (forall x, fold_one a (u +:+ String stop v) = Some x -> (x <= String.length u)%nat /\ fold_one a (u +:+ w) = Some x) as Hone.
  { intros x. destruct u as [|c u]; cbn [String.append fold_one].
    - replace (lower_ascii stop) with stop by reflexivity. destruct (Ascii.eqb_spec stop a) as [<-|]; [by vm_compute in Ha|].
      replace (is_byte 197 stop) with false by reflexivity. rewrite andb_false_r. by destruct v.
    - destruct (Ascii.eqb (lower_ascii c) a); [intros [= <-]; cbn; split; [lia|done]|].
      destruct u as [|c2 u]; cbn [String.append]; [|destruct (_ && _); [intros [= <-]; cbn; split; [lia|done]|done]].
      replace (is_byte 191 stop) with false by reflexivity. by rewrite andb_false_r. }
  destruct (fold_one a (u +:+ String stop v)) as [x|]; [|done]. destruct (Hone x eq_refl) as [Hx ->]. cbn.
  rewrite !drop_chars_app by done. destruct (lit_fold p (drop_chars x u +:+ String stop v)) as [k|] eqn:E; [|done].
  intros [= <-]. destruct (IH _ _ Hp E) as [Hk ->]. rewrite drop_length in Hk. split; [lia|done].
Qed.

(** A match that ends before a bracket does not depend on what the bracket
    hides, and what it takes is not empty. *)
Definition local (m : matcher) : Prop := forall p u v w n, m p (u +:+ String stop v) = Some n -> is_Some (m p (u +:+ w)).

Lemma basic_not_bearer s n : lit_fold "basic" s = Some n -> lit_fold "bearer" s = None.
Proof.
  destruct s as [|c r]; [done|]. cbn [lit_fold]. destruct (fold_one "b" (String c r)) as [x|] eqn:E; [|done]. cbn [mbind option_bind].
  assert (fold_one "a" (drop_chars x (String c r)) <> None -> fold_one "e" (drop_chars x (String c r)) = None) as Ha.
  { destruct (drop_chars x (String c r)) as [|c2 r2]; [done|]. cbn [fold_one]. destruct (Ascii.eqb_spec (lower_ascii c2) "a") as [-> |]; [by destruct r2|].
    by destruct r2. }
  destruct (fold_one "a" _); [|done]. by rewrite Ha.
Qed.

Lemma word_lit_stop u v w n :
  match lit_fold "bearer" (u +:+ String stop v) with Some n => Some n | None => lit_fold "basic" (u +:+ String stop v) end = Some n ->
  (n <= String.length u)%nat /\ match lit_fold "bearer" (u +:+ w) with Some n => Some n | None => lit_fold "basic" (u +:+ w) end = Some n.
Proof.
  destruct (lit_fold "bearer" (u +:+ String stop v)) as [k|] eqn:E.
  - intros [= <-]. by destruct (lit_fold_stop "bearer" u v w k eq_refl E) as [H ->].
  - intros E2. destruct (lit_fold_stop "basic" u v w n eq_refl E2) as [H H2]. by rewrite (basic_not_bearer _ _ H2).
Qed.

Lemma bearer_local : local bearerPattern.
Proof.
  intros p u v w n. unfold bearerPattern. destruct (match p with Some c => is_word c | None => false end); [done|].
  destruct (match lit_fold "bearer" (u +:+ String stop v) with Some n => Some n | None => _ end) as [k|] eqn:E; [|done].
  destruct (word_lit_stop u v w k E) as [Hk ->]. cbn [mbind option_bind]. rewrite (drop_chars_app k u (String stop v)), (drop_chars_app k u w) by done.
  set (u1 := drop_chars k u). destruct (space_run_stop u1 v w) as [S1 S2]. set (sp := space_run (u1 +:+ String stop v)) in *.
  rewrite (drop_chars_app sp u1 (String stop v)) by done. set (u2 := drop_chars sp u1).
  destruct (token_run_stop u2 v w) as [T1 T2]. destruct (Nat.eqb_spec sp 0); [done|].
  destruct (Nat.eqb_spec (token_run (u2 +:+ String stop v)) 0); [done|]. intros _.
  assert (sp < String.length u1)%nat as Hlt by (subst u2; rewrite drop_length in T1; lia).
  rewrite (S2 Hlt), (drop_chars_app sp u1 w) by done. fold u2.
  destruct (Nat.eqb_spec sp 0); [lia|]. destruct (Nat.eqb_spec (token_run (u2 +:+ w)) 0); [lia|]. cbn. by eexists.
Qed.

Lemma jwt_part_stop u v w n : jwt_part (u +:+ String stop v) = Some n -> (n <= String.length u)%nat /\ jwt_part (u +:+ w) = Some n.
Proof.
  unfold jwt_part. destruct (url_run_stop u v w) as (U1 & U2 & _). set (k := url_run (u +:+ String stop v)) in *.
  rewrite (drop_chars_app k u (String stop v)) by done. destruct (drop_chars k u) as [|c r] eqn:Ed; cbn [String.append].
  - replace (is_byte 46 stop) with false by reflexivity. by rewrite andb_false_r.
  - assert (String.length (drop_chars k u) = S (String.length r)) as El by by rewrite Ed. rewrite drop_length in El.
    rewrite U2 by lia. rewrite (drop_chars_app k u w) by done. rewrite Ed. cbn [String.append].
    destruct (_ && _); [|done]. intros [= <-]. split; [lia|done].
Qed.

Lemma has_prefix_stop p u v w : has_char stop p = false -> has_prefix p (u +:+ String stop v) = true ->
  (String.length p <= String.length u)%nat /\ has_prefix p (u +:+ w) = true.
Proof.
  unfold has_prefix. revert u. induction p as [|a p IH]; intros u Hp; [intros _; split; [cbn; lia|by destruct (u +:+ w)]|].
  cbn in Hp. destruct u as [|c u]; cbn [String.append String.prefix].
  - destruct (ascii_dec a stop) as [-> |]; [discriminate Hp|done].
  - destruct (ascii_dec a c); [|done]. intros H. apply orb_false_iff in Hp as [_ Hp]. destruct (IH u Hp H) as [H1 H2].
    cbn. split; [lia|done].
Qed.

Lemma jwt_local : local jwtPattern.
Proof.
  intros p u v w n. unfold jwtPattern. destruct (has_prefix "eyJ" (u +:+ String stop v)) eqn:Ep; [|done].
  destruct (has_prefix_stop "eyJ" u v w eq_refl Ep) as [H3 ->]. cbn [negb]. change (String.length "eyJ") with 3%nat in H3.
  rewrite !(drop_chars_app 3 u) by done. set (u1 := drop_chars 3 u).
  destruct (jwt_part (u1 +:+ String stop v)) as [a|] eqn:Ea; [|done]. destruct (jwt_part_stop u1 v w a Ea) as [Ha ->].
  cbn [mbind option_bind]. rewrite !(drop_chars_app a u1) by done. set (u2 := drop_chars a u1).
  destruct (jwt_part (u2 +:+ String stop v)) as [b|] eqn:Eb; [|done]. destruct (jwt_part_stop u2 v w b Eb) as [Hb ->].
  cbn [mbind option_bind]. rewrite !(drop_chars_app b u2) by done. destruct (url_run_stop (drop_chars b u2) v w) as (_ & _ & U3).
  destruct (Nat.leb_spec 4 (url_run (drop_chars b u2 +:+ String stop v))); [|done].
  destruct (Nat.leb_spec 4 (url_run (drop_chars b u2 +:+ w))); [by eexists|lia].
Qed.

(** Where a match can begin and what follows one. *)
Lemma bearer_begins p s n : bearerPattern p s = Some n -> exists c r, s = String c r /\ lower_ascii c = "b"%char.
Proof.
  unfold bearerPattern. destruct (match p with Some c => is_word c | None => false end); [done|].
  destruct s as [|c r]; [done|]. intros H. exists c, r. split; [done|].
  assert (fold_one "b" (String c r) <> None) as Hf by (intros E; cbn [lit_fold] in H; rewrite E in H; done).
  cbn [fold_one] in Hf. destruct (Ascii.eqb_spec (lower_ascii c) "b"); [done|]. by destruct r.
Qed.
Lemma jwt_begins p s n : jwtPattern p s = Some n -> has_prefix "eyJ" s = true.
Proof. unfold jwtPattern. by destruct (has_prefix "eyJ" s). Qed.

Lemma lower_b_letter c : lower_ascii c = "b"%char -> is_letter c = true.
Proof.
  intros H. unfold is_letter, in_range. unfold lower_ascii in H. destruct (is_upper c); [reflexivity|]. by rewrite H.
Qed.

Definition begins (m : matcher) : Prop := forall p s n, m p s = Some n -> exists c r, s = String c r /\ is_letter c = true.
Definition ends (m : matcher) : Prop := forall p s n, m p s = Some n -> n <> O /\
  forall c r, drop_chars n s = String c r -> is_letter c = false.

Lemma bearer_begins_letter : begins bearerPattern.
Proof. intros p s n H. destruct (bearer_begins p s n H) as (c & r & -> & Hc). exists c, r. split; [done|by apply lower_b_letter]. Qed.
Lemma jwt_begins_letter : begins jwtPattern.
Proof.
  intros p s n H%jwt_begins. destruct s as [|c r]; [done|]. exists c, r. split; [done|].
  unfold has_prefix in H. cbn [String.prefix] in H. destruct (ascii_dec "e" c) as [<-|]; [reflexivity|done].
Qed.

Lemma token_run_ends s c r : drop_chars (token_run s) s = String c r -> token_char c = false.
Proof.
  remember (String.length s) as n eqn:Hn. assert (String.length s <= n)%nat as H by lia. clear Hn.
  revert s H. induction n as [|n IH]; intros s H; [destruct s; [done|cbn in H; lia]|].
  destruct s as [|c1 s]; [done|]. cbn [token_run String.length] in *. destruct (token_char c1) eqn:E1.
  { cbn [drop_chars]. apply IH. lia. }
  destruct s as [|c2 s]; [by intros [= <- <-]|]. cbn [String.length] in H.
  destruct (is_byte 197 c1 && is_byte 191 c2); [cbn [drop_chars]; apply IH; lia|].
  destruct s as [|c3 s]; [by intros [= <- <-]|]. cbn [String.length] in H.
  destruct (_ && is_byte 170 c3); [cbn [drop_chars]; apply IH; lia|by intros [= <- <-]].
Qed.
Lemma url_run_ends s c r : drop_chars (url_run s) s = String c r -> url_char c = false.
Proof.
  induction s as [|c1 s IH]; [done|]. cbn [url_run]. destruct (url_char c1) eqn:E; [cbn [drop_chars]; done|by intros [= <- <-]].
Qed.

Lemma bearer_ends : ends bearerPattern.
Proof.
  intros p s n. unfold bearerPattern. destruct (match p with Some c => is_word c | None => false end); [done|].
  destruct (match lit_fold "bearer" s with Some n => Some n | None => _ end) as [k|]; [|done]. cbn [mbind option_bind].
  set (sp := space_run _). set (t := token_run _). destruct (Nat.eqb_spec sp 0); [done|]. destruct (Nat.eqb_spec t 0); [done|].
  intros [= <-]. split; [lia|]. intros c r. rewrite <- !drop_drop. intros H%token_run_ends. unfold token_char in H. bool_to_prop. done.
Qed.
Lemma jwt_ends : ends jwtPattern.
Proof.
  intros p s n. unfold jwtPattern. destruct (has_prefix "eyJ" s); [|done]. cbn [negb].
  destruct (jwt_part _) as [a|]; [|done]. cbn [mbind option_bind]. destruct (jwt_part _) as [b|]; [|done]. cbn [mbind option_bind].
  set (k := url_run _). destruct (Nat.leb_spec 4 k); [|done].
  intros [= <-]. split; [lia|]. intros c r. change (S (S (S (a + b + k)))) with (3 + a + b + k)%nat.
  rewrite <- !drop_drop. intros Hu%url_run_ends. unfold url_char in Hu. bool_to_prop. done.
Qed.
Lemma after_match m m' p p' s n : ends m -> begins m' -> m p s = Some n -> m' p' (drop_chars n s) = None.
Proof.
  intros He Hb Hm. destruct (m' p' (drop_chars n s)) as [k|] eqn:E; [|done].
  destruct (Hb _ _ _ E) as (c & r & Ec & Hc). by rewrite (proj2 (He _ _ _ Hm) c r Ec) in Hc.
Qed.

(** ** Texts without credentials *)
Fixpoint clean_from (m : matcher) (prev : option ascii) (s : string) : bool :=
  match s with
  | "" => true
  | String c r => match m prev s with None => true | Some _ => false end && clean_from m (Some c) r
  end.
Definition clean (s : string) : Prop := clean_from bearerPattern None s = true /\ clean_from jwtPattern None s = true.

(** The placeholder is no credential and starts none. *)
Definition inert (m : matcher) : Prop := forall q rest, clean_from m (Some "]"%char) rest = true -> clean_from m q (Placeholder +:+ rest) = true.
Lemma bearer_inert : inert bearerPattern.
Proof.
  intros q rest H. unfold Placeholder. cbn [String.append clean_from].
  assert (forall p c r, lower_ascii c <> "b"%char -> bearerPattern p (String c r) = None) as Hn.
  { intros p c r Hc. destruct (bearerPattern p (String c r)) eqn:E; [|done]. by destruct (bearer_begins _ _ _ E) as (? & ? & [= <- <-] & ?). }
  by rewrite !Hn by discriminate.
Qed.
Lemma jwt_inert : inert jwtPattern.
Proof. intros q rest H. unfold Placeholder. cbn [String.append clean_from]. by cbn -[clean_from]. Qed.

Section Cleaning.
Context (m m' : matcher) (m_ends : ends m) (m'_begins : begins m') (m'_local : local m') (m'_inert : inert m').

(** [m'] matches nowhere [m] leaves a character in place. *)
Fixpoint kept (prev : option ascii) (s : string) (skip : nat) : Prop :=
  match s with
  | "" => True
  | String c r =>
      match skip with
      | S k => kept (Some c) r k
      | O => match m prev s with
             | Some (S k) => kept (Some c) r k
             | _ => m' prev s = None /\ kept (Some c) r O
             end
      end
  end.

Lemma replace_prefix prev s : replace_all m prev s 0 = s \/
  exists u w v, s = u +:+ w /\ replace_all m prev s 0 = u +:+ String stop v.
Proof.
  revert prev. induction s as [|c r IH]; intros prev; [by left|]. cbn [replace_all].
  destruct (IH (Some c)) as [E|(u & w & v & E1 & E2)]; destruct (m prev (String c r)) as [[|k]|];
    try (right; exists "", (String c r), ("redacted]" +:+ replace_all m (Some c) r k); done).
  1,2: left; by rewrite E.
  all: right; exists (String c u), w, v; rewrite E2, E1; done.
Qed.

Lemma replace_clean s prev q skip : kept prev s skip ->
  (skip = O -> q = prev \/ forall p, m' p s = None) -> (forall p, skip <> O -> m' p (drop_chars skip s) = None) ->
  clean_from m' q (replace_all m prev s skip) = true.
Proof.
  revert prev q skip. induction s as [|c r IH]; intros prev q skip Hk Hq Hs; [done|].
  destruct skip as [|k]; cbn [replace_all kept] in *.
  2:{ apply IH; [done| |].
      - intros ->. right. intros p. by apply (Hs p).
      - intros p Hne. by apply (Hs p). }
  destruct (m prev (String c r)) as [[|k]|] eqn:E.
  - by destruct (proj1 (m_ends _ _ _ E)).
  - apply m'_inert. pose proof (fun p => after_match m m' prev p _ _ m_ends m'_begins E) as Ha. cbn [drop_chars] in Ha. apply IH; [done| |].
    + intros ->. by right.
    + intros p _. apply Ha.
  - destruct Hk as [Hn Hk]. cbn [clean_from]. rewrite (IH (Some c) (Some c) O Hk ltac:(by left) ltac:(done)), andb_true_r.
    assert (m' q (String c r) = None) as Hm by (destruct (Hq eq_refl) as [-> |H]; [done|apply H]).
    destruct (replace_prefix (Some c) r) as [-> |(u & w & v & E1 & ->)]; [by rewrite Hm|].
    destruct (m' q (String c (u +:+ String stop v))) as [n|] eqn:E2; [|done].
    destruct (m'_local q (String c u) v w n E2) as [n' E3]. cbn [String.append] in E3. rewrite <- E1 in E3. congruence.
Qed.
End Cleaning.

Lemma kept_self m prev s skip : ends m -> kept m m prev s skip.
Proof.
  intros He. revert prev skip. induction s as [|c r IH]; intros prev [|k]; cbn [kept]; try done.
  destruct (m prev (String c r)) as [[|k]|] eqn:E; [by destruct (proj1 (He _ _ _ E))|apply IH|by split].
Qed.
Lemma kept_clean m m' prev s skip : clean_from m' prev s = true -> kept m m' prev s skip.
Proof.
  revert prev skip. induction s as [|c r IH]; intros prev [|k]; cbn [kept clean_from]; try done; intros [H1 H2]%andb_true_iff; [|auto].
  destruct (m prev (String c r)) as [[|k]|]; [split; [by destruct (m' prev _)|auto]|auto|split; [by destruct (m' prev _)|auto]].
Qed.

Lemma scrub_clean s : clean (scrub s).
Proof.
  unfold scrub. assert (clean_from bearerPattern None (replace_all bearerPattern None s 0) = true) as H1.
  { apply replace_clean; [exact bearer_ends|exact bearer_begins_letter|exact bearer_local|exact bearer_inert|
      apply kept_self, bearer_ends|by left|done]. }
  split.
  - apply replace_clean; [exact jwt_ends|exact bearer_begins_letter|exact bearer_local|exact bearer_inert|by apply kept_clean|by left|done].
  - apply replace_clean; [exact jwt_ends|exact jwt_begins_letter|exact jwt_local|exact jwt_inert|apply kept_self, jwt_ends|by left|done].
Qed.

Lemma replace_none m prev s : clean_from m prev s = true -> replace_all m prev s 0 = s.
Proof.
  revert prev. induction s as [|c r IH]; intros prev; cbn [clean_from replace_all]; [done|].
  destruct (m prev (String c r)); [done|]. intros H. by rewrite IH.
Qed.
Lemma scrub_idempotent s : scrub (scrub s) = scrub s.
Proof. destruct (scrub_clean s) as [H1 H2]. unfold scrub at 1. by rewrite (replace_none _ _ _ H1), (replace_none _ _ _ H2). Qed.

(** ** What must not matter

    The same value with everything sensitive taken out: whatever stands under a
    sensitive name, what an error says and is, and the fields that are not
    logged. *)
Definition masked : value := Val (IStringer "") (SBool false).
Fixpoint mask_value (v : value) : value :=
  match v with
  | VNil => VNil
  | Val (IError _) _ => Val (IError "") (SBool false)
  | Val (ILogValuer lv) _ => Val (ILogValuer (mask_slog lv)) (SBool false)
  | Val (IStringer text) _ => Val (IStringer text) (SBool false)
  | Val IPlain s => Val IPlain (mask_shape s)
  end
with mask_slog (v : slog) : slog :=
  match v with
  | LGroup members => LGroup (map (fun m => (fst m, if IsSensitiveKey (fst m) then LScalar "" else mask_slog (snd m))) members)
  | LAny v => LAny (mask_value v)
  | LString s => LString s
  | LScalar text => LScalar text
  end
with mask_shape (s : shape) : shape :=
  match s with
  | SList items => SList (map (fun item => match item with Some v => Some (mask_value v) | None => None end) items)
  | SMap entries =>
      SMap (map (fun e => match fst e with
                          | None => (None, None)
                          | Some name =>
                              (Some name, if IsSensitiveKey name then None
                                          else match snd e with Some v => Some (mask_value v) | None => None end)
                          end) entries)
  | SStruct fields =>
      SStruct (map (fun f => (fst f, match field_name (fst f) with
                                     | None => masked
                                     | Some name => if IsSensitiveKey name then masked else mask_value (snd f)
                                     end)) fields)
  | SPointer (Some target) => SPointer (Some (mask_shape target))
  | other => other
  end.
Definition mask_attr (a : attr) : attr := (fst a, if IsSensitiveKey (fst a) then LScalar "" else mask_slog (snd a)).

Lemma omap_cons {A C} (f : A -> option C) a l : omap f (a :: l) = match f a with Some c => c :: omap f l | None => omap f l end.
Proof. done. Qed.

Lemma sanitizeAny_mask (v : value) : forall d, sanitizeAny (mask_value v) d = sanitizeAny v d
with sanitizeSlogValue_mask (v : slog) : forall d, sanitizeSlogValue (mask_slog v) d = sanitizeSlogValue v d
with sanitizeReflect_mask (s : shape) : forall d, sanitizeReflect (mask_shape s) d = sanitizeReflect s d.
Proof.
  - destruct v as [|[text|lv|text|] s]; intros d; cbn [mask_value sanitizeAny]; [done..| |done|].
    + by rewrite sanitizeSlogValue_mask.
    + by rewrite sanitizeReflect_mask.
  - destruct v as [members|v|s|text]; intros d; cbn [mask_slog sanitizeSlogValue]; [|apply sanitizeAny_mask|done..].
    f_equal. induction members as [|[name v] members IH]; [done|]. cbn [map fst snd]. f_equal; [|exact IH].
    f_equal. destruct (IsSensitiveKey name); [done|apply sanitizeSlogValue_mask].
  - destruct s as [s|b|z|z|z|s|items|entries|fields|[target|]|text]; intros d; cbn [mask_shape sanitizeReflect]; try done.
    + f_equal. induction items as [|[v|] items IH]; cbn [map]; [done|f_equal; [apply sanitizeAny_mask|exact IH]|f_equal; exact IH].
    + f_equal. induction entries as [|[[name|] v] entries IH]; [done| |]; cbn [map fst snd]; rewrite !omap_cons; cbn [fst snd]; [|exact IH].
      f_equal; [|exact IH]. f_equal. destruct (IsSensitiveKey name); [done|]. destruct v as [v|]; [apply sanitizeAny_mask|done].
    + f_equal. induction fields as [|[f v] fields IH]; [done|]. cbn [map fst snd]. rewrite !omap_cons. cbn [fst snd].
      destruct (field_name f) as [name|]; [|exact IH]. f_equal; [|exact IH]. f_equal.
      destruct (IsSensitiveKey name); [done|apply sanitizeAny_mask].
Qed.

Lemma scrub_value_mask (v : slog) : scrub_value (mask_slog v) = scrub_value v.
Proof.
  revert v. fix IH 1. intros [members|v|s|text]; cbn [mask_slog scrub_value]; [|by rewrite sanitizeAny_mask|done..].
  f_equal. induction members as [|[name v] members IHm]; [done|]. cbn [map fst snd]. f_equal; [|exact IHm].
  f_equal. destruct (IsSensitiveKey name); [done|apply IH].
Qed.
Lemma scrubAttr_mask a : scrubAttr (mask_attr a) = scrubAttr a.
Proof.
  destruct a as [name v]. unfold scrubAttr, mask_attr. cbn [fst snd].
  destruct (IsSensitiveKey name); [reflexivity|by rewrite scrub_value_mask].
Qed.
Lemma scrub_attrs_mask l : map scrubAttr (map mask_attr l) = map scrubAttr l.
Proof. rewrite map_map. apply map_ext. exact scrubAttr_mask. Qed.

(** ** The texts that leave the handler *)
Fixpoint texts (o : out) : list string :=
  match o with
  | OString s => [s]
  | OList items => concat (map texts items)
  | OMap writes => concat (map (fun w => texts (snd w)) writes)
  | _ => []
  end.
Fixpoint logged_texts (l : logged) : list string :=
  match l with
  | Leaf o => texts o
  | Group members => concat (map (fun m => logged_texts (snd m)) members)
  end.
Definition attr_texts (l : list logged_attr) : list string := concat (map (fun a => logged_texts (snd a)) l).
Definition binding_texts (b : binding) : list string := match b with BoundAttrs l => attr_texts l | BoundGroup _ => [] end.
Definition emitted_texts (e : handler * record logged_attr) : list string :=
  (concat (map binding_texts (fst e)) ++ Message (snd e) :: attr_texts (Attrs (snd e)))%list.

Lemma placeholder_clean : clean Placeholder.
Proof. by split. Qed.
#[local] Hint Resolve placeholder_clean scrub_clean Forall_nil_2 : core.
Lemma Forall_one {A} (P : A -> Prop) a : P a -> Forall P [a].
Proof. intros H. by apply Forall_singleton. Qed.
#[local] Hint Resolve Forall_one : core.

Lemma sanitizeAny_clean (v : value) : forall d, Forall clean (texts (sanitizeAny v d))
with sanitizeSlogValue_clean (v : slog) : forall d, Forall clean (texts (sanitizeSlogValue v d))
with sanitizeReflect_clean (s : shape) : forall d, Forall clean (texts (sanitizeReflect s d)).
Proof.
  - destruct v as [|i s]; intros d; cbn [sanitizeAny]; [auto|]. destruct (too_deep d); [cbn; auto|].
    destruct i as [text|lv|text|]; [cbn; auto|apply sanitizeSlogValue_clean|cbn; auto|apply sanitizeReflect_clean].
  - destruct v as [members|v|s|text]; intros d; cbn [sanitizeSlogValue texts]; [|apply sanitizeAny_clean|cbn; auto..].
    induction members as [|[name v] members IH]; cbn [map concat fst snd]; [auto|]. apply Forall_app. split; [|exact IH].
    destruct (IsSensitiveKey name); [cbn; auto|apply sanitizeSlogValue_clean].
  - destruct s as [s|b|z|z|z|s|items|entries|fields|[target|]|[text|]]; intros d; cbn [sanitizeReflect];
      try (cbn; solve [auto]); cbn [texts].
    + induction items as [|[v|] items IH]; cbn [map concat]; [auto|..]; (apply Forall_app; split; [|exact IH]);
        [apply sanitizeAny_clean|cbn; auto].
    + induction entries as [|[[name|] v] entries IH]; rewrite ?omap_cons; cbn [map concat fst snd]; [apply Forall_nil_2| |exact IH].
      apply Forall_app. split; [|exact IH]. destruct (IsSensitiveKey name); [cbn; auto|]. destruct v as [v|]; [apply sanitizeAny_clean|cbn; auto].
    + induction fields as [|[f v] fields IH]; rewrite ?omap_cons; cbn [fst snd]; [apply Forall_nil_2|].
      destruct (field_name f) as [name|]; [|exact IH]. cbn [map concat fst snd]. apply Forall_app. split; [|exact IH].
      destruct (IsSensitiveKey name); [cbn; auto|apply sanitizeAny_clean].
Qed.
Lemma scrub_value_clean (v : slog) : Forall clean (logged_texts (scrub_value v)).
Proof.
  revert v. fix IH 1. intros [members|v|s|text]; cbn [scrub_value logged_texts]; [|apply sanitizeAny_clean|cbn; auto..].
  induction members as [|[name v] members IHm]; cbn [map concat fst snd]; [apply Forall_nil_2|].
  apply Forall_app. split; [|exact IHm]. destruct (IsSensitiveKey name); [cbn; auto|apply IH].
Qed.
Lemma scrub_attrs_clean l : Forall clean (attr_texts (map scrubAttr l)).
Proof.
  unfold attr_texts. induction l as [|[name v] l IH]; cbn [map concat]; [apply Forall_nil_2|]. apply Forall_app. split; [|exact IH].
  unfold scrubAttr. cbn [fst snd]. destruct (IsSensitiveKey name); [cbn; auto|apply scrub_value_clean].
Qed.

(** ** A logger and its records *)
Inductive log_call : Type := CallAttrs (attrs : list attr) | CallGroup (name : string).
Definition logger (calls : list log_call) : handler :=
  fold_left (fun h c => match c with CallAttrs attrs => WithAttrs h attrs | CallGroup name => WithGroup h name end) calls NewHandler.
Definition mask_call (c : log_call) : log_call :=
  match c with CallAttrs attrs => CallAttrs (map mask_attr attrs) | CallGroup name => CallGroup name end.
Definition mask_record (r : record attr) : record attr :=
  {| Time := Time r; Level := Level r; Message := Message r; PC := PC r; Attrs := map mask_attr (Attrs r) |}.

Lemma logger_mask calls : logger (map mask_call calls) = logger calls.
Proof.
  unfold logger. generalize NewHandler. induction calls as [|[attrs|name] calls IH]; intros h; cbn [map fold_left mask_call]; [done| |apply IH].
  rewrite IH. unfold WithAttrs. by rewrite scrub_attrs_mask.
Qed.
Lemma logger_clean calls : Forall clean (concat (map binding_texts (logger calls))).
Proof.
  unfold logger. assert (Forall clean (concat (map binding_texts NewHandler))) as H by apply Forall_nil_2. revert H.
  generalize NewHandler. induction calls as [|[attrs|name] calls IH]; intros h H; cbn [fold_left]; [done|..]; apply IH;
    unfold WithAttrs, WithGroup; rewrite map_app, concat_app; (apply Forall_app; split; [done|]); cbn; [|auto].
  rewrite app_nil_r. apply scrub_attrs_clean.
Qed.

(** Whether a value is sensitive goes by its name as written: the camel-case
    names of the API's JSON are not among those listed. *)
Lemma camel_case_passes : IsSensitiveKey "closing_balance" = true /\ IsSensitiveKey "closingBalance" = false.
Proof. by vm_compute. Qed.

(** C38: what a logger emits does not depend on anything sensitive.  Two runs of
    the same calls that differ only in values under sensitive names, at any
    depth of groups, maps, structs, lists and pointers, in the text or the
    content of errors, or in fields that are not logged, hand the same output
    to the wrapped handler. *)
Theorem sensitive_values_unlogged calls calls' r r' :
  map mask_call calls = map mask_call calls' -> mask_record r = mask_record r' ->
  Handle (logger calls) r = Handle (logger calls') r'.
Proof.
  intros Hc Hr. rewrite <- (logger_mask calls), Hc, logger_mask. unfold Handle.
  rewrite <- (scrub_attrs_mask (Attrs r)), <- (scrub_attrs_mask (Attrs r')).
  injection Hr as -> -> -> -> ->. done.
Qed.
Definition demo_entry (amount : Z) (token : string) : value :=
  Val IPlain (SPointer (Some (SStruct
    [(Field true "Amount" "amount_minor,omitempty", Val IPlain (SInt amount));
     (Field true "Headers" "", Val IPlain (SMap [(Some "Authorization", Some (Val IPlain (SString token))); (Some "Accept", Some (Val IPlain (SString "json")))]));
     (Field false "raw" "", Val IPlain (SString token))]))).
Definition demo_record (amount : Z) (token : string) : record attr :=
  {| Time := 1; Level := 0; Message := "sent"; PC := 7;
     Attrs := [("entry", LAny (demo_entry amount token)); ("error", LAny (Val (IError token) (SString token)));
               ("idempotency-key", LString token)] |}.
Lemma sensitive_values_unlogged_witness :
  demo_record 5 "a" <> demo_record 7 "b" /\
  Handle (logger [CallAttrs [("token", LString "a")]; CallGroup "g"]) (demo_record 5 "a") =
  Handle (logger [CallAttrs [("token", LString "b")]; CallGroup "g"]) (demo_record 7 "b").
Proof.
  split; [discriminate|]. apply sensitive_values_unlogged; vm_compute; reflexivity.
Defined.

(** No text a logger emits holds a credential: neither the message nor any
    string among the values, however deep, contains a bearer or basic
    authorization or a compact JWT, wherever in the text it would start, the
    texts made by replacing one included. *)
Theorem emitted_texts_clean calls r : Forall clean (emitted_texts (Handle (logger calls) r)).
Proof.
  unfold emitted_texts, Handle. cbn [fst snd Message Attrs]. apply Forall_app. split; [apply logger_clean|].
  apply Forall_cons; [apply scrub_clean|apply scrub_attrs_clean].
Qed.
