(* ===== verification/Migrations.v ===== *)
(** * Schema migrations

    services/ledger/migrations/migrations.go and
    services/consolidation/internal/adapters/outbound/postgres/migrate.go: the
    transactions that bring a schema up to date and take it down.  An advisory
    lock lets one of them run at a time.

    A script is named by its file; what it does to the table that tracks the
    migrations is modelled from the SQL, what it does to the other objects is
    [ddl].  [files] is the embedded file system, [trusted] the catalog query
    about the legacy schema, [drop_schema] DROP SCHEMA without CASCADE.  A
    statement may also fail for a reason outside the schema: the transaction
    carries the outcome of every statement to come. *)

From S2P Require Import Prelude.
From S2P Require Import Sorting.
From S2P Require Import GoStrings.
From Stdlib Require String.
From Stdlib Require Import ZArith Lia Ascii.
Open Scope string_scope.
Open Scope Z_scope.

(** ** Transactions *)
Record tx (S : Type) : Type := { t_schema : S; t_faults : list (option error) }.
Arguments Build_tx {S} _ _.
Arguments t_schema {S} _.
Arguments t_faults {S} _.

Inductive commit_outcome : Type := CommitOk | CommitFailed (e : error) | CommitUnknown (e : error).
Record tx_env : Type := { begin_fault : option error; statements : list (option error); commit : commit_outcome }.
Definition healthy : tx_env := {| begin_fault := None; statements := []; commit := CommitOk |}.

Section Transaction.
Context {S : Type}.

Definition stmt {A} (m : St S A) : St (tx S) A := fun x =>
  match t_faults x with
  | Some e :: fs => (Err e, Build_tx (t_schema x) fs)
  | fs => let '(r, s) := m (t_schema x) in (r, Build_tx s (tail fs))
  end.

(** A rollback restores what the transaction found. *)
Definition transact (begin_op commit_op : string) (env : tx_env) (body : St (tx S) unit) (s : S) : result unit * S :=
  match begin_fault env with
  | Some e => (Err (EWrap begin_op e), s)
  | None =>
      match body (Build_tx s (statements env)) with
      | (Err e, _) => (Err e, s)
      | (Ok _, x) =>
          match commit env with
          | CommitOk => (Ok tt, t_schema x)
          | CommitFailed e => (Err (EWrap commit_op e), s)
          | CommitUnknown e => (Err (EWrap commit_op e), t_schema x)
          end
      end
  end.

Lemma stmt_done {A} (m : St S A) x a x' : stmt m x = (Ok a, x') -> m (t_schema x) = (Ok a, t_schema x').
Proof.
  unfold stmt. destruct (t_faults x) as [|[e|] fs]; [|done|]; destruct (m (t_schema x)) as [r s]; by intros [= -> <-].
Qed.
Lemma stmt_healthy {A} (m : St S A) s : stmt m (Build_tx s []) = (fst (m s), Build_tx (snd (m s)) []).
Proof. unfold stmt. cbn. by destruct (m s). Qed.

(** A program that succeeds among failing statements does what it does on a
    healthy connection: no statement fails by saying there are no rows. *)
Definition genuine (fs : list (option error)) : Prop :=
  forall e, Some e ∈ fs -> errors_is e "pgx.ErrNoRows" = false.
Definition quiet (x : tx S) : tx S := Build_tx (t_schema x) [].
Definition honest {A} (m : St (tx S) A) : Prop := forall x a x', genuine (t_faults x) -> m x = (Ok a, x') ->
  genuine (t_faults x') /\ m (quiet x) = (Ok a, quiet x').

Lemma genuine_tail f fs : genuine (f :: fs) -> genuine fs.
Proof. intros H e He. apply H. by right. Qed.
Lemma stmt_cases {A} (m : St S A) x : genuine (t_faults x) ->
  (exists e x', stmt m x = (Err e, x') /\ errors_is e "pgx.ErrNoRows" = false) \/
  (exists fs, genuine fs /\ stmt m x = (fst (m (t_schema x)), Build_tx (snd (m (t_schema x))) fs)).
Proof.
  intros Hg. unfold stmt. destruct (t_faults x) as [|[e|] fs] eqn:E.
  - right. exists []. split; [done|]. by destruct (m (t_schema x)).
  - left. eexists _, _. split; [done|]. apply Hg. left.
  - right. exists fs. split; [by eapply genuine_tail|]. by destruct (m (t_schema x)).
Qed.
Lemma honest_stmt {A} (m : St S A) : honest (stmt m).
Proof.
  intros x a x' Hg. destruct (stmt_cases m x Hg) as [(e & x1 & -> & _)|(fs & Hfs & ->)]; [done|]. intros [= E <-].
  split; [done|]. unfold quiet. rewrite stmt_healthy. cbn. by rewrite E.
Qed.
Lemma honest_wrap {A} what (m : St (tx S) A) : honest m -> honest (wrap_st what m).
Proof.
  intros Hm x a x' Hg. unfold wrap_st. destruct (m x) as [[b|] x1] eqn:E; [|done]. intros [= -> ->].
  destruct (Hm _ _ _ Hg E) as [H1 ->]. done.
Qed.
Lemma honest_bind {A B} (m : St (tx S) A) (k : A -> St (tx S) B) : honest m -> (forall a, honest (k a)) -> honest (a ← m; k a).
Proof.
  intros Hm Hk x b x' Hg. unfold mbind, st_bind. destruct (m x) as [[a|] x1] eqn:E; [|done]. intros E2.
  destruct (Hm _ _ _ Hg E) as [H1 ->]. by apply Hk.
Qed.
Lemma honest_ret {A} (a : A) : honest (mret a).
Proof. by intros x b x' Hg [= <- <-]. Qed.
Lemma honest_lift {A} (r : result A) : honest (lift r).
Proof. by intros x b x' Hg [= -> <-]. Qed.
Lemma honest_throw {A} e : honest (A := A) (throw e).
Proof. by intros x b x' Hg E. Qed.

(** What a transaction leaves: what it found, or what its body made of it. *)
Lemma transact_leaves begin_op commit_op env body s r s' : transact begin_op commit_op env body s = (r, s') ->
  (is_ok r = false /\ s' = s) \/
  (exists x, body (Build_tx s (statements env)) = (Ok tt, x) /\ s' = t_schema x /\ (is_ok r = true \/ exists e, commit env = CommitUnknown e)).
Proof.
  unfold transact. destruct (begin_fault env); [intros [= <- <-]; by left|].
  destruct (body _) as [[[]|e] x]; [|intros [= <- <-]; by left].
  destruct (commit env) eqn:Ec; intros [= <- <-]; [right|by left|right]; exists x; (split; [done|]); (split; [done|]); eauto.
Qed.
(** A transaction over an honest body, from what the body does on a healthy
    connection. *)
Lemma transact_honest begin_op commit_op env (body : St (tx S) unit) s r s' : honest body -> genuine (statements env) ->
  transact begin_op commit_op env body s = (r, s') ->
  (is_ok r = false /\ s' = s) \/ body (Build_tx s []) = (Ok tt, Build_tx s' []).
Proof.
  intros Hh Hg E. destruct (transact_leaves _ _ _ _ _ _ _ E) as [H|(x & Eb & -> & _)]; [by left|right].
  exact (proj2 (Hh (Build_tx s (statements env)) _ _ Hg Eb)).
Qed.

End Transaction.
#[export] Hint Resolve honest_stmt honest_wrap honest_bind honest_ret honest_lift honest_throw : keyrus.

(** ** The Ledger *)
Module Ledger.
Record migration : Type := { up : string; down : string }.
Definition legacyMigration : string := "000001_ledger_core.up.sql".
Definition legacyChecksum : string := "7df6b8f3cc82408ae9c53e99d7e7667e55a0431bc54e8de8e8cf7238989d4417".
Definition ordered : list migration :=
  [{| up := legacyMigration; down := "000001_ledger_core.down.sql" |};
   {| up := "000002_ledger_integrity.up.sql"; down := "000002_ledger_integrity.down.sql" |};
   {| up := "000003_outbox_publisher.up.sql"; down := "000003_outbox_publisher.down.sql" |};
   {| up := "000004_roles.up.sql"; down := "000004_roles.down.sql" |}].

(** ledger.schema_migration: the version is its key; the checksum column is
    NOT NULL where it exists. *)
Record tracker : Type := { checksum_column : bool; tracked : list (string * option string) }.
Record schema (Objects : Type) : Type := { tracking : option tracker; objects : Objects }.
Arguments Build_schema {Objects} _ _.
Arguments tracking {Objects} _.
Arguments objects {Objects} _.

(** 000002_ledger_integrity.up.sql, its first three statements. *)
Definition add_checksums (t : tracker) : result tracker :=
  if checksum_column t then Err (EPg "42701" "checksum")
  else
    let rows := map (fun r => (fst r, if String.eqb (fst r) legacyMigration then Some legacyChecksum else None)) (tracked t) in
    if existsb (fun r => match snd r with None => true | Some _ => false end) rows then Err (EPg "23502" "checksum")
    else Ok {| checksum_column := true; tracked := rows |}.
Definition drop_checksums (t : tracker) : result tracker :=
  if checksum_column t then Ok {| checksum_column := false; tracked := map (fun r => (fst r, None)) (tracked t) |}
  else Err (EPg "42703" "checksum").

Section Runner.
Context {Objects : Type} (ddl : string -> Objects -> result Objects) (trusted : Objects -> bool).
Context (drop_schema : Objects -> result Objects) (sha256 : string -> list Z) (files : string -> result string).
Notation db := (schema Objects).

Definition migrationChecksum (sql : string) : string := hex_encode (sha256 sql).

Definition on_tracker (f : tracker -> result tracker) (t : option tracker) : result (option tracker) :=
  match t with Some t => t' ← f t; Ok (Some t') | None => Err (EPg "42P01" "schema_migration") end.
Definition script_tracker (file : string) (t : option tracker) : result (option tracker) :=
  if String.eqb file "000002_ledger_integrity.up.sql" then on_tracker add_checksums t
  else if String.eqb file "000002_ledger_integrity.down.sql" then on_tracker drop_checksums t
  else if String.eqb file "000001_ledger_core.down.sql" then Ok None
  else Ok t.
Definition run_script (file : string) : St db unit := fun s =>
  match script_tracker file (tracking s), ddl file (objects s) with
  | Ok t, Ok o => (Ok tt, Build_schema t o)
  | Err e, _ | _, Err e => (Err e, s)
  end.

(** CREATE SCHEMA and CREATE TABLE IF NOT EXISTS, and the lock. *)
Definition prepare_tracker : St db unit := fun s =>
  (Ok tt, Build_schema (Some (default {| checksum_column := false; tracked := [] |} (tracking s))) (objects s)).
Definition column_exists : St db bool := fun s => (Ok match tracking s with Some t => checksum_column t | None => false end, s).
Definition rows_of : St db (list (string * option string)) := fun s =>
  (match tracking s with Some t => Ok (tracked t) | None => Err (EPg "42P01" "schema_migration") end, s).
Definition find_row (version : string) (rows : list (string * option string)) : option (option string) :=
  snd <$> List.find (fun r => String.eqb (fst r) version) rows.
Definition select_checksum (version : string) : St db string :=
  rows ← rows_of;
  match find_row version (rows : list (string * option string)) with
  | Some (Some c) => mret c
  | Some None => throw (EMsg "cannot scan NULL into *string")
  | None => throw (ESentinel "pgx.ErrNoRows")
  end.
Definition select_applied (version : string) : St db bool :=
  rows ← rows_of; mret match find_row version rows with Some _ => true | None => false end.
Definition insert_version (version : string) (checksum : option string) : St db unit := fun s =>
  match tracking s with
  | None => (Err (EPg "42P01" "schema_migration"), s)
  | Some t =>
      if match find_row version (tracked t) with Some _ => true | None => false end then (Err (EPg "23505" "schema_migration_pkey"), s)
      else (Ok tt, Build_schema (Some {| checksum_column := checksum_column t; tracked := tracked t ++ [(version, checksum)] |}) (objects s))
  end.

Definition trackerHasChecksum : St (tx db) bool := wrap_st "inspect ledger migration checksum column" (stmt column_exists).

(** min(version) in the order of the server's collation is the only row's
    version when there is one. *)
Definition validateLegacyTracker : St (tx db) unit :=
  rows ← wrap_st "inspect legacy ledger migration tracker" (stmt rows_of);
  match rows with
  | [] => mret tt
  | [(first, _)] =>
      if negb (String.eqb first legacyMigration) then throw (EMsg "unrecognized legacy ledger migration state")
      else
        ok ← wrap_st "validate legacy ledger schema" (stmt (fun s => (Ok (trusted (objects s)), s)));
        if negb (ok : bool) then throw (EMsg "unrecognized legacy ledger schema drift") else mret tt
  | _ => throw (EMsg "unrecognized legacy ledger migration state")
  end.

(** Whether the file is applied already; a checksum that differs is an error. *)
Definition already_applied (has : bool) (version checksum : string) : St (tx db) bool :=
  if has then
    fun x => match stmt (select_checksum version) x with
             | (Ok stored, x) => if String.eqb stored checksum then (Ok true, x)
                                 else (Err (EMsg ("ledger migration " +:+ version +:+ " checksum mismatch")), x)
             | (Err e, x) => if errors_is e "pgx.ErrNoRows" then (Ok false, x)
                             else (Err (EWrap ("read ledger migration " +:+ version) e), x)
             end
  else wrap_st ("read legacy ledger migration " +:+ version) (stmt (select_applied version)).

Definition apply_file (has : bool) (m : migration) : St (tx db) bool :=
  sql ← lift (wrap_err ("read ledger migration " +:+ up m) (files (up m)));
  let checksum := migrationChecksum sql in
  applied ← already_applied has (up m) checksum;
  if (applied : bool) then mret has
  else
    _ ← wrap_st ("apply ledger migration " +:+ up m) (stmt (run_script (up m)));
    has ← trackerHasChecksum;
    _ ← wrap_st ("record ledger migration " +:+ up m) (stmt (insert_version (up m) (if (has : bool) then Some checksum else None)));
    mret has.
Fixpoint apply_files (has : bool) (l : list migration) : St (tx db) unit :=
  match l with [] => mret tt | m :: l => has ← apply_file has m; apply_files has l end.

Definition apply_body : St (tx db) unit :=
  legacySQL ← lift (wrap_err ("read published ledger migration " +:+ legacyMigration) (files legacyMigration));
  if negb (String.eqb (migrationChecksum legacySQL) legacyChecksum)
  then throw (EMsg ("published ledger migration " +:+ legacyMigration +:+ " was modified"))
  else
    _ ← wrap_st "prepare ledger migrations" (stmt prepare_tracker);
    hasChecksum ← trackerHasChecksum;
    _ ← (if (hasChecksum : bool) then mret tt else validateLegacyTracker);
    apply_files hasChecksum ordered.
Definition Apply (env : tx_env) : db -> result unit * db := transact "begin ledger migrations" "commit ledger migrations" env apply_body.

(** RollbackAll *)
Fixpoint verify_files (l : list migration) : St (tx db) unit :=
  match l with
  | [] => mret tt
  | m :: l =>
      upSQL ← lift (wrap_err ("read ledger migration " +:+ up m) (files (up m)));
      _ ← already_applied true (up m) (migrationChecksum upSQL);
      verify_files l
  end.
Fixpoint take_down (l : list migration) : St (tx db) unit :=
  match l with
  | [] => mret tt
  | m :: l =>
      applied ← wrap_st ("read ledger migration " +:+ up m) (stmt (select_applied (up m)));
      if negb (applied : bool) then take_down l
      else
        _ ← lift (wrap_err ("read ledger rollback " +:+ down m) (files (down m)));
        _ ← wrap_st ("apply destructive ledger rollback " +:+ down m) (stmt (run_script (down m)));
        take_down l
  end.
Definition drop_ledger : St db unit := fun s =>
  match drop_schema (objects s) with Ok o => (Ok tt, Build_schema (tracking s) o) | Err e => (Err e, s) end.
Definition rollback_body : St (tx db) unit :=
  hasChecksum ← trackerHasChecksum;
  if negb (hasChecksum : bool) then throw (EMsg "destructive ledger rollback requires checksum-managed migrations")
  else
    _ ← verify_files ordered;
    _ ← take_down (rev ordered);
    wrap_st "remove empty ledger schema" (stmt drop_ledger).
(** Nothing is committed where there is no tracker. *)
Definition RollbackAll (env : tx_env) (s : db) : result unit * db :=
  match begin_fault env with
  | Some e => (Err (EWrap "begin destructive ledger rollback" e), s)
  | None =>
      match stmt (fun s : db => (Ok match tracking s with Some _ => true | None => false end, s)) (Build_tx s (statements env)) with
      | (Err e, _) => (Err (EWrap "inspect ledger migration tracker" e), s)
      | (Ok false, _) => (Ok tt, s)
      | (Ok true, x) =>
          transact "" "commit destructive ledger rollback" {| begin_fault := None; statements := t_faults x; commit := commit env |}
            (_ ← wrap_st "lock destructive ledger rollback" (stmt (fun s => (Ok tt, s))); rollback_body) (t_schema x)
      end
  end.
End Runner.

(** *** What Apply leaves *)
Section Applied.
Context {Objects : Type} (ddl : string -> Objects -> result Objects) (trusted : Objects -> bool).
Context (drop_schema : Objects -> result Objects) (sha256 : string -> list Z) (files : string -> result string).
Notation db := (schema Objects).
Notation Apply := (Apply ddl trusted sha256 files).

(** The files of this commit can be read, and the first is the published one. *)
Definition sum_of (file : string) : string :=
  match files file with Ok sql => migrationChecksum sha256 sql | Err _ => "" end.
Definition intact : Prop :=
  (forall m, m ∈ ordered -> is_ok (files (up m)) = true /\ is_ok (files (down m)) = true) /\ sum_of legacyMigration = legacyChecksum.

(** The tracker once the first [n] files have been applied: the first version
    of the program recorded no checksums. *)
Definition row (m : migration) : string * option string := (up m, Some (sum_of (up m))).
Definition tracked_at (n : nat) : tracker :=
  {| checksum_column := Nat.leb 2 n;
     tracked := match n with O => [] | 1%nat => [(legacyMigration, None)] | _ => map row (take n ordered) end |}.
Definition migrated (n : nat) (s : db) : Prop :=
  (n <= 4)%nat /\ (tracking s = Some (tracked_at n) \/ (n = O /\ tracking s = None)).

(** A tracker without checksums may be adopted: it is empty, or it holds the
    first file alone over a schema the catalog query recognises. *)
Definition adoptable (t : tracker) (o : Objects) : Prop :=
  tracked t = [] \/ exists c, tracked t = [(legacyMigration, c)] /\ trusted o = true.

Fixpoint run_all (scripts : list string) (o : Objects) : result Objects :=
  match scripts with [] => Ok o | f :: fs => o' ← ddl f o; run_all fs o' end.
Definition pending (n : nat) : list string := map up (drop n ordered).

Lemma intact_file m : intact -> m ∈ ordered -> exists sql, files (up m) = Ok sql /\ migrationChecksum sha256 sql = sum_of (up m).
Proof. intros [H _] Hm. destruct (H m Hm) as [Hu _]. unfold sum_of. destruct (files (up m)) as [sql|]; [by exists sql|done]. Qed.

Lemma find_tracked n i m : (n <= 4)%nat -> ordered !! i = Some m -> (i < n)%nat ->
  find_row (up m) (tracked (tracked_at n)) = Some (if Nat.leb 2 n then Some (sum_of (up m)) else None).
Proof.
  intros Hn Hm Hin. destruct n as [|[|[|[|[|n]]]]]; try lia; destruct i as [|[|[|[|i]]]]; try lia; injection Hm as <-; reflexivity.
Qed.
Lemma find_untracked n m : ordered !! n = Some m -> find_row (up m) (tracked (tracked_at n)) = None.
Proof. intros Hm. destruct n as [|[|[|[|n]]]]; try done; injection Hm as <-; reflexivity. Qed.

(** The scripts on the tracker, and the row that is added. *)
Lemma script_next n m : intact -> ordered !! n = Some m ->
  exists t, script_tracker (up m) (Some (tracked_at n)) = Ok (Some t) /\ checksum_column t = Nat.leb 2 (S n) /\
    find_row (up m) (tracked t) = None /\
    {| checksum_column := checksum_column t;
       tracked := tracked t ++ [(up m, if checksum_column t then Some (sum_of (up m)) else None)] |} = tracked_at (S n).
Proof.
  intros [_ Hl] Hm. destruct n as [|[|[|[|n]]]]; try done; injection Hm as <-;
    (eexists; split; [reflexivity|]; split; [reflexivity|]; split; [reflexivity|]); [reflexivity| |reflexivity..].
  unfold tracked_at, row. cbn [take ordered map up app]. by rewrite Hl.
Qed.

(** One file on a healthy database: it is skipped, or it is the next. *)
Lemma apply_file_skip n m i s : intact -> (n <= 4)%nat -> ordered !! i = Some m -> (i < n)%nat -> tracking s = Some (tracked_at n) ->
  apply_file ddl sha256 files (Nat.leb 2 n) m (Build_tx s []) = (Ok (Nat.leb 2 n), Build_tx s []).
Proof.
  intros Hi Hn Hm Hin Ht. destruct (intact_file m Hi) as (sql & Hf & Hs); [by eapply list_elem_of_lookup_2|].
  pose proof (find_tracked n i m Hn Hm Hin) as Hr. unfold apply_file, mbind, st_bind, lift. rewrite Hf. cbn [wrap_err]. rewrite Hs.
  unfold already_applied, wrap_st. destruct (Nat.leb 2 n); rewrite stmt_healthy.
  - unfold select_checksum, mbind, st_bind, rows_of. rewrite Ht, Hr. cbn. by rewrite String.eqb_refl.
  - unfold select_applied, mbind, st_bind, rows_of. rewrite Ht, Hr. done.
Qed.
Lemma apply_file_next n m s : intact -> ordered !! n = Some m -> tracking s = Some (tracked_at n) ->
  apply_file ddl sha256 files (Nat.leb 2 n) m (Build_tx s []) =
  match ddl (up m) (objects s) with
  | Ok o => (Ok (Nat.leb 2 (S n)), Build_tx (Build_schema (Some (tracked_at (S n))) o) [])
  | Err e => (Err (EWrap ("apply ledger migration " +:+ up m) e), Build_tx s [])
  end.
Proof.
  intros Hi Hm Ht. destruct (intact_file m Hi) as (sql & Hf & Hs); [by eapply list_elem_of_lookup_2|].
  pose proof (find_untracked n m Hm) as Hr. destruct (script_next n m Hi Hm) as (t & Hst & Hc & Hfr & Hrow).
  unfold apply_file, mbind, st_bind, lift. rewrite Hf. cbn [wrap_err]. rewrite Hs.
  assert (already_applied (Nat.leb 2 n) (up m) (sum_of (up m)) (Build_tx s []) = (Ok false, Build_tx s [])) as ->.
  { unfold already_applied, wrap_st. destruct (Nat.leb 2 n); rewrite stmt_healthy.
    - unfold select_checksum, mbind, st_bind, rows_of. by rewrite Ht, Hr.
    - unfold select_applied, mbind, st_bind, rows_of. by rewrite Ht, Hr. }
  unfold wrap_st at 1. rewrite stmt_healthy. unfold run_script. rewrite Ht, Hst. destruct (ddl (up m) (objects s)) as [o|e]; [|done].
  cbn [fst snd wrap_err]. unfold trackerHasChecksum, wrap_st at 1. rewrite stmt_healthy. cbn [column_exists fst snd wrap_err tracking].
  unfold wrap_st. rewrite stmt_healthy. unfold insert_version. cbn [tracking objects]. rewrite Hfr. cbn [fst snd wrap_err].
  by rewrite Hrow, Hc.
Qed.

Lemma apply_files_healthy rest n i s : intact -> (n <= 4)%nat -> (i <= n)%nat -> rest = drop i ordered -> tracking s = Some (tracked_at n) ->
  match run_all (pending n) (objects s) with
  | Ok o => apply_files ddl sha256 files (Nat.leb 2 n) rest (Build_tx s []) = (Ok tt, Build_tx (Build_schema (Some (tracked_at 4)) o) [])
  | Err _ => is_ok (fst (apply_files ddl sha256 files (Nat.leb 2 n) rest (Build_tx s []))) = false
  end.
Proof.
  intros Hi. revert n i s. induction rest as [|m rest IH]; intros n i s Hn Hin Hr Ht.
  - assert (4 <= i)%nat by (apply (f_equal length) in Hr; rewrite length_drop in Hr; cbn in Hr; lia).
    assert (n = 4)%nat as -> by lia. cbn. destruct s as [t o]. cbn in *. by subst.
  - assert (ordered !! i = Some m) as Hm by (rewrite <- (Nat.add_0_r i), <- lookup_drop, <- Hr; done).
    assert (rest = drop (S i) ordered) as Hr' by by rewrite (drop_S _ _ _ Hm) in Hr; injection Hr.
    cbn [apply_files]. unfold mbind, st_bind. destruct (decide (i < n)%nat) as [Hlt|Hge].
    + rewrite (apply_file_skip n m i s) by done. by apply (IH n (S i)); [|lia|..].
    + assert (i = n) as -> by lia. rewrite (apply_file_next n m s) by done.
      unfold pending. rewrite (drop_S _ _ _ Hm). cbn [map run_all]. unfold mbind, result_bind.
      destruct (ddl (up m) (objects s)) as [o|e]; [|done].
      apply (IH (S n) (S n) (Build_schema (Some (tracked_at (S n))) o)); [|lia|done..].
      apply lookup_lt_Some in Hm. cbn in Hm. lia.
Qed.

(** The preamble: the tracker exists, and a legacy one is trusted. *)
Lemma preamble_healthy n s : intact -> migrated n s -> (n = 1%nat -> trusted (objects s) = true) -> exists s1, tracking s1 = Some (tracked_at n) /\ objects s1 = objects s /\
  apply_body ddl trusted sha256 files (Build_tx s []) = apply_files ddl sha256 files (Nat.leb 2 n) ordered (Build_tx s1 []).
Proof.
  intros Hi (Hn & Ht) Htr. unfold apply_body, mbind, st_bind, lift.
  destruct (intact_file {| up := legacyMigration; down := "000001_ledger_core.down.sql" |} Hi ltac:(left)) as (sql & Hf & Hs).
  cbn [up] in *. rewrite Hf. cbn [wrap_err]. rewrite Hs, (proj2 Hi). replace (negb _) with false by by rewrite String.eqb_refl.
  unfold wrap_st at 1. rewrite stmt_healthy. cbn [prepare_tracker fst snd wrap_err].
  set (s1 := Build_schema _ _). assert (tracking s1 = Some (tracked_at n)) as Ht1 by (cbn; destruct Ht as [-> |[-> ->]]; done).
  exists s1. split; [done|]. split; [done|].
  unfold trackerHasChecksum, wrap_st at 1. rewrite stmt_healthy. unfold column_exists. rewrite Ht1. cbn [fst snd wrap_err].
  change (checksum_column (tracked_at n)) with (Nat.leb 2 n).
  assert ((if Nat.leb 2 n then mret tt else validateLegacyTracker trusted) (Build_tx s1 []) = (Ok tt, Build_tx s1 [])) as ->; [|done].
  destruct (Nat.leb 2 n) eqn:E; [done|]. unfold validateLegacyTracker, mbind, st_bind, wrap_st at 1. rewrite stmt_healthy.
  unfold rows_of. rewrite Ht1. cbn [fst snd wrap_err]. destruct n as [|[|n]]; [done| |done]. cbn [tracked tracked_at].
  replace (negb _) with false by reflexivity. unfold wrap_st. rewrite stmt_healthy. cbn. by rewrite Htr.
Qed.
Lemma apply_body_healthy n s : intact -> migrated n s -> (n = 1%nat -> trusted (objects s) = true) ->
  match run_all (pending n) (objects s) with
  | Ok o => apply_body ddl trusted sha256 files (Build_tx s []) = (Ok tt, Build_tx (Build_schema (Some (tracked_at 4)) o) [])
  | Err _ => is_ok (fst (apply_body ddl trusted sha256 files (Build_tx s []))) = false
  end.
Proof.
  intros Hi Hm Htr. destruct (preamble_healthy n s Hi Hm Htr) as (s1 & Ht & <- & ->).
  apply (apply_files_healthy ordered n 0 s1 Hi (proj1 Hm) (Nat.le_0_l n) eq_refl Ht).
Qed.

(** Past the preamble, a tracker without checksums is adoptable. *)
Lemma validated s s' x : validateLegacyTracker trusted (Build_tx s []) = (Ok s', x) ->
  exists t, tracking s = Some t /\ adoptable t (objects s).
Proof.
  unfold validateLegacyTracker, mbind, st_bind. unfold wrap_st at 1. rewrite stmt_healthy. unfold rows_of.
  destruct (tracking s) as [t|]; [|done]. cbn [fst snd wrap_err]. intros E. exists t. split; [done|]. unfold adoptable.
  destruct (tracked t) as [|[first c] [|row rest]]; [by left| |done]. right. exists c.
  destruct (String.eqb_spec first legacyMigration) as [->|]; [|done]. split; [done|].
  cbn [negb] in E. unfold wrap_st in E. rewrite stmt_healthy in E. cbn [fst snd wrap_err] in E. by destruct (trusted (objects s)).
Qed.
Lemma body_adopts s t x : tracking s = Some t -> checksum_column t = false ->
  apply_body ddl trusted sha256 files (Build_tx s []) = (Ok tt, x) -> adoptable t (objects s).
Proof.
  intros Ht Hc. unfold apply_body, mbind, st_bind, lift. destruct (files legacyMigration) as [sql|]; [|done]. cbn [wrap_err].
  destruct (negb _); [done|]. unfold wrap_st at 1. rewrite stmt_healthy. cbn [prepare_tracker fst snd wrap_err]. rewrite Ht.
  change (default _ (Some t)) with t. unfold trackerHasChecksum. unfold wrap_st at 1. rewrite stmt_healthy.
  unfold column_exists. cbn [fst snd wrap_err tracking]. rewrite Hc.
  destruct (validateLegacyTracker trusted _) as [[u|] y] eqn:E; [|done]. intros _.
  apply validated in E as (t' & [= <-] & Ha). exact Ha.
Qed.

Lemma honest_applied has version checksum : honest (S := db) (already_applied has version checksum).
Proof.
  unfold already_applied. destruct has; [|eauto with keyrus]. intros x a x' Hg.
  destruct (stmt_cases (select_checksum version) x Hg) as [(e & x1 & -> & ->)|(fs & Hfs & ->)]; [done|].
  unfold quiet at 1. rewrite stmt_healthy. destruct (fst (select_checksum version (t_schema x))) as [c|e].
  - destruct (String.eqb c checksum); [|done]. by intros [= <- <-].
  - destruct (errors_is e _); [|done]. by intros [= <- <-].
Qed.
Lemma honest_file has m : honest (apply_file ddl sha256 files has m).
Proof.
  unfold apply_file. apply honest_bind; [eauto with keyrus|intros sql]. apply honest_bind; [apply honest_applied|intros [|]; [eauto with keyrus|]].
  apply honest_bind; [eauto with keyrus|intros _]. apply honest_bind; [unfold trackerHasChecksum; eauto with keyrus|intros has'].
  apply honest_bind; eauto with keyrus.
Qed.
Lemma honest_files has l : honest (apply_files ddl sha256 files has l).
Proof. revert has. induction l as [|m l IH]; intros has; cbn [apply_files]; [eauto with keyrus|]. apply honest_bind; [apply honest_file|auto]. Qed.
Lemma honest_body : honest (apply_body ddl trusted sha256 files).
Proof.
  unfold apply_body. apply honest_bind; [eauto with keyrus|intros sql]. destruct (negb _); [eauto with keyrus|].
  apply honest_bind; [eauto with keyrus|intros _]. apply honest_bind; [unfold trackerHasChecksum; eauto with keyrus|intros has].
  apply honest_bind; [|intros _; apply honest_files]. destruct has; [eauto with keyrus|]. unfold validateLegacyTracker.
  apply honest_bind; [eauto with keyrus|intros [|[v c] [|r l]]]; [eauto with keyrus| |eauto with keyrus].
  destruct (negb _); [eauto with keyrus|]. apply honest_bind; [eauto with keyrus|intros ok]. destruct (negb ok); eauto with keyrus.
Qed.

Lemma Apply_adopts env s r s' t : genuine (statements env) -> Apply env s = (r, s') ->
  tracking s = Some t -> checksum_column t = false -> (is_ok r = false /\ s' = s) \/ adoptable t (objects s).
Proof.
  intros Hg E Ht Hc. destruct (transact_honest _ _ _ _ _ _ _ honest_body Hg E) as [H|Eb]; [by left|right].
  by eapply body_adopts.
Qed.
Lemma Apply_outcome env n s r s' : intact -> migrated n s -> genuine (statements env) -> Apply env s = (r, s') ->
  (is_ok r = false /\ s' = s) \/
  (tracking s' = Some (tracked_at 4) /\ run_all (pending n) (objects s) = Ok (objects s')).
Proof.
  intros Hi Hm Hg E. destruct (transact_honest _ _ _ _ _ _ _ honest_body Hg E) as [H|Eb]; [by left|right].
  assert (n = 1%nat -> trusted (objects s) = true) as Htr.
  { intros ->. destruct Hm as [_ [Ht|[? _]]]; [|done]. by destruct (body_adopts s (tracked_at 1) _ Ht eq_refl Eb) as [|(c & _ & ?)]. }
  pose proof (apply_body_healthy n s Hi Hm Htr) as Hb. destruct (run_all _ _) as [o|e]; [|by rewrite Eb in Hb].
  rewrite Eb in Hb. by injection Hb as ->.
Qed.
Lemma Apply_healthy n s o : intact -> migrated n s -> (n = 1%nat -> trusted (objects s) = true) ->
  run_all (pending n) (objects s) = Ok o -> fst (Apply healthy s) = Ok tt.
Proof.
  intros Hi Hm Htr Hr. pose proof (apply_body_healthy n s Hi Hm Htr) as Hb. rewrite Hr in Hb. unfold Ledger.Apply, transact. cbn. by rewrite Hb.
Qed.

(** *** A file that changed after it was applied *)
Definition altered (m : migration) (s : db) : Prop :=
  exists t c, tracking s = Some t /\ checksum_column t = true /\ find_row (up m) (tracked t) = Some (Some c) /\ c <> sum_of (up m).

Lemma find_row_app v rows rows' c : find_row v rows = Some c -> find_row v (rows ++ rows')%list = Some c.
Proof.
  unfold find_row. induction rows as [|[w d] rows IH]; [done|]. cbn. by destruct (String.eqb w v).
Qed.
Lemma up_keeps_tracker m t t' : m ∈ ordered -> checksum_column t = true -> script_tracker (up m) (Some t) = Ok t' -> t' = Some t.
Proof.
  intros Hm Hc. unfold ordered in Hm. repeat (apply elem_of_cons in Hm as [-> | Hm]); [..|by apply elem_of_nil in Hm];
    unfold script_tracker; cbn; [by intros [= <-]|unfold add_checksums; by rewrite Hc|by intros [= <-]..].
Qed.
Lemma altered_applied m s : altered m s -> is_ok (fst (already_applied true (up m) (sum_of (up m)) (Build_tx s []))) = false.
Proof.
  intros (t & c & Ht & Hc & Hf & Hn). unfold already_applied. rewrite stmt_healthy.
  unfold select_checksum, mbind, st_bind, rows_of. rewrite Ht, Hf. cbn. by destruct (String.eqb_spec c (sum_of (up m))).
Qed.

Lemma altered_file m m' s has x : intact -> m' ∈ ordered -> altered m s -> apply_file ddl sha256 files true m' (Build_tx s []) = (Ok has, x) ->
  has = true /\ t_faults x = [] /\ altered m (t_schema x) /\ m' <> m.
Proof.
  intros Hi Hin Ha. destruct (intact_file m' Hi Hin) as (sql & Hf & Hs).
  unfold apply_file, mbind, st_bind, lift. rewrite Hf. cbn [wrap_err]. rewrite Hs.
  assert (already_applied true (up m') (sum_of (up m')) (Build_tx s []) = (fst (already_applied true (up m') (sum_of (up m')) (Build_tx s [])), Build_tx s [])) as Hst.
  { unfold already_applied. rewrite stmt_healthy. unfold select_checksum, mbind, st_bind, rows_of.
    destruct (match tracking s with Some t => _ | None => _ end) as [rows|e]; cbn; [|by destruct (errors_is _ _)].
    destruct (find_row (up m') rows) as [[c|]|]; cbn; [by destruct (String.eqb c _)|done|done]. }
  assert (m' = m -> is_ok (fst (already_applied true (up m') (sum_of (up m')) (Build_tx s []))) = false) as Hbad by (intros ->; by apply altered_applied).
  rewrite Hst. destruct (fst (already_applied _ _ _ _)) as [[]|e]; [| |done]; cbn [fst is_ok] in Hbad.
  { intros [= <- <-]. splits; [done..|]. intros ->. by specialize (Hbad eq_refl). }
  destruct Ha as (t & c & Ht & Hc & Hr & Hn). unfold wrap_st. rewrite stmt_healthy. unfold run_script. rewrite Ht.
  destruct (script_tracker (up m') (Some t)) as [t'|] eqn:Et; [|done]. rewrite (up_keeps_tracker _ _ _ Hin Hc Et).
  destruct (ddl (up m') (objects s)) as [o|]; [|done]. cbn [fst snd wrap_err].
  unfold trackerHasChecksum, wrap_st. rewrite stmt_healthy. cbn [column_exists fst snd tracking]. rewrite Hc. cbn [wrap_err].
  rewrite stmt_healthy. unfold insert_version. cbn [tracking objects]. destruct (find_row (up m') (tracked t)); [done|].
  intros [= <- <-]. splits; [done..| |intros ->; by specialize (Hbad eq_refl)].
  eexists _, c. split; [done|]. split; [done|]. split; [by apply find_row_app|done].
Qed.

Lemma altered_files m l s : intact -> (forall m', m' ∈ l -> m' ∈ ordered) -> altered m s -> m ∈ l ->
  is_ok (fst (apply_files ddl sha256 files true l (Build_tx s []))) = false.
Proof.
  intros Hi. revert s. induction l as [|m' l IH]; intros s Hl Ha Hm; [by apply elem_of_nil in Hm|].
  cbn [apply_files]. unfold mbind, st_bind. destruct (apply_file _ _ _ true m' _) as [[has|] x] eqn:E; [|done].
  destruct (altered_file m m' s has x Hi (Hl m' ltac:(left)) Ha E) as (-> & Hx & Ha' & Hne). destruct x as [s1 fs]. cbn in Hx. subst fs.
  apply IH; [intros; apply Hl; by right|done|]. apply elem_of_cons in Hm as [-> | Hm]; done.
Qed.
Lemma altered_body m s : intact -> m ∈ ordered -> altered m s -> is_ok (fst (apply_body ddl trusted sha256 files (Build_tx s []))) = false.
Proof.
  intros Hi Hin Ha. unfold apply_body, mbind, st_bind, lift.
  destruct (intact_file {| up := legacyMigration; down := "000001_ledger_core.down.sql" |} Hi ltac:(left)) as (sql & Hf & Hs).
  cbn [up] in *. rewrite Hf. cbn [wrap_err]. rewrite Hs, (proj2 Hi). replace (negb _) with false by by rewrite String.eqb_refl.
  unfold wrap_st. rewrite stmt_healthy. cbn [prepare_tracker fst snd wrap_err]. unfold trackerHasChecksum, wrap_st. rewrite stmt_healthy.
  destruct Ha as (t & c & Ht & Hc & Hr & Hn). cbn [column_exists fst snd tracking]. rewrite Ht.
  change (default _ (Some t)) with t. unfold column_exists. cbn [fst snd tracking]. rewrite Hc. cbn [wrap_err].
  apply (altered_files m); [done|done| |done]. by exists t, c.
Qed.
Lemma altered_verify m l s : intact -> (forall m', m' ∈ l -> m' ∈ ordered) -> altered m s -> m ∈ l ->
  is_ok (fst (verify_files sha256 files l (Build_tx s []))) = false.
Proof.
  intros Hi Hl Ha. induction l as [|m' l IH]; intros Hm; [by apply elem_of_nil in Hm|].
  destruct (intact_file m' Hi (Hl m' ltac:(left))) as (sql & Hf & Hs).
  cbn [verify_files]. unfold mbind, st_bind, lift. rewrite Hf. cbn [wrap_err]. rewrite Hs.
  apply elem_of_cons in Hm as [<- | Hm].
  - pose proof (altered_applied m s Ha) as Hb. by destruct (already_applied _ _ _ _) as [[] ?].
  - destruct (already_applied true (up m') _ _) as [[b|] x] eqn:E; [|done].
    assert (x = Build_tx s []) as ->; [|apply IH; [intros; apply Hl; by right|done]].
    revert E. unfold already_applied. rewrite stmt_healthy. unfold select_checksum, mbind, st_bind, rows_of.
    destruct (match tracking s with Some t => _ | None => _ end) as [rows|e]; cbn; [|destruct (errors_is _ _); by intros [= <- <-]].
    destruct (find_row (up m') rows) as [[c|]|]; cbn; [destruct (String.eqb c _)| |]; by intros [= <- <-].
Qed.

(** *** Taking it all down *)
Lemma select_applied_at v (s : db) t : tracking s = Some t ->
  select_applied v s = (Ok (match find_row v (tracked t) with Some _ => true | None => false end), s).
Proof. intros Ht. unfold select_applied, mbind, st_bind, rows_of. by rewrite Ht. Qed.
Lemma take_down_skip m l (s : db) t : tracking s = Some t -> find_row (up m) (tracked t) = None ->
  take_down ddl files (m :: l) (Build_tx s []) = take_down ddl files l (Build_tx s []).
Proof.
  intros Ht Hf. cbn [take_down]. unfold mbind at 1, st_bind at 1. unfold wrap_st at 1. rewrite stmt_healthy.
  rewrite (select_applied_at _ _ _ Ht), Hf. done.
Qed.
Lemma take_down_step m l (s : db) t c x : tracking s = Some t -> find_row (up m) (tracked t) = Some c ->
  take_down ddl files (m :: l) (Build_tx s []) = (Ok tt, x) ->
  exists tr o, script_tracker (down m) (Some t) = Ok tr /\ ddl (down m) (objects s) = Ok o /\
    take_down ddl files l (Build_tx (Build_schema tr o) []) = (Ok tt, x).
Proof.
  intros Ht Hf. cbn [take_down]. unfold mbind, st_bind, lift. unfold wrap_st at 1. rewrite stmt_healthy.
  rewrite (select_applied_at _ _ _ Ht), Hf. cbn [fst snd wrap_err negb]. destruct (files (down m)) as [sql|]; [|done]. cbn [wrap_err].
  unfold wrap_st at 1. rewrite stmt_healthy. unfold run_script. rewrite Ht.
  destruct (script_tracker (down m) (Some t)) as [tr|]; [|done]. destruct (ddl (down m) (objects s)) as [o|]; [|done].
  cbn [fst snd wrap_err]. eauto.
Qed.

(** The tracker keeps its rows until the first file's script drops it. *)
Notation m1 := {| up := legacyMigration; down := "000001_ledger_core.down.sql" |}.
Notation m2 := {| up := "000002_ledger_integrity.up.sql"; down := "000002_ledger_integrity.down.sql" |}.
Notation m3 := {| up := "000003_outbox_publisher.up.sql"; down := "000003_outbox_publisher.down.sql" |}.
Notation m4 := {| up := "000004_roles.up.sql"; down := "000004_roles.down.sql" |}.

Lemma take_down_two n t o x : (2 <= n <= 4)%nat -> t = Some (tracked_at n) ->
  take_down ddl files [m2; m1] (Build_tx (Build_schema t o) []) = (Ok tt, x) ->
  t_faults x = [] /\ tracking (t_schema x) = None /\ run_all [down m2; down m1] o = Ok (objects (t_schema x)).
Proof.
  intros Hn -> E.
  eapply take_down_step in E as (tr & o1 & Es & Ed & E); [|reflexivity|by apply (find_tracked n 1 m2); [lia|done|lia]].
  change (on_tracker drop_checksums (Some (tracked_at n)) = Ok tr) in Es.
  assert (exists rows, tr = Some {| checksum_column := false; tracked := rows |} /\ find_row legacyMigration rows = Some None) as (rows & -> & Hr).
  { unfold on_tracker, drop_checksums in Es. replace (checksum_column (tracked_at n)) with true in Es by (symmetry; apply Nat.leb_le; lia).
    injection Es as <-. eexists. split; [done|]. destruct n as [|[|[|[|[|n]]]]]; try lia; reflexivity. }
  eapply take_down_step in E as (tr & o2 & Es2 & Ed2 & E); [|reflexivity|exact Hr].
  cbn in Es2. injection Es2 as <-. cbn in E. injection E as <-. cbn [objects] in *. cbn [t_faults t_schema tracking objects down run_all] in *.
  unfold mbind, result_bind. rewrite Ed, Ed2. done.
Qed.
Lemma take_down_all n (s : db) x : (2 <= n <= 4)%nat -> tracking s = Some (tracked_at n) ->
  take_down ddl files (rev ordered) (Build_tx s []) = (Ok tt, x) ->
  t_faults x = [] /\ tracking (t_schema x) = None /\ run_all (map down (rev (take n ordered))) (objects s) = Ok (objects (t_schema x)).
Proof.
  intros Hn Ht E. change (rev ordered) with [m4; m3; m2; m1] in E. destruct s as [t o]. cbn [tracking objects] in *.
  assert (n = 2 \/ n = 3 \/ n = 4)%nat as [-> |[-> | ->]] by lia.
  - rewrite (take_down_skip _ _ _ (tracked_at 2)), (take_down_skip _ _ _ (tracked_at 2)) in E by done.
    by apply (take_down_two 2 t o).
  - rewrite (take_down_skip _ _ _ (tracked_at 3)) in E by done.
    eapply take_down_step in E as (tr & o1 & Es & Ed & E); [|exact Ht|by apply (find_tracked 3 2 m3); [lia|done|lia]].
    injection Es as <-. apply (take_down_two 3) in E as (E1 & E2 & E3); [|lia|done]. split; [done|]. split; [done|].
    cbn [rev take ordered app map run_all down objects] in *. unfold mbind, result_bind. rewrite Ed. exact E3.
  - eapply take_down_step in E as (tr & o1 & Es & Ed & E); [|exact Ht|by apply (find_tracked 4 3 m4); [lia|done|lia]].
    injection Es as <-.
    eapply take_down_step in E as (tr & o2 & Es & Ed2 & E); [|reflexivity|by apply (find_tracked 4 2 m3); [lia|done|lia]].
    injection Es as <-. apply (take_down_two 4) in E as (E1 & E2 & E3); [|lia|done]. split; [done|]. split; [done|].
    cbn [rev take ordered app map run_all down objects] in *. unfold mbind, result_bind. rewrite Ed, Ed2. exact E3.
Qed.

Lemma verify_keeps l s x : verify_files sha256 files l (Build_tx s []) = (Ok tt, x) -> x = Build_tx (S := db) s [].
Proof.
  induction l as [|m l IH]; cbn [verify_files]; [by intros [= <-]|]. unfold mbind, st_bind, lift.
  destruct (files (up m)) as [sql|]; [|done]. cbn [wrap_err].
  destruct (already_applied true (up m) _ _) as [[b|] y] eqn:E; [|done]. intros Hx.
  assert (y = Build_tx s []) as ->; [|by apply IH].
  revert E. unfold already_applied. rewrite stmt_healthy. unfold select_checksum, mbind, st_bind, rows_of.
  destruct (match tracking s with Some t => _ | None => _ end) as [rows|e]; cbn; [|destruct (errors_is _ _); by intros [= <- <-]].
  destruct (find_row (up m) rows) as [[c|]|]; cbn; [destruct (String.eqb c _)| |]; by intros [= <- <-].
Qed.

Lemma honest_rollback : honest (rollback_body ddl drop_schema sha256 files).
Proof.
  unfold rollback_body. apply honest_bind; [unfold trackerHasChecksum; eauto with keyrus|intros has]. destruct (negb has); [eauto with keyrus|].
  assert (forall l, honest (S := db) (verify_files sha256 files l)) as Hv.
  { induction l as [|m l IH]; cbn [verify_files]; [eauto with keyrus|]. apply honest_bind; [eauto with keyrus|intros sql].
    apply honest_bind; [apply honest_applied|done]. }
  assert (forall l, honest (take_down ddl files l)) as Ht.
  { induction l as [|m l IH]; cbn [take_down]; [eauto with keyrus|]. apply honest_bind; [eauto with keyrus|intros applied].
    destruct (negb applied); [done|]. apply honest_bind; [eauto with keyrus|intros _]. apply honest_bind; eauto with keyrus. }
  apply honest_bind; [done|intros _]. apply honest_bind; [done|intros _]. eauto with keyrus.
Qed.

Notation RollbackAll := (RollbackAll ddl drop_schema sha256 files).
Notation rolled_back := (rollback_body ddl drop_schema sha256 files).

Lemma RollbackAll_cases env s r s' : genuine (statements env) -> RollbackAll env s = (r, s') ->
  (is_ok r = false /\ s' = s) \/ (tracking s = None /\ s' = s) \/
  (is_Some (tracking s) /\ rolled_back (Build_tx s []) = (Ok tt, Build_tx s' [])).
Proof.
  intros Hg. unfold Ledger.RollbackAll. destruct (begin_fault env); [intros [= <- <-]; by left|].
  destruct (stmt_cases (fun s : db => (Ok match tracking s with Some _ => true | None => false end, s)) (Build_tx s (statements env)) Hg)
    as [(e & x & -> & _)|(fs & Hfs & ->)]; [intros [= <- <-]; by left|]. cbn [fst snd t_schema].
  destruct (tracking s) as [t|] eqn:Et; [|intros [= <- <-]; right; by left]. intros E.
  eapply transact_honest in E; [|apply honest_bind; [eauto with keyrus|intros _; exact honest_rollback]|exact Hfs].
  destruct E as [E|E]; [by left|right; right]. split; [by eexists|]. cbn [t_schema] in E.
  unfold mbind, st_bind, wrap_st in E. rewrite stmt_healthy in E. exact E.
Qed.

Lemma rolled_back_spec n s s' : (2 <= n)%nat -> migrated n s -> rolled_back (Build_tx s []) = (Ok tt, Build_tx s' []) ->
  tracking s' = None /\ exists o, run_all (map down (rev (take n ordered))) (objects s) = Ok o /\ drop_schema o = Ok (objects s').
Proof.
  intros Hn (Hn4 & Ht) E. destruct Ht as [Ht|[-> _]]; [|lia]. unfold rollback_body, trackerHasChecksum, mbind, st_bind in E.
  unfold wrap_st at 1 in E. rewrite stmt_healthy in E. unfold column_exists in E. rewrite Ht in E. cbn [fst snd wrap_err] in E.
  replace (checksum_column (tracked_at n)) with true in E by (symmetry; by apply Nat.leb_le). cbn [negb] in E.
  destruct (verify_files sha256 files ordered _) as [[[]|] x] eqn:Ev; [|done]. rewrite (verify_keeps _ _ _ Ev) in E.
  destruct (take_down ddl files (rev ordered) _) as [[[]|] y] eqn:Ed; [|done].
  destruct (take_down_all n s y ltac:(lia) Ht Ed) as (Hf & Hy & Hr). destruct y as [[ty oy] fy]. cbn in Hf, Hy. subst.
  unfold wrap_st in E. rewrite stmt_healthy in E. unfold drop_ledger in E. cbn in E, Hr.
  destruct (drop_schema oy) as [o|] eqn:Eo; [|done]. injection E as <-. split; [done|]. by exists oy.
Qed.

Lemma altered_rollback m s s' : intact -> m ∈ ordered -> altered m s -> rolled_back (Build_tx s []) = (Ok tt, Build_tx s' []) -> False.
Proof.
  intros Hi Hm Ha E. unfold rollback_body, mbind, st_bind in E.
  destruct (trackerHasChecksum _) as [[has|] x] eqn:Ec; [|done]. destruct has; [|done]. cbn [negb] in E.
  assert (x = Build_tx s []) as ->.
  { revert Ec. unfold trackerHasChecksum, wrap_st. rewrite stmt_healthy. by intros [= _ <-]. }
  pose proof (altered_verify m ordered s Hi (fun _ H => H) Ha Hm) as Hv. by destruct (verify_files _ _ _ _) as [[[]|] ?].
Qed.
End Applied.

(** *** The contract *)
Section Contract.
Context {Objects : Type} (ddl : string -> Objects -> result Objects) (trusted : Objects -> bool).
Context (drop_schema : Objects -> result Objects) (sha256 : string -> list Z) (files : string -> result string).
Notation db := (schema Objects).
Implicit Types s : db.

(** C39: bringing a Ledger schema up to date is all or nothing, adopts only
    what it recognises, and runs every script once.  A tracker that records no
    checksums, as the first release left it, is adopted only if it is empty,
    or holds the first file alone over a schema the catalog query trusts:
    anything else is refused and left as it was.  From an empty database or
    from any number of the files, the first release's included: the database
    is left as it was, or the tracker holds every file with its checksum and
    the scripts still missing have run in order, each once, on what was there.
    A success is the latter, and with nothing missing it changes nothing.  On
    a healthy connection whose scripts run, it succeeds, unless the schema is
    the first release's and not trusted. *)
Theorem Apply_migrates env s r s' : intact sha256 files -> genuine (statements env) ->
  Apply ddl trusted sha256 files env s = (r, s') ->
  (forall t, tracking s = Some t -> checksum_column t = false ->
     (tracked t = [] \/ exists c, tracked t = [(legacyMigration, c)] /\ trusted (objects s) = true) \/
     (is_ok r = false /\ s' = s)) /\
  forall n, migrated sha256 files n s ->
    (s' = s \/ (migrated sha256 files 4 s' /\ run_all ddl (pending n) (objects s) = Ok (objects s'))) /\
    (is_ok r = true -> migrated sha256 files 4 s' /\ run_all ddl (pending n) (objects s) = Ok (objects s')) /\
    (n = 4%nat -> s' = s) /\
    (env = healthy -> is_ok (run_all ddl (pending n) (objects s)) = true ->
       r = Ok tt <-> (n = 1%nat -> trusted (objects s) = true)).
Proof.
  intros Hi Hg E. split.
  { intros t Ht Hc. destruct (Apply_adopts ddl trusted sha256 files env s r s' t Hg E Ht Hc); [by right|by left]. }
  intros n Hm.
  assert (env = healthy -> is_ok (run_all ddl (pending n) (objects s)) = true ->
    r = Ok tt <-> (n = 1%nat -> trusted (objects s) = true)) as Hh.
  { intros -> Hok. split.
    - intros -> ->. destruct Hm as [_ [Ht|[? _]]]; [|done].
      by destruct (Apply_adopts ddl trusted sha256 files healthy s (Ok tt) s' _ Hg E Ht eq_refl) as [[? _]|[?|(c & _ & ?)]].
    - intros Htr. destruct (run_all ddl (pending n) (objects s)) as [o|] eqn:Eo; [|done].
      pose proof (Apply_healthy ddl trusted sha256 files n s o Hi Hm Htr Eo) as Hr. by rewrite E in Hr. }
  destruct (Apply_outcome ddl trusted sha256 files env n s r s' Hi Hm Hg E) as [[Hr ->]|[Ht Ho]].
  - split; [by left|]. split; [by rewrite Hr|]. by split.
  - assert (migrated sha256 files 4 s') as Hm4 by (split; [lia|by left]).
    split; [by right|]. split; [done|]. split; [|done].
    intros ->. destruct s as [t o], s' as [t' o']. cbn in *. injection Ho as <-. destruct Hm as (_ & [Hm|[? _]]); [|done]. cbn in Hm. congruence.
Qed.

(** C40: while the first file is the released one, a migration whose file no
    longer has the checksum it was applied with stops everything: neither applying nor taking down succeeds, whatever
    fails, and the database is left as it was. *)
Theorem altered_refused m s : intact sha256 files -> m ∈ ordered -> altered sha256 files m s ->
  (forall env r s', genuine (statements env) -> Apply ddl trusted sha256 files env s = (r, s') -> is_ok r = false /\ s' = s) /\
  (forall env r s', genuine (statements env) -> RollbackAll ddl drop_schema sha256 files env s = (r, s') -> is_ok r = false /\ s' = s).
Proof.
  intros Hi Hm Ha. split; intros env r s' Hg E.
  - eapply transact_honest in E; [|apply honest_body|done]. destruct E as [E|E]; [done|].
    pose proof (altered_body ddl trusted sha256 files m s Hi Hm Ha) as Hb. by rewrite E in Hb.
  - destruct (RollbackAll_cases ddl drop_schema sha256 files env s r s' Hg E) as [H|[[H _]|[_ H]]]; [done| |].
    + destruct Ha as (t & c & Ht & _). congruence.
    + by destruct (altered_rollback ddl drop_schema sha256 files m s s' Hi Hm Ha H).
Qed.

(** Taking a managed schema down runs the scripts of the recorded files in
    reverse, drops the tracker and the schema, or leaves everything. *)
Theorem rollback_reverses n env s r s' : (2 <= n)%nat -> migrated sha256 files n s -> genuine (statements env) ->
  RollbackAll ddl drop_schema sha256 files env s = (r, s') ->
  s' = s \/ (tracking s' = None /\
    exists o, run_all ddl (map down (rev (take n ordered))) (objects s) = Ok o /\ drop_schema o = Ok (objects s')).
Proof.
  intros Hn Hm Hg E. destruct (RollbackAll_cases ddl drop_schema sha256 files env s r s' Hg E) as [[_ ->]|[[_ ->]|[_ H]]]; [by left..|right].
  exact (rolled_back_spec ddl drop_schema sha256 files n s s' Hn Hm H).
Qed.
End Contract.
End Ledger.

(** ** The Consolidation *)
Module Consolidation.
(** consolidation.schema_migration: the names, in the order they were recorded. *)
Record schema (Objects : Type) : Type := { history : option (list string); objects : Objects }.
Arguments Build_schema {Objects} _ _.
Arguments history {Objects} _.
Arguments objects {Objects} _.
Definition first_up : string := "000001_consolidation_projection.up.sql".
Definition first_down : string := "000001_consolidation_projection.down.sql".

(** strings.HasSuffix and strings.TrimSuffix *)
Definition has_suffix (suffix s : string) : bool :=
  Nat.leb (String.length suffix) (String.length s) && String.eqb (drop_chars (String.length s - String.length suffix) s) suffix.
Definition trim_suffix (suffix s : string) : string :=
  if has_suffix suffix s then String.substring 0 (String.length s - String.length suffix) s else s.
Definition name_before (a b : string) : bool := String.ltb a b.

Section Runner.
Context {Objects : Type} (ddl : string -> Objects -> result Objects) (files : string -> result string) (embedded : list string).
Notation db := (schema Objects).

(** 000001_consolidation_projection.down.sql drops the history itself. *)
Definition run_script (file : string) : St db unit := fun s =>
  match ddl file (objects s) with
  | Ok o => (Ok tt, Build_schema (if String.eqb file first_down then None else history s) o)
  | Err e => (Err e, s)
  end.
Definition init_history : St db unit := fun s => (Ok tt, Build_schema (Some (default [] (history s))) (objects s)).
Definition history_of : St db (list string) := fun s =>
  (match history s with Some h => Ok h | None => Err (EPg "42P01" "schema_migration") end, s).
Definition select_applied (name : string) : St db bool := h ← history_of; mret (existsb (String.eqb name) h).
Definition insert_name (name : string) : St db unit := fun s =>
  match history s with
  | None => (Err (EPg "42P01" "schema_migration"), s)
  | Some h => if existsb (String.eqb name) h then (Err (EPg "23505" "schema_migration_pkey"), s)
              else (Ok tt, Build_schema (Some (h ++ [name])%list) (objects s))
  end.
Definition delete_name (name : string) : St db unit := fun s =>
  match history s with
  | None => (Err (EPg "42P01" "schema_migration"), s)
  | Some h => (Ok tt, Build_schema (Some (List.filter (fun n => negb (String.eqb n name)) h)) (objects s))
  end.
Definition lock : St db unit := fun s => (Ok tt, s).

Definition up_files : list string := sort_by name_before (List.filter (has_suffix ".up.sql") embedded).

Definition apply_name (name : string) : St (tx db) unit :=
  applied ← wrap_st ("check migration " +:+ name) (stmt (select_applied name));
  if (applied : bool) then mret tt
  else
    _ ← lift (wrap_err ("read migration " +:+ name) (files name));
    wrap_st ("apply migration " +:+ name) (_ ← stmt (run_script name); stmt (insert_name name)).
Fixpoint apply_names (l : list string) : St (tx db) unit :=
  match l with [] => mret tt | name :: l => _ ← apply_name name; apply_names l end.
Definition apply_body : St (tx db) unit :=
  _ ← wrap_st "lock consolidation migrations" (stmt lock);
  _ ← wrap_st "initialize consolidation migration history" (stmt init_history);
  apply_names up_files.
Definition ApplyMigrations (pool : bool) (env : tx_env) (s : db) : result unit * db :=
  if negb pool then (Err (EMsg "consolidation migration pool is required"), s)
  else transact "begin consolidation migrations" "commit consolidation migrations" env apply_body s.

Definition revert_body (upName downName : string) : St (tx db) unit :=
  _ ← wrap_st "lock consolidation migrations" (stmt lock);
  applied ← wrap_st ("check migration " +:+ upName +:+ " before rollback") (stmt (select_applied upName));
  if negb (applied : bool) then throw (EMsg ("cannot revert unapplied consolidation migration " +:+ upName))
  else
    _ ← wrap_st ("revert migration " +:+ upName) (stmt (run_script downName));
    wrap_st ("remove migration history " +:+ upName) (stmt (delete_name upName)).
Definition RevertMigration (pool : bool) (env : tx_env) (upName : string) (s : db) : result unit * db :=
  if negb pool then (Err (EMsg "consolidation migration pool is required"), s)
  else if negb (has_suffix ".up.sql" upName) then (Err (EMsg "consolidation up migration name is required"), s)
  else
    let downName := trim_suffix ".up.sql" upName +:+ ".down.sql" in
    match wrap_err ("read migration " +:+ downName) (files downName) with
    | Err e => (Err e, s)
    | Ok _ => transact "begin consolidation migration rollback" "commit consolidation migration rollback" env (revert_body upName downName) s
    end.

(** *** Lemmas *)
Fixpoint run_all (scripts : list string) (o : Objects) : result Objects :=
  match scripts with [] => Ok o | f :: fs => o' ← ddl f o; run_all fs o' end.
Definition missing (h : list string) : list string := List.filter (fun n => negb (existsb (String.eqb n) h)) up_files.

Lemma existsb_name n h : existsb (String.eqb n) h = true <-> n ∈ h.
Proof.
  rewrite existsb_exists. split; [intros (m & Hm & ->%String.eqb_eq); by apply list_elem_of_In|].
  intros Hn%list_elem_of_In. exists n. split; [done|apply String.eqb_refl].
Qed.
Lemma up_not_down name : has_suffix ".up.sql" name = true -> String.eqb name first_down = false.
Proof. intros H. destruct (String.eqb_spec name first_down) as [-> |]; [by vm_compute in H|done]. Qed.

Lemma select_name name h o : select_applied name (Build_schema (Some h) o) = (Ok (existsb (String.eqb name) h), Build_schema (Some h) o).
Proof. done. Qed.
Lemma apply_name_healthy name h o : has_suffix ".up.sql" name = true ->
  let x := Build_tx (Build_schema (Some h) o) [] in
  apply_name name x =
  if existsb (String.eqb name) h then (Ok tt, x)
  else match files name, ddl name o with
       | Ok _, Ok o' => (Ok tt, Build_tx (Build_schema (Some (h ++ [name])%list) o') [])
       | Ok _, Err e => (Err (EWrap ("apply migration " +:+ name) e), x)
       | Err e, _ => (Err (EWrap ("read migration " +:+ name) e), x)
       end.
Proof.
  intros Hu x. subst x. unfold apply_name, mbind, st_bind, lift. unfold wrap_st at 1. rewrite stmt_healthy, select_name.
  cbn [fst snd wrap_err].
  destruct (existsb (String.eqb name) h) eqn:Eh; [done|]. destruct (files name) as [sql|e]; [|done]. cbn [wrap_err].
  unfold wrap_st. rewrite stmt_healthy. unfold run_script. cbn [objects history]. rewrite (up_not_down _ Hu).
  destruct (ddl name o) as [o'|e]; [|done]. cbn [fst snd].
  rewrite stmt_healthy. unfold insert_name. cbn [history objects]. by rewrite Eh.
Qed.

Lemma apply_names_ok l h o x : (forall n, n ∈ l -> has_suffix ".up.sql" n = true) -> NoDup l ->
  apply_names l (Build_tx (Build_schema (Some h) o) []) = (Ok tt, x) ->
  exists o', x = Build_tx (Build_schema (Some (h ++ List.filter (fun n => negb (existsb (String.eqb n) h)) l)%list) o') [] /\
    run_all (List.filter (fun n => negb (existsb (String.eqb n) h)) l) o = Ok o'.
Proof.
  revert h o. induction l as [|name l IH]; intros h o Hu Hn; cbn [apply_names List.filter].
  - intros [= <-]. exists o. by rewrite app_nil_r.
  - apply list.NoDup_cons in Hn as [Hni Hn]. unfold mbind at 1, st_bind at 1. pose proof (apply_name_healthy name h o (Hu name ltac:(left))) as Ha.
    assert (forall n, n ∈ l -> has_suffix ".up.sql" n = true) as Hu' by (intros; apply Hu; by right).
    cbn zeta in Ha. rewrite Ha. destruct (existsb (String.eqb name) h) eqn:Eh; cbn [negb].
    + intros E. exact (IH h o Hu' Hn E).
    + destruct (files name) as [sql|e]; [|done]. destruct (ddl name o) as [o'|e] eqn:Ed; [|done]. intros E.
      destruct (IH _ _ Hu' Hn E) as (o2 & -> & Hr). exists o2.
      assert (List.filter (fun n => negb (existsb (String.eqb n) (h ++ [name])%list)) l = List.filter (fun n => negb (existsb (String.eqb n) h)) l) as Hf.
      { apply filter_ext_in. intros n Hin%list_elem_of_In. f_equal. rewrite existsb_app. cbn. rewrite orb_false_r.
        destruct (String.eqb_spec n name) as [-> |]; [done|by rewrite orb_false_r]. }
      rewrite Hf in *. split; [by rewrite <- app_assoc|]. cbn [run_all]. unfold mbind, result_bind. by rewrite Ed.
Qed.

Lemma honest_apply : honest apply_body.
Proof.
  unfold apply_body. apply honest_bind; [eauto with keyrus|intros _]. apply honest_bind; [eauto with keyrus|intros _].
  induction up_files as [|name l IH]; cbn [apply_names]; [eauto with keyrus|]. apply honest_bind; [|done].
  unfold apply_name. apply honest_bind; [eauto with keyrus|intros [|]; [eauto with keyrus|]].
  apply honest_bind; [eauto with keyrus|intros _]. apply honest_wrap, honest_bind; eauto with keyrus.
Qed.
Lemma honest_revert upName downName : honest (revert_body upName downName).
Proof.
  unfold revert_body. apply honest_bind; [eauto with keyrus|intros _]. apply honest_bind; [eauto with keyrus|intros applied].
  destruct (negb applied); [eauto with keyrus|]. apply honest_bind; eauto with keyrus.
Qed.

Lemma up_files_ups n : n ∈ up_files -> has_suffix ".up.sql" n = true.
Proof. unfold up_files. rewrite sort_by_in. intros H%list_elem_of_In. by apply List.filter_In in H as [_ H]. Qed.
Lemma up_files_nodup : NoDup embedded -> NoDup up_files.
Proof.
  intros H. unfold up_files. rewrite sort_by_perm. apply NoDup_ListNoDup, List.NoDup_filter. by apply NoDup_ListNoDup.
Qed.

Lemma apply_body_ok s x : NoDup embedded -> apply_body (Build_tx s []) = (Ok tt, x) ->
  t_faults x = [] /\ history (t_schema x) = Some (default [] (history s) ++ missing (default [] (history s)))%list /\
  run_all (missing (default [] (history s))) (objects s) = Ok (objects (t_schema x)).
Proof.
  intros Hn. unfold apply_body, mbind, st_bind, wrap_st. rewrite !stmt_healthy. cbn [lock init_history fst snd wrap_err]. intros E.
  apply apply_names_ok in E as (o' & -> & Hr); [done|exact up_files_ups|by apply up_files_nodup].
Qed.
End Runner.

(** *** The contract *)
Section Contract.
Context {Objects : Type} (ddl : string -> Objects -> result Objects) (files : string -> result string) (embedded : list string).
Notation db := (schema Objects).
Implicit Types s : db.

(** Every missing file runs once, in the order of the names, or nothing
    happens. *)
Theorem ApplyMigrations_once pool env s r s' : NoDup embedded -> genuine (statements env) ->
  ApplyMigrations ddl files embedded pool env s = (r, s') ->
  let h := default [] (history s) in
  let applied := history s' = Some (h ++ missing embedded h)%list /\ run_all ddl (missing embedded h) (objects s) = Ok (objects s') in
  (is_ok r = false /\ s' = s) \/ applied.
Proof.
  intros Hn Hg E h applied. unfold ApplyMigrations in E. destruct pool; [|injection E as <- <-; by left].
  eapply transact_honest in E; [|apply honest_apply|done]. destruct E as [E|E]; [by left|right].
  by apply apply_body_ok in E as (_ & E); [|done].
Qed.

(** Reverting is all or nothing too: it runs the down file of an applied
    migration and takes its name out of the history, or leaves everything.
    The first migration can never be reverted: its down file drops the history
    that the next statement of the same transaction deletes from. *)
Theorem RevertMigration_spec pool env upName s r s' : genuine (statements env) ->
  RevertMigration ddl files pool env upName s = (r, s') ->
  (is_ok r = false /\ s' = s) \/
  (upName <> first_up /\ exists h, history s = Some h /\ upName ∈ h /\
    history s' = Some (List.filter (fun n => negb (String.eqb n upName)) h) /\
    ddl (trim_suffix ".up.sql" upName +:+ ".down.sql") (objects s) = Ok (objects s')).
Proof.
  intros Hg. unfold RevertMigration. destruct pool; [|intros [= <- <-]; by left].
  destruct (has_suffix ".up.sql" upName); [|intros [= <- <-]; by left]. cbn [negb].
  set (downName := trim_suffix ".up.sql" upName +:+ ".down.sql").
  assert (upName = first_up -> downName = first_down) as Hfirst by by intros ->.
  destruct (wrap_err _ (files downName)); [|intros [= <- <-]; by left]. intros E.
  eapply transact_honest in E; [|apply honest_revert|done]. destruct E as [E|E]; [by left|right].
  unfold revert_body, mbind, st_bind, wrap_st in E. rewrite !stmt_healthy in E. cbn [lock fst snd wrap_err] in E.
  destruct s as [[h|] o]; [|done]. rewrite select_name in E. cbn [fst snd wrap_err] in E.
  destruct (existsb (String.eqb upName) h) eqn:Eh; [|done]. cbn [negb] in E. rewrite stmt_healthy in E. unfold run_script in E. cbn [objects history] in *.
  destruct (ddl downName o) as [o'|] eqn:Ed; [|done]. cbn [fst snd wrap_err] in E. rewrite stmt_healthy in E. unfold delete_name in E. cbn [history objects] in E.
  destruct (String.eqb_spec downName first_down) as [|Hn]; [done|]. injection E as <-.
  split; [by intros Hu%Hfirst|]. exists h. split; [done|]. split; [by apply existsb_name|]. split; [done|]. done.
Qed.
End Contract.
End Consolidation.

(** ** Witnesses

    A schema that remembers the scripts it ran, and a digest that is the
    published one whatever the text. *)
Definition demo_ddl (file : string) (o : list string) : result (list string) := Ok (o ++ [file])%list.
Definition demo_files (file : string) : result string := Ok file.
Definition demo_sha256 (text : string) : list Z := default [] (hex_decode Ledger.legacyChecksum).
Definition demo_legacy : Ledger.schema (list string) :=
  Ledger.Build_schema (Some {| Ledger.checksum_column := false; Ledger.tracked := [(Ledger.legacyMigration, None)] |}) [].

Lemma demo_intact : Ledger.intact demo_sha256 demo_files.
Proof. split; [done|]. by vm_compute. Qed.

Lemma Apply_migrates_witness :
  exists s', Ledger.Apply demo_ddl (fun _ => true) demo_sha256 demo_files healthy demo_legacy = (Ok tt, s') /\
    Ledger.migrated demo_sha256 demo_files 4 s' /\
    Ledger.objects s' = ["000002_ledger_integrity.up.sql"; "000003_outbox_publisher.up.sql"; "000004_roles.up.sql"] /\
    exists e, Ledger.Apply demo_ddl (fun _ => false) demo_sha256 demo_files healthy demo_legacy = (Err e, demo_legacy).
Proof.
  assert (genuine (statements healthy)) as Hg by (intros e He; apply elem_of_nil in He; destruct He).
  destruct (Ledger.Apply demo_ddl (fun _ => true) demo_sha256 demo_files healthy demo_legacy) as [r s'] eqn:E.
  destruct (Ledger.Apply demo_ddl (fun _ => false) demo_sha256 demo_files healthy demo_legacy) as [r2 s2] eqn:E2.
  destruct (proj2 (Ledger.Apply_migrates demo_ddl (fun _ => true) demo_sha256 demo_files healthy demo_legacy r s' demo_intact Hg E) 1%nat)
    as (_ & H1 & _ & H2); [split; [lia|left; reflexivity]|].
  assert (r = Ok tt) as -> by (apply H2; [reflexivity|vm_compute; reflexivity|intros _; reflexivity]).
  destruct (H1 eq_refl) as [Hm Ho].
  destruct (proj1 (Ledger.Apply_migrates demo_ddl (fun _ => false) demo_sha256 demo_files healthy demo_legacy r2 s2 demo_intact Hg E2) _ eq_refl eq_refl)
    as [[Hf|(c & _ & Hf)]|[Hr ->]]; [discriminate Hf|discriminate Hf|].
  exists s'. split; [reflexivity|]. split; [exact Hm|]. split; [vm_compute in Ho; injection Ho as Ho; symmetry; exact Ho|].
  destruct r2 as [[]|e]; [discriminate Hr|]. exists e. reflexivity.
Defined.

Definition demo_altered : Ledger.schema (list string) :=
  Ledger.Build_schema (Some {| Ledger.checksum_column := true;
    Ledger.tracked := [(Ledger.legacyMigration, Some Ledger.legacyChecksum); ("000002_ledger_integrity.up.sql", Some "00")] |}) [].
Lemma altered_refused_witness :
  exists r, Ledger.RollbackAll demo_ddl (fun o => Ok o) demo_sha256 demo_files healthy demo_altered = (r, demo_altered) /\ is_ok r = false.
Proof.
  destruct (Ledger.RollbackAll demo_ddl (fun o => Ok o) demo_sha256 demo_files healthy demo_altered) as [r s'] eqn:E.
  destruct (proj2 (Ledger.altered_refused demo_ddl (fun _ => true) (fun o => Ok o) demo_sha256 demo_files
    {| Ledger.up := "000002_ledger_integrity.up.sql"; Ledger.down := "000002_ledger_integrity.down.sql" |} demo_altered demo_intact
    ltac:(right; left)
    ltac:(eexists _, "00"; split; [reflexivity|]; split; [reflexivity|]; split; [reflexivity|vm_compute; discriminate]))
    healthy r s' ltac:(intros e He; apply elem_of_nil in He; destruct He) E) as [Hr Hs].
  exists r. split; [rewrite Hs; reflexivity|exact Hr].
Defined.

Definition demo_history : Consolidation.schema (list string) :=
  Consolidation.Build_schema (Some [Consolidation.first_up; "000002_recompute_continuation.up.sql"]) [].
Lemma RevertMigration_spec_witness :
  exists r r' s', Consolidation.RevertMigration demo_ddl demo_files true healthy "000002_recompute_continuation.up.sql" demo_history = (r, s') /\
    Consolidation.history s' = Some [Consolidation.first_up] /\
    Consolidation.RevertMigration demo_ddl demo_files true healthy Consolidation.first_up demo_history = (r', demo_history) /\ is_ok r' = false.
Proof.
  assert (genuine (statements healthy)) as Hg by (intros e He; apply elem_of_nil in He; destruct He).
  destruct (Consolidation.RevertMigration demo_ddl demo_files true healthy "000002_recompute_continuation.up.sql" demo_history) as [r s'] eqn:E.
  destruct (Consolidation.RevertMigration demo_ddl demo_files true healthy Consolidation.first_up demo_history) as [r' s2] eqn:E2.
  exists r, r', s'. split; [reflexivity|].
  destruct (Consolidation.RevertMigration_spec demo_ddl demo_files true healthy _ _ _ _ Hg E) as [[Hr _]|(_ & h & Hh & _ & Hs & _)].
  { exfalso. vm_compute in E. injection E as <- _. discriminate Hr. }
  destruct (Consolidation.RevertMigration_spec demo_ddl demo_files true healthy _ _ _ _ Hg E2) as [[Hr ->]|(Hn & _)]; [|destruct (Hn eq_refl)].
  injection Hh as <-. split; [rewrite Hs; reflexivity|]. split; [reflexivity|exact Hr].
Defined.
