(* ===== verification/ClientCredentials.v ===== *)
(** * Service tokens

    internal/platform/auth/clientcredentials/source.go: the source of the token
    one service shows to another.  Concurrent calls of [Token] share the cached
    token; a call that finds none fresh either waits for the fetch in flight or
    makes one.  A call moves from one place where it holds the mutex, blocks or
    waits for the network to the next.

    [url_parse] gives the scheme and host of a URL, [json_decode] the first JSON
    value of a text, as the decoder reads it. *)

From S2P Require Import Prelude.
From S2P Require Import GoStrings.
From S2P Require Import GoTime.
From S2P Require Import Json.
From S2P Require Import Auth.
From Stdlib Require String.
From Stdlib Require Import ZArith Lia Ascii.
Open Scope string_scope.
Open Scope Z_scope.

Definition maxTokenResponseBytes : Z := 65536.

(** A client is known by its timeout; [None] is the nil pointer. *)
Record Config : Type := {
  TokenEndpoint : string; ClientID : string; ClientSecret : string; HTTPClient : option Z; RefreshSkew : Z }.
(** The fields a source never changes. *)
Record Source : Type := { endpoint : string; clientID : string; secret : string; client : Z; skew : Z }.
(** The fields under the mutex; [refresh] names the channel of the fetch in flight. *)
Record cached : Type := { token : string; expires : Z; refresh : option nat; lastErr : option error }.
Definition no_token : cached := {| token := ""; expires := 0; refresh := None; lastErr := None |}.

Section Fetch.
Context (url_parse : string -> result (string * string)) (json_decode : string -> result json).

Definition New (config : Config) : result Source :=
  if String.eqb (TokenEndpoint config) "" || String.eqb (ClientID config) "" || String.eqb (ClientSecret config) ""
  then Err (EMsg "clientcredentials: token endpoint, client id and client secret are required")
  else
    match url_parse (TokenEndpoint config) with
    | Ok (scheme, host) =>
        if negb (String.eqb scheme "https") || String.eqb host ""
        then Err (EMsg "clientcredentials: token endpoint must be an absolute HTTPS URL")
        else if RefreshSkew config <? 0 then Err (EMsg "clientcredentials: refresh skew cannot be negative")
        else Ok {| endpoint := TokenEndpoint config; clientID := ClientID config; secret := ClientSecret config;
                   client := default (5 * second) (HTTPClient config);
                   skew := if RefreshSkew config =? 0 then 30 * second else RefreshSkew config |}
    | Err _ => Err (EMsg "clientcredentials: token endpoint must be an absolute HTTPS URL")
    end.

Record request : Type := {
  r_method : string; r_url : string; r_body : string; r_basic : string * string; r_headers : list (string * string) }.
Definition token_request (s : Source) : result request :=
  match url_parse (endpoint s) with
  | Err _ => Err (EMsg "clientcredentials: build token request")
  | Ok _ => Ok {| r_method := "POST"; r_url := endpoint s; r_body := "grant_type=client_credentials";
                  r_basic := (clientID s, secret s);
                  r_headers := [("Content-Type", "application/x-www-form-urlencoded"); ("Accept", "application/json")] |}
  end.

Record token_body : Type := { AccessToken : string; TokenType : string; ExpiresIn : Z }.
Definition unmarshal_token (j : json) : result token_body :=
  f ← object_fields j;
  access ← dec_string (jfield "access_token" f);
  kind ← dec_string (jfield "token_type" f);
  lifetime ← dec_int64 (jfield "expires_in" f);
  Ok {| AccessToken := access; TokenType := kind; ExpiresIn := lifetime |}.

(** [fetch]: what the transport answers to the request is its failure, or a
    status and the bytes of the body that can be read; [now] is the clock once
    the body is decoded. *)
Definition fetch (s : Source) (transport : request -> result (Z * string)) (now : Z) : result (string * Z) :=
  req ← token_request s;
  match transport req with
  | Err e => Err (EWrap "clientcredentials: request token" e)
  | Ok (status, content) =>
      if negb (status =? 200)
      then Err (EMsg ("clientcredentials: token endpoint returned status " +:+ fmt_d status))
      else
        match (j ← json_decode (String.substring 0 (Z.to_nat maxTokenResponseBytes) content); unmarshal_token j) with
        | Err _ => Err (EMsg "clientcredentials: decode token response")
        | Ok body =>
            if String.eqb (AccessToken body) "" || negb (equal_fold (TokenType body) "Bearer") || (ExpiresIn body <=? 0)
            then Err (EMsg "clientcredentials: token response is incomplete")
            else Ok (AccessToken body, now + wrap64 (ExpiresIn body * second))
        end
  end.
End Fetch.

(** ** Concurrent calls *)

(** Where a call stands: before the mutex, blocked on the channel of another's
    fetch, fetching, about to store what it fetched, or done at an instant. *)
Inductive place : Type :=
  | Begin
  | Waiting (done : nat)
  | Fetching (done : nat)
  | Fetched (done : nat) (outcome : result (string * Z))
  | Returned (at_ : Z) (r : result string).

(** [w_log]: every fetch that ended: its call, its clock reading, its outcome. *)
Record world : Type := {
  w_source : cached; w_calls : list place; w_next : nat; w_clock : Z; w_log : list (nat * Z * result (string * Z)) }.
Definition start_world : world :=
  {| w_source := no_token; w_calls := []; w_next := 0; w_clock := 0; w_log := [] |}.

Section Calls.
Context (url_parse : string -> result (string * string)) (json_decode : string -> result json) (s : Source).

(** The first critical section of the loop's body. *)
Definition look (now : Z) (next : nat) (c : cached) : place * cached :=
  if negb (String.eqb (token c) "") && (now + skew s <? expires c) then (Returned now (Ok (token c)), c)
  else
    match refresh c with
    | Some refreshing => (Waiting refreshing, c)
    | None => (Fetching next, {| token := token c; expires := expires c; refresh := Some next; lastErr := lastErr c |})
    end.

(** The second one, after the fetch. *)
Definition store (now : Z) (outcome : result (string * Z)) (c : cached) : place * cached :=
  match outcome with
  | Ok (tok, exp) => (Returned now (Ok tok), {| token := tok; expires := exp; refresh := None; lastErr := None |})
  | Err e => (Returned now (Err e), {| token := token c; expires := expires c; refresh := None; lastErr := Some e |})
  end.

Definition set_call (i : nat) (p : place) (w : world) : world :=
  {| w_source := w_source w; w_calls := <[i := p]> (w_calls w); w_next := w_next w; w_clock := w_clock w; w_log := w_log w |}.
Definition look_step (i : nat) (w : world) : world :=
  let '(p, c) := look (w_clock w) (w_next w) (w_source w) in
  {| w_source := c; w_calls := <[i := p]> (w_calls w);
     w_next := match p with Fetching _ => S (w_next w) | _ => w_next w end; w_clock := w_clock w; w_log := w_log w |}.
Definition fetch_step (i : nat) (done : nat) (transport : request -> result (Z * string)) (w : world) : world :=
  let outcome := fetch url_parse json_decode s transport (w_clock w) in
  {| w_source := w_source w; w_calls := <[i := Fetched done outcome]> (w_calls w); w_next := w_next w;
     w_clock := w_clock w; w_log := (w_log w ++ [(i, w_clock w, outcome)])%list |}.
Definition store_step (i : nat) (outcome : result (string * Z)) (w : world) : world :=
  let '(p, c) := store (w_clock w) outcome (w_source w) in
  {| w_source := c; w_calls := <[i := p]> (w_calls w); w_next := w_next w; w_clock := w_clock w; w_log := w_log w |}.

(** What [ctx.Err] returns once the context is done. *)
Definition ctx_error (e : error) : Prop := e = ESentinel "context.Canceled" \/ e = ESentinel "context.DeadlineExceeded".

(** A step of call [i]. *)
Inductive call_step (i : nat) (w : world) : world -> Prop :=
  | cs_look : w_calls w !! i = Some Begin -> call_step i w (look_step i w)
  | cs_wake done : w_calls w !! i = Some (Waiting done) -> refresh (w_source w) <> Some done ->
      call_step i w (set_call i Begin w)
  | cs_cancel done e : w_calls w !! i = Some (Waiting done) -> ctx_error e ->
      call_step i w (set_call i (Returned (w_clock w) (Err e)) w)
  | cs_fetch done transport : w_calls w !! i = Some (Fetching done) -> call_step i w (fetch_step i done transport w)
  | cs_store done outcome : w_calls w !! i = Some (Fetched done outcome) -> call_step i w (store_step i outcome w).

Definition new_call (w : world) : world :=
  {| w_source := w_source w; w_calls := (w_calls w ++ [Begin])%list; w_next := w_next w; w_clock := w_clock w; w_log := w_log w |}.
Definition pass_time (d : Z) (w : world) : world :=
  {| w_source := w_source w; w_calls := w_calls w; w_next := w_next w; w_clock := w_clock w + d; w_log := w_log w |}.

Inductive tstep (w : world) : world -> Prop :=
  | ts_call i w' : call_step i w w' -> tstep w w'
  | ts_new : tstep w (new_call w)
  | ts_time d : 0 <= d -> tstep w (pass_time d w).

(** [n] steps of the calls under way, while time passes. *)
Inductive call_steps : nat -> world -> world -> Prop :=
  | cst_done w : call_steps 0 w w
  | cst_time n w d w' : 0 <= d -> call_steps n (pass_time d w) w' -> call_steps n w w'
  | cst_step n w i w1 w' : call_step i w w1 -> call_steps n w1 w' -> call_steps (S n) w w'.
End Calls.

(** ** What a fetch grants *)
Section Soundness.
Context (url_parse : string -> result (string * string)) (json_decode : string -> result json) (s : Source).

Notation fetch := (fetch url_parse json_decode s).
Notation call_step := (call_step url_parse json_decode s).
Notation tstep := (tstep url_parse json_decode s).
Notation call_steps := (call_steps url_parse json_decode s).

(** A bearer token the endpoint answered with at [now], to last [lifetime] seconds. *)
Definition granted (transport : request -> result (Z * string)) (tok : string) (lifetime : Z) : Prop :=
  exists content j kind,
    transport {| r_method := "POST"; r_url := endpoint s; r_body := "grant_type=client_credentials";
                 r_basic := (clientID s, secret s);
                 r_headers := [("Content-Type", "application/x-www-form-urlencoded"); ("Accept", "application/json")] |}
      = Ok (200, content) /\
    json_decode (String.substring 0 (Z.to_nat maxTokenResponseBytes) content) = Ok j /\
    unmarshal_token j = Ok {| AccessToken := tok; TokenType := kind; ExpiresIn := lifetime |} /\
    tok <> "" /\ equal_fold kind "Bearer" = true /\ 0 < lifetime.

Lemma fetch_granted transport now tok exp : fetch transport now = Ok (tok, exp) ->
  exists lifetime, granted transport tok lifetime /\ exp = now + wrap64 (lifetime * second).
Proof.
  unfold ClientCredentials.fetch, token_request. destruct (url_parse (endpoint s)) as [u|]; [|done]. cbn [mbind result_bind].
  destruct (transport _) as [[status content]|] eqn:Et; [|done]. destruct (Z.eqb_spec status 200) as [-> |]; [|done].
  cbn [negb]. destruct (json_decode _) as [j|] eqn:Ej; [|done]. cbn [mbind result_bind].
  destruct (unmarshal_token j) as [body|] eqn:Eb; [|done]. destruct (_ || _) eqn:Eo; [done|]. intros [= <- <-].
  bool_to_prop. destruct_and?. exists (ExpiresIn body). split; [|done]. exists content, j, (TokenType body).
  split; [done|]. split; [done|]. split; [by rewrite Eb; destruct body|]. by split; [|split; [destruct (equal_fold _ _)|lia]].
Qed.

Definition active (p : place) : option nat :=
  match p with Fetching d | Fetched d _ => Some d | _ => None end.

Definition place_ok (w : world) (i : nat) (p : place) : Prop :=
  match p with
  | Begin => i ∉ (w_log w).*1.*1
  | Fetching d => i ∉ (w_log w).*1.*1 /\ refresh (w_source w) = Some d
  | Waiting d => i ∉ (w_log w).*1.*1 /\ (d < w_next w)%nat
  | Fetched d outcome => refresh (w_source w) = Some d /\ exists t, (i, t, outcome) ∈ w_log w
  | Returned t (Ok tok) => exists j t0 exp, (j, t0, Ok (tok, exp)) ∈ w_log w /\ (j = i \/ t + skew s < exp)
  | Returned t (Err e) => (exists t0, (i, t0, Err e) ∈ w_log w) \/ ctx_error e
  end.

Record tinv (w : world) : Prop := {
  ti_places : forall i p, w_calls w !! i = Some p -> place_ok w i p;
  ti_refresh : forall d, refresh (w_source w) = Some d -> (d < w_next w)%nat /\
    exists i p, w_calls w !! i = Some p /\ active p = Some d;
  ti_single : forall i j p q d e, w_calls w !! i = Some p -> w_calls w !! j = Some q ->
    active p = Some d -> active q = Some e -> i = j;
  ti_cache : token (w_source w) <> "" -> exists i t, (i, t, Ok (token (w_source w), expires (w_source w))) ∈ w_log w;
  ti_log : forall i t r, (i, t, r) ∈ w_log w -> (exists transport, fetch transport t = r) /\ (i < length (w_calls w))%nat;
  ti_once : NoDup (w_log w).*1.*1 }.

Lemma active_refresh w i p d : place_ok w i p -> active p = Some d -> refresh (w_source w) = Some d.
Proof. destruct p; cbn; try done; intros [H1 H2] [= <-]; done. Qed.

Lemma other_ok w w' i j q : i <> j -> place_ok w j q ->
  (forall x, x ∈ w_log w -> x ∈ w_log w') -> (forall k, k ∈ (w_log w').*1.*1 -> k = i \/ k ∈ (w_log w).*1.*1) ->
  (w_next w <= w_next w')%nat ->
  (forall d, active q = Some d -> refresh (w_source w) = Some d -> refresh (w_source w') = Some d) ->
  place_ok w' j q.
Proof.
  intros Hij Hq Hl Hk Hn Hr. assert (j ∉ (w_log w).*1.*1 -> j ∉ (w_log w').*1.*1) as Hj by (intros H [->|]%Hk; done).
  destruct q as [|d|d|d outcome|t [tok|e]]; cbn in *.
  - auto.
  - split; [by apply Hj, Hq|lia].
  - split; [by apply Hj, Hq|]. by apply Hr, Hq.
  - destruct Hq as [H1 [t H2]]. split; [by apply Hr|]. exists t. by apply Hl.
  - destruct Hq as (k & t0 & exp & H1 & H2). exists k, t0, exp. split; [by apply Hl|done].
  - destruct Hq as [[t0 H1]|H1]; [left; exists t0; by apply Hl|by right].
Qed.

Definition log_step (w w' : world) (i : nat) : Prop :=
  w_log w' = w_log w \/
  exists t transport, w_log w' = (w_log w ++ [(i, t, fetch transport t)])%list /\ i ∉ (w_log w).*1.*1.
Definition refresh_step (w w' : world) (p p' : place) : Prop :=
  (refresh (w_source w') = refresh (w_source w) /\ active p' = active p) \/
  (refresh (w_source w) = None /\ refresh (w_source w') = Some (w_next w) /\ active p' = Some (w_next w) /\ w_next w' = S (w_next w)) \/
  (refresh (w_source w') = None /\ is_Some (active p) /\ active p' = None).

Lemma log_step_grows w w' i : log_step w w' i ->
  (forall x, x ∈ w_log w -> x ∈ w_log w') /\ (forall k, k ∈ (w_log w').*1.*1 -> k = i \/ k ∈ (w_log w).*1.*1).
Proof.
  intros [-> | (t & tr & -> & _)]; [by split; auto|]. split; [intros x Hx; apply elem_of_app; by left|].
  intros k. rewrite !fmap_app. intros [Hk|Hk%list_elem_of_singleton]%elem_of_app; auto.
Qed.

Lemma tinv_update w w' i p p' : tinv w -> w_calls w !! i = Some p -> w_calls w' = <[i := p']> (w_calls w) ->
  place_ok w' i p' -> log_step w w' i -> (w_next w <= w_next w')%nat -> refresh_step w w' p p' ->
  (token (w_source w') = token (w_source w) /\ expires (w_source w') = expires (w_source w) \/
   exists t, (i, t, Ok (token (w_source w'), expires (w_source w'))) ∈ w_log w) ->
  tinv w'.
Proof.
  intros [H1 H2 H3 H4 H5 H6] Hi Hc Hp Hl Hn Hr Hx. destruct (log_step_grows _ _ _ Hl) as [Hg Hk].
  assert (forall j q, w_calls w' !! j = Some q -> (j = i /\ q = p') \/ (j <> i /\ w_calls w !! j = Some q)) as Hat.
  { intros j q. rewrite Hc. destruct (decide (i = j)) as [<- | Hne].
    - rewrite list_lookup_insert_eq by (by eapply lookup_lt_Some). intros [= ->]. by left.
    - rewrite list_lookup_insert_ne by done. by right. }
  assert (w_calls w' !! i = Some p') as Hi' by (rewrite Hc; by apply list_lookup_insert_eq, lookup_lt_Some with p).
  assert (forall j q d, j <> i -> w_calls w !! j = Some q -> active q = Some d -> refresh (w_source w) = Some d) as Ha.
  { intros j q d _ Hj Hd. eapply active_refresh; [by apply H1|done]. }
  split.
  - intros j q [[-> ->]|[Hne Hj]]%Hat; [done|]. eapply (other_ok w w' i); eauto. intros d Hd Hrd.
    destruct Hr as [[-> _]|[(E & _)|(_ & [e He] & _)]]; [done|congruence|]. by destruct Hne; eapply H3.
  - intros d Hd. destruct Hr as [[E Ea]|[(_ & E & Ea & ->)|(E & _)]]; [| |congruence].
    + rewrite E in Hd. destruct (H2 d Hd) as [Hlt (j & q & Hj & Hq)]. split; [lia|].
      destruct (decide (i = j)) as [<- | Hne]; [exists i, p'; split; [done|congruence]|].
      exists j, q. split; [|done]. by rewrite Hc, list_lookup_insert_ne.
    + rewrite E in Hd. injection Hd as <-. split; [lia|]. by exists i, p'.
  - intros j k q1 q2 d e [[-> ->]|[Hne Hj]]%Hat [[-> ->]|[Hne' Hk']]%Hat Hd He; [done| | |by eapply H3].
    + destruct Hr as [[_ Ea]|[(E & _)|(_ & _ & E)]]; [|by rewrite (Ha k q2 e) in E|congruence].
      rewrite Ea in Hd. by apply (H3 i k p q2 d e).
    + destruct Hr as [[_ Ea]|[(E & _)|(_ & _ & E)]]; [|by rewrite (Ha j q1 d) in E|congruence].
      rewrite Ea in He. by apply (H3 j i q1 p d e).
  - intros Ht. destruct Hx as [[E1 E2]|[t Hin]]; [|exists i, t; by apply Hg].
    rewrite E1 in Ht |- *. rewrite E2. destruct (H4 Ht) as (j & t & Hin). exists j, t. by apply Hg.
  - intros j t r Hin. rewrite Hc, length_insert. destruct Hl as [E | (t0 & tr & E & _)]; rewrite E in Hin; [by apply H5|].
    apply elem_of_app in Hin as [Hin|Hin%list_elem_of_singleton]; [by apply H5|]. injection Hin as -> -> ->.
    split; [by exists tr|by eapply lookup_lt_Some].
  - destruct Hl as [-> | (t & tr & -> & Hnew)]; [done|]. rewrite !fmap_app. by apply NoDup_snoc.
Qed.

Lemma call_step_inv w w' i : tinv w -> call_step i w w' -> tinv w'.
Proof.
  intros Hi Hs. pose proof (ti_places _ Hi) as Hp. destruct Hs as [Hc|d Hc Hd|d e Hc He|d tr Hc|d outcome Hc]; specialize (Hp _ _ Hc).
  - unfold look_step, look. destruct (negb _ && _) eqn:Ef; [|destruct (refresh (w_source w)) as [d|] eqn:Er].
    + eapply tinv_update; [exact Hi|exact Hc|reflexivity| |by left|cbn; lia|by left|by left].
      bool_to_prop. destruct (ti_cache _ Hi) as (j & t & Hin); [done|]. exists j, t, (expires (w_source w)). split; [done|by right].
    + eapply tinv_update; [exact Hi|exact Hc|reflexivity| |by left|cbn; lia|by left|by left].
      split; [done|by apply (ti_refresh _ Hi)].
    + eapply tinv_update; [exact Hi|exact Hc|reflexivity|by split|by left|cbn; lia|by right; left|by left].
  - eapply tinv_update; [exact Hi|exact Hc|reflexivity|by apply Hp|by left|cbn; lia|by left|by left].
  - eapply tinv_update; [exact Hi|exact Hc|reflexivity|by right|by left|cbn; lia|by left|by left].
  - eapply tinv_update; [exact Hi|exact Hc|reflexivity| | |cbn; lia|by left|by left].
    + split; [apply Hp|]. exists (w_clock w). apply elem_of_app. right. by apply list_elem_of_singleton.
    + right. eexists _, tr. split; [done|apply Hp].
  - destruct Hp as [Hr [t Hin]]. unfold store_step, store. destruct outcome as [[tok exp]|e].
    + eapply tinv_update; [exact Hi|exact Hc|reflexivity| |by left|cbn; lia|right; right; by split_and!|].
      * exists i, t, exp. by split; [|left].
      * right. by exists t.
    + eapply tinv_update; [exact Hi|exact Hc|reflexivity| |by left|cbn; lia|right; right; by split_and!|by left].
      left. by exists t.
Qed.

Lemma tstep_inv w w' : tinv w -> tstep w w' -> tinv w'.
Proof.
  intros Hi Hs. destruct Hs as [i w1 Hs| |d Hd]; [by eapply call_step_inv| |].
  - destruct Hi as [H1 H2 H3 H4 H5 H6].
    assert (forall j q, w_calls (new_call w) !! j = Some q -> w_calls w !! j = Some q \/ (j = length (w_calls w) /\ q = Begin)) as Hat.
    { cbn. intros j q [Hj|[Hl Hj]]%lookup_app_Some; [by left|]. right. apply list_lookup_singleton_Some in Hj as [Ej <-]. split; [lia|done]. }
    split; cbn [new_call w_source w_next w_log].
    + intros j q [Hj|[-> ->]]%Hat; [by apply H1 in Hj; destruct q as [| | | |? []]|]. cbn.
      intros ([k t] & Ek & Hin)%list_elem_of_fmap_1. cbn in Ek. apply list_elem_of_fmap_1 in Hin as ([[k' t'] r'] & Ek' & Hin).
      apply H5 in Hin as [_ Hlt]. injection Ek' as -> ->. lia.
    + intros d Hd. destruct (H2 d Hd) as (Hlt & i & p & Hip & Ha). split; [done|]. exists i, p. split; [|done].
      cbn. rewrite lookup_app_l; [done|by eapply lookup_lt_Some].
    + intros i j p q d e [Hip|[-> ->]]%Hat [Hjq|[-> ->]]%Hat; try done. by eapply H3.
    + exact H4.
    + intros i t r Hin. cbn. rewrite length_app. destruct (H5 _ _ _ Hin). cbn. split; [done|lia].
    + exact H6.
  - destruct Hi as [H1 H2 H3 H4 H5 H6]. by split.
Qed.

Lemma start_world_inv : tinv start_world.
Proof. split; cbn; try done; [by intros ? ? ? ?%elem_of_nil|apply base.NoDup_nil_2]. Qed.

Lemma reach_inv w : steps tstep start_world w -> tinv w.
Proof. apply steps_invariant; [apply tstep_inv|apply start_world_inv]. Qed.

(** ** Every call returns *)

Definition pending (p : place) : nat := match p with Returned _ _ => 0 | _ => 1 end.
Definition rank (r : option nat) (p : place) : nat :=
  match p with
  | Returned _ _ => 0
  | Fetched _ _ => 1
  | Fetching _ => 2
  | Begin => 3
  | Waiting d => if decide (r = Some d) then 0 else 4
  end.
Definition outstanding (w : world) : nat := sum_list_with pending (w_calls w).
Definition work (w : world) : nat :=
  4 * outstanding w * outstanding w + sum_list_with (rank (refresh (w_source w))) (w_calls w).

Lemma rank_pending r l : (sum_list_with (rank r) l <= 4 * sum_list_with pending l)%nat.
Proof.
  induction l as [|p l IH]; cbn; [lia|]. assert (rank r p <= 4 * pending p)%nat by (destruct p; cbn; try case_decide; lia). lia.
Qed.

Lemma rank_claim d p : (rank (Some d) p <= rank None p)%nat.
Proof. destruct p; cbn; try lia. rewrite (decide_False (P := None = Some _)) by done. case_decide; lia. Qed.

(** A call that returns takes a whole quota of [work] with it. *)
Lemma work_returns w w' i p t r : w_calls w !! i = Some p -> pending p = 1%nat ->
  w_calls w' = <[i := Returned t r]> (w_calls w) -> (work w' < work w)%nat.
Proof.
  intros Hi Hp Hc. pose proof (sum_insert pending _ _ _ (Returned t r) Hi) as Hu.
  pose proof (rank_pending (refresh (w_source w')) (w_calls w')) as Hr. unfold work, outstanding. rewrite Hc in *.
  rewrite Hp in Hu. cbn in Hu. remember (sum_list_with pending (<[i:=Returned t r]> (w_calls w))) as u'.
  replace (sum_list_with pending (w_calls w)) with (u' + 1)%nat by lia. nia.
Qed.

Lemma work_moves w w' i p p' : w_calls w !! i = Some p -> w_calls w' = <[i := p']> (w_calls w) ->
  pending p = pending p' -> (forall q, rank (refresh (w_source w')) q <= rank (refresh (w_source w)) q)%nat ->
  (rank (refresh (w_source w')) p' < rank (refresh (w_source w)) p)%nat -> (work w' < work w)%nat.
Proof.
  intros Hi Hc Hp Hq Hlt. pose proof (sum_insert pending _ _ _ p' Hi) as Hu.
  pose proof (sum_insert (rank (refresh (w_source w'))) _ _ _ p' Hi) as H1.
  pose proof (sum_insert (rank (refresh (w_source w'))) _ _ _ (Returned 0 (Ok "")) Hi) as H2.
  pose proof (sum_insert (rank (refresh (w_source w))) _ _ _ (Returned 0 (Ok "")) Hi) as H3.
  pose proof (sum_le _ _ (<[i := Returned 0 (Ok "")]> (w_calls w)) Hq). cbn [rank] in *. unfold work, outstanding. rewrite Hc.
  replace (sum_list_with pending (<[i:=p']> (w_calls w))) with (sum_list_with pending (w_calls w)) by lia. lia.
Qed.

Lemma call_step_work w w' i : call_step i w w' -> (work w' < work w)%nat.
Proof.
  intros Hs. destruct Hs as [Hc|d Hc Hd|d e Hc He|d tr Hc|d outcome Hc].
  - unfold look_step, look. destruct (negb _ && _); [by eapply work_returns|].
    destruct (refresh (w_source w)) as [d|] eqn:Er; (eapply work_moves; [exact Hc|reflexivity|..]); cbn [w_source refresh]; rewrite ?Er; try done.
    + cbn. rewrite decide_True by done. lia.
    + apply rank_claim.
    + cbn. lia.
  - eapply work_moves; [exact Hc|reflexivity|done|done|]. cbn. rewrite decide_False by done. lia.
  - by eapply work_returns.
  - eapply work_moves; [exact Hc|reflexivity|done|done|cbn; lia].
  - unfold store_step, store. destruct outcome as [[tok exp]|e]; by eapply work_returns.
Qed.

Lemma work_bound w : (work w <= 4 * outstanding w * (outstanding w + 1))%nat.
Proof. unfold work. pose proof (rank_pending (refresh (w_source w)) (w_calls w)). unfold outstanding in *. nia. Qed.

Lemma call_steps_work n w w' : call_steps n w w' -> (n + work w' <= work w)%nat.
Proof.
  induction 1 as [|n w d w' Hd _ IH|n w i w1 w' Hs _ IH]; [lia|exact IH|]. apply call_step_work in Hs. lia.
Qed.

Lemma call_steps_reach n w w' : call_steps n w w' -> steps tstep w w'.
Proof.
  induction 1 as [|n w d w' Hd _ IH|n w i w1 w' Hs _ IH]; [apply steps_refl| |].
  - eapply steps_cons; [by apply ts_time|done].
  - eapply steps_cons; [by eapply ts_call|done].
Qed.

(** A call can go on without giving up on the fetch it waits for. *)
Definition can_move (w : world) : Prop :=
  exists i w', call_step i w w' /\ forall d, w_calls w !! i = Some (Waiting d) -> refresh (w_source w) <> Some d.

Lemma outstanding_moves w : tinv w -> (0 < outstanding w)%nat -> can_move w.
Proof.
  intros Hi Hu. assert (exists i p, w_calls w !! i = Some p /\ pending p = 1%nat) as (i & p & Hc & Hp).
  { clear Hi. unfold outstanding in Hu. induction (w_calls w) as [|q l IH]; cbn in Hu; [lia|].
    destruct (pending q) as [|k] eqn:Eq.
    - destruct IH as (i & p & Hc & Hp); [lia|]. by exists (S i), p.
    - exists 0%nat, q. split; [done|]. destruct q; cbn in *; lia. }
  assert (forall j q d, w_calls w !! j = Some q -> active q = Some d -> can_move w) as Hactive.
  { intros j q d Hj Hq. destruct q as [| |e|e outcome|]; try done; eexists j, _; (split; [|by rewrite Hj]).
    - eapply (cs_fetch _ _ _ _ _ _ (fun _ => Err (EMsg "EOF"))), Hj.
    - eapply cs_store, Hj. }
  destruct p as [|d|d|d outcome|]; [|destruct (decide (refresh (w_source w) = Some d)) as [E|Hne]| | |done].
  - eexists i, _. split; [by apply cs_look|by rewrite Hc].
  - destruct (ti_refresh _ Hi _ E) as (_ & j & q & Hj & Hq). by eapply Hactive.
  - eexists i, _. split; [by eapply cs_wake|]. rewrite Hc. by intros ? [= <-].
  - by eapply Hactive.
  - by eapply Hactive.
Qed.
End Soundness.

Lemma New_ok url_parse config s : New url_parse config = Ok s ->
  0 < skew s /\ exists host, url_parse (endpoint s) = Ok ("https", host) /\ host <> "".
Proof.
  unfold New. destruct (_ || _); [done|]. destruct (url_parse _) as [[scheme host]|] eqn:Eu; [|done].
  destruct (_ || _) eqn:Eh; [done|]. destruct (RefreshSkew config <? 0) eqn:En; [done|]. intros [= <-]. cbn. bool_to_prop. subst.
  split; [destruct (Z.eqb_spec (RefreshSkew config) 0); [done|lia]|]. by exists host.
Qed.

Lemma wrap64_le z : 0 <= z -> wrap64 z <= z.
Proof.
  intros Hz. unfold wrap64. pose proof (Z.mod_le (z + 9223372036854775808) 18446744073709551616). lia.
Qed.

(** C32: what concurrent calls get from the token source.  However calls,
    clocks, fetches and ended contexts interleave: at most one call is fetching;
    no call asks the endpoint twice; a token a call returns is one the HTTPS
    endpoint answered with status 200, as a bearer token with a positive
    lifetime, to the request that carries the client's credentials, and the
    call fetched it itself or, when it came from the cache, more than the
    refresh skew of the granted lifetime was left; and a call fails with the
    error of its own fetch or of its own context, never with another call's. *)
Theorem tokens_sound url_parse json_decode config s w :
  New url_parse config = Ok s -> steps (tstep url_parse json_decode s) start_world w ->
  (0 < skew s /\ exists host, url_parse (endpoint s) = Ok ("https", host) /\ host <> "") /\
  (forall i j p q, w_calls w !! i = Some p -> w_calls w !! j = Some q -> is_Some (active p) -> is_Some (active q) -> i = j) /\
  NoDup (w_log w).*1.*1 /\
  (forall i t tok, w_calls w !! i = Some (Returned t (Ok tok)) ->
     exists j t0 transport lifetime, granted json_decode s transport tok lifetime /\
       (j, t0, Ok (tok, t0 + wrap64 (lifetime * second))) ∈ w_log w /\
       (j = i \/ t + skew s < t0 + lifetime * second)) /\
  (forall i t e, w_calls w !! i = Some (Returned t (Err e)) ->
     (exists t0, (i, t0, Err e) ∈ w_log w) \/ ctx_error e).
Proof.
  intros Hn%New_ok Hi%reach_inv. split; [done|]. split; [|split; [apply Hi|split]].
  - intros i j p q Hp Hq [d Hd] [e He]. by eapply (ti_single _ _ _ _ Hi).
  - intros i t tok Hc. apply (ti_places _ _ _ _ Hi) in Hc as (j & t0 & exp & Hin & Hor).
    destruct (ti_log _ _ _ _ Hi _ _ _ Hin) as [[tr Ht] _]. apply fetch_granted in Ht as (lifetime & Hg & ->).
    exists j, t0, tr, lifetime. split; [done|]. split; [done|]. destruct Hor as [-> | Hlt]; [by left|right].
    destruct Hg as (_ & _ & _ & _ & _ & _ & _ & _ & Hpos). pose proof (wrap64_le (lifetime * second)). unfold second in *. lia.
  - intros i t e Hc. by apply (ti_places _ _ _ _ Hi) in Hc.
Qed.

(** Every call of [Token] returns.  From any reachable state with [k] calls
    under way, however time passes between them, the calls make at most
    4k(k+1) steps, and after any of them either all calls have returned or one
    of them can go on without its context ending: no call waits for a channel
    nobody will close. *)
Theorem tokens_settle url_parse json_decode s w n w' :
  steps (tstep url_parse json_decode s) start_world w -> call_steps url_parse json_decode s n w w' ->
  (n <= 4 * outstanding w * (outstanding w + 1))%nat /\
  ((forall i p, w_calls w' !! i = Some p -> exists t r, p = Returned t r) \/ can_move url_parse json_decode s w').
Proof.
  intros Hr Hs. split.
  - pose proof (call_steps_work _ _ _ _ _ _ Hs). pose proof (work_bound w). lia.
  - destruct (decide (outstanding w' = 0)%nat) as [E|Hne]; [left|right].
    + intros i p Hp. unfold outstanding in E. pose proof (sum_insert pending _ _ _ (Returned 0 (Ok "")) Hp) as H.
      rewrite E in H. cbn in H. destruct p as [| | | |t r]; cbn in H; try lia. by exists t, r.
    + apply outstanding_moves; [|lia]. eapply reach_inv, steps_trans; [exact Hr|by eapply call_steps_reach].
Qed.

(** ** A concrete run: the second call is served what the first fetched. *)
Definition sample_url (_ : string) : result (string * string) := Ok ("https", "idp.cashflow.local").
Definition sample_decode (_ : string) : result json :=
  Ok (JObj [("access_token", JStr "t0ken"); ("token_type", JStr "bearer"); ("expires_in", JInt 300)]).
Definition sample_config : Config :=
  {| TokenEndpoint := "https://idp.cashflow.local/token"; ClientID := "svc"; ClientSecret := "secret";
     HTTPClient := None; RefreshSkew := 0 |}.
Definition sample_source : Source :=
  {| endpoint := "https://idp.cashflow.local/token"; clientID := "svc"; secret := "secret"; client := 5 * second; skew := 30 * second |}.
Definition sample_transport (_ : request) : result (Z * string) := Ok (200, "{}").
Definition sample_called : world := new_call (new_call start_world).
Definition sample_blocked : world := look_step sample_source 1 (look_step sample_source 0 sample_called).
Definition sample_fetched : world := fetch_step sample_url sample_decode sample_source 0 0 sample_transport sample_blocked.
Definition sample_stored : world := set_call 1 Begin (store_step 0 (Ok ("t0ken", 300 * second)) sample_fetched).
Definition sample_served : world := look_step sample_source 1 sample_stored.

Lemma sample_called_reached : steps (tstep sample_url sample_decode sample_source) start_world sample_called.
Proof. eapply steps_cons; [apply ts_new|]. eapply steps_cons; [apply ts_new|]. apply steps_refl. Qed.

Lemma sample_served_run : call_steps sample_url sample_decode sample_source 6 sample_called sample_served.
Proof.
  eapply cst_step; [apply (cs_look _ _ _ 0%nat); reflexivity|]. eapply cst_step; [apply (cs_look _ _ _ 1%nat); reflexivity|].
  eapply cst_step; [apply (cs_fetch _ _ _ 0%nat _ 0%nat sample_transport); reflexivity|].
  eapply cst_step; [apply (cs_store _ _ _ 0%nat _ 0%nat); reflexivity|].
  eapply cst_step; [apply (cs_wake _ _ _ 1%nat _ 0%nat); [reflexivity|discriminate]|].
  eapply cst_step; [apply (cs_look _ _ _ 1%nat); reflexivity|]. apply cst_done.
Qed.

Lemma tokens_sound_witness :
  w_calls sample_served !! 1%nat = Some (Returned 0 (Ok "t0ken")) /\
  exists j t0 transport lifetime, granted sample_decode sample_source transport "t0ken" lifetime /\
    (j, t0, Ok ("t0ken", t0 + wrap64 (lifetime * second))) ∈ w_log sample_served /\
    (j = 1%nat \/ 30 * second < t0 + lifetime * second).
Proof.
  split; [reflexivity|].
  refine (proj1 (proj2 (proj2 (proj2 (tokens_sound sample_url sample_decode sample_config sample_source sample_served _ _))))
            1%nat 0 "t0ken" _).
  - reflexivity.
  - exact (steps_trans _ _ _ _ sample_called_reached (call_steps_reach _ _ _ _ _ _ sample_served_run)).
  - reflexivity.
Defined.

Lemma tokens_settle_witness :
  (6 <= 4 * outstanding sample_called * (outstanding sample_called + 1))%nat.
Proof. exact (proj1 (tokens_settle _ _ _ _ _ _ sample_called_reached sample_served_run)). Defined.
