(* ===== verification/Lifecycle.v ===== *)
(** * The lifecycle of the two message processes

    services/ledger/internal/outbox/runtime.go and
    services/consolidation/internal/adapters/inbound/rabbitmq/runtime.go: one
    goroutine per runner, one for the operations server, and the main goroutine
    that waits for the first of them to end or for the context, then stops
    everything.  The consumer's file is the publisher's without brokers, with
    texts of its own.  What the runners, the server and the brokers answer, and
    when, is the environment's. *)

From S2P Require Import Prelude.
From S2P Require Import GoTime.
From Stdlib Require String.
From Stdlib Require Import ZArith Lia.
Open Scope string_scope.
Open Scope Z_scope.

(** [errors.Join]: the nil errors are dropped, and nothing left is nil. *)
Definition errors_join (l : list (option error)) : option error :=
  match omap (fun x => x) l with [] => None | es => Some (EJoin es) end.

Record Runtime : Type := { rt_Server : bool; rt_Runners : nat; rt_Brokers : nat; ShutdownTimeout : Z }.

(** What the two files say differently. *)
Record texts : Type := { ended : string; late : string; invalid : string }.
Definition publisher_texts : texts :=
  {| ended := "publisher worker"; late := "publisher workers did not stop before shutdown deadline";
     invalid := "invalid outbox runtime" |}.
Definition consumer_texts : texts :=
  {| ended := "consolidation consumer"; late := "consolidation consumers did not stop before shutdown deadline";
     invalid := "invalid consumer runtime" |}.

Definition publisher_guard (rt : Runtime) : bool :=
  negb (rt_Server rt) || (rt_Runners rt =? 0)%nat || (rt_Brokers rt =? 0)%nat || (ShutdownTimeout rt <=? 0).
Definition consumer_guard (rt : Runtime) : bool :=
  negb (rt_Server rt) || (rt_Runners rt =? 0)%nat || (ShutdownTimeout rt <=? 0).

(** A runner's goroutine: in [Run], after its error is in the channel, after
    [Done] on the wait group. *)
Inductive runner : Type := Running | Sent | Joined.
#[export] Instance runner_eq_dec : EqDecision runner.
Proof. solve_decision. Defined.

(** What the select received. *)
Inductive reason : Type :=
  | ContextDone
  | ServerEnded (err : error)
  | RunnerEnded (err : option error).

(** Where the main goroutine stands.  [Closing] is at broker [k]; past the last
    one it waits for the runners. *)
Inductive phase : Type :=
  | Selecting
  | Stopping (why : reason)
  | ShuttingDown (why : reason)
  | Closing (why : reason) (serverError : option error) (k : nat) (brokerErrors : list (option error))
  | Done (r : option error).

(** What happened: what a runner or the server returned, what the main
    goroutine selected, and what the calls it made answered. *)
Inductive event : Type :=
  | RunnerReturned (i : nat) (err : option error)
  | ServerReturned (err : error)
  | Selected (why : reason)
  | ShutdownAnswered (err : option error)
  | BrokerAnswered (k : nat) (err : option error)
  | Waited (err : option error).

(** [w_queue] is the runners' channel, [w_served] the server's; [w_log] is a
    record the code does not keep. *)
Record world : Type := {
  w_phase : phase; w_ctx : bool; w_stopped : bool; w_runners : list runner; w_queue : list (option error);
  w_serving : bool; w_served : option error; w_shutdown : bool; w_closed : list nat; w_deadline : bool;
  w_log : list event }.

Section Run.
Context (t : texts) (rt : Runtime).

Definition started (ctx : bool) : world :=
  {| w_phase := Selecting; w_ctx := ctx; w_stopped := false; w_runners := replicate (rt_Runners rt) Running; w_queue := [];
     w_serving := true; w_served := None; w_shutdown := false; w_closed := []; w_deadline := false; w_log := [] |}.

Definition runError (why : reason) : option error :=
  match why with
  | ContextDone => None
  | ServerEnded err => if errors_is err "http.ErrServerClosed" then None else Some (EWrap "operations server" err)
  | RunnerEnded (Some err) => if errors_is err "context.Canceled" then None else Some (EWrap (ended t) err)
  | RunnerEnded None => Some (EMsg (ended t +:+ ": %!w(<nil>)"))
  end.

(** The last line of [Run]. *)
Definition joined (why : reason) (serverError workerError : option error) (brokerErrors : list (option error)) : option error :=
  errors_join [runError why; serverError; workerError; errors_join brokerErrors].

Definition goto (p : phase) (a : event) (w : world) : world :=
  {| w_phase := p; w_ctx := w_ctx w; w_stopped := w_stopped w; w_runners := w_runners w; w_queue := w_queue w;
     w_serving := w_serving w; w_served := w_served w; w_shutdown := w_shutdown w; w_closed := w_closed w; w_deadline := w_deadline w;
     w_log := (w_log w ++ [a])%list |}.
Definition take_served (p : phase) (a : event) (w : world) : world :=
  {| w_phase := p; w_ctx := w_ctx w; w_stopped := w_stopped w; w_runners := w_runners w; w_queue := w_queue w;
     w_serving := w_serving w; w_served := None; w_shutdown := w_shutdown w; w_closed := w_closed w; w_deadline := w_deadline w;
     w_log := (w_log w ++ [a])%list |}.
Definition take_queue (p : phase) (rest : list (option error)) (a : event) (w : world) : world :=
  {| w_phase := p; w_ctx := w_ctx w; w_stopped := w_stopped w; w_runners := w_runners w; w_queue := rest;
     w_serving := w_serving w; w_served := w_served w; w_shutdown := w_shutdown w; w_closed := w_closed w; w_deadline := w_deadline w;
     w_log := (w_log w ++ [a])%list |}.
(** [stopWorkers()], the shutdown context and the call of [Shutdown]. *)
Definition begin_shutdown (why : reason) (w : world) : world :=
  {| w_phase := ShuttingDown why; w_ctx := w_ctx w; w_stopped := true; w_runners := w_runners w; w_queue := w_queue w;
     w_serving := w_serving w; w_served := w_served w; w_shutdown := true; w_closed := w_closed w; w_deadline := w_deadline w;
     w_log := w_log w |}.
Definition close_broker (why : reason) (serverError : option error) (k : nat) (es : list (option error)) (e : option error) (w : world) : world :=
  {| w_phase := Closing why serverError (S k) (es ++ [e])%list; w_ctx := w_ctx w; w_stopped := w_stopped w; w_runners := w_runners w;
     w_queue := w_queue w; w_serving := w_serving w; w_served := w_served w; w_shutdown := w_shutdown w;
     w_closed := (w_closed w ++ [k])%list; w_deadline := w_deadline w;
     w_log := (w_log w ++ [BrokerAnswered k e])%list |}.

(** A step of the main goroutine. *)
Inductive main_step (w : world) : world -> Prop :=
  | ms_context : w_phase w = Selecting -> w_ctx w = true -> main_step w (goto (Stopping ContextDone) (Selected ContextDone) w)
  | ms_server err : w_phase w = Selecting -> w_served w = Some err -> 
      main_step w (take_served (Stopping (ServerEnded err)) (Selected (ServerEnded err)) w)
  | ms_runner err rest : w_phase w = Selecting -> w_queue w = err :: rest ->
      main_step w (take_queue (Stopping (RunnerEnded err)) rest (Selected (RunnerEnded err)) w)
  | ms_stop why : w_phase w = Stopping why -> main_step w (begin_shutdown why w)
  | ms_shutdown why serverError : w_phase w = ShuttingDown why ->
      main_step w (goto (Closing why serverError 0 []) (ShutdownAnswered serverError) w)
  | ms_close why serverError k es e : w_phase w = Closing why serverError k es -> (k < rt_Brokers rt)%nat ->
      main_step w (close_broker why serverError k es e w)
  | ms_joined why serverError es : w_phase w = Closing why serverError (rt_Brokers rt) es -> Forall (eq Joined) (w_runners w) ->
      main_step w (goto (Done (joined why serverError None es)) (Waited None) w)
  | ms_late why serverError es : w_phase w = Closing why serverError (rt_Brokers rt) es -> w_deadline w = true ->
      main_step w (goto (Done (joined why serverError (Some (EMsg (late t))) es)) (Waited (Some (EMsg (late t)))) w).

Definition set_runner (i : nat) (r : runner) (queue : list (option error)) (l : list event) (w : world) : world :=
  {| w_phase := w_phase w; w_ctx := w_ctx w; w_stopped := w_stopped w; w_runners := <[i := r]> (w_runners w); w_queue := queue;
     w_serving := w_serving w; w_served := w_served w; w_shutdown := w_shutdown w; w_closed := w_closed w; w_deadline := w_deadline w;
     w_log := (w_log w ++ l)%list |}.
Definition server_ends (err : error) (w : world) : world :=
  {| w_phase := w_phase w; w_ctx := w_ctx w; w_stopped := w_stopped w; w_runners := w_runners w; w_queue := w_queue w;
     w_serving := false; w_served := Some err; w_shutdown := w_shutdown w; w_closed := w_closed w; w_deadline := w_deadline w;
     w_log := (w_log w ++ [ServerReturned err])%list |}.
Definition cancel (w : world) : world :=
  {| w_phase := w_phase w; w_ctx := true; w_stopped := w_stopped w; w_runners := w_runners w; w_queue := w_queue w;
     w_serving := w_serving w; w_served := w_served w; w_shutdown := w_shutdown w; w_closed := w_closed w; w_deadline := w_deadline w;
     w_log := w_log w |}.
Definition expire (w : world) : world :=
  {| w_phase := w_phase w; w_ctx := w_ctx w; w_stopped := w_stopped w; w_runners := w_runners w; w_queue := w_queue w;
     w_serving := w_serving w; w_served := w_served w; w_shutdown := w_shutdown w; w_closed := w_closed w; w_deadline := true;
     w_log := w_log w |}.

(** A step of the other goroutines, of the caller or of time.  A send blocks
    while the channel holds one error per runner; the deadline is armed with
    the shutdown. *)
Inductive env_step (w : world) : world -> Prop :=
  | es_cancel : env_step w (cancel w)
  | es_ends i err : w_runners w !! i = Some Running -> (length (w_queue w) < rt_Runners rt)%nat ->
      env_step w (set_runner i Sent (w_queue w ++ [err])%list [RunnerReturned i err] w)
  | es_done i : w_runners w !! i = Some Sent -> env_step w (set_runner i Joined (w_queue w) [] w)
  | es_server err : w_serving w = true -> env_step w (server_ends err w)
  | es_deadline : w_shutdown w = true -> env_step w (expire w).

Definition lstep (w w' : world) : Prop := main_step w w' \/ env_step w w'.

(** [n] steps of the main goroutine, the others in between. *)
Inductive main_steps : nat -> world -> world -> Prop :=
  | mst_done w : main_steps 0 w w
  | mst_env n w w1 w' : env_step w w1 -> main_steps n w1 w' -> main_steps n w w'
  | mst_main n w w1 w' : main_step w w1 -> main_steps n w1 w' -> main_steps (S n) w w'.
End Run.

Definition publisher_Run (rt : Runtime) (ctx : bool) : result world :=
  if publisher_guard rt then Err (EMsg (invalid publisher_texts)) else Ok (started rt ctx).
Definition consumer_Run (rt : Runtime) (ctx : bool) : result world :=
  if consumer_guard rt then Err (EMsg (invalid consumer_texts)) else Ok (started rt ctx).

(** ** The invariant *)
Lemma errors_join_None l : errors_join l = None <-> Forall (fun e => e = None) l.
Proof.
  unfold errors_join. induction l as [|[e|] l IH]; cbn; [done| |].
  - split; [done|]. by intros [? _]%list.Forall_cons.
  - rewrite list.Forall_cons, <-IH. by destruct (omap _ l); split; [|intros []| |intros []].
Qed.

Section Invariant.
Context (t : texts) (rt : Runtime).

Definition has_ended (r : runner) : nat := match r with Running => 0 | _ => 1 end.

(** The main goroutine's part of the record. *)
Definition of_main (e : event) : bool :=
  match e with RunnerReturned _ _ | ServerReturned _ => false | _ => true end.
Definition answers (w : world) : list event := List.filter of_main (w_log w).

(** What was selected had happened. *)
Definition happened (why : reason) (w : world) : Prop :=
  match why with
  | ContextDone => w_ctx w = true
  | ServerEnded err => ServerReturned err ∈ w_log w
  | RunnerEnded err => exists i, RunnerReturned i err ∈ w_log w
  end.

Definition answered (w : world) : Prop :=
  match w_phase w with
  | Selecting => answers w = []
  | Stopping why | ShuttingDown why => answers w = [Selected why] /\ happened why w
  | Closing why se _ es => answers w = (Selected why :: ShutdownAnswered se :: imap BrokerAnswered es) /\ happened why w
  | Done r => exists why se we es, r = joined t why se we es /\ length es = rt_Brokers rt /\ happened why w /\
      answers w = (Selected why :: ShutdownAnswered se :: imap BrokerAnswered es ++ [Waited we])%list /\
      ((we = None /\ Forall (eq Joined) (w_runners w)) \/ (we = Some (EMsg (late t)) /\ w_deadline w = true))
  end.

Definition phase_ok (w : world) : Prop :=
  match w_phase w with
  | Selecting | Stopping _ => w_closed w = [] /\ w_shutdown w = false /\ w_stopped w = false /\ w_deadline w = false
  | ShuttingDown _ => w_closed w = [] /\ w_shutdown w = true /\ w_stopped w = true
  | Closing _ _ k es =>
      w_closed w = seq 0 k /\ w_shutdown w = true /\ w_stopped w = true /\ (k <= rt_Brokers rt)%nat /\ length es = k
  | Done _ => w_closed w = seq 0 (rt_Brokers rt) /\ w_shutdown w = true /\ w_stopped w = true
  end.

Record linv (w : world) : Prop := {
  li_runners : length (w_runners w) = rt_Runners rt;
  li_queue : (length (w_queue w) <= sum_list_with has_ended (w_runners w))%nat;
  li_phase : phase_ok w }.

(** What the record says. *)
Record ainv (w : world) : Prop := {
  li_sent : forall err, err ∈ w_queue w -> exists i, RunnerReturned i err ∈ w_log w;
  li_served : forall err, w_served w = Some err -> ServerReturned err ∈ w_log w;
  li_answered : answered w }.

Lemma started_inv ctx : linv (started rt ctx).
Proof. split; cbn; [by rewrite length_replicate|lia|done]. Qed.

Lemma main_step_inv w w' : linv w -> main_step t rt w w' -> linv w'.
Proof.
  intros [H1 H2 H3] Hs. unfold phase_ok in H3.
  destruct Hs as [E _|err E _|err rest E Eq|why E|why se E|why se k es e E Hk|why se es E Hj|why se es E Hd]; rewrite E in H3;
    split; cbn; try done; try (destruct H3 as (-> & H3); done).
  - rewrite Eq in H2. cbn in H2. lia.
  - destruct H3 as (Hc & Hs & Ht). split_and!; [done..|lia|done].
  - destruct H3 as (Hc & Hs & Ht & Hle & Hl). split_and!; [|done|done|lia|rewrite length_app; cbn; lia].
    rewrite Hc. change (0%nat :: seq 1 k) with (seq 0 (S k)). by rewrite seq_S.
  - by destruct H3 as (? & ? & ? & _).
  - by destruct H3 as (? & ? & ? & _).
Qed.

Lemma phase_ok_env w w' : w_phase w' = w_phase w -> w_closed w' = w_closed w -> w_shutdown w' = w_shutdown w ->
  w_stopped w' = w_stopped w -> (w_deadline w = true -> w_deadline w' = true) ->
  (w_deadline w' = true -> w_shutdown w = true) -> phase_ok w -> phase_ok w'.
Proof.
  intros Ep Ec Es Et Hd Hd'. unfold phase_ok. rewrite Ep, Ec, Es, Et. destruct (w_phase w) as [|why|why|why se k es|r]; try done.
  - intros (? & ? & ? & ?). split_and!; [done..|]. destruct (w_deadline w'); [|done]. rewrite Hd' in *; done.
  - intros (? & ? & ? & ?). split_and!; [done..|]. destruct (w_deadline w'); [|done]. rewrite Hd' in *; done.
Qed.

Lemma env_step_inv w w' : linv w -> env_step rt w w' -> linv w'.
Proof.
  intros [H1 H2 H3] Hs.
  assert (w_deadline w = true -> w_shutdown w = true) as Hd.
  { unfold phase_ok in H3. destruct (w_phase w) as [|why|why|why se k es|r]; naive_solver congruence. }
  destruct Hs as [|i err Hi Hq|i Hi|err Hs|Hs].
  - split; [done|done|]. by apply (phase_ok_env w).
  - pose proof (sum_insert has_ended _ _ _ Sent Hi) as Hsum. cbn in Hsum. split; cbn; [by rewrite length_insert|rewrite length_app; cbn; lia|].
    by apply (phase_ok_env w).
  - pose proof (sum_insert has_ended _ _ _ Joined Hi) as Hsum. cbn in Hsum. split; cbn; [by rewrite length_insert|lia|].
    by apply (phase_ok_env w).
  - split; [done|done|]. by apply (phase_ok_env w).
  - split; [done|done|]. by apply (phase_ok_env w).
Qed.

Lemma lreach_inv ctx w : steps (lstep t rt) (started rt ctx) w -> linv w.
Proof.
  apply steps_invariant; [|apply started_inv]. intros v v' Hv [Hs|Hs]; [by eapply main_step_inv|by eapply env_step_inv].
Qed.

(** *** The record of a run *)
Lemma started_ainv ctx : ainv (started rt ctx).
Proof. split; cbn; [by intros err ?%elem_of_nil|done|done]. Qed.

Lemma happened_grows why w w' l : w_log w' = (w_log w ++ l)%list -> (w_ctx w = true -> w_ctx w' = true) ->
  happened why w -> happened why w'.
Proof.
  intros El Hc. unfold happened. destruct why as [|err|err]; rewrite ?El; [done|rewrite elem_of_app; by left|].
  intros [i Hi]. exists i. rewrite elem_of_app. by left.
Qed.

Lemma answers_app w w' l : w_log w' = (w_log w ++ l)%list -> answers w' = (answers w ++ List.filter of_main l)%list.
Proof. unfold answers. intros ->. by rewrite List.filter_app. Qed.

Lemma queue_grows w w' l : w_log w' = (w_log w ++ l)%list -> ainv w ->
  (forall err, err ∈ w_queue w' -> err ∈ w_queue w \/ exists i, RunnerReturned i err ∈ l) ->
  (forall err, w_served w' = Some err -> w_served w = Some err \/ ServerReturned err ∈ l) -> answered w' -> ainv w'.
Proof.
  intros El [H1 H2 _] Hq Hs Ha. split; [| |done].
  - intros err [[i Hi]%H1|[i Hi]]%Hq; exists i; rewrite El, elem_of_app; [by left|by right].
  - intros err [Hi%H2|Hi]%Hs; rewrite El, elem_of_app; [by left|by right].
Qed.

Lemma main_step_ainv w w' : linv w -> ainv w -> main_step t rt w w' -> ainv w'.
Proof.
  intros [_ _ Hp] Ha Hs. pose proof (li_answered _ Ha) as Hans. unfold answered, phase_ok in *.
  destruct Hs as [E Hc|err E Es|err rest E Eq|why E|why se E|why se k es e E Hk|why se es E Hj|why se es E Hd]; rewrite E in Hans, Hp.
  - eapply queue_grows; [done|done|by left|by left|]. unfold answered. cbn [w_phase goto take_served take_queue close_broker]. erewrite answers_app by done. by rewrite Hans.
  - eapply queue_grows; [done|done|by left|done|]. unfold answered. cbn [w_phase goto take_served take_queue close_broker]. erewrite answers_app by done. rewrite Hans.
    split; [done|]. cbn. rewrite elem_of_app. left. by apply Ha.
  - eapply queue_grows; [done|done|intros x Hx; left; cbn in Hx; rewrite Eq; by right|by left|].
    unfold answered. cbn [w_phase goto take_served take_queue close_broker]. erewrite answers_app by done. rewrite Hans. split; [done|].
    destruct (li_sent _ Ha err) as [i Hi]; [rewrite Eq; by left|]. exists i. cbn. rewrite elem_of_app. by left.
  - eapply (queue_grows _ _ []); [cbn; by rewrite app_nil_r|done|by left|by left|]. done.
  - destruct Hans as [Hans Hh]. eapply queue_grows; [done|done|by left|by left|]. unfold answered. cbn [w_phase goto take_served take_queue close_broker].
    erewrite answers_app by done. rewrite Hans. split; [done|]. by eapply happened_grows.
  - destruct Hans as [Hans Hh]. destruct Hp as (_ & _ & _ & _ & Hl). eapply queue_grows; [done|done|by left|by left|].
    unfold answered. cbn [w_phase goto take_served take_queue close_broker]. erewrite answers_app by done. rewrite Hans. split; [|by eapply happened_grows].
    cbn [List.filter of_main app]. rewrite imap_app. cbn. by rewrite Nat.add_0_r, Hl.
  - destruct Hans as [Hans Hh]. destruct Hp as (_ & _ & _ & _ & Hl). eapply queue_grows; [done|done|by left|by left|].
    unfold answered. cbn [w_phase goto take_served take_queue close_broker]. exists why, se, None, es. split; [done|]. split; [done|]. split; [by eapply happened_grows|].
    erewrite answers_app by done. rewrite Hans. split; [done|by left].
  - destruct Hans as [Hans Hh]. destruct Hp as (_ & _ & _ & _ & Hl). eapply queue_grows; [done|done|by left|by left|].
    unfold answered. cbn [w_phase goto take_served take_queue close_broker]. exists why, se, (Some (EMsg (late t))), es. split; [done|]. split; [done|].
    split; [by eapply happened_grows|]. erewrite answers_app by done. rewrite Hans. split; [done|by right].
Qed.

Lemma answered_env w w' l : w_log w' = (w_log w ++ l)%list -> List.filter of_main l = [] -> w_phase w' = w_phase w ->
  (w_ctx w = true -> w_ctx w' = true) -> (w_deadline w = true -> w_deadline w' = true) ->
  (Forall (eq Joined) (w_runners w) -> Forall (eq Joined) (w_runners w')) -> answered w -> answered w'.
Proof.
  intros El Hn Ep Hc Hd Hj. pose proof (fun why => happened_grows why _ _ _ El Hc) as Hh.
  unfold answered. rewrite Ep, (answers_app _ _ _ El), Hn, app_nil_r. destruct (w_phase w) as [|why|why|why se k es|r]; [done|naive_solver..|].
  intros (why & se & we & es & H1 & H2 & H3 & H4 & Hor). exists why, se, we, es. split_and!; [done|done|by apply Hh|done|].
  destruct Hor as [[? ?]|[? ?]]; [left|right]; auto.
Qed.

Lemma env_step_ainv w w' : ainv w -> env_step rt w w' -> ainv w'.
Proof.
  intros Ha Hs. pose proof (li_answered _ Ha) as Hans.
  destruct Hs as [|i err Hi Hq|i Hi|err Hs|Hs].
  - eapply (queue_grows _ _ []); [cbn; by rewrite app_nil_r|done|by left|by left|].
    apply (answered_env w _ []); [cbn; by rewrite app_nil_r|done..].
  - eapply queue_grows; [done|done| |by left|].
    + intros x [Hx|Hx%list_elem_of_singleton]%elem_of_app; [by left|right]. subst. exists i. by left.
    + eapply answered_env; [done|done|done|done|done| |done]. intros Hf. by apply (proj1 (Forall_lookup _ _) Hf) in Hi.
  - eapply queue_grows; [done|done|by left|by left|].
    eapply answered_env; [done|done|done|done|done| |done]. intros Hf. by apply Forall_insert.
  - eapply queue_grows; [done|done|by left|intros x [= <-]; right; by left|]. by eapply answered_env.
  - eapply (queue_grows _ _ []); [cbn; by rewrite app_nil_r|done|by left|by left|].
    apply (answered_env w _ []); [cbn; by rewrite app_nil_r|done..].
Qed.

Lemma lreach_ainv ctx w : steps (lstep t rt) (started rt ctx) w -> ainv w.
Proof.
  intros Hw. assert (linv w /\ ainv w) as [_ H]; [|done]. revert Hw.
  apply (steps_invariant (lstep t rt) (fun w => linv w /\ ainv w)); [|split; [apply started_inv|apply started_ainv]].
  intros v v' [Hv Ha] [Hs|Hs].
  - split; [by eapply main_step_inv|by eapply main_step_ainv].
  - split; [by eapply env_step_inv|by eapply env_step_ainv].
Qed.

(** ** Steps of the main goroutine *)
Definition main_work (w : world) : nat :=
  match w_phase w with
  | Selecting => rt_Brokers rt + 4
  | Stopping _ => rt_Brokers rt + 3
  | ShuttingDown _ => rt_Brokers rt + 2
  | Closing _ _ k _ => S (rt_Brokers rt - k)
  | Done _ => 0
  end.

Lemma main_step_work w w' : main_step t rt w w' -> (main_work w' < main_work w)%nat.
Proof.
  unfold main_work. intros [E _|err E _|err rest E _|why E|why se E|why se k es e E Hk|why se es E _|why se es E _]; rewrite E; cbn; lia.
Qed.

Lemma env_step_work w w' : env_step rt w w' -> main_work w' = main_work w.
Proof. by intros []. Qed.

Lemma main_steps_work n w w' : main_steps t rt n w w' -> (n + main_work w' <= main_work w)%nat.
Proof.
  induction 1 as [|n w w1 w' Hs _ IH|n w w1 w' Hs _ IH]; [lia| |].
  - by rewrite <-(env_step_work _ _ Hs).
  - apply main_step_work in Hs. lia.
Qed.

Lemma main_steps_reach n w w' : main_steps t rt n w w' -> steps (lstep t rt) w w'.
Proof.
  induction 1 as [|n w w1 w' Hs _ IH|n w w1 w' Hs _ IH]; [apply steps_refl| |];
    (eapply steps_cons; [|exact IH]); [by right|by left].
Qed.
End Invariant.

(** ** What the two processes guarantee *)

(** A call of either [Run] past its guard; a consumer has no brokers. *)
Inductive runs (rt : Runtime) (ctx : bool) (w : world) : texts -> Prop :=
  | run_publisher : publisher_Run rt ctx = Ok w -> runs rt ctx w publisher_texts
  | run_consumer : rt_Brokers rt = 0%nat -> consumer_Run rt ctx = Ok w -> runs rt ctx w consumer_texts.

Lemma runs_started rt ctx w t : runs rt ctx w t -> w = started rt ctx /\ (0 < rt_Runners rt)%nat.
Proof.
  intros [H|_ H]; revert H; [unfold publisher_Run, publisher_guard|unfold consumer_Run, consumer_guard];
    destruct (_ || _) eqn:E; try done; intros [= <-]; bool_to_prop; (split; [done|]);
    repeat match goal with H : (_ =? _)%nat = false |- _ => apply Nat.eqb_neq in H end; lia.
Qed.

Lemma running_room rt w i : linv rt w -> w_runners w !! i = Some Running -> (length (w_queue w) < rt_Runners rt)%nat.
Proof.
  intros [H1 H2 _] Hi. pose proof (sum_insert has_ended _ _ _ Sent Hi) as Hs. cbn in Hs.
  assert (forall l, sum_list_with has_ended l <= length l)%nat as Hb
    by (induction l as [|[] l IH]; cbn; lia).
  specialize (Hb (<[i:=Sent]> (w_runners w))). rewrite length_insert in Hb. lia.
Qed.

(** Closing what is left, whatever the brokers answer. *)
Lemma close_all t rt why se k es w : (k <= rt_Brokers rt)%nat -> w_phase w = Closing why se (rt_Brokers rt - k) es -> w_deadline w = true ->
  exists w' r, steps (lstep t rt) w w' /\ w_phase w' = Done r /\ w_runners w' = w_runners w.
Proof.
  revert es w. induction k as [|k IH]; intros es w Hk Hp Hd.
  - rewrite Nat.sub_0_r in Hp. eexists _, _. split; [eapply steps_cons; [left; by eapply ms_late|apply steps_refl]|done].
  - destruct (IH (es ++ [None])%list (close_broker why se (rt_Brokers rt - S k) es None w)) as (w' & r & Hs & Hr & Hq); [lia| |done|].
    { cbn. f_equal. lia. }
    exists w', r. split; [|done]. eapply steps_cons; [left; eapply ms_close; [exact Hp|lia]|exact Hs].
Qed.

Lemma abandoned t rt : exists w r, steps (lstep t rt) (started rt true) w /\ w_phase w = Done r /\
  w_runners w = replicate (rt_Runners rt) Running.
Proof.
  set (w := expire (goto (Closing ContextDone None 0 []) (ShutdownAnswered None)
    (begin_shutdown ContextDone (goto (Stopping ContextDone) (Selected ContextDone) (started rt true))))).
  destruct (close_all t rt ContextDone None (rt_Brokers rt) [] w) as (w' & r & Hs & Hr & Hq); [done|by rewrite Nat.sub_diag|done|].
  exists w', r. split; [|done]. eapply steps_cons; [left; by apply ms_context|].
  eapply steps_cons; [left; by apply ms_stop|]. eapply steps_cons; [left; by eapply (ms_shutdown _ _ _ _ None)|].
  eapply steps_cons; [right; by apply es_deadline|]. exact Hs.
Qed.

(** An error a result holds. *)
Definition holds (r : option error) (e : error) : Prop := exists l, r = Some (EJoin l) /\ e ∈ l.

Lemma errors_join_holds l e : Some e ∈ l -> holds (errors_join l) e.
Proof.
  intros H. assert (e ∈ omap (fun x => x) l) as He by (apply list_elem_of_omap; by exists (Some e)).
  unfold errors_join, holds. destruct (omap _ l) as [|x es]; [by apply elem_of_nil in He|]. by exists (x :: es).
Qed.

(** A reason that is no error: the context, a server that was closed, a runner
    that was cancelled. *)
Definition orderly (why : reason) : Prop :=
  match why with
  | ContextDone => True
  | ServerEnded err => errors_is err "http.ErrServerClosed" = true
  | RunnerEnded err => exists e, err = Some e /\ errors_is e "context.Canceled" = true
  end.

(** What [Run] returned, after what it was answered. *)
Record verdict (t : texts) (rt : Runtime) (w : world) (r : option error) (why : reason) (serverError workerError : option error)
    (brokerErrors : list (option error)) : Prop := {
  vd_answers : answers w =
    (Selected why :: ShutdownAnswered serverError :: imap BrokerAnswered brokerErrors ++ [Waited workerError])%list;
  vd_happened : happened why w;
  vd_brokers : length brokerErrors = rt_Brokers rt;
  vd_result : r = errors_join [runError t why; serverError; workerError; errors_join brokerErrors];
  vd_clean : r = None <-> orderly why /\ serverError = None /\ workerError = None /\ Forall (fun e => e = None) brokerErrors;
  vd_server : forall err, why = ServerEnded err -> ~ orderly why -> holds r (EWrap "operations server" err);
  vd_runner : forall err, why = RunnerEnded (Some err) -> ~ orderly why -> holds r (EWrap (ended t) err);
  vd_shutdown : forall err, serverError = Some err -> holds r err;
  vd_close : forall err, Some err ∈ brokerErrors -> exists j, holds r j /\ holds (Some j) err;
  vd_joined : workerError = None -> Forall (eq Joined) (w_runners w);
  vd_late : forall err, workerError = Some err -> err = EMsg (late t) /\ w_deadline w = true /\ holds r err }.

Lemma runError_None t why : runError t why = None <-> orderly why.
Proof.
  destruct why as [|err|[err|]]; cbn; [done| | |].
  - destruct (errors_is _ _); naive_solver.
  - destruct (errors_is _ _) eqn:E; split; [intros _; by exists err|done|done|]. intros (e & [= <-] & He). by rewrite E in He.
  - split; [done|]. by intros (e & ? & _).
Qed.

Lemma verdict_of t rt w r : answered t rt w -> w_phase w = Done r ->
  exists why serverError workerError brokerErrors, verdict t rt w r why serverError workerError brokerErrors.
Proof.
  unfold answered. intros Ha E. rewrite E in Ha. destruct Ha as (why & se & we & es & -> & Hl & Hh & Hans & Hor).
  exists why, se, we, es. unfold joined. split; try done.
  - rewrite errors_join_None, !list.Forall_cons, errors_join_None, runError_None. split; [tauto|].
    intros (? & ? & ? & ?). split_and!; [done..|constructor].
  - intros err -> Hn. apply errors_join_holds. cbn in *. destruct (errors_is _ _); [done|by left].
  - intros err -> Hn. apply errors_join_holds. cbn in *. destruct (errors_is err "context.Canceled") eqn:Ec; [|by left].
    destruct Hn. by exists err.
  - intros err ->. apply errors_join_holds. right. by left.
  - intros err He. destruct (errors_join_holds _ _ He) as (l & El & Hin). exists (EJoin l). split; [|by exists l].
    rewrite El. apply errors_join_holds. do 3 right. by left.
  - by destruct Hor as [[_ ?]|[-> _]].
  - intros err ->. destruct Hor as [[? _]|[[= ->] Hd]]; [done|]. split; [done|]. split; [done|].
    apply errors_join_holds. do 2 right. by left.
Qed.

(** C34: how the publisher and the consumer shut down.  However the context, the
    runners, the server, the brokers and the deadline interleave: brokers are
    closed one after the other, each once, and only after the runners' context
    is cancelled and the server told to shut down; no runner ever blocks on
    reporting its error.  When [Run] returns, it has selected one thing that
    happened and been answered by the server's shutdown, by every broker in
    order, and by the wait, and what it returns is the join of exactly those
    answers: the error of the server or the runner that ended first, unless
    the server was closed or the runner cancelled, Shutdown's error, the lateness
    of the runners if the deadline passed, or else they have all ended, and the
    brokers' errors; it is nil exactly when all of that is without error.  It
    does not wait longer than the deadline: there is always a run that returns
    while every runner is still running. *)
Theorem Run_shuts_down t rt ctx w0 : runs rt ctx w0 t ->
  (forall w, steps (lstep t rt) w0 w ->
    w_closed w = seq 0 (length (w_closed w)) /\ (w_closed w <> [] -> w_stopped w = true /\ w_shutdown w = true) /\
    (forall i, w_runners w !! i = Some Running -> (length (w_queue w) < rt_Runners rt)%nat) /\
    (forall r, w_phase w = Done r -> w_closed w = seq 0 (rt_Brokers rt) /\
       exists why serverError workerError brokerErrors, verdict t rt w r why serverError workerError brokerErrors)) /\
  (ctx = true -> exists w r, steps (lstep t rt) w0 w /\ w_phase w = Done r /\ w_runners w = replicate (rt_Runners rt) Running).
Proof.
  intros [-> _]%runs_started. split; [|intros ->; apply abandoned].
  intros w Hs. pose proof (li_answered _ _ _ (lreach_ainv _ _ _ _ Hs)) as Hans. pose proof (lreach_inv _ _ _ _ Hs) as Hw.
  pose proof (li_phase _ _ Hw) as Hp. unfold phase_ok in Hp. split; [|split; [|split]].
  - destruct (w_phase w); destruct Hp as (-> & _); by rewrite ?length_seq.
  - destruct (w_phase w); destruct Hp as (-> & Hs1 & Ht); try done; destruct Ht; done.
  - intros i. by eapply running_room.
  - intros r E. split; [by rewrite E in Hp; destruct Hp|by apply verdict_of].
Qed.

(** The main goroutine always returns.  It takes at most one step per
    broker and four more, and it can always take the next one unless nothing
    has ended and the context is live, or it waits for a runner before the
    deadline: a server or a broker that fails never holds the shutdown up. *)
Theorem Run_returns t rt ctx w0 n w w' : runs rt ctx w0 t -> steps (lstep t rt) w0 w -> main_steps t rt n w w' ->
  (n <= rt_Brokers rt + 4)%nat /\
  ((exists r, w_phase w' = Done r) \/ (exists w'', main_step t rt w' w'') \/
   (w_phase w' = Selecting /\ w_ctx w' = false /\ w_served w' = None /\ w_queue w' = []) \/
   (exists why serverError es, w_phase w' = Closing why serverError (rt_Brokers rt) es /\ w_deadline w' = false /\
      ~ Forall (eq Joined) (w_runners w'))).
Proof.
  intros [-> _]%runs_started Hw Hn. split.
  - apply main_steps_work in Hn. unfold main_work in Hn at 2. destruct (w_phase w); lia.
  - assert (linv rt w') as [_ _ Hp] by (eapply (lreach_inv t), steps_trans; [exact Hw|by eapply main_steps_reach]).
    unfold phase_ok in Hp. destruct (w_phase w') as [|why|why|why se k es|r] eqn:E; [| | | |by left; exists r]; right.
    + destruct (w_ctx w') eqn:Ec; [left; eexists; by apply ms_context|]. destruct (w_served w') as [e|] eqn:Es; [left; eexists; by apply ms_server|].
      destruct (w_queue w') as [|e q] eqn:Eq; [by right; left|left; eexists; by eapply ms_runner].
    + left. eexists. by apply ms_stop.
    + left. eexists. by eapply (ms_shutdown _ _ _ _ None).
    + destruct Hp as (_ & _ & _ & Hk & _). destruct (decide (k = rt_Brokers rt)) as [-> | Hne].
      * destruct (w_deadline w') eqn:Ed; [left; eexists; by eapply ms_late|].
        destruct (decide (Forall (eq Joined) (w_runners w'))) as [Hf|Hf]; [left; eexists; by eapply ms_joined|].
        right. right. by exists why, se, es.
      * left. eexists. eapply (ms_close _ _ _ _ _ _ _ None); [exact E|lia].
Qed.

(** A publisher with one worker and one broker, told to stop. *)
Definition sample_runtime : Runtime := {| rt_Server := true; rt_Runners := 1; rt_Brokers := 1; ShutdownTimeout := 10 * second |}.
Definition sample_stopping : world :=
  goto (Closing ContextDone None 0 []) (ShutdownAnswered None)
    (begin_shutdown ContextDone (goto (Stopping ContextDone) (Selected ContextDone) (started sample_runtime true))).
Definition sample_closed : world :=
  close_broker ContextDone None 0 [] None
    (set_runner 0 Joined [Some (ESentinel "context.Canceled")] []
      (set_runner 0 Sent [Some (ESentinel "context.Canceled")] [RunnerReturned 0 (Some (ESentinel "context.Canceled"))] sample_stopping)).
Definition sample_done : world := goto (Done None) (Waited None) sample_closed.

Lemma sample_main : main_steps publisher_texts sample_runtime 5 (started sample_runtime true) sample_done.
Proof.
  eapply mst_main; [by apply ms_context|]. eapply mst_main; [by apply ms_stop|].
  eapply mst_main; [by eapply (ms_shutdown _ _ _ _ None)|].
  eapply mst_env; [apply (es_ends _ _ 0%nat (Some (ESentinel "context.Canceled"))); [reflexivity|cbn; lia]|].
  eapply mst_env; [by apply (es_done _ _ 0%nat)|].
  eapply mst_main; [eapply (ms_close _ _ _ _ _ 0%nat _ None); [reflexivity|cbn; lia]|].
  eapply mst_main; [|apply mst_done]. apply (ms_joined _ _ sample_closed ContextDone None [None]); [reflexivity|].
  repeat constructor.
Qed.

Lemma Run_shuts_down_witness :
  w_phase sample_done = Done None /\ w_closed sample_done = seq 0 1 /\
  (exists why serverError workerError brokerErrors,
     verdict publisher_texts sample_runtime sample_done None why serverError workerError brokerErrors) /\
  exists w r, steps (lstep publisher_texts sample_runtime) (started sample_runtime true) w /\ w_phase w = Done r /\ w_runners w = [Running].
Proof.
  destruct (Run_shuts_down publisher_texts sample_runtime true (started sample_runtime true)) as [H1 H2]; [by constructor|].
  destruct (H1 sample_done (main_steps_reach _ _ _ _ _ sample_main)) as (_ & _ & _ & H).
  split; [reflexivity|]. split; [exact (proj1 (H None eq_refl))|]. split; [exact (proj2 (H None eq_refl))|exact (H2 eq_refl)].
Defined.

Lemma Run_returns_witness : (5 <= rt_Brokers sample_runtime + 4)%nat /\ w_phase sample_done = Done None.
Proof.
  split; [|reflexivity].
  refine (proj1 (Run_returns publisher_texts sample_runtime true (started sample_runtime true) 5 _ _ _ (steps_refl _ _) sample_main)).
  by constructor.
Defined.
