(* ===== verification/Startup.v ===== *)
(** * Starting the message processes

    The commands services/ledger/cmd/outbox-publisher,
    services/consolidation/cmd/consumer and services/ledger/cmd/outbox-topology:
    how they read their settings from the environment and what they build
    before they run; and the settings internal/platform/identityruntime/config.go
    reads for the two APIs.

    [getenv] is os.Getenv.  Files, the system's certificate pool and key pairs
    come from [tls_files]; [url_parse] gives the scheme, the host and whether a
    URL holds credentials. *)

From S2P Require Import Prelude.
From S2P Require Import GoStrings.
From S2P Require Import GoTime.
From S2P Require Import GoDuration.
From S2P Require Import Consumer.
From S2P Require Import Outbox.
From S2P Require Import TopologyMigration.
From Stdlib Require String.
From Stdlib Require Import ZArith Lia Ascii.
Open Scope string_scope.
Open Scope Z_scope.

(** What crypto/tls, crypto/x509 and the file system answer. *)
Class tls_files (pool cert : Type) : Type := {
  read_file : string -> result string;
  new_cert_pool : pool;
  system_cert_pool : result pool;
  append_certs_from_pem : pool -> string -> option pool;
  load_key_pair : string -> string -> result cert }.
Record tls_config (pool cert : Type) : Type := { MinVersion : Z; RootCAs : option pool; Certificates : list cert }.
Arguments MinVersion {pool cert} _.
Arguments RootCAs {pool cert} _.
Arguments Certificates {pool cert} _.
Definition VersionTLS12 : Z := 771.

Section Settings.
Context {pool cert : Type} {T : tls_files pool cert} (getenv : string -> string).

(** ** The helpers of the two main packages *)
Definition envOr (name fallback : string) : string :=
  let value := trim_space (getenv name) in if String.eqb value "" then fallback else value.
Definition parseDuration (name : string) (fallback : Z) : result Z :=
  match ParseDuration (envOr name (duration_string fallback)) with
  | Ok parsed => if parsed <=? 0 then Err (EMsg (name +:+ " must be a positive duration")) else Ok parsed
  | Err _ => Err (EMsg (name +:+ " must be a positive duration"))
  end.
Definition parseInt (name : string) (fallback minimum maximum : Z) : result Z :=
  match Atoi (envOr name (fmt_d fallback)) with
  | Ok value => if (value <? minimum) || (maximum <? value)
                then Err (EMsg (name +:+ " must be between " +:+ fmt_d minimum +:+ " and " +:+ fmt_d maximum)) else Ok value
  | Err _ => Err (EMsg (name +:+ " must be between " +:+ fmt_d minimum +:+ " and " +:+ fmt_d maximum))
  end.
Definition parseBool (name : string) (fallback : bool) : result bool :=
  match ParseBool (envOr name (if fallback then "true" else "false")) with
  | Ok value => Ok value
  | Err _ => Err (EMsg (name +:+ " must be a boolean"))
  end.

(** [loadRabbitTLS]; [service] is the prefix of its variables. *)
Definition loadRabbitTLS (service : string) : result (tls_config pool cert) :=
  let caPath := trim_space (getenv (service +:+ "_RABBITMQ_CA_FILE")) in
  rootCAs ← (if String.eqb caPath "" then Ok None
             else match read_file caPath with
                  | Err err => Err (EWrap "read RabbitMQ CA" err)
                  | Ok content =>
                      match system_cert_pool with
                      | Err err => Err (EWrap "load system roots" err)
                      | Ok roots => match append_certs_from_pem roots content with
                                    | None => Err (EMsg "RabbitMQ CA file contains no certificates")
                                    | Some roots => Ok (Some roots)
                                    end
                      end
                  end);
  let certPath := trim_space (getenv (service +:+ "_RABBITMQ_CERT_FILE")) in
  let keyPath := trim_space (getenv (service +:+ "_RABBITMQ_KEY_FILE")) in
  if xorb (String.eqb certPath "") (String.eqb keyPath "")
  then Err (EMsg "RabbitMQ client certificate and key must be configured together")
  else if String.eqb certPath "" then Ok {| MinVersion := VersionTLS12; RootCAs := rootCAs; Certificates := [] |}
  else match load_key_pair certPath keyPath with
       | Err err => Err (EWrap "load RabbitMQ client certificate" err)
       | Ok certificate => Ok {| MinVersion := VersionTLS12; RootCAs := rootCAs; Certificates := [certificate] |}
       end.
End Settings.

(** ** The outbox publisher *)
Module Publisher.
Record config (pool cert : Type) : Type := {
  postgresDSN : string; rabbitURL : string; allowInsecure : bool; tlsConfig : tls_config pool cert; httpAddress : string;
  workerID : string; workers : Z; batchSize : Z; lease : Z; pollInterval : Z; confirmTimeout : Z; backoffBase : Z; backoffMax : Z }.

Section Publisher.
Context {pool cert : Type} {T : tls_files pool cert}.
Notation config := (config pool cert).

(** [process] is the host name and the process number, as the default worker
    identity joins them. *)
Definition loadConfig (getenv : string -> string) (process : string) : result config :=
  let postgresDSN := trim_space (getenv "OUTBOX_POSTGRES_DSN") in
  let rabbitURL := trim_space (getenv "OUTBOX_RABBITMQ_URL") in
  let httpAddress := envOr getenv "OUTBOX_HTTP_ADDRESS" ":8080" in
  let workerID := envOr getenv "OUTBOX_WORKER_ID" process in
  if String.eqb postgresDSN "" then Err (EMsg "OUTBOX_POSTGRES_DSN is required")
  else if String.eqb rabbitURL "" then Err (EMsg "OUTBOX_RABBITMQ_URL is required")
  else
    allowInsecure ← parseBool getenv "OUTBOX_RABBITMQ_ALLOW_INSECURE" false;
    workers ← parseInt getenv "OUTBOX_WORKERS" 2 1 32;
    batchSize ← parseInt getenv "OUTBOX_BATCH_SIZE" 50 1 1000;
    lease ← parseDuration getenv "OUTBOX_LEASE" (30 * second);
    pollInterval ← parseDuration getenv "OUTBOX_POLL_INTERVAL" (250 * millisecond);
    confirmTimeout ← parseDuration getenv "OUTBOX_CONFIRM_TIMEOUT" (10 * second);
    backoffBase ← parseDuration getenv "OUTBOX_BACKOFF_BASE" (500 * millisecond);
    backoffMax ← parseDuration getenv "OUTBOX_BACKOFF_MAX" (30 * second);
    if backoffMax <? backoffBase then Err (EMsg "OUTBOX_BACKOFF_MAX must be at least OUTBOX_BACKOFF_BASE")
    else if lease <? wrap64 (confirmTimeout + 2 * second)
    then Err (EMsg "OUTBOX_LEASE must exceed OUTBOX_CONFIRM_TIMEOUT by at least 2s")
    else
      tlsConfig ← loadRabbitTLS getenv "OUTBOX";
      Ok {| postgresDSN := postgresDSN; rabbitURL := rabbitURL; allowInsecure := allowInsecure; tlsConfig := tlsConfig;
            httpAddress := httpAddress; workerID := workerID; workers := workers; batchSize := batchSize; lease := lease;
            pollInterval := pollInterval; confirmTimeout := confirmTimeout; backoffBase := backoffBase; backoffMax := backoffMax |}.

(** The fields of RabbitConfig that [NewRabbitBroker] looks at. *)
Record RabbitConfig : Type := {
  rc_URL : string; rc_AllowInsecure : bool; rc_TLS : tls_config pool cert; rc_Topology : Topology; rc_Schema : bool; ConfirmTimeout : Z }.

Definition topology_validate (t : Topology) : result unit :=
  if String.eqb (t_Exchange t) "" || String.eqb (t_RoutingKey t) "" || String.eqb (t_Queue t) "" || String.eqb (t_DLX t) ""
     || String.eqb (t_DLQ t) ""
  then Err (EMsg "RabbitMQ topology names must not be empty") else Ok tt.

Context (url_parse : string -> result (string * string * bool)).

Definition NewRabbitBroker (config : RabbitConfig) : result RabbitConfig :=
  match url_parse (rc_URL config) with
  | Ok (scheme, host, user) =>
      if String.eqb host "" then Err (EMsg "invalid RabbitMQ URL")
      else if negb (String.eqb scheme "amqps") && negb (String.eqb scheme "amqp" && rc_AllowInsecure config)
      then Err (EMsg "RabbitMQ URL must use amqps unless insecure transport is explicitly enabled")
      else if negb user then Err (EMsg "RabbitMQ publisher credentials are required")
      else
        _ ← topology_validate (rc_Topology config);
        if negb (rc_Schema config) then Err (EMsg "event schema is required")
        else if ConfirmTimeout config <=? 0 then Err (EMsg "publisher confirm timeout must be positive")
        else Ok config
  | Err _ => Err (EMsg "invalid RabbitMQ URL")
  end.

Definition broker_config (c : config) : RabbitConfig :=
  {| rc_URL := rabbitURL _ _ c; rc_AllowInsecure := allowInsecure _ _ c; rc_TLS := tlsConfig _ _ c; rc_Topology := DefaultTopology;
     rc_Schema := true; ConfirmTimeout := confirmTimeout _ _ c |}.
Definition worker_config (c : config) (index : nat) : WorkerConfig :=
  {| Owner := workerID _ _ c +:+ "-" +:+ fmt_d (Z.of_nat index); BatchSize := batchSize _ _ c; Lease := lease _ _ c;
     PollInterval := pollInterval _ _ c; Outbox.BackoffBase := backoffBase _ _ c; Outbox.BackoffMax := backoffMax _ _ c;
     PublishBudget := confirmTimeout _ _ c |}.

(** The loop of [run] that builds a broker and a worker per index. *)
Fixpoint build (c : config) (index : nat) (count : nat) : result (list (RabbitConfig * WorkerConfig)) :=
  match count with
  | O => Ok []
  | S n =>
      broker ← NewRabbitBroker (broker_config c);
      worker ← NewWorker (worker_config c index);
      rest ← build c (S index) n;
      Ok ((broker, worker) :: rest)
  end.
Definition assemble (c : config) : result (list (RabbitConfig * WorkerConfig)) := build c 0 (Z.to_nat (workers _ _ c)).

(** GET /readyz: the status and the body. *)
Fixpoint all_ready (brokers : list (result unit)) : bool :=
  match brokers with [] => true | Ok _ :: rest => all_ready rest | Err _ :: _ => false end.
Definition readyz (store : result unit) (brokers : list (result unit)) : Z * string :=
  match store with
  | Err _ => (503, "outbox store unavailable")
  | Ok _ =>
      match brokers with
      | [] => (503, "RabbitMQ capacity unavailable")
      | _ => if all_ready brokers then (204, "") else (503, "RabbitMQ capacity unavailable")
      end
  end.

(** [main]: the exit code, from what [loadConfig] and [run] return. *)
Definition exit_code (configuration : result config) (run : config -> option error) : Z :=
  match configuration with
  | Err _ => 2
  | Ok c => match run c with Some err => if errors_is err "context.Canceled" then 0 else 1 | None => 0 end
  end.
End Publisher.
End Publisher.

(** ** The consolidation consumer *)
Module ConsumerMain.
Record config (pool cert : Type) : Type := {
  postgresDSN : string; rabbitURL : string; allowInsecure : bool; tlsConfig : tls_config pool cert; httpAddress : string;
  consumerID : string; workers : Z; maxAttempts : Z; backoffBase : Z; backoffMax : Z; reconnectDelay : Z }.

Section ConsumerMain.
Context {pool cert : Type} {T : tls_files pool cert}.
Notation config := (config pool cert).

Definition loadConfig (getenv : string -> string) (process : string) : result config :=
  let postgresDSN := trim_space (getenv "CONSOLIDATION_DATABASE_URL") in
  let rabbitURL := trim_space (getenv "CONSUMER_RABBITMQ_URL") in
  let httpAddress := envOr getenv "CONSUMER_HTTP_ADDRESS" ":8081" in
  let consumerID := envOr getenv "CONSUMER_ID" process in
  if String.eqb postgresDSN "" then Err (EMsg "CONSOLIDATION_DATABASE_URL is required")
  else if String.eqb rabbitURL "" then Err (EMsg "CONSUMER_RABBITMQ_URL is required")
  else
    allowInsecure ← parseBool getenv "CONSUMER_RABBITMQ_ALLOW_INSECURE" false;
    workers ← parseInt getenv "CONSUMER_WORKERS" 4 1 32;
    maxAttempts ← parseInt getenv "CONSUMER_MAX_ATTEMPTS" 5 1 100;
    backoffBase ← parseDuration getenv "CONSUMER_BACKOFF_BASE" (500 * millisecond);
    backoffMax ← parseDuration getenv "CONSUMER_BACKOFF_MAX" (30 * second);
    if backoffMax <? backoffBase then Err (EMsg "CONSUMER_BACKOFF_MAX must be at least CONSUMER_BACKOFF_BASE")
    else
      reconnectDelay ← parseDuration getenv "CONSUMER_RECONNECT_DELAY" (2 * second);
      tlsConfig ← loadRabbitTLS getenv "CONSUMER";
      Ok {| postgresDSN := postgresDSN; rabbitURL := rabbitURL; allowInsecure := allowInsecure; tlsConfig := tlsConfig;
            httpAddress := httpAddress; consumerID := consumerID; workers := workers; maxAttempts := maxAttempts;
            backoffBase := backoffBase; backoffMax := backoffMax; reconnectDelay := reconnectDelay |}.

(** The configuration [run] gives [NewConsumer] for the consumer of an index. *)
Definition consumer_config (c : config) (index : nat) : Consumer.Config :=
  {| Consumer.URL := rabbitURL _ _ c; Consumer.cf_Topology := Consumer.DefaultTopology; Consumer.has_schema := true;
     Consumer.ConsumerTag := consumerID _ _ c +:+ "-" +:+ fmt_d (Z.of_nat index); Consumer.MaxAttempts := maxAttempts _ _ c;
     Consumer.BackoffBase := backoffBase _ _ c; Consumer.BackoffMax := backoffMax _ _ c;
     Consumer.ReconnectDelay := reconnectDelay _ _ c; Consumer.InjectFailure := None; Consumer.AfterApply := None |}.
Fixpoint build (c : config) (index : nat) (count : nat) : result (list Consumer.Config) :=
  match count with
  | O => Ok []
  | S n =>
      let config := consumer_config c index in
      _ ← Consumer.config_validate config; rest ← build c (S index) n; Ok (config :: rest)
  end.
Definition assemble (c : config) : result (list Consumer.Config) := build c 0 (Z.to_nat (workers _ _ c)).

(** The checks of [connect], before every dial. *)
Definition connect_checks (url_parse : string -> result (string * string * bool)) (url : string) (allowInsecure : bool) : result unit :=
  match url_parse url with
  | Ok (scheme, host, _) =>
      if String.eqb host "" then Err (EMsg "invalid RabbitMQ URL")
      else if negb (String.eqb scheme "amqps") && negb (String.eqb scheme "amqp" && allowInsecure)
      then Err (EMsg "RabbitMQ URL must use amqps unless insecure transport is explicitly enabled")
      else Ok tt
  | Err _ => Err (EMsg "invalid RabbitMQ URL")
  end.

(** GET /readyz: one consumer with a channel is enough. *)
Fixpoint any_ready (consumers : list (result unit)) : bool :=
  match consumers with [] => false | Ok _ :: _ => true | Err _ :: rest => any_ready rest end.
Definition readyz (store : result unit) (consumers : list (result unit)) : Z * string :=
  match store with
  | Err _ => (503, "consolidation store unavailable")
  | Ok _ => if any_ready consumers then (204, "") else (503, "no RabbitMQ consumer capacity available")
  end.
End ConsumerMain.
End ConsumerMain.

(** ** The topology command *)
Module TopologyCommand.
Section TopologyCommand.
Context {pool cert : Type} {T : tls_files pool cert} {B : Type} `{AMQP B}.
Context (quoted : string -> string) (url_parse : string -> result (string * string * bool)).

(** [run]: the line printed, or the error.  [fuel] bounds the messages a
    migration moves, as in [UpgradeTopology]. *)
Definition run (fuel : nat) (arguments : list string) (getenv : string -> string) (b : B) : option (result string * B) :=
  match arguments with
  | [direction] =>
      if negb (String.eqb direction "upgrade") && negb (String.eqb direction "rollback")
      then Some (Err (EMsg "usage: outbox-topology <upgrade|rollback>"), b)
      else
        let url := trim_space (getenv "OUTBOX_RABBITMQ_URL") in
        if String.eqb url "" then Some (Err (EMsg "OUTBOX_RABBITMQ_URL is required"), b)
        else
          let raw := trim_space (getenv "OUTBOX_RABBITMQ_ALLOW_INSECURE") in
          match (if String.eqb raw "" then Ok false else ParseBool raw) with
          | Err _ => Some (Err (EMsg "OUTBOX_RABBITMQ_ALLOW_INSECURE must be a boolean"), b)
          | Ok allowInsecure =>
              match loadRabbitTLS getenv "OUTBOX" with
              | Err err => Some (Err err, b)
              | Ok _ =>
                  let config := {| URL := url; AllowInsecure := allowInsecure; ConfirmBudget := 10 * second; AfterMove := None |} in
                  match (if String.eqb direction "upgrade" then UpgradeTopology quoted fuel url_parse config b
                         else RollbackTopology quoted fuel url_parse config b) with
                  | None => None
                  | Some (report, Err err, b) =>
                      Some (Err (EWrap (direction +:+ " failed after " +:+ fmt_d (Z.of_nat (Moved report)) +:+
                                        " confirmed message moves") err), b)
                  | Some (report, Ok _, b) =>
                      Some (Ok (Direction report +:+ " complete: confirmed_moves=" +:+ fmt_d (Z.of_nat (Moved report))), b)
                  end
              end
          end
  | _ => Some (Err (EMsg "usage: outbox-topology <upgrade|rollback>"), b)
  end.
End TopologyCommand.
End TopologyCommand.

(** ** identityruntime/config.go *)
Module Identity.
(** %q of an assignment is [quoted]. *)
Section Identity.
Context (quoted : string -> string).

(** The loop over the values of one assignment. *)
Definition add_value (name : string) (result : gmap string (list string)) (value : string) : gmap string (list string) :=
  let normalized := trim_space value in
  if String.eqb normalized "" then result else <[name := (default [] (result !! name) ++ [normalized])%list]> result.
Fixpoint parse_assignments (assignments : list string) (acc : gmap string (list string)) : result (gmap string (list string)) :=
  match assignments with
  | [] => Ok acc
  | assignment :: rest =>
      let '(name, values, found) := cut "=" (trim_space assignment) in
      if negb found || String.eqb (trim_space name) ""
      then Err (EMsg ("identityruntime: invalid assignment " +:+ quoted assignment))
      else parse_assignments rest (fold_left (add_value (trim_space name)) (split "," values) acc)
  end.
Definition ParseAssignments (raw : string) : result (gmap string (list string)) :=
  if String.eqb (trim_space raw) "" then Ok ∅ else parse_assignments (split ";" raw) ∅.

(** Go ranges over the map in random order, which only picks the resource the
    error names. *)
Definition ParseOwners (raw : string) : result (gmap string string) :=
  match ParseAssignments raw with
  | Err err => Err err
  | Ok assignments =>
      match list_find (fun p : string * list string => length p.2 <> 1%nat) (map_to_list assignments) with
      | Some (_, (resource, _)) => Err (EMsg ("identityruntime: resource " +:+ quoted resource +:+ " must have exactly one owner"))
      | None => Ok (omap (fun merchants : list string => list.head merchants) assignments)
      end
  end.

Definition ParseUint64 (raw : string) (fallback : Z) : result Z :=
  if String.eqb (trim_space raw) "" then Ok fallback
  else match ParseUint raw with Ok value => Ok value | Err err => Err (EWrap "identityruntime: parse uint64" err) end.
Definition IdentityParseDuration (raw : string) (fallback : Z) : result Z :=
  if String.eqb (trim_space raw) "" then Ok fallback
  else match ParseDuration raw with
       | Ok value => if value <=? 0 then Err (EMsg ("identityruntime: duration must be positive: " +:+ quoted raw)) else Ok value
       | Err _ => Err (EMsg ("identityruntime: duration must be positive: " +:+ quoted raw))
       end.
End Identity.
End Identity.

(** ** What a loaded configuration satisfies *)
Lemma parseInt_range getenv name fallback low high v : parseInt getenv name fallback low high = Ok v -> low <= v <= high.
Proof. unfold parseInt. destruct (Atoi _); [|done]. destruct (_ || _) eqn:E; [done|]. intros [= <-]. bool_to_prop. lia. Qed.

Lemma parseDuration_range getenv name fallback v : parseDuration getenv name fallback = Ok v -> 0 < v <= int64_max.
Proof.
  unfold parseDuration. destruct (ParseDuration _) as [d|] eqn:E; [|done]. apply ParseDuration_range in E.
  destruct (Z.leb_spec d 0); [done|]. intros [= <-]. lia.
Qed.

(** The next step of a chain of settings: [H : (x ← r; k x) = Ok c]. *)
Ltac next_setting H :=
  match type of H with
  | (mbind _ ?r) = Ok _ => let E := fresh "E" in destruct r eqn:E; cbn [mbind result_bind] in H; [|discriminate H]
  | (if ?b then _ else _) = Ok _ => let E := fresh "E" in destruct b eqn:E; [discriminate H|]
  end.
Ltac ranges :=
  repeat match goal with
  | H : parseInt _ _ _ _ _ = Ok _ |- _ => apply parseInt_range in H
  | H : parseDuration _ _ _ = Ok _ |- _ => apply parseDuration_range in H
  end.

Lemma append_nonempty a b : b <> "" -> a +:+ b <> "".
Proof. by destruct a. Qed.

Lemma wrap64_sum a b : 0 <= a <= int64_max -> 0 <= b <= int64_max ->
  wrap64 (a + b) = a + b /\ a + b <= int64_max \/ wrap64 (a + b) < 0 /\ int64_max < a + b.
Proof.
  intros Ha Hb. destruct (Z.leb_spec (a + b) int64_max).
  - left. split; [|done]. apply wrap64_id. unfold int64_min in *. lia.
  - right. split; [|done]. unfold wrap64, int64_max in *.
    assert (a + b + 9223372036854775808 = 1 * 18446744073709551616 + (a + b - 9223372036854775808)) as -> by lia.
    rewrite Z.add_comm, Z.mod_add, Z.mod_small by lia. lia.
Qed.

(** A URL the publisher may use. *)
Definition url_allowed (url_parse : string -> result (string * string * bool)) (url : string) (insecure : bool) : Prop :=
  exists scheme host, url_parse url = Ok (scheme, host, true) /\ host <> "" /\ (scheme = "amqps" \/ scheme = "amqp" /\ insecure = true).

Section Loaded.
Context {pool cert : Type} {T : tls_files pool cert}.
Import Publisher.

Lemma publisher_loaded getenv process (c : config pool cert) : Publisher.loadConfig getenv process = Ok c ->
  1 <= workers _ _ c <= 32 /\ 1 <= batchSize _ _ c <= 1000 /\ 0 < pollInterval _ _ c /\ 0 < backoffBase _ _ c <= backoffMax _ _ c /\
  0 < confirmTimeout _ _ c <= int64_max /\ 0 < lease _ _ c <= int64_max /\
  wrap64 (confirmTimeout _ _ c + 2 * second) <= lease _ _ c.
Proof.
  unfold Publisher.loadConfig. intros H. repeat next_setting H. injection H as <-. cbn. ranges. bool_to_prop. lia.
Qed.

Lemma NewRabbitBroker_ok url_parse (c : config pool cert) : 0 < confirmTimeout _ _ c ->
  (exists b, NewRabbitBroker url_parse (broker_config c) = Ok b) <-> url_allowed url_parse (rabbitURL _ _ c) (allowInsecure _ _ c).
Proof.
  intros Hc. unfold NewRabbitBroker, url_allowed. cbn [broker_config rc_URL rc_AllowInsecure rc_Topology rc_Schema ConfirmTimeout].
  destruct (url_parse _) as [[[scheme host] user]|]; [|naive_solver]. destruct (String.eqb_spec host "") as [-> | Hh]; [naive_solver|].
  destruct (negb _ && negb _) eqn:Es.
  - apply andb_true_iff in Es as [E1%negb_true_iff E2%negb_true_iff]. split; [by intros [? [=]]|].
    intros (s & h & [= -> -> _] & _ & [-> | [-> Hi]]); rewrite ?Hi in *; done.
  - destruct user; cbn [negb]; [|naive_solver]. cbn. destruct (Z.leb_spec (confirmTimeout _ _ c) 0); [lia|].
    split; [intros _|by eauto]. exists scheme, host. split; [done|]. split; [done|].
    destruct (String.eqb_spec scheme "amqps") as [-> | _]; [by left|]. destruct (String.eqb_spec scheme "amqp") as [-> | _]; [|done].
    right. split; [done|].
    cbn [andb] in Es. by apply andb_false_iff in Es as [? | ?%negb_false_iff].
Qed.

Lemma NewWorker_ok getenv process (c : config pool cert) index : Publisher.loadConfig getenv process = Ok c ->
  NewWorker (worker_config c index) = Ok (worker_config c index) \/
  (exists e, NewWorker (worker_config c index) = Err e) /\ lease _ _ c = wrap64 (confirmTimeout _ _ c + 2 * second).
Proof.
  intros (H1 & H2 & H3 & H4 & H5 & H6 & H7)%publisher_loaded. unfold NewWorker. cbn [worker_config Owner BatchSize Lease PollInterval
    Outbox.BackoffBase Outbox.BackoffMax PublishBudget]. unfold persistenceBudget.
  destruct (String.eqb_spec (workerID _ _ c +:+ "-" +:+ fmt_d (Z.of_nat index)) "") as [E|_].
  { by apply append_nonempty in E. }
  rewrite (proj2 (Z.ltb_ge _ 1)), (proj2 (Z.leb_gt (lease _ _ c) 0)), (proj2 (Z.leb_gt (pollInterval _ _ c) 0)),
    (proj2 (Z.leb_gt (backoffBase _ _ c) 0)), (proj2 (Z.ltb_ge (backoffMax _ _ c) (backoffBase _ _ c))),
    (proj2 (Z.leb_gt (confirmTimeout _ _ c) 0)) by lia. cbn [orb].
  destruct (Z.leb_spec (lease _ _ c) (wrap64 (confirmTimeout _ _ c + 2 * second))); [right|by left]. split; [by eexists|lia].
Qed.

Lemma build_ok getenv process url_parse (c : config pool cert) index count : Publisher.loadConfig getenv process = Ok c ->
  url_allowed url_parse (rabbitURL _ _ c) (allowInsecure _ _ c) ->
  lease _ _ c <> wrap64 (confirmTimeout _ _ c + 2 * second) ->
  exists l, Publisher.build url_parse c index count = Ok l /\ map snd l = map (worker_config c) (seq index count).
Proof.
  intros Hc Hu Hl. revert index. induction count as [|n IH]; intros index; [by exists []|]. cbn [Publisher.build].
  apply NewRabbitBroker_ok in Hu as [b ->]; [|apply publisher_loaded in Hc; lia]. cbn [mbind result_bind].
  destruct (NewWorker_ok _ _ _ index Hc) as [-> |[_ E]]; [|done]. cbn [mbind result_bind].
  destruct (IH (S index)) as (l & -> & Hs). eexists. split; [reflexivity|]. cbn. by rewrite Hs.
Qed.

Lemma build_length url_parse (c : config pool cert) index count l : Publisher.build url_parse c index count = Ok l -> length l = count.
Proof.
  revert index l. induction count as [|n IH]; intros index l; cbn [Publisher.build]; [by intros [= <-]|].
  destruct (NewRabbitBroker _ _); [|done]. destruct (NewWorker _); [|done]. cbn [mbind result_bind].
  destruct (Publisher.build url_parse c (S index) n) eqn:E; [|done]. intros [= <-]. cbn. by rewrite (IH _ _ E).
Qed.

Lemma owners_distinct (c : config pool cert) count : base.NoDup (map Owner (map (worker_config c) (seq 0 count))).
Proof.
  rewrite map_map. cbn. apply (list.NoDup_fmap_2_strong (fun i => workerID _ _ c +:+ "-" +:+ fmt_d (Z.of_nat i))); [|apply list.NoDup_seq].
  intros i j _ _ H%(inj (String.append _))%(inj (String.append "-")). unfold fmt_d in H.
  rewrite !(proj2 (Z.ltb_ge _ 0)) in H by lia. apply (f_equal (digits_val 0)) in H. rewrite !fmt_nat_val in H by lia.
  injection H as H. lia.
Qed.

(** What the publisher's settings guarantee.  A configuration that loads has
    between 1 and 32 workers and batches of 1 to 1000, positive durations, and
    a lease of at least the confirm timeout and two seconds unless that sum
    overflows 64 bits; and the process then builds all its brokers and workers,
    each worker with a lease owner of its own, exactly if the broker's URL names
    a host, carries credentials and uses TLS (or plain AMQP is allowed) and the
    lease is not the very sum: the check of the settings accepts a lease of the
    confirm timeout plus two seconds, and the worker refuses it. *)
Theorem publisher_assembles getenv process url_parse (c : config pool cert) : Publisher.loadConfig getenv process = Ok c ->
  (1 <= workers _ _ c <= 32 /\ 1 <= batchSize _ _ c <= 1000 /\ 0 < pollInterval _ _ c /\
   0 < backoffBase _ _ c <= backoffMax _ _ c /\ 0 < confirmTimeout _ _ c /\
   (confirmTimeout _ _ c + 2 * second <= lease _ _ c \/ int64_max < confirmTimeout _ _ c + 2 * second)) /\
  ((exists built, Publisher.assemble url_parse c = Ok built) <->
   url_allowed url_parse (rabbitURL _ _ c) (allowInsecure _ _ c) /\ lease _ _ c <> wrap64 (confirmTimeout _ _ c + 2 * second)) /\
  (forall built, Publisher.assemble url_parse c = Ok built ->
     Z.of_nat (length built) = workers _ _ c /\ base.NoDup (map Owner (map snd built))).
Proof.
  intros Hc. pose proof (publisher_loaded _ _ _ Hc) as (H1 & H2 & H3 & H4 & H5 & H6 & H7).
  assert (url_allowed url_parse (rabbitURL _ _ c) (allowInsecure _ _ c) /\ lease _ _ c <> wrap64 (confirmTimeout _ _ c + 2 * second) <->
    exists built, Publisher.assemble url_parse c = Ok built) as Hiff.
  { split; [intros [Hu Hl]; destruct (build_ok _ _ url_parse c 0 (Z.to_nat (workers _ _ c)) Hc Hu Hl) as (l & Hb & _); by exists l|].
    intros [l Hb]. unfold Publisher.assemble in Hb. destruct (Z.to_nat (workers _ _ c)) as [|n] eqn:En; [lia|]. cbn [Publisher.build] in Hb.
    destruct (NewRabbitBroker url_parse (broker_config c)) as [b|] eqn:Eb; [|done]. cbn [mbind result_bind] in Hb.
    split; [by apply NewRabbitBroker_ok; [lia|exists b]|]. intros E. revert Hb. unfold NewWorker.
    cbn [worker_config Lease PublishBudget]. unfold persistenceBudget. rewrite <-E, Z.leb_refl, !orb_true_r. done. }
  split; [|split; [by symmetry|]].
  - split_and!; try lia. destruct (wrap64_sum (confirmTimeout _ _ c) (2 * second)) as [[E ?]|[E ?]]; [lia|unfold second, int64_max; lia|left; lia|by right].
  - intros l Hb. destruct (proj2 Hiff (ex_intro _ l Hb)) as [Hu Hl].
    destruct (build_ok _ _ url_parse c 0 (Z.to_nat (workers _ _ c)) Hc Hu Hl) as (l' & Hb' & Hs).
    unfold Publisher.assemble in Hb. rewrite Hb in Hb'. injection Hb' as <-. split.
    + rewrite <-(length_map snd), Hs, length_map, length_seq. lia.
    + rewrite Hs. apply owners_distinct.
Qed.

Lemma consumer_valid getenv process (c : ConsumerMain.config pool cert) index : ConsumerMain.loadConfig getenv process = Ok c ->
  Consumer.config_validate (ConsumerMain.consumer_config c index) = Ok tt /\
  1 <= ConsumerMain.maxAttempts _ _ c <= 100 /\ 1 <= ConsumerMain.workers _ _ c <= 32.
Proof.
  unfold ConsumerMain.loadConfig. intros H. repeat next_setting H. injection H as <-. ranges. bool_to_prop. cbn. split; [|lia].
  unfold Consumer.config_validate. cbn [ConsumerMain.consumer_config Consumer.URL Consumer.cf_Topology Consumer.has_schema Consumer.ConsumerTag
    Consumer.MaxAttempts Consumer.BackoffBase Consumer.BackoffMax Consumer.ReconnectDelay ConsumerMain.rabbitURL ConsumerMain.consumerID
    ConsumerMain.maxAttempts ConsumerMain.backoffBase ConsumerMain.backoffMax ConsumerMain.reconnectDelay negb].
  repeat match goal with
  | |- context [String.eqb ?a ""] => destruct (String.eqb_spec a ""); [first [done|by exfalso; eapply append_nonempty; [|eassumption]]|]
  end.
  change (Consumer.topology_validate Consumer.DefaultTopology) with (Ok tt : result unit). cbn [mbind result_bind].
  repeat match goal with
  | |- context [?a <? ?b] => destruct (Z.ltb_spec a b); [lia|]
  | |- context [?a <=? ?b] => destruct (Z.leb_spec a b); [lia|]
  end. done.
Qed.

(** The consumer's settings pass every check of its constructor. *)
Lemma consumer_assembles getenv process (c : ConsumerMain.config pool cert) : ConsumerMain.loadConfig getenv process = Ok c ->
  exists l, ConsumerMain.assemble c = Ok l /\ Z.of_nat (length l) = ConsumerMain.workers _ _ c.
Proof.
  intros Hc. assert (forall count index, exists l, ConsumerMain.build c index count = Ok l /\ length l = count) as Hb.
  { induction count as [|n IH]; intros index; [by exists []|]. cbn [ConsumerMain.build].
    rewrite (proj1 (consumer_valid _ _ _ index Hc)). cbn [mbind result_bind]. destruct (IH (S index)) as (l & -> & Hl).
    eexists. split; [reflexivity|]. cbn. by rewrite Hl. }
  destruct (Hb (Z.to_nat (ConsumerMain.workers _ _ c)) 0%nat) as (l & Hl & Hn). exists l. split; [done|].
  rewrite Hn. destruct (consumer_valid _ _ _ 0 Hc). lia.
Qed.
End Loaded.

(** ** Assignments *)
Section Assignments.
Context (quoted : string -> string).
Import Identity.

Definition well_formed (assignment : string) : bool :=
  let '(name, _, found) := cut "=" (trim_space assignment) in found && negb (String.eqb (trim_space name) "").
(** The values one assignment gives [name], in order. *)
Definition values_for (name assignment : string) : list string :=
  let '(n, values, _) := cut "=" (trim_space assignment) in
  if String.eqb (trim_space n) name
  then List.filter (fun v => negb (String.eqb v "")) (map trim_space (split "," values)) else [].
Definition all_values (raw name : string) : list string :=
  if String.eqb (trim_space raw) "" then [] else flat_map (values_for name) (split ";" raw).

(** No name is kept without a value. *)
Definition no_empty (m : gmap string (list string)) : Prop := forall name, m !! name <> Some [].

Lemma add_values name values acc : no_empty acc ->
  no_empty (fold_left (add_value name) values acc) /\
  forall other, default [] (fold_left (add_value name) values acc !! other) =
    (default [] (acc !! other) ++ (if String.eqb name other then List.filter (fun v => negb (String.eqb v "")) (map trim_space values) else []))%list.
Proof.
  revert acc. induction values as [|v values IH]; intros acc Hacc; cbn [fold_left].
  - split; [done|]. intros other. destruct (String.eqb name other); by rewrite app_nil_r.
  - assert (no_empty (add_value name acc v)) as Hn.
    { unfold add_value. destruct (String.eqb _ ""); [done|]. intros other. destruct (decide (name = other)) as [<- | Hne].
      - rewrite lookup_insert_eq. by destruct (default [] (acc !! name)).
      - by rewrite lookup_insert_ne. }
    destruct (IH _ Hn) as [H1 H2]. split; [exact H1|]. intros other. rewrite H2. unfold add_value. cbn [map List.filter].
    destruct (String.eqb (trim_space v) ""); cbn [negb]; [done|].
    destruct (String.eqb_spec name other) as [<- | Hne]; [|by rewrite lookup_insert_ne].
    rewrite lookup_insert_eq. cbn [from_option id]. unfold id. by rewrite <-app_assoc.
Qed.

Lemma parse_assignments_spec l acc : no_empty acc ->
  (forallb well_formed l = false -> exists e, parse_assignments quoted l acc = Err e) /\
  (forallb well_formed l = true -> exists m, parse_assignments quoted l acc = Ok m /\ no_empty m /\
     forall name, default [] (m !! name) = (default [] (acc !! name) ++ flat_map (values_for name) l)%list).
Proof.
  revert acc. induction l as [|a l IH]; intros acc Hacc; cbn [forallb parse_assignments].
  - split; [done|]. intros _. exists acc. split; [done|]. split; [done|]. intros name. cbn. by rewrite app_nil_r.
  - unfold well_formed at 1 3. destruct (cut "=" (trim_space a)) as [[n values] found] eqn:Ec.
    destruct found; cbn [negb orb andb]; [|split; [by eexists|done]].
    destruct (String.eqb (trim_space n) "") eqn:En; cbn [negb andb]; [split; [by eexists|done]|].
    destruct (add_values (trim_space n) (split "," values) acc Hacc) as [Hne Hv]. destruct (IH _ Hne) as [I1 I2].
    split; [exact I1|]. intros Hl. destruct (I2 Hl) as (m & -> & Hm & Hd). exists m. split; [done|]. split; [done|].
    intros name. rewrite Hd, Hv, <-app_assoc. f_equal. cbn [flat_map]. unfold values_for at 2. by rewrite Ec.
Qed.

Lemma ParseAssignments_values raw :
  (forall m, ParseAssignments quoted raw = Ok m -> no_empty m /\ forall name, default [] (m !! name) = all_values raw name) /\
  ((exists m, ParseAssignments quoted raw = Ok m) <-> trim_space raw = "" \/ forallb well_formed (split ";" raw) = true).
Proof.
  unfold ParseAssignments, all_values. destruct (String.eqb_spec (trim_space raw) "") as [E|Hne].
  - split; [intros m [= <-]; split; [by intros name|done]|]. split; [by left|by exists ∅].
  - assert (no_empty ∅) as He by (by intros name).
    destruct (parse_assignments_spec (split ";" raw) ∅ He) as [H1 H2]. destruct (forallb well_formed (split ";" raw)).
    + destruct (H2 eq_refl) as (m & -> & Hm & Hd). split; [intros m' [= <-]; split; [done|exact Hd]|]. split; [by right|by exists m].
    + destruct (H1 eq_refl) as [e ->]. split; [done|]. split; [by intros [? [=]]|by intros [?|?]].
Qed.

(** The assignments of the settings, as tenant delegations and as owners.
    A text is accepted exactly if it is blank or each of its parts between
    semicolons names something; then a name has the trimmed values of all its
    assignments in order, blank ones dropped, and a name without a value is
    absent.  Owners are accepted exactly if, besides, no resource has two
    values, and a resource belongs to its only value: a resource whose value is
    blank has no owner, and is not an error. *)
Theorem assignments_spec raw :
  ((exists m, ParseAssignments quoted raw = Ok m) <-> trim_space raw = "" \/ forallb well_formed (split ";" raw) = true) /\
  (forall m, ParseAssignments quoted raw = Ok m ->
     forall name, m !! name = match all_values raw name with [] => None | values => Some values end) /\
  ((exists owners, ParseOwners quoted raw = Ok owners) <->
     (exists m, ParseAssignments quoted raw = Ok m) /\ forall name, (length (all_values raw name) <= 1)%nat) /\
  (forall owners, ParseOwners quoted raw = Ok owners -> forall resource, owners !! resource = list.head (all_values raw resource)).
Proof.
  destruct (ParseAssignments_values raw) as [H1 H2].
  assert (forall m, ParseAssignments quoted raw = Ok m ->
    forall name, m !! name = match all_values raw name with [] => None | values => Some values end) as Hm.
  { intros m Hp name. destruct (H1 m Hp) as [Hn Hd]. specialize (Hd name). specialize (Hn name).
    destruct (m !! name) as [[|v vs]|]; cbn in Hd; rewrite <-Hd; done. }
  split; [exact H2|]. split; [exact Hm|]. unfold ParseOwners. destruct (ParseAssignments quoted raw) as [m|e] eqn:Ep; [|naive_solver].
  specialize (Hm m eq_refl). destruct (list_find _ _) as [[i [resource merchants]]|] eqn:Ef.
  - apply list_find_Some in Ef as (Hi & Hl & _). apply list_elem_of_lookup_2, elem_of_map_to_list in Hi. rewrite Hm in Hi.
    split; [|done]. split; [by intros [? [=]]|]. intros [_ Hall]. specialize (Hall resource).
    destruct (all_values raw resource) as [|v [|v' vs]]; [done|injection Hi as <-; done|cbn in Hall; lia].
  - apply list_find_None in Ef. rewrite list.Forall_forall in Ef.
    assert (forall name, all_values raw name = [] \/ exists v, all_values raw name = [v]) as Hone.
    { intros name. destruct (all_values raw name) as [|v vs] eqn:Ev; [by left|right]. exists v.
      specialize (Hm name). rewrite Ev in Hm. apply elem_of_map_to_list, Ef in Hm. cbn in Hm. destruct vs; [done|]. destruct Hm. cbn. lia. }
    split.
    + split; [intros _|by eexists]. split; [by exists m|]. intros name. destruct (Hone name) as [-> | [v ->]]; cbn; lia.
    + intros owners [= <-] resource. rewrite lookup_omap, Hm. by destruct (Hone resource) as [-> | [v ->]].
Qed.
End Assignments.

(** ** A lease of the confirm timeout and two seconds *)
Definition sample_tls : tls_files unit unit :=
  {| read_file := fun _ => Err (EMsg "no such file"); new_cert_pool := tt; system_cert_pool := Ok tt; append_certs_from_pem := fun _ _ => None;
     load_key_pair := fun _ _ => Err (EMsg "no such file") |}.
Definition sample_getenv (name : string) : string :=
  if String.eqb name "OUTBOX_POSTGRES_DSN" then "postgres://ledger"
  else if String.eqb name "OUTBOX_RABBITMQ_URL" then " amqps://publisher:secret@mq "
  else if String.eqb name "OUTBOX_LEASE" then "12s" else "".
Definition sample_url_parse (_ : string) : result (string * string * bool) := Ok ("amqps", "mq", true).
Definition sample_settings : Publisher.config unit unit :=
  {| Publisher.postgresDSN := "postgres://ledger"; Publisher.rabbitURL := "amqps://publisher:secret@mq";
     Publisher.allowInsecure := false; Publisher.tlsConfig := {| MinVersion := VersionTLS12; RootCAs := None; Certificates := [] |};
     Publisher.httpAddress := ":8080"; Publisher.workerID := "host-1"; Publisher.workers := 2; Publisher.batchSize := 50;
     Publisher.lease := 12 * second; Publisher.pollInterval := 250 * millisecond; Publisher.confirmTimeout := 10 * second;
     Publisher.backoffBase := 500 * millisecond; Publisher.backoffMax := 30 * second |}.

Lemma publisher_assembles_witness :
  Publisher.loadConfig (T := sample_tls) sample_getenv "host-1" = Ok sample_settings /\
  ~ exists built, Publisher.assemble sample_url_parse sample_settings = Ok built.
Proof.
  assert (Publisher.loadConfig (T := sample_tls) sample_getenv "host-1" = Ok sample_settings) as H by (vm_compute; reflexivity).
  split; [exact H|]. intros Hb.
  destruct (proj1 (proj1 (proj2 (publisher_assembles (T := sample_tls) sample_getenv "host-1" sample_url_parse sample_settings H))) Hb) as [_ Hne].
  apply Hne. vm_compute. reflexivity.
Defined.

(** The topology command touches no broker before its arguments and settings hold. *)
Lemma topology_run_refuses {pool cert B : Type} {T : tls_files pool cert} `{AMQP B} quoted url_parse fuel arguments getenv b :
  (arguments <> ["upgrade"] /\ arguments <> ["rollback"]) \/ trim_space (getenv "OUTBOX_RABBITMQ_URL") = "" ->
  exists e, TopologyCommand.run (T := T) quoted url_parse fuel arguments getenv b = Some (Err e, b).
Proof.
  unfold TopologyCommand.run. intros Hor. destruct arguments as [|direction [|]]; [by eexists| |by eexists].
  destruct (negb _ && negb _) eqn:Ed; [by eexists|]. destruct Hor as [[Hu Hr]|E]; [|rewrite E; by eexists].
  apply andb_false_iff in Ed as [E%negb_false_iff|E%negb_false_iff]; apply String.eqb_eq in E; subst; done.
Qed.
