(* ===== verification/HttpSurface.v ===== *)
(** * The surfaces of the two APIs

    internal/platform/runtimeobs/observability.go counts the exchanges of an
    adapter; internal/platform/identityruntime puts authentication, counting
    and the generated gateway behind the routes of the Ledger and of the
    Consolidation, and builds the TLS material and the verifier they use.

    The gateway is third-party and generated code: an argument that gives the
    writes of its response.  The redirects of ServeMux for paths that are not
    clean and the gateway's X-HTTP-Method-Override are not modelled.  [verify] is the verifier of Auth. *)

From S2P Require Import Prelude.
From S2P Require Import GoStrings.
From S2P Require Import GoTime.
From S2P Require Import TraceContext.
From S2P Require Import Auth.
From S2P Require Import Startup.
From S2P Require Import GrpcSecurity.
From S2P Require Import Jwks.
From Stdlib Require String.
From Stdlib Require Import ZArith Lia Ascii SpecFloat.
Open Scope string_scope.
Open Scope Z_scope.

(** ** runtimeobs: the counters of an adapter *)
Module Obs.
(** [hits] holds the buckets and, last, +Inf. *)
Record Metrics : Type := {
  entrypoint : Z; requests : Z; rejections : Z; failures : Z; idempotencyHeaders : Z; traceHeaders : Z;
  hits : list Z; durationSumNanos : Z }.
Definition no_metrics : Metrics :=
  {| entrypoint := 0; requests := 0; rejections := 0; failures := 0; idempotencyHeaders := 0; traceHeaders := 0;
     hits := replicate 8 0; durationSumNanos := 0 |}.

Definition float (z : Z) : spec_float := binary_normalize 53 1024 z 0 false.
Definition ratio (a b : Z) : spec_float := SFdiv 53 1024 (float a) (float b).
(** The constants 0.05, 0.1, 0.25, 0.5, 1, 2.5 and 5 as float64. *)
Definition durationBuckets : list spec_float :=
  Eval vm_compute in [ratio 5 100; ratio 1 10; ratio 25 100; ratio 5 10; float 1; ratio 25 10; float 5].

(** [Duration.Seconds] *)
Definition Seconds (d : Z) : spec_float := SFadd 53 1024 (float (Z.quot d second)) (ratio (Z.rem d second) second).

Definition bump (z : Z) : Z := wrapu64 (z + 1).
Definition bump_if (b : bool) (z : Z) : Z := if b then bump z else z.
Fixpoint observe_buckets (seconds : spec_float) (bounds : list spec_float) (hits : list Z) : list Z :=
  match bounds, hits with
  | bound :: bounds, h :: hits => bump_if (SFleb seconds bound) h :: observe_buckets seconds bounds hits
  | _, hits => map bump hits
  end.

Definition observeDuration (duration : Z) (m : Metrics) : Metrics :=
  let duration := if duration <? 0 then 0 else duration in
  {| entrypoint := entrypoint m; requests := requests m; rejections := rejections m; failures := failures m;
     idempotencyHeaders := idempotencyHeaders m; traceHeaders := traceHeaders m;
     hits := observe_buckets (Seconds duration) durationBuckets (hits m);
     durationSumNanos := wrapu64 (durationSumNanos m + duration) |}.

Definition Observe (request : Http.request) (status duration : Z) (m : Metrics) : Metrics :=
  observeDuration duration
    {| entrypoint := entrypoint m; requests := bump (requests m);
       rejections := bump_if ((status =? 401) || (status =? 403)) (rejections m);
       failures := bump_if (500 <=? status) (failures m);
       idempotencyHeaders := bump_if (negb (String.eqb (Http.Get (Http.Header request) "Idempotency-Key") "")) (idempotencyHeaders m);
       traceHeaders := bump_if (is_ok (Edge.ParseTraceParent (Http.Get (Http.Header request) Http.TraceParentHeader))) (traceHeaders m);
       hits := hits m; durationSumNanos := durationSumNanos m |}.

Definition count_entry (m : Metrics) : Metrics :=
  {| entrypoint := bump (entrypoint m); requests := requests m; rejections := rejections m; failures := failures m;
     idempotencyHeaders := idempotencyHeaders m; traceHeaders := traceHeaders m; hits := hits m;
     durationSumNanos := durationSumNanos m |}.

(** The calls a handler makes of its ResponseWriter, and the status
    [responseRecorder] keeps: the first one. *)
Inductive write : Type := WriteHeader (status : Z) | Write (body : string).
Definition record_write (status : Z) (w : write) : Z :=
  if status =? 0 then match w with WriteHeader s => s | Write _ => 200 end else status.
Definition recorded_status (writes : list write) : Z :=
  let status := fold_left record_write writes 0 in if status =? 0 then 200 else status.

(** GET /health/ready *)
Definition health_ready (ready : result unit) : Z * string :=
  match ready with Ok _ => (204, "") | Err _ => (503, "Service Unavailable") end.
End Obs.
Import Obs.

(** ** Routes *)
Inductive segment : Type := Literal (text : string) | Wildcard (name : string).
Record route : Type := { rt_method : string; rt_path : list segment; rt_operation : string }.

(** http.ServeMux: a literal matches itself, a wildcard one segment; GET
    matches HEAD too. *)
Fixpoint path_matches (pattern : list segment) (path : list string) : bool :=
  match pattern, path with
  | [], [] => true
  | Literal t :: pattern, s :: path => String.eqb t s && path_matches pattern path
  | Wildcard _ :: pattern, s :: path => negb (String.eqb s "") && path_matches pattern path
  | _, _ => false
  end.
Definition method_matches (pattern method : string) : bool :=
  String.eqb pattern method || (String.eqb pattern "GET" && String.eqb method "HEAD").
Definition takes (method : string) (path : list string) (r : route) : bool :=
  method_matches (rt_method r) method && path_matches (rt_path r) path.
Definition find_route (routes : list route) (method : string) (path : list string) : option route :=
  List.find (takes method path) routes.
Definition path_known (routes : list route) (path : list string) : bool :=
  existsb (fun r => path_matches (rt_path r) path) routes.

Definition ledger_routes : list route := [
  {| rt_method := "POST"; rt_path := [Literal "v1"; Literal "entries"]; rt_operation := OperationCreateEntry |};
  {| rt_method := "POST"; rt_path := [Literal "v1"; Literal "entries"; Wildcard "entry_id"; Literal "reversals"]; rt_operation := OperationCreateReversal |};
  {| rt_method := "GET"; rt_path := [Literal "v1"; Literal "entries"; Wildcard "entry_id"]; rt_operation := OperationGetEntry |};
  {| rt_method := "GET"; rt_path := [Literal "v1"; Literal "entries"]; rt_operation := OperationListEntries |} ].
Definition consolidation_routes : list route := [
  {| rt_method := "GET"; rt_path := [Literal "v1"; Literal "daily-balances"]; rt_operation := OperationGetDailyBalances |} ].

(** The headers the Ledger's gateway passes on as metadata. *)
Definition ledger_header_matcher (default_matcher : string -> string * bool) (key : string) : string * bool :=
  if existsb (String.eqb key) ["Idempotency-Key"; "Traceparent"; "Tracestate"] then ("grpcgateway-" +:+ key, true)
  else default_matcher key.

(** The pattern a route is registered under. *)
Definition segment_text (s : segment) : string :=
  match s with Literal t => "/" +:+ t | Wildcard n => "/{" +:+ (n +:+ "}") end.
Definition pattern (r : route) : string := rt_method r +:+ (" " +:+ String.concat "" (map segment_text (rt_path r))).

(** ** Serving one request *)
(** [ex_path]: the unescaped segments of the cleaned path.  The rest is what
    the exchange meets: clock, entropy and duration. *)
Record exchange : Type := {
  ex_method : string; ex_path : list string; ex_request : Http.request; ex_now : Z;
  ex_trace : result (list Z); ex_span : result (list Z); ex_duration : Z }.
Inductive answer : Type :=
  | Unrouted (status : Z)
  | Problem (p : Http.problem)
  | Handled (operation : string) (identity : Identity) (writes : list write).

Definition route_guard : Type := Z -> result (list Z) -> result (list Z) -> Http.request -> Http.outcome.

Section Serve.
Context (verify : Verifier -> Z -> string -> result Identity)
        (gateway : string -> Http.request -> Identity -> list write).

(** The guard of a route: the middleware's configuration, which may fail. *)
Definition guard_of (v : option Verifier) (maxBody : Z) (r : route) : result (route * route_guard) :=
  g ← Http.Middleware verify {| Http.cfg_Verifier := v; Http.cfg_Policy := Some PublicEdgePolicy;
                                Http.cfg_Operation := rt_operation r; Http.cfg_MaxBodyBytes := maxBody |};
  Ok (r, g).
Fixpoint register (v : option Verifier) (maxBody : Z) (routes : list route) : result (list (route * route_guard)) :=
  match routes with
  | [] => Ok []
  | r :: rest => rg ← guard_of v maxBody r; more ← register v maxBody rest; Ok (rg :: more)
  end.

(** [runtimeobs.Middleware] over the gateway, behind the guard of the route. *)
Definition guarded (rg : route * route_guard) (x : exchange) (m : Metrics) : answer * Metrics :=
  match snd rg (ex_now x) (ex_trace x) (ex_span x) (ex_request x) with
  | Http.Refused p => (Problem p, m)
  | Http.Served request identity _ _ =>
      let writes := gateway (rt_operation (fst rg)) request identity in
      (Handled (rt_operation (fst rg)) identity writes, Observe request (recorded_status writes) (ex_duration x) m)
  end.

(** The mux over the registered routes; [counted]: each is wrapped in the
    entrypoint counter. *)
Definition serve (routes : list (route * route_guard)) (counted : bool) (x : exchange) (m : Metrics) : answer * Metrics :=
  match List.find (fun rg => takes (ex_method x) (ex_path x) (fst rg)) routes with
  | None => (Unrouted (if path_known (map fst routes) (ex_path x) then 405 else 404), m)
  | Some rg => guarded rg x (if counted then count_entry m else m)
  end.

(** [deps]: server, logger and metrics are given.  Registering the generated
    gateway does not fail. *)
Definition NewLedgerHTTPHandler (v : option Verifier) (deps : bool) (maxBody : Z) : result (exchange -> Metrics -> answer * Metrics) :=
  if match v with Some _ => negb deps | None => true end then Err (EMsg "identityruntime: ledger verifier, server, logger and metrics are required")
  else routes ← register v maxBody ledger_routes; Ok (serve routes true).
Definition NewConsolidationHTTPHandler (v : option Verifier) (deps : bool) : result (exchange -> Metrics -> answer * Metrics) :=
  if match v with Some _ => negb deps | None => true end then Err (EMsg "identityruntime: consolidation verifier, server, logger and metrics are required")
  else routes ← register v 0 consolidation_routes; Ok (serve routes false).

Fixpoint serve_all (step : exchange -> Metrics -> answer * Metrics) (xs : list exchange) (m : Metrics) : list answer * Metrics :=
  match xs with
  | [] => ([], m)
  | x :: xs => let '(a, m) := step x m in let '(answers, m) := serve_all step xs m in (a :: answers, m)
  end.
End Serve.

(** ** TLS material and verifier *)
Section Wiring.
Context {pool cert : Type} {T : tls_files pool cert}.

Inductive client_auth : Type := NoClientCert | RequireAndVerifyClientCert.
(** The fields of tls.Config the package sets. *)
Record TLSConfig : Type := {
  tc_MinVersion : Z; tc_Certificates : list cert; tc_RootCAs : option pool; tc_ClientCAs : option pool;
  tc_ClientAuth : client_auth; tc_ServerName : string }.
Record HTTPClientConfig : Type := { hc_Timeout : Z; hc_TLS : TLSConfig }.

Definition RootCAs (path : string) : result pool :=
  if String.eqb path "" then Err (EMsg "identityruntime: CA file is required")
  else match read_file path with
       | Err err => Err (EWrap "identityruntime: read CA" err)
       | Ok contents => match append_certs_from_pem new_cert_pool contents with
                        | None => Err (EMsg "identityruntime: CA file contains no certificate")
                        | Some roots => Ok roots
                        end
       end.
Definition HTTPClient (caFile : string) : result HTTPClientConfig :=
  roots ← RootCAs caFile;
  Ok {| hc_Timeout := 5 * second;
        hc_TLS := {| tc_MinVersion := VersionTLS12; tc_Certificates := []; tc_RootCAs := Some roots; tc_ClientCAs := None;
                     tc_ClientAuth := NoClientCert; tc_ServerName := "" |} |}.
Definition ServerTLS (certFile keyFile clientCAFile : string) : result TLSConfig :=
  match load_key_pair certFile keyFile with
  | Err err => Err (EWrap "identityruntime: load server certificate" err)
  | Ok certificate =>
      clientRoots ← RootCAs clientCAFile;
      Ok {| tc_MinVersion := VersionTLS12; tc_Certificates := [certificate]; tc_RootCAs := None; tc_ClientCAs := Some clientRoots;
            tc_ClientAuth := RequireAndVerifyClientCert; tc_ServerName := "" |}
  end.
Definition ClientTLS (certFile keyFile caFile serverName : string) : result TLSConfig :=
  match load_key_pair certFile keyFile with
  | Err err => Err (EWrap "identityruntime: load client certificate" err)
  | Ok certificate =>
      roots ← RootCAs caFile;
      if String.eqb serverName "" then Err (EMsg "identityruntime: TLS server name is required")
      else Ok {| tc_MinVersion := VersionTLS12; tc_Certificates := [certificate]; tc_RootCAs := Some roots; tc_ClientCAs := None;
                 tc_ClientAuth := NoClientCert; tc_ServerName := serverName |}
  end.

(** [NewLedgerGRPCServer]: the options of the server and its credentials; nil
    collaborators are [None]. *)
Record LedgerGRPCConfig : Type := {
  lg_Verifier : option Verifier; lg_Tenants : option TenantAuthorizer; lg_TLS : option TLSConfig; lg_Logger : bool; lg_Handler : bool;
  lg_MaxDeadline : Z; lg_MaxRecvBytes : Z; lg_MaxSendBytes : Z }.
Definition ledger_server_config (c : LedgerGRPCConfig) : ServerConfig :=
  {| sc_Verifier := lg_Verifier c; sc_Policy := Some InternalGRPCPolicy; sc_Tenants := lg_Tenants c; sc_RequireMTLS := true;
     sc_RequireDeadline := true; sc_MaxDeadline := lg_MaxDeadline c; sc_MaxRecvMsgBytes := lg_MaxRecvBytes c;
     sc_MaxSendMsgBytes := lg_MaxSendBytes c |}.
Definition NewLedgerGRPCServer (c : LedgerGRPCConfig) : result (Z * Z * server_policy * TLSConfig) :=
  match lg_Verifier c, lg_Tenants c, lg_TLS c with
  | Some _, Some _, Some tls =>
      if negb (lg_Logger c) || negb (lg_Handler c)
      then Err (EMsg "identityruntime: gRPC verifier, tenant policy, TLS, logger and handler are required")
      else options ← ServerOptions (ledger_server_config c); Ok (options, tls)
  | _, _, _ => Err (EMsg "identityruntime: gRPC verifier, tenant policy, TLS, logger and handler are required")
  end.

(** [Verifier] of auth.go: [keys] is the key source over the cache of an
    endpoint. *)
Definition identity_verifier (keys : HTTPClientConfig -> string -> jwks_config -> string -> result public_key)
    (issuer audience jwksURL caFile : string) (merchant : MerchantRequirement) : result Verifier :=
  client ← HTTPClient caFile;
  cache ← NewJWKSCache jwksURL 0 0 0;
  NewVerifier {| cfg_Issuer := issuer; cfg_Audience := audience; cfg_Keys := Some (keys client jwksURL cache); cfg_Merchant := merchant;
                 cfg_AllowedAlgorithms := []; cfg_MerchantClaim := ""; cfg_ScopeClaim := ""; cfg_Leeway := 0 |}.

(** The internal server always asks for mutual TLS, a deadline and the scopes
    of the internal policy, with positive limits. *)
Lemma grpc_server_guarded c recv send p tls : NewLedgerGRPCServer c = Ok (recv, send, p, tls) ->
  lg_TLS c = Some tls /\ lg_Verifier c = Some (sp_Verifier p) /\ sp_Policy p = InternalGRPCPolicy /\
  lg_Tenants c = Some (sp_Tenants p) /\ 0 < sp_limit p /\ 0 < recv /\ 0 < send.
Proof.
  unfold NewLedgerGRPCServer. destruct (lg_Verifier c) as [v|] eqn:Ev; [|done]. destruct (lg_Tenants c) as [t|] eqn:Et; [|done].
  destruct (lg_TLS c) as [x|]; [|done]. destruct (_ || _); [done|]. unfold ServerOptions, validate, ledger_server_config.
  cbn [sc_Verifier sc_Policy sc_Tenants sc_RequireMTLS sc_RequireDeadline sc_MaxDeadline sc_MaxRecvMsgBytes sc_MaxSendMsgBytes negb].
  rewrite Ev, Et. destruct (_ || _) eqn:El; [done|]. cbn [mbind result_bind]. intros [= <- <- <- <-]. cbn.
  unfold maxDeadline. cbn. bool_to_prop. split_and!; try done.
  - unfold DefaultMaxDeadline, second. destruct (Z.ltb_spec 0 (lg_MaxDeadline c)); lia.
  - unfold DefaultMaxRecvMsgBytes. destruct (Z.eqb_spec (lg_MaxRecvBytes c) 0); lia.
  - unfold DefaultMaxSendMsgBytes. destruct (Z.eqb_spec (lg_MaxSendBytes c) 0); lia.
Qed.
Lemma grpc_server_limits c recv send p tls : NewLedgerGRPCServer c = Ok (recv, send, p, tls) ->
  recv = (if lg_MaxRecvBytes c =? 0 then DefaultMaxRecvMsgBytes else lg_MaxRecvBytes c) /\
  send = (if lg_MaxSendBytes c =? 0 then DefaultMaxSendMsgBytes else lg_MaxSendBytes c).
Proof.
  unfold NewLedgerGRPCServer, ServerOptions, ledger_server_config. destruct (lg_Verifier c), (lg_Tenants c), (lg_TLS c); try done.
  destruct (_ || _); [done|]. destruct (validate _); [|done]. by intros [= <- <- _ _].
Qed.
End Wiring.

(** ** The histogram *)
(** A constant above another one is reached whenever the lower one is. *)
Lemma SFleb_above x m e m' e' : (e < e' \/ e = e' /\ (m <= m')%positive) ->
  SFleb x (S754_finite false m e) = true -> SFleb x (S754_finite false m' e') = true.
Proof.
  intros He. unfold SFleb. destruct x as [|[]| |[] mx ex]; cbn [SFcompare]; try done.
  destruct (Z.compare_spec ex e), (Z.compare_spec ex e'); subst; try done; try lia.
  change (Pos.compare_cont Eq mx m) with (Pos.compare mx m). change (Pos.compare_cont Eq mx m') with (Pos.compare mx m').
  destruct (Pos.compare_spec mx m), (Pos.compare_spec mx m'); subst; try done; lia.
Qed.

Definition within (bound : spec_float) (d : Z) : bool := SFleb (Seconds (if d <? 0 then 0 else d)) bound.
Definition count_within (bound : spec_float) (ds : list Z) : Z := Z.of_nat (length (List.filter (within bound) ds)).
Definition observe_all (ds : list Z) : Metrics := fold_left (fun m d => observeDuration d m) ds no_metrics.

Lemma bump_small z : 0 <= z -> z + 1 < 2 ^ 64 -> bump z = z + 1.
Proof. intros H1 H2. unfold bump, wrapu64. apply Z.mod_small. lia. Qed.

Lemma observe_buckets_map bounds f n seconds : (forall b, 0 <= f b /\ f b + 1 < 2 ^ 64) -> 0 <= n -> n + 1 < 2 ^ 64 ->
  observe_buckets seconds bounds (map f bounds ++ [n]) =
  (map (fun b => f b + if SFleb seconds b then 1 else 0) bounds ++ [n + 1])%list.
Proof.
  intros Hf Hn Hn'. induction bounds as [|b bounds IH]; cbn [observe_buckets map app]; [by rewrite bump_small|]. rewrite IH. f_equal.
  destruct (Hf b). destruct (SFleb seconds b); cbn [bump_if]; [by apply bump_small|lia].
Qed.

Lemma observe_all_hits ds : Z.of_nat (length ds) < 2 ^ 64 ->
  hits (observe_all ds) = (map (fun b => count_within b ds) durationBuckets ++ [Z.of_nat (length ds)])%list.
Proof.
  induction ds as [|d ds IH] using rev_ind; intros Hl; [reflexivity|]. rewrite length_app in Hl. cbn in Hl.
  unfold observe_all. rewrite fold_left_app. cbn [fold_left]. fold (observe_all ds). unfold observeDuration. cbn [hits].
  rewrite IH by lia. rewrite observe_buckets_map by
    (try (intros b; unfold count_within; pose proof (List.filter_length_le (within b) ds)); lia).
  rewrite length_app. cbn [length]. f_equal; [|f_equal; lia]. apply map_ext. intros b. unfold count_within.
  rewrite List.filter_app, length_app. cbn [List.filter]. unfold within at 3. destruct (SFleb _ b); cbn; lia.
Qed.

(** The buckets of the histogram are cumulative: whatever durations were
    observed, no bucket holds more than the next one, and +Inf holds them all. *)
Lemma histogram_cumulative ds i a b : Z.of_nat (length ds) < 2 ^ 64 ->
  hits (observe_all ds) !! i = Some a -> hits (observe_all ds) !! S i = Some b -> a <= b <= Z.of_nat (length ds).
Proof.
  intros Hl. rewrite observe_all_hits by done.
  assert (forall x y, (forall d, within x d = true -> within y d = true) -> count_within x ds <= count_within y ds) as Hmono.
  { intros x y Hxy. unfold count_within. clear Hl. induction ds as [|d l IH]; cbn; [lia|]. specialize (Hxy d).
    destruct (within x d), (within y d); cbn; lia. }
  assert (forall x, count_within x ds <= Z.of_nat (length ds)) as Hall.
  { intros x. unfold count_within. pose proof (List.filter_length_le (within x) ds). lia. }
  unfold durationBuckets. cbn [map app].
  do 7 (destruct i as [|i]; [cbn; intros [= <-] [= <-]; split; [first [apply Hmono; intros d; apply SFleb_above; lia|apply Hall]|first [apply Hall|lia]]|]).
  destruct i; done.
Qed.

(** ** The surfaces *)
(** The scope a public operation asks for. *)
Definition operation_scope (operation : string) : string :=
  if existsb (String.eqb operation) [OperationCreateEntry; OperationCreateReversal] then ScopeLedgerWrite
  else if existsb (String.eqb operation) [OperationGetEntry; OperationListEntries] then ScopeLedgerRead
  else ScopeConsolidationRead.

Inductive surface : Type := LedgerSurface (maxBody : Z) | ConsolidationSurface.
Definition surface_routes (s : surface) : list route :=
  match s with LedgerSurface _ => ledger_routes | ConsolidationSurface => consolidation_routes end.
Definition surface_counts (s : surface) : bool := match s with LedgerSurface _ => true | ConsolidationSurface => false end.
Definition surface_limit (s : surface) : Z :=
  match s with LedgerSurface maxBody => if maxBody =? 0 then Http.DefaultMaxBodyBytes else maxBody | ConsolidationSurface => Http.DefaultMaxBodyBytes end.
Definition new_surface verify gateway (s : surface) (v : option Verifier) (deps : bool) : result (exchange -> Metrics -> answer * Metrics) :=
  match s with
  | LedgerSurface maxBody => NewLedgerHTTPHandler verify gateway v deps maxBody
  | ConsolidationSurface => NewConsolidationHTTPHandler verify gateway v deps
  end.

Section Surfaces.
Context (verify : Verifier -> Z -> string -> result Identity) (gateway : string -> Http.request -> Identity -> list write).

Lemma routes_declared s r : r ∈ surface_routes s ->
  pattern r = rt_operation r /\ PublicEdgePolicy !! rt_operation r = Some [operation_scope (rt_operation r)].
Proof.
  destruct s; cbn [surface_routes]; unfold ledger_routes, consolidation_routes; rewrite ?elem_of_cons;
    intros Hr; repeat destruct Hr as [-> | Hr]; try (by apply elem_of_nil in Hr); vm_compute; by split.
Qed.

(** What the handler of a surface does with one exchange. *)
Definition surface_step (s : surface) (v : Verifier) (x : exchange) (m : Metrics) : answer * Metrics :=
  match find_route (surface_routes s) (ex_method x) (ex_path x) with
  | None => (Unrouted (if path_known (surface_routes s) (ex_path x) then 405 else 404), m)
  | Some r =>
      let m := if surface_counts s then count_entry m else m in
      match Http.handle verify v PublicEdgePolicy (rt_operation r) (surface_limit s) (ex_now x) (ex_trace x) (ex_span x) (ex_request x) with
      | Http.Refused p => (Problem p, m)
      | Http.Served request identity _ _ =>
          let writes := gateway (rt_operation r) request identity in
          (Handled (rt_operation r) identity writes, Observe request (recorded_status writes) (ex_duration x) m)
      end
  end.

Lemma register_declared v maxBody routes :
  (forall r, r ∈ routes -> PublicEdgePolicy !! rt_operation r = Some [operation_scope (rt_operation r)]) ->
  register verify (Some v) maxBody routes =
  Ok (map (fun r => (r, Http.handle verify v PublicEdgePolicy (rt_operation r) (if maxBody =? 0 then Http.DefaultMaxBodyBytes else maxBody))) routes).
Proof.
  induction routes as [|r rest IH]; intros Hd; [done|]. cbn [register map]. unfold guard_of, Http.Middleware.
  cbn [Http.cfg_Verifier Http.cfg_Policy Http.cfg_Operation Http.cfg_MaxBodyBytes]. rewrite (Hd r) by left. cbn [mbind result_bind].
  rewrite IH; [done|]. intros r' Hr'. apply Hd. by right.
Qed.

Lemma find_registered {G} (f : route -> G) p routes :
  List.find (fun rg => p (fst rg)) (map (fun r => (r, f r)) routes) = option_map (fun r => (r, f r)) (List.find p routes).
Proof. induction routes as [|r rest IH]; [done|]. cbn. by destruct (p r). Qed.

(** The construction succeeds, and a request is served as its route is guarded. *)
Lemma new_surface_ok s v : exists h, new_surface verify gateway s (Some v) true = Ok h /\ forall x m, h x m = surface_step s v x m.
Proof.
  assert (exists maxBody, surface_limit s = (if maxBody =? 0 then Http.DefaultMaxBodyBytes else maxBody) /\
    new_surface verify gateway s (Some v) true =
    (routes ← register verify (Some v) maxBody (surface_routes s); Ok (serve gateway routes (surface_counts s)))) as (maxBody & Hl & ->).
  { destruct s as [maxBody|]; [by exists maxBody|by exists 0]. }
  rewrite register_declared by (intros r Hr; apply (routes_declared s r Hr)). eexists. split; [reflexivity|]. intros x m. unfold serve, surface_step, find_route.
  rewrite find_registered, map_map, map_id, Hl. destruct (List.find _ _); done.
Qed.

Lemma scope_held operation id : PublicEdgePolicy !! operation = Some [operation_scope operation] ->
  PolicyAuthorize PublicEdgePolicy operation id = Ok tt -> operation_scope operation ∈ Scopes id.
Proof.
  unfold PolicyAuthorize. intros ->. cbn [HasAll forallb]. unfold Has. rewrite andb_true_r. by case_bool_decide.
Qed.

Definition served (answers : list answer) : nat :=
  length (List.filter (fun a => match a with Handled _ _ _ => true | _ => false end) answers).
Definition refused (answers : list answer) : nat :=
  length (List.filter (fun a => match a with Problem _ => true | _ => false end) answers).

Lemma serve_all_counts s v h xs m : (forall x m, h x m = surface_step s v x m) -> forall answers m', serve_all h xs m = (answers, m') ->
  requests m' = Nat.iter (served answers) bump (requests m) /\
  entrypoint m' = Nat.iter (if surface_counts s then (served answers + refused answers)%nat else 0%nat) bump (entrypoint m).
Proof.
  intros Hh. revert m. induction xs as [|x xs IH]; intros m answers m'; cbn [serve_all]; [intros [= <- <-]; by destruct (surface_counts s)|].
  rewrite Hh. destruct (surface_step s v x m) as [a m1] eqn:Es. destruct (serve_all h xs m1) as [more m2] eqn:Ea. intros [= <- <-].
  apply IH in Ea as [-> ->]. revert Es. unfold surface_step. destruct (find_route _ _ _) as [r|]; [|by intros [= <- <-]].
  destruct (Http.handle _ _ _ _ _ _ _ _ _) as [p|request id c tp]; intros [= <- <-]; destruct (surface_counts s);
    unfold served, refused; cbn [requests entrypoint count_entry Observe observeDuration List.filter length];
    (split; [by rewrite ?Nat.iter_succ_r|]); rewrite ?Nat.add_succ_r, ?Nat.add_succ_l, ?Nat.iter_succ_r; done.
Qed.

Lemma iter_bump n : Nat.iter n bump 0 = wrapu64 (Z.of_nat n).
Proof.
  induction n as [|n IH]; [reflexivity|]. rewrite Nat.iter_succ, IH. unfold bump, wrapu64.
  rewrite Z.add_mod_idemp_l by done. f_equal. lia.
Qed.

(** C12: what can be reached through the two public surfaces.  A request reaches
    the service only through one of the routes, after its bearer token
    verified as an identity that holds the scope of the operation the route's
    pattern names, with none of the caller's identity or forwarding headers
    left and a body within the limit; any other request is answered by the router or with a problem
    of the middleware, and the service is not called.  The counters tell the
    two apart: over any requests the Ledger's entrypoint counter grows by the
    routed requests and the request counter by the served ones, so their
    difference is what the adapter itself refused; the Consolidation never
    counts at its entrypoint. *)
Theorem surface_guarded s v : exists h, new_surface verify gateway s (Some v) true = Ok h /\
  (forall x m, let '(a, m') := h x m in
    match a with
    | Unrouted status => find_route (surface_routes s) (ex_method x) (ex_path x) = None /\ status ∈ [404; 405] /\ m' = m
    | Problem p => p ∈ [Http.unauthenticated; Http.forbidden; Http.too_large] /\ requests m' = requests m
    | Handled operation id writes =>
        exists r request, r ∈ surface_routes s /\ rt_operation r = operation /\ pattern r = operation /\ takes (ex_method x) (ex_path x) r = true /\
          verified verify v (ex_now x) (ex_request x) id /\ operation_scope operation ∈ Scopes id /\
          (forall n, n ∈ Http.untrustedHeaders -> Http.Header request !! Http.canonical n = None) /\
          (forall b, Http.Body request = Some (Ok b) -> slen b <= surface_limit s) /\
          writes = gateway operation request id
    end) /\
  (forall xs, let '(answers, m') := serve_all h xs no_metrics in
    requests m' = wrapu64 (Z.of_nat (served answers)) /\
    entrypoint m' = if surface_counts s then wrapu64 (Z.of_nat (served answers + refused answers)) else 0).
Proof.
  destruct (new_surface_ok s v) as (h & -> & Hh). exists h. split; [done|]. split.
  - intros x m. rewrite Hh. unfold surface_step. destruct (find_route _ _ _) as [r|] eqn:Er.
    2:{ split; [done|]. split; [|done]. destruct (path_known _ _); [right|]; left. }
    apply List.find_some in Er as [Hin%list_elem_of_In Ht].
    pose proof (middleware_guards verify v PublicEdgePolicy (rt_operation r) (surface_limit s) (ex_now x) (ex_trace x) (ex_span x) (ex_request x)) as Hg.
    destruct (Http.handle _ _ _ _ _ _ _ _ _) as [p|request id c tp].
    + split; [|by destruct (surface_counts s)]. destruct Hg as [[-> _]|[[-> _]|[-> _]]]; set_solver.
    + destruct Hg as (Hv & Hs & Hu & Hb & _). exists r, request. destruct (routes_declared s r Hin). split_and!; try done. by apply scope_held.
  - intros xs. destruct (serve_all h xs no_metrics) as [answers m'] eqn:Es. apply (serve_all_counts s v) in Es as [-> ->]; [|done].
    destruct (surface_counts s); rewrite !iter_bump; done.
Qed.
End Surfaces.

(** ** Three exchanges *)
Definition sample_exchange (path : list string) (header : Http.header) : exchange :=
  {| ex_method := "GET"; ex_path := path; ex_request := {| Http.Header := header; Http.ContentLength := 0; Http.Body := None |};
     ex_now := 0; ex_trace := Ok (replicate 16 1); ex_span := Ok (replicate 8 1); ex_duration := 300000000 |}.
Definition sample_bearer : Http.header := <["Authorization" := ["Bearer jwt"]]> ∅.
Definition sample_reader (_ : Verifier) (_ : Z) (token : string) : result Identity :=
  if String.eqb token "jwt" then Ok (sample_identity "m" "ledger:read") else Err ErrTokenMalformed.
Definition kind_of (a : answer) : Z := match a with Unrouted s => s | Problem _ => 1 | Handled _ _ _ => 2 end.

(** A reader's request is served, one without a token is refused, another path
    is not routed. *)
Example surface_runs : exists h, new_surface sample_reader (fun _ _ _ => [Write "{}"]) (LedgerSurface 0) (sc_Verifier sample_config) true = Ok h /\
  let '(answers, m) := serve_all h [sample_exchange ["v1"; "entries"] sample_bearer; sample_exchange ["v1"; "entries"; "e"] ∅;
    sample_exchange ["v1"; "daily-balances"] sample_bearer] no_metrics in
  map kind_of answers = [2; 1; 404] /\ (entrypoint m, requests m, rejections m, hits m) = (2, 1, 0, [0; 0; 0; 1; 1; 1; 1; 1]).
Proof. eexists. split; [reflexivity|]. vm_compute. split; reflexivity. Qed.
