(* ===== verification/GrpcClient.v ===== *)
(** * Calls of the private gRPC surface, from the client's side

    internal/platform/grpcsecurity/client.go: the interceptors around the call
    that GrpcSecurity prepares, and the stream that releases its deadline when
    it ends.  What a call does to its span and to its timer is a list of acts;
    the transport gives what it answers. *)

From S2P Require Import Prelude.
From S2P Require Import GoStrings.
From S2P Require Import GoTime.
From S2P Require Import TraceContext.
From S2P Require Import Auth.
From S2P Require Import GrpcSecurity.
From Stdlib Require String.
From Stdlib Require Import ZArith Lia.
Open Scope string_scope.
Open Scope Z_scope.

(** [StartTimer]: the context of the call has a timer of its own; [Cancel]: the
    call of its cancel function, which does nothing for a shared budget. *)
Inductive client_act : Type := StartSpan | SetStatus (text : string) | EndSpan | StartTimer | Cancel.

(** Whether [sharedBudget] makes a context with a timer. *)
Definition own_timer (c : call_ctx) (now maximum : Z) : bool :=
  match x_deadline c with Some current => negb (current - now <=? maximum) | None => true end.
Definition budget_acts (c : call_ctx) (now maximum : Z) : list client_act := if own_timer c now maximum then [StartTimer] else [].

(** [prepare] with its acts: without a token the budget is cancelled at once. *)
Definition prepare_acts (c : call_ctx) (now : Z) (token : result string) (deadline : Z) : result call_ctx * list client_act :=
  let r := prepare c now token deadline in
  (r, budget_acts c now deadline ++ match token with Ok _ => [] | Err _ => [Cancel] end)%list.

Section Client.
(** The token source answers under the budget. *)
Context (tokens : call_ctx -> result string).

(** [UnaryClientInterceptor]: a configuration error, or a call; [invoke] is
    the transport. *)
Definition unary_client (deadline : Z) (invoke : call_ctx -> option error) (c : call_ctx) (now : Z) : option error * list client_act :=
  match prepare_acts c now (tokens (sharedBudget c now deadline)) deadline with
  | (Err err, acts) => (Some err, [StartSpan] ++ acts ++ [SetStatus "credential_unavailable"; EndSpan])
  | (Ok prepared, acts) =>
      let err := invoke prepared in
      (err, [StartSpan] ++ acts ++ match err with Some _ => [SetStatus "rpc_failed"] | None => [] end ++ [Cancel; EndSpan])
  end%list.
Definition UnaryClientInterceptor (cfg : ClientConfig) : result ((call_ctx -> option error) -> call_ctx -> Z -> option error * list client_act) :=
  deadline ← client_deadline cfg; Ok (unary_client deadline).

(** [StreamClientInterceptor]: the prepared context of the stream, if it opens. *)
Definition stream_client (deadline : Z) (streamer : call_ctx -> option error) (c : call_ctx) (now : Z) : result call_ctx * list client_act :=
  match prepare_acts c now (tokens (sharedBudget c now deadline)) deadline with
  | (Err err, acts) => (Err err, [StartSpan] ++ acts ++ [SetStatus "credential_unavailable"; EndSpan])
  | (Ok prepared, acts) =>
      match streamer prepared with
      | Some err => (Err err, [StartSpan] ++ acts ++ [Cancel; SetStatus "rpc_failed"; EndSpan])
      | None => (Ok prepared, [StartSpan] ++ acts)
      end
  end%list.
Definition StreamClientInterceptor (cfg : ClientConfig) : result ((call_ctx -> option error) -> call_ctx -> Z -> result call_ctx * list client_act) :=
  deadline ← client_deadline cfg; Ok (stream_client deadline).
End Client.

(** What the holder of a stream does with it, and what the transport answers;
    io.EOF is an error too. *)
Inductive use : Type := Recv (answer : option error) | CloseSending (answer : option error).
(** The calls of [cancellingStream]: the answer, and what it does. *)
Definition stream_use (u : use) : option error * list client_act :=
  match u with
  | Recv None => (None, [])
  | Recv (Some err) => (Some err, (if errors_is err "context.Canceled" then [] else [SetStatus "rpc_failed"]) ++ [Cancel; EndSpan])
  | CloseSending answer => (answer, [])
  end%list.
Definition stream_uses (us : list use) : list client_act := flat_map (fun u => snd (stream_use u)) us.

(** [StaticToken] *)
Definition StaticToken (t : string) (_ : call_ctx) : result string := Ok t.

(** ** Timers and spans *)
(** A timer that was started is cancelled, and the span has ended. *)
Definition released (acts : list client_act) : Prop := (StartTimer ∈ acts -> Cancel ∈ acts) /\ EndSpan ∈ acts.

Lemma prepare_fails c now token deadline : (exists err, prepare c now token deadline = Err err) <-> exists err, token = Err err.
Proof. unfold prepare. destruct token; cbn; split; intros [? [=]]; by eexists. Qed.

(** A unary call releases what it took whatever happens; a stream that does
    not open has released it; and one that opens releases it with the first
    receive that fails, the end of the stream included, and not before: closing
    the sending side releases nothing, so a stream that is left before its end
    keeps its timer until its deadline. *)
Theorem client_releases tokens deadline c now :
  (forall invoke, released (snd (unary_client tokens deadline invoke c now))) /\
  (forall streamer, match stream_client tokens deadline streamer c now with
     | (Err _, acts) => released acts
     | (Ok _, acts) => forall us, released (acts ++ stream_uses us)%list <-> exists err, Recv (Some err) ∈ us
     end).
Proof.
  assert (forall l : list client_act, Cancel ∈ l -> EndSpan ∈ l -> released l) as Hr by (intros l H1 H2; by split).
  split.
  - intros invoke. unfold unary_client, prepare_acts. destruct (prepare c now _ deadline) as [p|err] eqn:Ep; cbn [snd].
    + apply Hr; set_solver.
    + destruct (proj1 (prepare_fails c now _ deadline) (ex_intro _ err Ep)) as [e ->]. apply Hr; set_solver.
  - intros streamer. unfold stream_client, prepare_acts. destruct (prepare c now _ deadline) as [p|err] eqn:Ep.
    2:{ destruct (proj1 (prepare_fails c now _ deadline) (ex_intro _ err Ep)) as [e ->]. apply Hr; set_solver. }
    destruct (streamer p) as [e|]; [apply Hr; set_solver|].
    assert (exists t, tokens (sharedBudget c now deadline) = Ok t) as [t Ht].
    { destruct (tokens _) as [t|e] eqn:E; [by exists t|]. unfold prepare in Ep. done. }
    rewrite Ht, app_nil_r. intros us. assert (forall a, a = Cancel \/ a = EndSpan -> a ∈ stream_uses us <-> exists err, Recv (Some err) ∈ us) as Hin.
    { intros a Ha. unfold stream_uses. split.
      - intros H. apply list_elem_of_In, List.in_flat_map in H as (u & Hu & H). apply list_elem_of_In in Hu, H.
        destruct u as [[err|]|answer]; cbn in H; [by exists err|by apply elem_of_nil in H..].
      - intros [err Hu]. apply list_elem_of_In, List.in_flat_map. exists (Recv (Some err)). split; [by apply list_elem_of_In|].
        apply list_elem_of_In. cbn. apply elem_of_app. right. destruct Ha as [-> | ->]; [left|right; left]. }
    unfold released. split.
    + intros [_ H]. apply Hin with EndSpan; [by right|]. apply elem_of_app in H as [H|H]; [|done].
      unfold budget_acts in H. destruct (own_timer _ _ _); set_solver.
    + intros H. split; [intros _|]; apply elem_of_app; right; apply Hin; auto.
Qed.

(** A stream left after its first message. *)
Example stream_left : let c := {| x_peer := None; x_deadline := None; x_incoming := None; x_outgoing := None; x_carrier := None; x_identity := None |} in
  let opened := stream_client (StaticToken "jwt") (5 * second) (fun _ => None) c 0 in
  (snd opened ++ stream_uses [Recv None; CloseSending None])%list = [StartSpan; StartTimer] /\
  (snd opened ++ stream_uses [Recv None; Recv (Some (ESentinel "io.EOF"))])%list = [StartSpan; StartTimer; SetStatus "rpc_failed"; Cancel; EndSpan].
Proof. vm_compute. split; reflexivity. Qed.
