(* ===== verification/Processes.v ===== *)
(** * The processes

    The main packages: services/ledger/cmd/ledger-api,
    services/consolidation/cmd/{consolidation-api,reconciliation-worker}, the
    [run] of outbox-publisher and of the consumer, and the two migrate
    commands.  Each reads its settings, acquires what it needs, with a deferred
    release for each, and serves until something ends or a signal arrives.

    What the outside answers is [outside]: the exporter, the database driver,
    the listeners and the dialer.  [keys] is the key source over an HTTP client,
    an endpoint and a cache; the generated gateway gives the writes of a
    response over the backend it was built on. *)

From S2P Require Import Prelude.
From S2P Require Import GoStrings.
From S2P Require Import GoTime.
From S2P Require Import GoDuration.
From S2P Require Import ClientCredentials.
From S2P Require Import Cursor.
From S2P Require Import TraceContext.
From S2P Require Import Auth.
From S2P Require Import Consumer.
From S2P Require Import Outbox.
From S2P Require Import GrpcSecurity.
From S2P Require Import Jwks.
From S2P Require Import Lifecycle.
From S2P Require Import Startup.
From S2P Require Import HttpSurface.
From Stdlib Require String.
From Stdlib Require Import ZArith Lia Ascii.
Open Scope string_scope.
Open Scope Z_scope.

(** ** Starting: what is held, and how a start ends *)
Inductive resource : Type := Tracer | Pool | LedgerConnection | Listener (address : string).
Inductive outcome (A : Type) : Type :=
  | Going (a : A)
  | Returned (err : error)
  | Panicked (text : string).
Arguments Going {A} _.
Arguments Returned {A} _.
Arguments Panicked {A} _.

(** The stack of deferred releases, the last acquired first. *)
Definition start (A : Type) : Type := list resource -> outcome A * list resource.
#[global] Instance start_ret : MRet start := fun A a held => (Going a, held).
#[global] Instance start_bind : MBind start := fun A B k m held =>
  match m held with
  | (Going a, held) => k a held
  | (Returned err, held) => (Returned err, held)
  | (Panicked text, held) => (Panicked text, held)
  end.
Definition lift {A} (r : result A) : start A := fun held => (match r with Ok a => Going a | Err err => Returned err end, held).
Definition wrapped {A} (text : string) (r : result A) : result A :=
  match r with Ok a => Ok a | Err err => Err (EWrap text err) end.
Definition acquire (x : resource) (r : result unit) : start unit := fun held =>
  match r with Ok _ => (Going tt, x :: held) | Err err => (Returned err, held) end.

Definition wrap32 (z : Z) : Z := (z + 2147483648) mod 4294967296 - 2147483648.

Record outside : Type := {
  exporter : string -> string -> result unit;
  pool_config : string -> result unit;
  new_pool : string -> Z -> result unit;
  open_pool : string -> result unit;
  listen : string -> result unit;
  grpc_client : string -> result unit }.

Section Processes.
Context {pool cert : Type} {T : tls_files pool cert} (getenv : string -> string) (out : outside).
Context (quoted : string -> string) (token_url_parse : string -> result (string * string)).
Context (keys : HTTPClientConfig (pool := pool) (cert := cert) -> string -> jwks_config -> string -> result public_key).
Context (verify : Verifier -> Z -> string -> result Identity).

Definition required_text (name : string) : string := "required environment variable is unset: " +:+ name.
Definition required (name : string) : start string := fun held =>
  let value := getenv name in if String.eqb value "" then (Panicked (required_text name), held) else (Going value, held).
Definition value (name fallback : string) : string :=
  let configured := getenv name in if String.eqb configured "" then fallback else configured.

(** runtimeobs: [NewTracerProvider]; every failure of the exporter gives one text. *)
Definition NewTracerProvider (service endpoint : string) : result unit :=
  if String.eqb (trim_space service) "" || String.eqb (trim_space endpoint) ""
  then Err (EMsg "runtimeobs: service and OTLP endpoint are required")
  else exporter out service endpoint.

(** CASHFLOW_DB_MAX_CONNS, as it is checked and as it is narrowed. *)
Definition max_conns : result Z :=
  match Atoi (value "CASHFLOW_DB_MAX_CONNS" "25") with
  | Ok n => if n <? 1 then Err (EMsg "CASHFLOW_DB_MAX_CONNS must be a positive integer") else Ok (wrap32 n)
  | Err _ => Err (EMsg "CASHFLOW_DB_MAX_CONNS must be a positive integer")
  end.

(** ** ledger-api *)
Inductive backend : Type :=
  | Fixture (owners : gmap string string) (position : Z)
  | Database (maxConns : Z) (cursorSecret : string).
Record ledger_api : Type := {
  la_public : Verifier; la_internal : Verifier; la_backend : backend;
  la_grpc : Z * Z * server_policy * TLSConfig (pool := pool) (cert := cert);
  la_handler : exchange -> Obs.Metrics -> answer * Obs.Metrics }.
Context (ledger_gateway : backend -> string -> Http.request -> Identity -> list Obs.write).

Definition ledger_backend (position : Z) : start backend :=
  let fixture := getenv "CASHFLOW_IDENTITY_FIXTURE_OWNERS" in
  if negb (String.eqb fixture "") then
    owners ← lift (wrapped "ParseOwners" (Identity.ParseOwners quoted fixture)); mret (Fixture owners position)
  else
    dsn ← required "CASHFLOW_DB_URL";
    _ ← lift (wrapped "pgxpool.ParseConfig" (pool_config out dsn));
    maxConns ← lift max_conns;
    _ ← acquire Pool (wrapped "pgxpool.NewWithConfig" (new_pool out dsn maxConns));
    secret ← required "CASHFLOW_CURSOR_SECRET";
    cursorCodec ← lift (wrapped "NewCursorCodec" (NewCursorCodec secret));
    mret (Database maxConns cursorCodec).

Definition ledger_configure : start ledger_api :=
  endpoint ← required "CASHFLOW_OTLP_ENDPOINT";
  _ ← acquire Tracer (wrapped "NewTracerProvider" (NewTracerProvider "ledger-api" endpoint));
  issuer ← required "CASHFLOW_OIDC_ISSUER";
  jwksURL ← required "CASHFLOW_OIDC_JWKS_URL";
  caFile ← required "CASHFLOW_OIDC_CA_FILE";
  publicVerifier ← lift (wrapped "public Verifier"
    (identity_verifier keys issuer (value "CASHFLOW_PUBLIC_AUDIENCE" "cashflow-public-api") jwksURL caFile MerchantRequired));
  internalVerifier ← lift (wrapped "internal Verifier"
    (identity_verifier keys issuer (value "CASHFLOW_INTERNAL_AUDIENCE" "cashflow-internal-api") jwksURL caFile MerchantForbidden));
  position ← lift (wrapped "ParseUint64" (Identity.ParseUint64 (getenv "CASHFLOW_SOURCE_POSITION") 0));
  backend ← ledger_backend position;
  assignments ← required "CASHFLOW_SERVICE_TENANT_DELEGATIONS";
  delegations ← lift (wrapped "ParseAssignments" (Identity.ParseAssignments quoted assignments));
  maxDeadline ← lift (wrapped "parse CASHFLOW_GRPC_MAX_DEADLINE" (ParseDuration (value "CASHFLOW_GRPC_MAX_DEADLINE" "5s")));
  certFile ← required "CASHFLOW_GRPC_TLS_CERT_FILE";
  keyFile ← required "CASHFLOW_GRPC_TLS_KEY_FILE";
  clientCA ← required "CASHFLOW_GRPC_CLIENT_CA_FILE";
  grpcTLS ← lift (ServerTLS certFile keyFile clientCA);
  grpcServer ← lift (NewLedgerGRPCServer {| lg_Verifier := Some internalVerifier;
    lg_Tenants := Some (AuthorizeTenant (NewStaticTenantDelegations (map_to_list delegations))); lg_TLS := Some grpcTLS;
    lg_Logger := true; lg_Handler := true; lg_MaxDeadline := maxDeadline; lg_MaxRecvBytes := 2097152; lg_MaxSendBytes := 4194304 |});
  handler ← lift (NewLedgerHTTPHandler verify (ledger_gateway backend) (Some publicVerifier) true 1048576);
  mret {| la_public := publicVerifier; la_internal := internalVerifier; la_backend := backend; la_grpc := grpcServer;
          la_handler := handler |}.

(** The listeners, after everything else. *)
Definition acquire_listener (text name fallback : string) : start unit :=
  let address := value name fallback in
  acquire (Listener address) (let r := listen out address in if String.eqb text "" then r else wrapped text r).
Definition ledger_listen : start unit :=
  _ ← acquire_listener "listen public HTTP" "CASHFLOW_HTTP_ADDR" ":8081";
  _ ← acquire_listener "listen internal gRPC" "CASHFLOW_GRPC_ADDR" ":9081";
  acquire_listener "listen management HTTP" "CASHFLOW_MANAGEMENT_ADDR" ":9091".
Definition ledger_start : start ledger_api := api ← ledger_configure; _ ← ledger_listen; mret api.

(** ** consolidation-api *)
Inductive query_store : Type := MockStore | PostgresStore (maxConns : Z).
Record consolidation_api : Type := {
  ca_public : Verifier; ca_tokens : ClientCredentials.Source; ca_tls : TLSConfig (pool := pool) (cert := cert); ca_target : string;
  ca_unary : Z; ca_stream : Z; ca_store : query_store; ca_handler : exchange -> Obs.Metrics -> answer * Obs.Metrics }.
Context (consolidation_gateway : query_store -> string -> Http.request -> Identity -> list Obs.write).

Definition readSecret (path : string) : result string :=
  contents ← read_file path;
  let secret := trim_space contents in
  if String.eqb secret "" then Err (EMsg "service client secret file is empty") else Ok secret.

Definition token_config (endpoint clientID secret : string) (client : HTTPClientConfig (pool := pool) (cert := cert)) : ClientCredentials.Config :=
  {| ClientCredentials.TokenEndpoint := endpoint; ClientCredentials.ClientID := clientID; ClientCredentials.ClientSecret := secret;
     ClientCredentials.HTTPClient := Some (hc_Timeout client); ClientCredentials.RefreshSkew := 0 |}.
(** The deadline an interceptor applies; the token source is given. *)
Definition interceptor (deadline : Z) : result Z := client_deadline {| cc_Tokens := Some (Ok ""); cc_Deadline := deadline |}.

Definition consolidation_store : start query_store :=
  let dbURI := value "CASHFLOW_DB_URL" "" in
  if String.eqb dbURI "" then mret MockStore
  else
    _ ← lift (wrapped "pgxpool.ParseConfig" (pool_config out dbURI));
    maxConns ← lift max_conns;
    _ ← acquire Pool (new_pool out dbURI maxConns);
    mret (PostgresStore maxConns).

Definition consolidation_configure : start consolidation_api :=
  endpoint ← required "CASHFLOW_OTLP_ENDPOINT";
  _ ← acquire Tracer (NewTracerProvider "consolidation-api" endpoint);
  issuer ← required "CASHFLOW_OIDC_ISSUER";
  jwksURL ← required "CASHFLOW_OIDC_JWKS_URL";
  caFile ← required "CASHFLOW_OIDC_CA_FILE";
  publicVerifier ← lift (identity_verifier keys issuer (value "CASHFLOW_PUBLIC_AUDIENCE" "cashflow-public-api") jwksURL caFile MerchantRequired);
  httpClient ← lift (HTTPClient caFile);
  secretFile ← required "CASHFLOW_SERVICE_CLIENT_SECRET_FILE";
  secret ← lift (readSecret secretFile);
  tokenURL ← required "CASHFLOW_OIDC_TOKEN_URL";
  tokens ← lift (ClientCredentials.New token_url_parse
    (token_config tokenURL (value "CASHFLOW_SERVICE_CLIENT_ID" "cashflow-consolidation-svc") secret httpClient));
  certFile ← required "CASHFLOW_GRPC_TLS_CERT_FILE";
  keyFile ← required "CASHFLOW_GRPC_TLS_KEY_FILE";
  ca ← required "CASHFLOW_GRPC_CA_FILE";
  clientTLS ← lift (ClientTLS certFile keyFile ca (value "CASHFLOW_GRPC_SERVER_NAME" "ledger-api"));
  unary ← lift (interceptor (2 * second));
  stream ← lift (interceptor (5 * second));
  target ← required "CASHFLOW_LEDGER_GRPC_TARGET";
  _ ← acquire LedgerConnection (grpc_client out target);
  store ← consolidation_store;
  handler ← lift (NewConsolidationHTTPHandler verify (consolidation_gateway store) (Some publicVerifier) true);
  mret {| ca_public := publicVerifier; ca_tokens := tokens; ca_tls := clientTLS; ca_target := target; ca_unary := unary;
          ca_stream := stream; ca_store := store; ca_handler := handler |}.
Definition consolidation_listen : start unit :=
  _ ← acquire_listener "" "CASHFLOW_HTTP_ADDR" ":8082"; acquire_listener "" "CASHFLOW_MANAGEMENT_ADDR" ":9092".
Definition consolidation_start : start consolidation_api := api ← consolidation_configure; _ ← consolidation_listen; mret api.

(** ** reconciliation-worker *)
Definition requireEnv (key : string) : start string := fun held =>
  let val := getenv key in
  if String.eqb val "" then (Panicked ("missing environment variable: " +:+ key), held) else (Going val, held).

Record worker_process : Type := {
  wp_tokens : ClientCredentials.Source; wp_tls : TLSConfig (pool := pool) (cert := cert); wp_target : string; wp_unary : Z; wp_stream : Z }.
Definition worker_configure : start worker_process :=
  endpoint ← requireEnv "CASHFLOW_OTLP_ENDPOINT";
  _ ← acquire Tracer (NewTracerProvider "reconciliation-worker" endpoint);
  dsn ← requireEnv "CASHFLOW_CONSOLIDATION_DSN";
  ledgerTarget ← requireEnv "CASHFLOW_LEDGER_GRPC_TARGET";
  _ ← acquire Pool (wrapped "connect postgres" (open_pool out dsn));
  certFile ← requireEnv "CASHFLOW_GRPC_TLS_CERT_FILE";
  keyFile ← requireEnv "CASHFLOW_GRPC_TLS_KEY_FILE";
  ca ← requireEnv "CASHFLOW_GRPC_CA_FILE";
  clientTLS ← lift (wrapped "configure client tls" (ClientTLS certFile keyFile ca (value "CASHFLOW_GRPC_SERVER_NAME" "ledger-api")));
  caFile ← requireEnv "CASHFLOW_OIDC_CA_FILE";
  httpClient ← lift (wrapped "configure http client" (HTTPClient caFile));
  secretFile ← requireEnv "CASHFLOW_SERVICE_CLIENT_SECRET_FILE";
  secretBytes ← lift (wrapped "read client secret" (read_file secretFile));
  tokenURL ← requireEnv "CASHFLOW_OIDC_TOKEN_URL";
  tokens ← lift (wrapped "configure client credentials" (ClientCredentials.New token_url_parse
    (token_config tokenURL (value "CASHFLOW_SERVICE_CLIENT_ID" "cashflow-reconciliation-svc") (trim_space secretBytes) httpClient)));
  unary ← lift (wrapped "configure unary interceptor" (interceptor (10 * second)));
  stream ← lift (wrapped "configure stream interceptor" (interceptor (30 * second)));
  _ ← acquire LedgerConnection (wrapped "connect ledger grpc" (grpc_client out ledgerTarget));
  mret {| wp_tokens := tokens; wp_tls := clientTLS; wp_target := ledgerTarget; wp_unary := unary; wp_stream := stream |}.
Definition worker_start : start worker_process :=
  p ← worker_configure;
  _ ← acquire_listener "" "CASHFLOW_MANAGEMENT_ADDR" ":9092";
  mret p.

(** What the arguments ask for. *)
Inductive command : Type := DaemonLoop | RunReconcile (args : list string) | DrainDLQ | UnknownCommand (text : string).
Definition command_of (args : list string) : command :=
  match args with
  | [] => DaemonLoop
  | arg :: rest =>
      if String.eqb arg "run" then RunReconcile rest
      else if String.eqb arg "dlq" then DrainDLQ
      else UnknownCommand ("unknown subcommand: " +:+ arg)
  end.

(** The verifier [runDLQCommand] trusts; it panics like the rest. *)
Definition operator_verifier : start Verifier :=
  issuer ← requireEnv "CASHFLOW_OIDC_ISSUER";
  jwksURL ← requireEnv "CASHFLOW_OIDC_JWKS_URL";
  caFile ← requireEnv "CASHFLOW_OIDC_CA_FILE";
  lift (wrapped "configure operator verifier"
    (identity_verifier keys issuer (value "CASHFLOW_OPS_AUDIENCE" "cashflow-internal-api") jwksURL caFile MerchantForbidden)).

(** ** The message processes *)
(** Their event schema is embedded and compiles.  [configureTracing]: without an endpoint there is nothing to shut down. *)
Definition configureTracing (service : string) : start unit :=
  if String.eqb (trim_space (getenv "OTEL_EXPORTER_OTLP_ENDPOINT")) "" then mret tt
  else acquire Tracer (exporter out service "").
Definition service_pool (dsn : string) (workers : Z) : start unit :=
  _ ← lift (wrapped "parse PostgreSQL DSN" (pool_config out dsn));
  acquire Pool (wrapped "open PostgreSQL pool" (new_pool out dsn (wrap32 (Z.max (wrap64 (workers * 2)) 4)))).

Definition publisher_start (amqp_url_parse : string -> result (string * string * bool)) (c : Publisher.config pool cert) : start Runtime :=
  _ ← configureTracing "outbox-publisher";
  _ ← service_pool (Publisher.postgresDSN _ _ c) (Publisher.workers _ _ c);
  built ← lift (Publisher.assemble amqp_url_parse c);
  mret {| rt_Server := true; rt_Runners := length built; rt_Brokers := length built; ShutdownTimeout := 10 * second |}.
Definition consumer_start (c : ConsumerMain.config pool cert) : start Runtime :=
  _ ← configureTracing "consolidation-consumer";
  _ ← service_pool (ConsumerMain.postgresDSN _ _ c) (ConsumerMain.workers _ _ c);
  built ← lift (ConsumerMain.assemble c);
  mret {| rt_Server := true; rt_Runners := length built; rt_Brokers := 0; ShutdownTimeout := 10 * second |}.
End Processes.

(** ** Serving and stopping *)
Inductive server : Type := PublicServer | ManagementServer | GRPCServer.
Inductive event : Type := ServerEnded (which : server) (err : option error) | Signalled.
Inductive act : Type := SetReady (b : bool) | GracefulStop | Shutdown (which : server).

Definition ErrServerClosed : string := "http.ErrServerClosed".
Definition normalizeServeError (err : option error) : option error :=
  match err with Some e => if errors_is e ErrServerClosed then None else Some e | None => None end.

(** What the servers answer to being stopped; [st_graceful]: GracefulStop
    returns, which it does when the calls in flight have ended. *)
Record stopping : Type := { st_graceful : bool; st_public : option error; st_management : option error }.

(** The servers an API stops, in order; the first failure ends [run]. *)
Definition shutdown_http (st : stopping) : option error * list act :=
  match st_public st with
  | Some err => (Some err, [Shutdown PublicServer])
  | None => (st_management st, [Shutdown PublicServer; Shutdown ManagementServer])
  end.
(** What [run] returns after the first event, if it does: the gRPC server's
    error goes through as it is. *)
Definition ledger_serve (e : event) (st : stopping) : option (option error) * list act :=
  match e with
  | ServerEnded GRPCServer err => (Some err, [SetReady true])
  | ServerEnded _ err => (Some (normalizeServeError err), [SetReady true])
  | Signalled =>
      if st_graceful st then
        let '(r, acts) := shutdown_http st in (Some r, [SetReady true; SetReady false; GracefulStop] ++ acts)
      else (None, [SetReady true; SetReady false; GracefulStop])
  end%list.
Definition consolidation_serve (e : event) (st : stopping) : option error * list act :=
  match e with
  | ServerEnded _ err => (normalizeServeError err, [SetReady true])
  | Signalled => let '(r, acts) := shutdown_http st in (r, [SetReady true; SetReady false] ++ acts)
  end%list.

(** The worker's management server and its command answer on one channel; it
    compares the error itself with http.ErrServerClosed, and ends the process
    when its command has ended. *)
Definition worker_serve (received : option (option error)) : option error * list act :=
  let stop := [SetReady true; SetReady false; Shutdown ManagementServer] in
  let after err :=
    match err with
    | None => (None, stop)
    | Some (ESentinel s) => if String.eqb s ErrServerClosed then (None, stop) else (Some (ESentinel s), [SetReady true])
    | Some err => (Some err, [SetReady true])
    end in
  match received with Some err => after err | None => (None, stop) end.

(** The exit code of the Ledger's migrate command, from what pgxpool.New, Ping
    and the migration return; the Consolidation's takes the same steps. *)
Definition migrate_exit (url : string) (configure ping apply : result unit) : Z :=
  if String.eqb url "" then 2
  else match configure, ping, apply with Ok _, Ok _, Ok _ => 0 | _, _, _ => 1 end.

Definition consolidation_migrate_exit : string -> result unit -> result unit -> result unit -> Z := migrate_exit.

(** ** Reasoning about starts *)
Lemma going_bind {A B} (m : start A) (k : A -> start B) held b held' : (m ≫= k) held = (Going b, held') ->
  exists a h, m held = (Going a, h) /\ k a h = (Going b, held').
Proof. unfold mbind, start_bind. destruct (m held) as [[a|e|t] h]; try done. by exists a, h. Qed.
Lemma going_ret {A} (a b : A) held held' : (mret a : start A) held = (Going b, held') -> b = a /\ held' = held.
Proof. by intros [= -> ->]. Qed.
Lemma going_lift {A} (r : result A) held a held' : lift r held = (Going a, held') -> r = Ok a /\ held' = held.
Proof. unfold lift. destruct r; by intros [= -> ->]. Qed.
Lemma going_acquire x r held u held' : acquire x r held = (Going u, held') -> r = Ok tt /\ held' = x :: held.
Proof. unfold acquire. destruct r as [[]|]; by intros [= _ <-]. Qed.
Lemma going_required getenv name held v held' : required getenv name held = (Going v, held') ->
  v = getenv name /\ getenv name <> "" /\ held' = held.
Proof. unfold required. destruct (String.eqb_spec (getenv name) ""); [done|]. by intros [= <- <-]. Qed.
Lemma going_requireEnv getenv name held v held' : requireEnv getenv name held = (Going v, held') ->
  v = getenv name /\ getenv name <> "" /\ held' = held.
Proof. unfold requireEnv. destruct (String.eqb_spec (getenv name) ""); [done|]. by intros [= <- <-]. Qed.
Lemma wrapped_ok {A} text (r : result A) a : wrapped text r = Ok a <-> r = Ok a.
Proof. by destruct r. Qed.

(** Take a start that goes on apart. *)
Ltac going :=
  repeat match goal with
  | H : (_ ≫= _) _ = (Going _, _) |- _ => apply going_bind in H as (? & ? & ? & H)
  | H : mret _ _ = (Going _, _) |- _ => apply going_ret in H as [-> ->]
  | H : lift _ _ = (Going _, _) |- _ => apply going_lift in H as [H ->]
  | H : acquire _ _ _ = (Going _, _) |- _ => apply going_acquire in H as [H ->]
  | H : required _ _ _ = (Going _, _) |- _ => apply going_required in H as (-> & H & ->)
  | H : requireEnv _ _ _ = (Going _, _) |- _ => apply going_requireEnv in H as (-> & H & ->)
  | H : wrapped _ _ = Ok _ |- _ => apply wrapped_ok in H
  end.

(** A start that opens no listener, however it ends. *)
Definition quiet {A} (m : start A) : Prop :=
  forall held o held', m held = (o, held') -> exists more, held' = (more ++ held)%list /\ forall a, Listener a ∉ more.
Lemma quiet_ret {A} (a : A) : quiet (mret a).
Proof. intros held o held' [= _ <-]. exists []. split; [done|]. by intros ? ?%elem_of_nil. Qed.
Lemma quiet_lift {A} (r : result A) : quiet (lift r).
Proof. intros held o held' [= _ <-]. exists []. split; [done|]. by intros ? ?%elem_of_nil. Qed.
Lemma quiet_acquire x r : (forall a, x <> Listener a) -> quiet (acquire x r).
Proof.
  intros Hx held o held'. unfold acquire. destruct r; intros [= _ <-]; [exists [x]|exists []]; (split; [done|]).
  - intros b Hb%list_elem_of_singleton. by eapply Hx.
  - by intros ? ?%elem_of_nil.
Qed.
Lemma quiet_required getenv name : quiet (required getenv name).
Proof. intros held o held'. unfold required. destruct (String.eqb _ ""); intros [= _ <-]; exists []; (split; [done|]); by intros ? ?%elem_of_nil. Qed.
Lemma quiet_requireEnv getenv name : quiet (requireEnv getenv name).
Proof. intros held o held'. unfold requireEnv. destruct (String.eqb _ ""); intros [= _ <-]; exists []; (split; [done|]); by intros ? ?%elem_of_nil. Qed.
Lemma quiet_bind {A B} (m : start A) (k : A -> start B) : quiet m -> (forall a, quiet (k a)) -> quiet (m ≫= k).
Proof.
  intros Hm Hk held o held'. unfold mbind, start_bind. destruct (m held) as [[a|e|t] h] eqn:Em; intros H;
    apply Hm in Em as (more & -> & Hn); [|injection H as _ <-; by exists more..].
  apply Hk in H as (more2 & -> & Hn2). exists (more2 ++ more)%list. split; [by rewrite app_assoc|].
  intros x [?|?]%elem_of_app; [by eapply Hn2|by eapply Hn].
Qed.
Lemma quiet_if {A} (b : bool) (m n : start A) : quiet m -> quiet n -> quiet (if b then m else n).
Proof. by destruct b. Qed.

Create HintDb starting discriminated.
#[export] Hint Resolve quiet_ret quiet_lift quiet_required quiet_requireEnv quiet_if : starting.
#[export] Hint Extern 1 (quiet (acquire _ _)) => apply quiet_acquire; discriminate : starting.
#[export] Hint Extern 2 (quiet (_ ≫= _)) => apply quiet_bind; [|intros ?] : starting.

(** ** What a process that starts has *)
Section Started.
Context {pool cert : Type} {T : tls_files pool cert} (getenv : string -> string) (out : outside).
Context (quoted : string -> string) (token_url_parse : string -> result (string * string)).
Context (keys : HTTPClientConfig (pool := pool) (cert := cert) -> string -> jwks_config -> string -> result public_key).
Context (verify : Verifier -> Z -> string -> result Identity).
Context (ledger_gateway : backend -> string -> Http.request -> Identity -> list Obs.write).
Context (consolidation_gateway : query_store -> string -> Http.request -> Identity -> list Obs.write).

Definition ledger_settings : list string :=
  ["CASHFLOW_OTLP_ENDPOINT"; "CASHFLOW_OIDC_ISSUER"; "CASHFLOW_OIDC_JWKS_URL"; "CASHFLOW_OIDC_CA_FILE";
   "CASHFLOW_SERVICE_TENANT_DELEGATIONS"; "CASHFLOW_GRPC_TLS_CERT_FILE"; "CASHFLOW_GRPC_TLS_KEY_FILE"; "CASHFLOW_GRPC_CLIENT_CA_FILE"].
Definition consolidation_settings : list string :=
  ["CASHFLOW_OTLP_ENDPOINT"; "CASHFLOW_OIDC_ISSUER"; "CASHFLOW_OIDC_JWKS_URL"; "CASHFLOW_OIDC_CA_FILE";
   "CASHFLOW_SERVICE_CLIENT_SECRET_FILE"; "CASHFLOW_OIDC_TOKEN_URL"; "CASHFLOW_GRPC_TLS_CERT_FILE"; "CASHFLOW_GRPC_TLS_KEY_FILE";
   "CASHFLOW_GRPC_CA_FILE"; "CASHFLOW_LEDGER_GRPC_TARGET"].

Notation configure_ledger := (ledger_configure getenv out quoted keys verify ledger_gateway).
Notation start_ledger := (ledger_start getenv out quoted keys verify ledger_gateway).
Notation configure_consolidation := (consolidation_configure getenv out token_url_parse keys verify consolidation_gateway).
Notation start_consolidation := (consolidation_start getenv out token_url_parse keys verify consolidation_gateway).

Lemma ledger_configure_quiet : quiet configure_ledger.
Proof. unfold ledger_configure, ledger_backend. auto 60 with starting. Qed.
Lemma consolidation_configure_quiet : quiet configure_consolidation.
Proof. unfold consolidation_configure, consolidation_store. auto 60 with starting. Qed.

Lemma verifier_built issuer audience jwksURL caFile merchant v :
  identity_verifier keys issuer audience jwksURL caFile merchant = Ok v ->
  v_issuer v = issuer /\ v_audience v = audience /\ v_merchant v = merchant /\ v_algorithms v = {["RS256" := SHA256]} /\
  issuer <> "" /\ audience <> "" /\ jwksURL <> "" /\ caFile <> "".
Proof.
  unfold identity_verifier, HTTPClient, HttpSurface.RootCAs, NewJWKSCache, NewVerifier.
  destruct (String.eqb_spec caFile ""); [done|]. destruct (read_file caFile); [|done]. destruct (append_certs_from_pem _ _); [|done].
  cbn [mbind result_bind]. destruct (String.eqb_spec jwksURL ""); [done|]. cbn [mbind result_bind cfg_Issuer cfg_Audience cfg_Keys cfg_AllowedAlgorithms].
  destruct (String.eqb_spec issuer ""); [done|]. destruct (String.eqb_spec audience ""); [done|]. intros [= <-]. done.
Qed.

Lemma server_tls_mutual certFile keyFile clientCA tls : ServerTLS certFile keyFile clientCA = Ok tls ->
  tc_ClientAuth tls = RequireAndVerifyClientCert /\ (exists roots, tc_ClientCAs tls = Some roots) /\ tc_MinVersion tls = VersionTLS12.
Proof.
  unfold ServerTLS. destruct (load_key_pair _ _); [|done]. destruct (HttpSurface.RootCAs clientCA) as [roots|]; [|done].
  intros [= <-]. cbn. eauto.
Qed.

(** What the pool of a database is given. *)
Definition pool_size (n : Z) : Prop := exists configured, Atoi (value getenv "CASHFLOW_DB_MAX_CONNS" "25") = Ok configured /\
  1 <= configured /\ n = wrap32 configured.
Lemma max_conns_ok n : max_conns getenv = Ok n -> pool_size n.
Proof.
  unfold max_conns, pool_size. destruct (Atoi _) as [c|]; [|done]. destruct (Z.ltb_spec c 1); [done|]. intros [= <-]. eauto.
Qed.

Definition all_set (names : list string) : Prop := forall name, name ∈ names -> getenv name <> "".

(** The backend of a Ledger API. *)
Definition backend_for (b : backend) : Prop :=
  match b with
  | Fixture owners _ => getenv "CASHFLOW_IDENTITY_FIXTURE_OWNERS" <> "" /\
      Identity.ParseOwners quoted (getenv "CASHFLOW_IDENTITY_FIXTURE_OWNERS") = Ok owners
  | Database n secret => getenv "CASHFLOW_IDENTITY_FIXTURE_OWNERS" = "" /\ getenv "CASHFLOW_DB_URL" <> "" /\
      pool_size n /\ secret = getenv "CASHFLOW_CURSOR_SECRET" /\ 32 <= slen secret
  end.

Lemma ledger_backend_ok position held b held' : ledger_backend getenv out quoted position held = (Going b, held') -> backend_for b.
Proof.
  unfold ledger_backend. intros H. destruct (String.eqb_spec (getenv "CASHFLOW_IDENTITY_FIXTURE_OWNERS") "") as [E|Hne]; cbn [negb] in H.
  - going. split_and!; try done; [by apply max_conns_ok| |];
      match goal with H : NewCursorCodec _ = Ok _ |- _ => revert H end; unfold NewCursorCodec;
      destruct (Z.ltb_spec (slen (getenv "CASHFLOW_CURSOR_SECRET")) 32); try done; intros [= <-]; done.
  - going. done.
Qed.

Record ledger_ready (api : ledger_api (pool := pool) (cert := cert)) : Prop := {
  lr_set : all_set ledger_settings;
  lr_backend : backend_for (la_backend api);
  lr_public : v_issuer (la_public api) = getenv "CASHFLOW_OIDC_ISSUER" /\ v_merchant (la_public api) = MerchantRequired /\
    v_audience (la_public api) = value getenv "CASHFLOW_PUBLIC_AUDIENCE" "cashflow-public-api";
  lr_internal : v_issuer (la_internal api) = getenv "CASHFLOW_OIDC_ISSUER" /\ v_merchant (la_internal api) = MerchantForbidden /\
    v_audience (la_internal api) = value getenv "CASHFLOW_INTERNAL_AUDIENCE" "cashflow-internal-api";
  lr_grpc : exists p tls, la_grpc api = (2097152, 4194304, p, tls) /\ sp_Verifier p = la_internal api /\
    sp_Policy p = InternalGRPCPolicy /\ 0 < sp_limit p /\ tc_ClientAuth tls = RequireAndVerifyClientCert /\
    exists roots, tc_ClientCAs tls = Some roots;
  lr_handler : forall x m, la_handler api x m =
    surface_step verify (ledger_gateway (la_backend api)) (LedgerSurface 1048576) (la_public api) x m }.

Lemma ledger_configured api held held' : configure_ledger held = (Going api, held') -> ledger_ready api.
Proof.
  unfold ledger_configure. intros H. going.
  match goal with H : ServerTLS _ _ _ = Ok _ |- _ => apply server_tls_mutual in H as (? & ? & _) end.
  repeat match goal with H : identity_verifier _ _ _ _ _ _ = Ok _ |- _ => apply verifier_built in H as (? & ? & ? & _) end.
  match goal with H : NewLedgerGRPCServer _ = Ok ?r |- _ =>
    destruct r as [[[recv send] p] tls]; pose proof (grpc_server_limits _ _ _ _ _ H) as [-> ->]; apply grpc_server_guarded in H as Hg end.
  match goal with H : NewLedgerHTTPHandler verify (ledger_gateway ?b) (Some ?v) true 1048576 = Ok _ |- _ =>
    destruct (new_surface_ok verify (ledger_gateway b) (LedgerSurface 1048576) v) as (h & Hn & Hh); cbn [new_surface] in Hn;
    rewrite Hn in H; injection H as <- end.
  destruct Hg as (Ht & Hv & Hp & _ & Hl & _). cbn [lg_TLS lg_Verifier lg_MaxRecvBytes lg_MaxSendBytes] in *.
  injection Ht as <-. injection Hv as ->. constructor; cbn [la_public la_internal la_backend la_grpc la_handler].
  - unfold all_set, ledger_settings. rewrite <-list.Forall_forall. repeat constructor; assumption.
  - by eapply ledger_backend_ok.
  - split_and!; assumption.
  - split_and!; assumption.
  - eexists _, _. split_and!; first [reflexivity|assumption].
  - exact Hh.
Qed.

(** How a start that configures quietly and then listens can end. *)
Lemma configured_first {A} (configure : start A) (listening : start unit) held o held' :
  quiet configure -> (a ← configure; _ ← listening; mret a) held = (o, held') ->
  (exists a h, configure held = (Going a, h) /\ (forall b, o = Going b -> b = a)) \/
  (forall b, o <> Going b) /\ exists more, held' = (more ++ held)%list /\ forall a, Listener a ∉ more.
Proof.
  intros Hq. unfold mbind at 1, start_bind at 1. destruct (configure held) as [[a|e|t] h] eqn:Ec.
  - intros H. left. exists a, h. split; [done|]. intros b ->. by going.
  - intros [= <- <-]. right. split; [done|]. by apply Hq in Ec.
  - intros [= <- <-]. right. split; [done|]. by apply Hq in Ec.
Qed.

(** What a Ledger API that starts serves.  It starts only with every setting it
    requires, on the database whose pool has the configured size narrowed to
    32 bits and a cursor secret of at least 32 bytes (or on the fixture, if the
    fixture's setting is not empty); its public verifier demands a merchant and
    its internal one forbids it; the internal server asks for client
    certificates, deadlines and the internal policy's scopes; the public
    handler is the guarded surface, with bodies of at most 1 MiB.  If a setting
    is missing it does not start, and it has opened no listener. *)
Theorem ledger_api_starts o held : start_ledger [] = (o, held) ->
  (forall api, o = Going api -> ledger_ready api) /\
  (~ all_set ledger_settings -> (forall api, o <> Going api) /\ forall a, Listener a ∉ held).
Proof.
  intros H.
  destruct (configured_first _ _ _ _ _ ledger_configure_quiet H) as [(a & h & Hc & Ho)|[Hn (more & -> & Hl)]].
  - pose proof (ledger_configured _ _ _ Hc) as Hr. split; [by intros api ->%Ho|]. intros Hm. destruct Hm. apply Hr.
  - split; [by intros api ->; destruct (Hn api)|]. intros _. split; [done|]. by rewrite app_nil_r.
Qed.

(** The store of a Consolidation API. *)
Definition store_for (q : query_store) : Prop :=
  match q with
  | MockStore => getenv "CASHFLOW_DB_URL" = ""
  | PostgresStore n => getenv "CASHFLOW_DB_URL" <> "" /\ pool_size n
  end.

Lemma consolidation_store_ok held q held' : consolidation_store getenv out held = (Going q, held') -> store_for q.
Proof.
  unfold consolidation_store, value at 1. destruct (String.eqb_spec (getenv "CASHFLOW_DB_URL") "") as [E|Hne]; cbn [String.eqb].
  - intros H. by going.
  - destruct (String.eqb_spec (getenv "CASHFLOW_DB_URL") ""); [done|]. intros H. going. split; [done|]. by apply max_conns_ok.
Qed.

Record consolidation_ready (api : consolidation_api (pool := pool) (cert := cert)) : Prop := {
  cr_set : all_set consolidation_settings;
  cr_store : store_for (ca_store api);
  cr_public : v_issuer (ca_public api) = getenv "CASHFLOW_OIDC_ISSUER" /\ v_merchant (ca_public api) = MerchantRequired /\
    v_audience (ca_public api) = value getenv "CASHFLOW_PUBLIC_AUDIENCE" "cashflow-public-api";
  cr_tokens : ClientCredentials.endpoint (ca_tokens api) = getenv "CASHFLOW_OIDC_TOKEN_URL" /\ ClientCredentials.secret (ca_tokens api) <> "" /\
    exists host, token_url_parse (ClientCredentials.endpoint (ca_tokens api)) = Ok ("https", host) /\ host <> "";
  cr_tls : (exists roots, tc_RootCAs (ca_tls api) = Some roots) /\ tc_ServerName (ca_tls api) <> "" /\ length (tc_Certificates (ca_tls api)) = 1%nat;
  cr_deadlines : ca_unary api = 2 * second /\ ca_stream api = 5 * second;
  cr_handler : forall x m, ca_handler api x m =
    surface_step verify (consolidation_gateway (ca_store api)) ConsolidationSurface (ca_public api) x m }.

Lemma tokens_built config tokens : ClientCredentials.New token_url_parse config = Ok tokens ->
  ClientCredentials.endpoint tokens = TokenEndpoint config /\ ClientCredentials.secret tokens = ClientSecret config /\ ClientSecret config <> "" /\
  exists host, token_url_parse (TokenEndpoint config) = Ok ("https", host) /\ host <> "".
Proof.
  unfold ClientCredentials.New. destruct (_ || _ || String.eqb (ClientSecret config) "") eqn:E; [done|].
  destruct (token_url_parse _) as [[scheme host]|]; [|done]. destruct (String.eqb_spec scheme "https") as [-> | _]; [|done].
  destruct (String.eqb_spec host "") as [-> | Hh]; [done|]. cbn [negb orb]. destruct (Z.ltb_spec (RefreshSkew config) 0); [done|].
  intros [= <-]. cbn. bool_to_prop. split_and!; try done. by exists host.
Qed.

Lemma client_tls_built certFile keyFile ca name tls : ClientTLS certFile keyFile ca name = Ok tls ->
  (exists roots, tc_RootCAs tls = Some roots) /\ tc_ServerName tls <> "" /\ length (tc_Certificates tls) = 1%nat.
Proof.
  unfold ClientTLS. destruct (load_key_pair _ _); [|done]. destruct (HttpSurface.RootCAs ca) as [roots|]; [|done]. cbn [mbind result_bind].
  destruct (String.eqb_spec name ""); [done|]. intros [= <-]. cbn. eauto.
Qed.

Lemma consolidation_configured api held held' : configure_consolidation held = (Going api, held') -> consolidation_ready api.
Proof.
  unfold consolidation_configure. intros H. going.
  match goal with H : identity_verifier _ _ _ _ _ _ = Ok _ |- _ => apply verifier_built in H as (? & ? & ? & _) end.
  match goal with H : New _ _ = Ok _ |- _ => apply tokens_built in H as (Hurl & Hsecret & ? & ?) end.
  match goal with H : ClientTLS _ _ _ _ = Ok _ |- _ => apply client_tls_built in H end.
  match goal with H : NewConsolidationHTTPHandler verify (consolidation_gateway ?b) (Some ?v) true = Ok _ |- _ =>
    destruct (new_surface_ok verify (consolidation_gateway b) ConsolidationSurface v) as (h & Hn & Hh); cbn [new_surface] in Hn;
    rewrite Hn in H; injection H as <- end.
  repeat match goal with H : interceptor _ = Ok ?x |- _ => assert (interceptor_ok := H); clear H; injection interceptor_ok as <- end.
  constructor; cbn [ca_public ca_tokens ca_tls ca_target ca_unary ca_stream ca_store ca_handler].
  - unfold all_set, consolidation_settings. rewrite <-list.Forall_forall. repeat constructor; assumption.
  - by eapply consolidation_store_ok.
  - split_and!; assumption.
  - split_and!; [assumption|by rewrite Hsecret|by rewrite Hurl].
  - assumption.
  - split; reflexivity.
  - exact Hh.
Qed.

(** What a Consolidation API that starts serves: every setting it requires is
    set, tokens come from an HTTPS endpoint with a secret that is not empty, the
    Ledger is reached over TLS with a client certificate and a server name, and
    the public handler is the guarded surface.  Without a database URL it
    serves all the same, on the store that knows no balance. *)
Theorem consolidation_api_starts o held : start_consolidation [] = (o, held) ->
  (forall api, o = Going api -> consolidation_ready api /\ (ca_store api = MockStore <-> getenv "CASHFLOW_DB_URL" = "")) /\
  (~ all_set consolidation_settings -> (forall api, o <> Going api) /\ forall a, Listener a ∉ held).
Proof.
  intros H. destruct (configured_first _ _ _ _ _ consolidation_configure_quiet H) as [(a & h & Hc & Ho)|[Hn (more & -> & Hl)]].
  - pose proof (consolidation_configured _ _ _ Hc) as Hr. split; [intros api ->%Ho; split; [done|]|intros Hm; destruct Hm; apply Hr].
    pose proof (cr_store _ Hr) as Hs. destruct (ca_store a); cbn in Hs; [done|]. split; [done|]. intros E. by destruct Hs.
  - split; [by intros api ->; destruct (Hn api)|]. intros _. split; [done|]. by rewrite app_nil_r.
Qed.

(** The reconciliation worker: its client of the Ledger, and the operator's
    verifier of its dlq command. *)
Definition worker_settings : list string :=
  ["CASHFLOW_OTLP_ENDPOINT"; "CASHFLOW_CONSOLIDATION_DSN"; "CASHFLOW_LEDGER_GRPC_TARGET"; "CASHFLOW_GRPC_TLS_CERT_FILE";
   "CASHFLOW_GRPC_TLS_KEY_FILE"; "CASHFLOW_GRPC_CA_FILE"; "CASHFLOW_OIDC_CA_FILE"; "CASHFLOW_SERVICE_CLIENT_SECRET_FILE";
   "CASHFLOW_OIDC_TOKEN_URL"].

Lemma worker_configure_quiet : quiet (worker_configure getenv out token_url_parse).
Proof. unfold worker_configure. auto 60 with starting. Qed.

Lemma worker_configured p held held' : worker_configure getenv out token_url_parse held = (Going p, held') ->
  all_set worker_settings /\ ClientCredentials.endpoint (wp_tokens p) = getenv "CASHFLOW_OIDC_TOKEN_URL" /\
  ClientCredentials.secret (wp_tokens p) <> "" /\ (exists roots, tc_RootCAs (wp_tls p) = Some roots) /\
  length (tc_Certificates (wp_tls p)) = 1%nat /\ wp_target p = getenv "CASHFLOW_LEDGER_GRPC_TARGET" /\
  wp_unary p = 10 * second /\ wp_stream p = 30 * second.
Proof.
  unfold worker_configure. intros H. going.
  match goal with H : New _ _ = Ok _ |- _ => apply tokens_built in H as (Hurl & Hsecret & ? & _) end.
  match goal with H : ClientTLS _ _ _ _ = Ok _ |- _ => apply client_tls_built in H as (? & _ & ?) end.
  repeat match goal with H : interceptor _ = Ok ?x |- _ => assert (interceptor_ok := H); clear H; injection interceptor_ok as <- end.
  cbn [wp_tokens wp_tls wp_target wp_unary wp_stream]. split_and!; try reflexivity; try assumption; [|by rewrite Hsecret].
  unfold all_set, worker_settings. rewrite <-list.Forall_forall. repeat constructor; assumption.
Qed.

Lemma operator_verifier_ok v held held' : operator_verifier getenv keys held = (Going v, held') ->
  v_issuer v = getenv "CASHFLOW_OIDC_ISSUER" /\ v_merchant v = MerchantForbidden /\
  v_audience v = value getenv "CASHFLOW_OPS_AUDIENCE" "cashflow-internal-api".
Proof.
  unfold operator_verifier. intros H. going.
  match goal with H : identity_verifier _ _ _ _ _ _ = Ok _ |- _ => apply verifier_built in H as (? & ? & ? & _) end. done.
Qed.

(** The worker takes its command only with all its settings, whichever command
    it is: a missing one ends it before its listener is open. *)
Theorem worker_starts o held : worker_start getenv out token_url_parse [] = (o, held) ->
  (forall p, o = Going p -> all_set worker_settings /\ ClientCredentials.secret (wp_tokens p) <> "" /\
     (exists roots, tc_RootCAs (wp_tls p) = Some roots) /\ wp_unary p = 10 * second /\ wp_stream p = 30 * second) /\
  (~ all_set worker_settings -> (forall p, o <> Going p) /\ forall a, Listener a ∉ held).
Proof.
  intros H. destruct (configured_first _ _ _ _ _ worker_configure_quiet H) as [(a & h & Hc & Ho)|[Hn (more & -> & Hl)]].
  - apply worker_configured in Hc as (H1 & _ & H2 & H3 & _ & _ & H4 & H5). split; [by intros p ->%Ho|by intros Hm; destruct Hm].
  - split; [by intros p ->; destruct (Hn p)|]. intros _. split; [done|]. by rewrite app_nil_r.
Qed.

(** ** The message processes start their runtimes *)
Lemma pool_of_workers w : 1 <= w <= 32 -> wrap32 (Z.max (wrap64 (w * 2)) 4) = Z.max (w * 2) 4.
Proof.
  intros Hw. rewrite wrap64_id by (unfold int64_min, int64_max; lia). unfold wrap32. rewrite Z.mod_small; lia.
Qed.

(** A publisher whose settings load and whose start goes on has one broker and
    one worker per index of its settings and a pool of twice as many
    connections, and its runtime accepts them and starts. *)
Theorem publisher_starts process amqp_url_parse (c : Publisher.config pool cert) rt held :
  Publisher.loadConfig getenv process = Ok c -> publisher_start getenv out amqp_url_parse c [] = (Going rt, held) ->
  Z.of_nat (rt_Runners rt) = Publisher.workers _ _ c /\ rt_Brokers rt = rt_Runners rt /\ Pool ∈ held /\
  new_pool out (Publisher.postgresDSN _ _ c) (Z.max (Publisher.workers _ _ c * 2) 4) = Ok tt /\
  forall ctx, publisher_Run rt ctx = Ok (started rt ctx).
Proof.
  intros Hc H. pose proof (publisher_loaded _ _ _ Hc) as (Hw & _). unfold publisher_start, service_pool in H. going.
  rewrite pool_of_workers in * by done.
  match goal with H : Publisher.assemble _ _ = Ok ?l |- _ => assert (Z.of_nat (length l) = Publisher.workers _ _ c) as Hl end.
  { match goal with H : Publisher.assemble _ _ = Ok _ |- _ => unfold Publisher.assemble in H; apply build_length in H end. lia. }
  cbn [rt_Runners rt_Brokers]. split_and!; try done; [by left|]. intros ctx. unfold publisher_Run, publisher_guard.
  cbn [rt_Server rt_Runners rt_Brokers ShutdownTimeout negb]. match goal with |- context [(?n =? 0)%nat] => destruct (Nat.eqb_spec n 0) end; [lia|done].
Qed.

(** A consumer whose settings load starts unless the exporter, the parse of its
    database URL or the pool fails, and its runtime accepts its runners. *)
Theorem consumer_starts process (c : ConsumerMain.config pool cert) : ConsumerMain.loadConfig getenv process = Ok c ->
  forall o held, consumer_start getenv out c [] = (o, held) ->
  (exists rt, o = Going rt /\ Z.of_nat (rt_Runners rt) = ConsumerMain.workers _ _ c /\ forall ctx, consumer_Run rt ctx = Ok (started rt ctx)) \/
  exporter out "consolidation-consumer" "" <> Ok tt \/ pool_config out (ConsumerMain.postgresDSN _ _ c) <> Ok tt \/
  new_pool out (ConsumerMain.postgresDSN _ _ c) (Z.max (ConsumerMain.workers _ _ c * 2) 4) <> Ok tt.
Proof.
  intros Hc o held. destruct (consumer_assembles _ _ _ Hc) as (l & Hl & Hn). destruct (consumer_valid _ _ _ 0 Hc) as (_ & _ & Hw).
  destruct (exporter out "consolidation-consumer" "") as [[]|] eqn:Ex; [|by right; left].
  destruct (pool_config out _) as [[]|] eqn:Ep; [|by right; right; left].
  destruct (new_pool out _ _) as [[]|] eqn:En; [|by right; right; right]. intros H. left.
  unfold consumer_start, service_pool in H. rewrite Hl, pool_of_workers, Ep, En in H by done.
  unfold configureTracing in H. rewrite Ex in H.
  destruct (String.eqb _ ""); cbn in H; injection H as <- _; (eexists; split; [reflexivity|]); (split; [exact Hn|]); intros ctx;
    unfold consumer_Run, consumer_guard; cbn [rt_Server rt_Runners ShutdownTimeout negb];
    (destruct (Nat.eqb_spec (length l) 0); [lia|done]).
Qed.
End Started.

(** On a signal an API stops taking work before it stops anything; the Ledger
    then returns exactly if the calls in flight end, whatever the five seconds
    of its shutdown, and without an error exactly if both HTTP servers stop. *)
Lemma ledger_stops st : let '(r, acts) := ledger_serve Signalled st in
  firstn 3 acts = [SetReady true; SetReady false; GracefulStop] /\ (r = None <-> st_graceful st = false) /\
  (r = Some None <-> st_graceful st = true /\ st_public st = None /\ st_management st = None).
Proof. destruct st as [[] [|] [|]]; cbn; naive_solver. Qed.
Lemma consolidation_stops st : let '(r, acts) := consolidation_serve Signalled st in
  firstn 2 acts = [SetReady true; SetReady false] /\ (r = None <-> st_public st = None /\ st_management st = None).
Proof. destruct st as [[] [|] [|]]; cbn; naive_solver. Qed.

(** ** A Ledger API on its fixture, and the narrowing of a pool's size *)
Definition sample_out : outside :=
  {| exporter := fun _ _ => Ok tt; pool_config := fun _ => Ok tt; new_pool := fun _ n => if n <? 1 then Err (EMsg "MaxSize must be >= 1") else Ok tt;
     open_pool := fun _ => Ok tt; listen := fun _ => Ok tt; grpc_client := fun _ => Ok tt |}.
Definition sample_process_tls : tls_files unit unit :=
  {| read_file := fun _ => Ok "pem"; new_cert_pool := tt; system_cert_pool := Ok tt; append_certs_from_pem := fun _ _ => Some tt;
     load_key_pair := fun _ _ => Ok tt |}.
Definition sample_env (name : string) : string :=
  if existsb (String.eqb name) ["CASHFLOW_IDENTITY_FIXTURE_OWNERS"; "CASHFLOW_SOURCE_POSITION"; "CASHFLOW_PUBLIC_AUDIENCE"; "CASHFLOW_INTERNAL_AUDIENCE";
       "CASHFLOW_HTTP_ADDR"; "CASHFLOW_GRPC_ADDR"; "CASHFLOW_MANAGEMENT_ADDR"; "CASHFLOW_GRPC_MAX_DEADLINE"; "CASHFLOW_DB_MAX_CONNS"] then ""
  else if String.eqb name "CASHFLOW_SERVICE_TENANT_DELEGATIONS" then "svc=m1,m2"
  else "0123456789abcdef0123456789abcdef".
Definition with_setting (name text : string) (env : string -> string) (n : string) : string := if String.eqb n name then text else env n.

Definition sample_ledger (env : string -> string) : outcome unit * list resource :=
  match ledger_start (T := sample_process_tls) env sample_out (fun s => s) (fun _ _ _ _ => Err ErrKeyUnknown) sample_reader
    (fun _ _ _ _ => []) [] with
  | (Going _, held) => (Going tt, held) | (Returned err, held) => (Returned err, held) | (Panicked text, held) => (Panicked text, held)
  end.

Example ledger_runs : sample_ledger sample_env =
  (Going tt, [Listener ":9091"; Listener ":9081"; Listener ":8081"; Pool; Tracer]).
Proof. vm_compute. reflexivity. Qed.
Example ledger_panics : sample_ledger (with_setting "CASHFLOW_DB_URL" "" sample_env) =
  (Panicked "required environment variable is unset: CASHFLOW_DB_URL", [Tracer]).
Proof. vm_compute. reflexivity. Qed.
(** 4294967297 connections are accepted and become one; 4294967296 become none,
    which the pool refuses. *)
Example pool_narrows : max_conns (with_setting "CASHFLOW_DB_MAX_CONNS" "4294967297" sample_env) = Ok 1 /\
  sample_ledger (with_setting "CASHFLOW_DB_MAX_CONNS" "4294967296" sample_env) =
  (Returned (EWrap "pgxpool.NewWithConfig" (EMsg "MaxSize must be >= 1")), [Tracer]).
Proof. vm_compute. split; reflexivity. Qed.
