(* ===== verification/BddSource.v ===== *)
(** * The fingerprint of the acceptance scenarios

    internal/bddsource: the Gherkin written in the planning artifacts is
    compared with the executable .feature files, and both are reduced to
    digests that the continuous integration recomputes without the artifacts.
    internal/bddcatalog: the inventory of scenario tags and the manifest of
    those implemented.

    [walk] is what walking a directory meets: its entries with whether each is
    a directory, or an error.  [read] is os.ReadFile, [sha256] the digest,
    [quoted] the %q text, [gherkin] the third-party parser. *)

From S2P Require Import Prelude.
From S2P Require Import Sorting.
From S2P Require Import GoStrings.
From Stdlib Require String.
From Stdlib Require Import ZArith Lia Ascii.
Open Scope string_scope.
Open Scope Z_scope.

Definition fenceOpen : string := "```gherkin".
Definition fenceClose : string := "```".
Definition featureKeyword : string := "Funcionalidade:".
Definition scenarioTagMark : string := "@SCN-".
Definition newline : ascii := chr 10.

Record Scenario : Type := { Tag : string; Lines : list string }.
Record Feature : Type := { Name : string; Origin : string; Header : list string; Scenarios : list Scenario }.

(** sort.Strings *)
Definition sort_strings : list string -> list string := sort_by String.ltb.

(** filepath.Ext: from the last period of the last element. *)
Fixpoint ext_from (suffix s : string) : string :=
  match s with
  | "" => suffix
  | String c r => if Ascii.eqb c "/" then ext_from "" r else if Ascii.eqb c "." then ext_from s r else ext_from suffix r
  end.
Definition filepath_Ext (path : string) : string := ext_from "" path.

Fixpoint trim_prefix (prefix s : string) : string :=
  match prefix, s with
  | "", _ => s
  | String a p, String b r => if Ascii.eqb a b then trim_prefix p r else s
  | _, _ => s
  end.
Definition TrimPrefix (s prefix : string) : string := if has_prefix prefix s then trim_prefix prefix s else s.

(** ** Parsing *)
Fixpoint fenced_from (inside : bool) (current : list string) (lines : list string) : list (list string) :=
  match lines with
  | [] => []
  | line :: rest =>
      let trimmed := trim_space line in
      if negb inside then
        if String.eqb trimmed fenceOpen then fenced_from true [] rest else fenced_from false current rest
      else if String.eqb trimmed fenceClose then current :: fenced_from false current rest
      else fenced_from true (current ++ [line])%list rest
  end.
Definition fencedGherkinBlocks (contents : string) : list (list string) := fenced_from false [] (split newline contents).

(** The loop of [scenarioTag] over the words of a line; [None]: a second tag. *)
Fixpoint find_tag (found : string) (words : list string) : option string :=
  match words with
  | [] => Some found
  | word :: rest =>
      if negb (has_prefix scenarioTagMark word) then find_tag found rest
      else if String.eqb found "" then find_tag word rest else None
  end.
Definition scenarioTag (trimmed : string) : option string :=
  if negb (has_prefix "@" trimmed) then None
  else match find_tag "" (fields trimmed) with
       | Some found => if String.eqb found "" then None else Some found
       | None => None
       end.

(** The variables of [parseBlock]. *)
Record block_state : Type := {
  bs_name : string; bs_header : list string; bs_scenarios : list Scenario; currentTag : string; currentLines : list string }.
Definition empty_block : block_state :=
  {| bs_name := ""; bs_header := []; bs_scenarios := []; currentTag := ""; currentLines := [] |}.
Definition flush (b : block_state) : block_state :=
  if String.eqb (currentTag b) "" then b
  else {| bs_name := bs_name b; bs_header := bs_header b;
          bs_scenarios := (bs_scenarios b ++ [{| Tag := currentTag b; Lines := currentLines b |}])%list;
          currentTag := ""; currentLines := [] |}.
Definition block_line (b : block_state) (line : string) : block_state :=
  let trimmed := trim_space line in
  if String.eqb trimmed "" then b
  else
    match scenarioTag trimmed with
    | Some tag =>
        let b := flush b in
        {| bs_name := bs_name b; bs_header := bs_header b; bs_scenarios := bs_scenarios b; currentTag := tag; currentLines := [trimmed] |}
    | None =>
        if negb (String.eqb (currentTag b) "") then
          {| bs_name := bs_name b; bs_header := bs_header b; bs_scenarios := bs_scenarios b; currentTag := currentTag b;
             currentLines := (currentLines b ++ [trimmed])%list |}
        else
          {| bs_name := if has_prefix featureKeyword trimmed then trim_space (TrimPrefix trimmed featureKeyword) else bs_name b;
             bs_header := (bs_header b ++ [trimmed])%list; bs_scenarios := bs_scenarios b; currentTag := ""; currentLines := currentLines b |}
    end.
Definition parseBlock (lines : list string) (origin : string) : result Feature :=
  let b := flush (fold_left block_line lines empty_block) in
  if String.eqb (bs_name b) "" then Err (EMsg (origin +:+ " declares no Funcionalidade: line"))
  else match bs_scenarios b with
       | [] => Err (EMsg (origin +:+ " declares no @SCN-* tagged scenario"))
       | _ => Ok {| Name := bs_name b; Origin := origin; Header := bs_header b; Scenarios := bs_scenarios b |}
       end.

Section Source.
Context (sha256 : string -> list Z) (quoted : string -> string).
Context (walk : string -> result (list (string * bool))) (read : string -> result string).

(** [seen] maps a name to the origin of its first feature. *)
Fixpoint dedupe_from (seen : gmap string string) (features : list Feature) : result unit :=
  match features with
  | [] => Ok tt
  | f :: rest =>
      match seen !! Name f with
      | Some origin => Err (EMsg ("duplicate Funcionalidade " +:+ quoted (Name f) +:+ " in " +:+ origin +:+ " and " +:+ Origin f))
      | None => dedupe_from (<[Name f := Origin f]> seen) rest
      end
  end.
Definition dedupe : list Feature -> result unit := dedupe_from ∅.

(** The files of a directory with an extension, in order. *)
Definition paths_under (what ext root : string) : result (list string) :=
  match walk root with
  | Err err => Err (EWrap ("walk " +:+ what +:+ " " +:+ root) err)
  | Ok entries => Ok (sort_strings (map fst (List.filter (fun e => negb (snd e) && String.eqb (filepath_Ext (fst e)) ext) entries)))
  end.

Fixpoint parse_blocks (path : string) (index : Z) (blocks : list (list string)) : result (list Feature) :=
  match blocks with
  | [] => Ok []
  | block :: rest =>
      f ← parseBlock block (path +:+ " block " +:+ fmt_d (index + 1)); fs ← parse_blocks path (index + 1) rest; Ok (f :: fs)
  end.
Fixpoint parse_artifact_files (paths : list string) : result (list Feature) :=
  match paths with
  | [] => Ok []
  | path :: rest =>
      match read path with
      | Err err => Err (EWrap ("read " +:+ path) err)
      | Ok contents => fs ← parse_blocks path 0 (fencedGherkinBlocks contents); more ← parse_artifact_files rest; Ok (fs ++ more)%list
      end
  end.
Definition ParseArtifacts (root : string) : result (list Feature) :=
  paths ← paths_under "artifacts" ".md" root;
  features ← parse_artifact_files paths;
  match features with
  | [] => Err (EMsg ("no ```gherkin blocks found under " +:+ root))
  | _ => _ ← dedupe features; Ok features
  end.

Fixpoint parse_feature_files (paths : list string) : result (list Feature) :=
  match paths with
  | [] => Ok []
  | path :: rest =>
      match read path with
      | Err err => Err (EWrap ("read " +:+ path) err)
      | Ok contents => f ← parseBlock (split newline contents) path; more ← parse_feature_files rest; Ok (f :: more)
      end
  end.
Definition ParseFeatureFiles (root : string) : result (list Feature) :=
  paths ← paths_under "features" ".feature" root;
  features ← parse_feature_files paths;
  match features with
  | [] => Err (EMsg ("no .feature files found under " +:+ root))
  | _ => _ ← dedupe features; Ok features
  end.

(** ** Digests *)
Definition digest (lines : list string) : string := hex_encode (sha256 (join newline lines)).

Record Digests : Type := { dg_Features : gmap string string; dg_Scenarios : gmap string string }.
Definition add_scenario (m : gmap string string) (s : Scenario) : gmap string string := <[Tag s := digest (Lines s)]> m.
Definition add_feature (d : Digests) (f : Feature) : Digests :=
  {| dg_Features := <[Name f := digest (Header f)]> (dg_Features d);
     dg_Scenarios := fold_left add_scenario (Scenarios f) (dg_Scenarios d) |}.
Definition ComputeDigests (features : list Feature) : Digests :=
  fold_left add_feature features {| dg_Features := ∅; dg_Scenarios := ∅ |}.

Definition sortedKeys {V} (values : gmap string V) : list string := sort_strings (map fst (map_to_list values)).

Definition committed_difference (kind : string) (committed recomputed : gmap string string) (key : string) : list string :=
  match recomputed !! key with
  | None => [kind +:+ " " +:+ key +:+ " is in the digest file but no longer in the .feature files"]
  | Some current =>
      if negb (String.eqb current (default "" (committed !! key)))
      then [kind +:+ " " +:+ key +:+ " changed in the .feature files without a matching artifact bless"] else []
  end.
Definition recomputed_difference (kind : string) (committed : gmap string string) (key : string) : list string :=
  match committed !! key with
  | None => [kind +:+ " " +:+ key +:+ " is in the .feature files but absent from the digest file"]
  | Some _ => []
  end.
Definition compareMaps (kind : string) (committed recomputed : gmap string string) : list string :=
  (flat_map (committed_difference kind committed recomputed) (sortedKeys committed) ++
   flat_map (recomputed_difference kind committed) (sortedKeys recomputed))%list.
Definition CompareDigests (committed recomputed : Digests) : list string :=
  (compareMaps "Funcionalidade" (dg_Features committed) (dg_Features recomputed) ++
   compareMaps "scenario" (dg_Scenarios committed) (dg_Scenarios recomputed))%list.

(** ** Comparing the texts *)
Fixpoint first_difference (index : Z) (authored executable : list string) : option string :=
  match authored, executable with
  | a :: authored, e :: executable =>
      if String.eqb a e then first_difference (index + 1) authored executable
      else Some ("line " +:+ fmt_d (index + 1) +:+ String newline ("      artifact: " +:+ a +:+ String newline ("      feature : " +:+ e)))
  | _, _ => None
  end.
Definition compareLines (authored executable : list string) : string :=
  match first_difference 0 authored executable with
  | Some difference => difference
  | None =>
      if (length authored =? length executable)%nat then ""
      else "line count " +:+ fmt_d (Z.of_nat (length authored)) +:+ " in the artifact against " +:+
           fmt_d (Z.of_nat (length executable)) +:+ " in the .feature file"
  end.

Definition indexByName (features : list Feature) : gmap string Feature := fold_left (fun m f => <[Name f := f]> m) features ∅.
Definition indexByTag (feature : Feature) : gmap string Scenario := fold_left (fun m s => <[Tag s := s]> m) (Scenarios feature) ∅.

Definition scenario_difference (authored executable : Feature) (tag : string) : list string :=
  match indexByTag executable !! tag with
  | None => [tag +:+ " is in " +:+ Origin authored +:+ " but missing from " +:+ Origin executable]
  | Some s =>
      match compareLines (match indexByTag authored !! tag with Some a => Lines a | None => [] end) (Lines s) with
      | "" => []
      | difference => [tag +:+ " differs: " +:+ difference]
      end
  end.
Definition compareFeature (authored executable : Feature) : list string :=
  ((match compareLines (Header authored) (Header executable) with
    | "" => []
    | difference => ["Funcionalidade " +:+ quoted (Name authored) +:+ " header differs (" +:+ Origin authored +:+ " vs " +:+
                     Origin executable +:+ "): " +:+ difference]
    end) ++
   flat_map (scenario_difference authored executable) (sortedKeys (indexByTag authored)) ++
   flat_map (fun tag => match indexByTag authored !! tag with
                        | None => [tag +:+ " is in " +:+ Origin executable +:+ " but absent from the artifacts"]
                        | Some _ => []
                        end) (sortedKeys (indexByTag executable)))%list.

Definition CompareFeatures (artifacts features : list Feature) : list string :=
  let authored := indexByName artifacts in
  let executable := indexByName features in
  (flat_map (fun name =>
     match authored !! name, executable !! name with
     | Some a, Some e => compareFeature a e
     | Some a, None => ["Funcionalidade " +:+ quoted name +:+ " exists in " +:+ Origin a +:+ " but has no .feature file"]
     | None, _ => []
     end) (sortedKeys authored) ++
   flat_map (fun name =>
     match executable !! name, authored !! name with
     | Some e, None => ["Funcionalidade " +:+ quoted name +:+ " exists in " +:+ Origin e +:+ " but is absent from the artifacts"]
     | _, _ => []
     end) (sortedKeys executable))%list.
End Source.

Definition FormatDifferences (differences : list string) : string :=
  fold_left (fun acc d => acc +:+ "  - " +:+ d +:+ String newline "") differences "".

(** ** Comparisons are empty exactly on equal texts *)
Lemma first_difference_None n a e : first_difference n a e = None <-> firstn (length e) a = firstn (length a) e.
Proof.
  revert n e. induction a as [|x a IH]; intros n e; [by destruct e|]. destruct e as [|y e]; [done|]. cbn [first_difference length firstn].
  destruct (String.eqb_spec x y) as [-> | Hne]; [|split; [done|intros [=]; done]]. rewrite IH. split; [by intros ->|by intros [= ->]].
Qed.

Lemma compareLines_nil a e : compareLines a e = "" <-> a = e.
Proof.
  unfold compareLines. destruct (first_difference 0 a e) as [d|] eqn:E.
  - split; [|intros ->; by rewrite (proj2 (first_difference_None 0 e e) eq_refl) in E]. intros ->.
    exfalso. revert E. generalize 0. revert e. induction a as [|x a IH]; intros [|y e] n; cbn; try done.
    destruct (String.eqb x y); [apply IH|]. by intros [=].
  - apply first_difference_None in E. destruct (Nat.eqb_spec (length a) (length e)) as [El|Hne].
    + split; [intros _|done]. rewrite <-El, firstn_all in E. rewrite El, firstn_all in E. done.
    + split; [done|]. by intros ->.
Qed.

Lemma sortedKeys_in {V} (m : gmap string V) key : key ∈ sortedKeys m <-> is_Some (m !! key).
Proof.
  unfold sortedKeys, sort_strings. rewrite sort_by_in. split.
  - intros Hin. apply list_elem_of_fmap_1 in Hin as ([k v] & -> & Hkv%elem_of_map_to_list). by exists v.
  - intros [v Hv]. apply (list_elem_of_fmap_2 fst _ (key, v)), elem_of_map_to_list, Hv.
Qed.

Lemma compareMaps_nil kind c r : compareMaps kind c r = [] <-> c = r.
Proof.
  unfold compareMaps. rewrite app_nil, !flat_map_nil. split.
  - intros [H1 H2]. apply map_eq. intros k. destruct (c !! k) as [v|] eqn:Ec.
    + specialize (H1 k (proj2 (sortedKeys_in c k) (ex_intro _ v Ec))). unfold committed_difference in H1. rewrite Ec in H1. cbn in H1.
      destruct (r !! k) as [w|]; [|done]. destruct (String.eqb w v) eqn:Ew; [|done]. apply String.eqb_eq in Ew. congruence.
    + destruct (r !! k) as [w|] eqn:Er; [|done]. specialize (H2 k (proj2 (sortedKeys_in r k) (ex_intro _ w Er))).
      unfold recomputed_difference in H2. by rewrite Ec in H2.
  - intros ->. split; intros k [v Hv]%sortedKeys_in.
    + unfold committed_difference. rewrite Hv. cbn. by rewrite String.eqb_refl.
    + unfold recomputed_difference. by rewrite Hv.
Qed.

(** ** What an index of a list holds: the last value of a key *)
Section Last.
Context {X V : Type} (key : X -> string) (val : X -> V).

Definition last_value (xs : list X) (k : string) : option V :=
  fold_left (fun acc x => if String.eqb (key x) k then Some (val x) else acc) xs None.

Lemma last_value_from xs acc k : fold_left (fun acc x => if String.eqb (key x) k then Some (val x) else acc) xs acc =
  match last_value xs k with Some v => Some v | None => acc end.
Proof.
  unfold last_value. induction xs as [|x xs IH] using rev_ind; [done|]. rewrite !fold_left_app. cbn.
  destruct (String.eqb (key x) k); [done|exact IH].
Qed.

Lemma index_lookup xs (m : gmap string V) k :
  fold_left (fun m x => <[key x := val x]> m) xs m !! k = match last_value xs k with Some v => Some v | None => m !! k end.
Proof.
  induction xs as [|x xs IH] using rev_ind; [done|]. unfold last_value. rewrite !fold_left_app. cbn.
  destruct (String.eqb_spec (key x) k) as [<- | Hne]; [by rewrite lookup_insert_eq|by rewrite lookup_insert_ne].
Qed.

Lemma last_value_in xs k v : last_value xs k = Some v -> exists x, x ∈ xs /\ key x = k /\ val x = v.
Proof.
  unfold last_value. induction xs as [|x xs IH] using rev_ind; [done|]. rewrite fold_left_app. cbn.
  destruct (String.eqb_spec (key x) k) as [<- | Hne].
  - intros [= <-]. exists x. split; [apply elem_of_app; right; by apply list_elem_of_singleton|done].
  - intros (y & Hy & Hr)%IH. exists y. split; [apply elem_of_app; by left|done].
Qed.
End Last.

(** The header of a feature's name and the lines of a scenario's tag in a list
    of features: where either occurs twice, those of the last. *)
Definition header_of : list Feature -> string -> option (list string) := last_value Name Header.
Definition lines_of (features : list Feature) : string -> option (list string) := last_value Tag Lines (flat_map Scenarios features).

(** ** Lines that a text can be cut into *)
Definition no_newline (s : string) : bool := forall_chars (fun c => negb (Ascii.eqb c newline)) s.
Definition line_ok (s : string) : Prop := s <> "" /\ no_newline s = true.

Lemma space_rune_chars p s r : space_rune s = Some r -> forall_chars p s = true -> forall_chars p r = true.
Proof.
  unfold space_rune. repeat case_goal; intros [= <-]; cbn [forall_chars]; intros H; bool_to_prop; done.
Qed.

Lemma trim_left_chars p s : forall_chars p s = true -> forall_chars p (trim_left s) = true.
Proof.
  unfold trim_left. generalize (String.length s) as n. intros n. revert s. induction n as [|n IH]; intros s Hs; cbn [trim_left_fuel]; [done|].
  destruct (space_rune s) as [r|] eqn:E; [|done]. by eapply IH, space_rune_chars.
Qed.

Lemma trim_right_chars p s : forall_chars p s = true -> forall_chars p (trim_right s) = true.
Proof.
  induction s as [|c s IH]; [done|]. cbn [forall_chars trim_right]. intros [Hc Hs]%andb_true_iff.
  destruct (String.eqb _ ""); [done|]. cbn [forall_chars]. by rewrite Hc, IH.
Qed.

Lemma trim_space_chars p s : forall_chars p s = true -> forall_chars p (trim_space s) = true.
Proof. intros H. by apply trim_right_chars, trim_left_chars. Qed.

Lemma split_pieces sep s p : p ∈ split sep s -> forall_chars (fun c => negb (Ascii.eqb c sep)) p = true.
Proof.
  revert p. induction s as [|c s IH]; intros p; cbn [split].
  - by intros ->%list_elem_of_singleton.
  - destruct (Ascii.eqb c sep) eqn:Ec.
    + intros [-> | Hp]%elem_of_cons; [done|by apply IH].
    + pose proof (split_nonempty sep s). destruct (split sep s) as [|q qs]; [done|]. intros [-> | Hp]%elem_of_cons.
      * cbn. rewrite Ec. cbn. apply IH. by left.
      * apply IH. by right.
Qed.

Lemma split_join sep ls : ls <> [] -> (forall l, l ∈ ls -> forall_chars (fun c => negb (Ascii.eqb c sep)) l = true) ->
  split sep (join sep ls) = ls.
Proof.
  induction ls as [|l ls IH]; [done|]. intros _ H. destruct ls as [|l' ls]; cbn [join].
  - apply split_no_sep, H. by left.
  - rewrite split_app by (apply H; by left). f_equal. apply IH; [done|]. intros x Hx. apply H. by right.
Qed.

Lemma join_lines_inj a b : Forall line_ok a -> Forall line_ok b -> join newline a = join newline b -> a = b.
Proof.
  assert (forall l, Forall line_ok l -> l <> [] -> split newline (join newline l) = l /\ join newline l <> "") as Hs.
  { intros l Hl Hne. split.
    - apply split_join; [done|]. intros x Hx. eapply list.Forall_forall in Hl; [|exact Hx]. apply Hl.
    - destruct l as [|x [|y l]]; [done| |]; apply list.Forall_cons in Hl as [[Hx _] _]; cbn [join]; [done|]. by destruct x. }
  intros Ha Hb E. destruct a as [|x a], b as [|y b]; [done| | |].
  - by destruct (proj2 (Hs _ Hb ltac:(done))).
  - by destruct (proj2 (Hs _ Ha ltac:(done))).
  - rewrite <-(proj1 (Hs _ Ha ltac:(done))), <-(proj1 (Hs _ Hb ltac:(done))). by rewrite E.
Qed.

(** ** What a parsed block holds *)
(** The lines that count: trimmed, blank ones dropped. *)
Definition meaningful (lines : list string) : list string :=
  List.filter (fun l => negb (String.eqb l "")) (map trim_space lines).
Definition feature_text (f : Feature) : list string := (Header f ++ flat_map Lines (Scenarios f))%list.

Record block_inv (b : block_state) (seen : list string) : Prop := {
  bi_text : (bs_header b ++ flat_map Lines (bs_scenarios b) ++ currentLines b)%list = seen;
  bi_tag : currentTag b = "" -> currentLines b = [] /\ bs_scenarios b = [];
  bi_scenarios : forall s, s ∈ bs_scenarios b -> exists first rest, Lines s = first :: rest /\ scenarioTag first = Some (Tag s);
  bi_current : currentTag b <> "" -> exists first rest, currentLines b = first :: rest /\ scenarioTag first = Some (currentTag b) }.

Lemma scenarioTag_nonempty line tag : scenarioTag line = Some tag -> tag <> "".
Proof. unfold scenarioTag. destruct (negb _); [done|]. destruct (find_tag _ _); [|done]. destruct (String.eqb_spec s ""); [done|]. by intros [= <-]. Qed.

Lemma block_line_inv b seen line : block_inv b seen ->
  block_inv (block_line b line) (seen ++ meaningful [line])%list.
Proof.
  intros [H1 H2 H3 H4]. unfold block_line, meaningful. cbn [map List.filter].
  destruct (String.eqb_spec (trim_space line) "") as [E|Hne]; cbn [negb]; [by rewrite app_nil_r|].
  destruct (scenarioTag (trim_space line)) as [tag|] eqn:Et.
  - pose proof (scenarioTag_nonempty _ _ Et) as Hn. unfold flush. destruct (String.eqb_spec (currentTag b) "") as [Ec|Hc].
    + destruct (H2 Ec) as [E1 E2]. split; cbn; [rewrite <-H1, E1, E2; cbn; by rewrite app_nil_r|done|done|].
      intros _. by exists (trim_space line), [].
    + split; cbn; [|done| |intros _; by exists (trim_space line), []].
      * rewrite <-H1, flat_map_app. cbn. by rewrite app_nil_r, <-!app_assoc.
      * intros s [Hs|Hs%list_elem_of_singleton]%elem_of_app; [by apply H3|]. subst s. cbn. by apply H4.
  - destruct (String.eqb_spec (currentTag b) "") as [Ec|Hc]; cbn [negb].
    + destruct (H2 Ec) as [E1 E2]. split; cbn; [rewrite <-H1, E1, E2; cbn; by rewrite !app_nil_r|by rewrite E1, E2|by rewrite E2; intros s ?%elem_of_nil|done].
    + split; cbn; [rewrite <-H1; by rewrite <-!app_assoc|done|done|]. intros _. destruct (H4 Hc) as (first & rest & -> & Ht). by exists first, (rest ++ [trim_space line])%list.
Qed.

Lemma blocks_inv lines : block_inv (fold_left block_line lines empty_block) (meaningful lines).
Proof.
  induction lines as [|line lines IH] using rev_ind; [split; cbn; try done; by intros ? ?%elem_of_nil|].
  rewrite fold_left_app. cbn [fold_left]. unfold meaningful. rewrite map_app, List.filter_app. by apply block_line_inv.
Qed.

(** The lines that count are all the parser looks at. *)
Definition take_line (b : block_state) (trimmed : string) : block_state :=
  match scenarioTag trimmed with
  | Some tag =>
      let b := flush b in
      {| bs_name := bs_name b; bs_header := bs_header b; bs_scenarios := bs_scenarios b; currentTag := tag; currentLines := [trimmed] |}
  | None =>
      if negb (String.eqb (currentTag b) "") then
        {| bs_name := bs_name b; bs_header := bs_header b; bs_scenarios := bs_scenarios b; currentTag := currentTag b;
           currentLines := (currentLines b ++ [trimmed])%list |}
      else
        {| bs_name := if has_prefix featureKeyword trimmed then trim_space (TrimPrefix trimmed featureKeyword) else bs_name b;
           bs_header := (bs_header b ++ [trimmed])%list; bs_scenarios := bs_scenarios b; currentTag := ""; currentLines := currentLines b |}
  end.
Lemma fold_meaningful lines b : fold_left block_line lines b = fold_left take_line (meaningful lines) b.
Proof.
  revert b. induction lines as [|line lines IH]; intros b; [done|]. cbn [fold_left]. unfold meaningful. cbn [map List.filter].
  unfold block_line. destruct (String.eqb (trim_space line) ""); cbn [negb fold_left]; apply IH.
Qed.

Lemma flush_text b seen : block_inv b seen -> let f := flush b in
  (bs_header f ++ flat_map Lines (bs_scenarios f))%list = seen /\
  (forall s, s ∈ bs_scenarios f -> exists first rest, Lines s = first :: rest /\ scenarioTag first = Some (Tag s)).
Proof.
  intros [H1 H2 H3 H4]. unfold flush. destruct (String.eqb_spec (currentTag b) "") as [Ec|Hc]; cbn.
  - destruct (H2 Ec) as [E1 E2]. rewrite <-H1, E1, E2. split; [done|by intros ? ?%elem_of_nil].
  - rewrite flat_map_app. cbn. rewrite app_nil_r, <-H1. split; [done|].
    intros s [Hs|Hs%list_elem_of_singleton]%elem_of_app; [by apply H3|]. subst s. by apply H4.
Qed.

(** Parsing loses and invents nothing.  A block that parses is cut, in
    order, into a header and scenarios whose lines together are the block's
    lines that are not blank, trimmed; each scenario starts at a line with
    exactly its own tag; and blocks that differ in indentation and blank lines
    only parse to the same feature. *)
Theorem parse_lossless lines origin f : parseBlock lines origin = Ok f ->
  feature_text f = meaningful lines /\ Name f <> "" /\ Scenarios f <> [] /\
  (forall s, s ∈ Scenarios f -> exists first rest, Lines s = first :: rest /\ scenarioTag first = Some (Tag s)) /\
  (forall lines', meaningful lines' = meaningful lines -> parseBlock lines' origin = Ok f).
Proof.
  intros H. pose proof (flush_text _ _ (blocks_inv lines)) as [Ht Hs].
  assert (forall lines', meaningful lines' = meaningful lines -> parseBlock lines' origin = Ok f) as Hn.
  { intros lines' E. rewrite <-H. unfold parseBlock. by rewrite !fold_meaningful, E. }
  revert H. unfold parseBlock. destruct (String.eqb_spec (bs_name (flush (fold_left block_line lines empty_block))) ""); [done|].
  destruct (bs_scenarios (flush (fold_left block_line lines empty_block))) as [|s ss] eqn:Es; [done|]. intros [= <-].
  unfold feature_text. cbn [Header Scenarios Name]. by split_and!.
Qed.

(** ** Digests *)
Definition texts_ok (f : Feature) : Prop := Forall line_ok (Header f) /\ forall s, s ∈ Scenarios f -> Forall line_ok (Lines s).

Lemma meaningful_ok lines : (forall l, l ∈ lines -> no_newline l = true) -> Forall line_ok (meaningful lines).
Proof.
  intros H. apply list.Forall_forall. intros x Hx. apply list_elem_of_In, List.filter_In in Hx as [Hx Hn].
  apply List.in_map_iff in Hx as (l & <- & Hl%list_elem_of_In). split.
  - apply negb_true_iff, String.eqb_neq in Hn. done.
  - by apply trim_space_chars, H.
Qed.

Lemma parsed_texts lines origin f : (forall l, l ∈ lines -> no_newline l = true) -> parseBlock lines origin = Ok f -> texts_ok f.
Proof.
  intros Hl H. pose proof (flush_text _ _ (blocks_inv lines)) as [Ht _]. apply meaningful_ok in Hl. rewrite <-Ht in Hl.
  revert H. unfold parseBlock. destruct (String.eqb _ ""); [done|].
  destruct (flush (fold_left block_line lines empty_block)) as [name header scenarios ct cl]. cbn [bs_header bs_scenarios] in *.
  apply list.Forall_app in Hl as [Hh Hs]. destruct scenarios as [|s ss]; [done|]. intros [= <-]. split; [done|].
  intros x Hx. apply list.Forall_forall. intros l Hin. eapply list.Forall_forall in Hs; [exact Hs|].
  apply list_elem_of_In, List.in_flat_map. exists x. by split; apply list_elem_of_In.
Qed.

Section Faithful.
Context (sha256 : string -> list Z) (quoted : string -> string).

Lemma parse_files_texts read paths fs : parse_feature_files read paths = Ok fs -> forall f, f ∈ fs -> texts_ok f.
Proof.
  revert fs. induction paths as [|path paths IH]; cbn [parse_feature_files]; intros fs; [intros [= <-] f ?%elem_of_nil; done|].
  destruct (read path) as [contents|]; [|done]. destruct (parseBlock _ _) as [f|] eqn:Ef; [|done]. cbn [mbind result_bind].
  destruct (parse_feature_files read paths) as [more|]; [|done]. cbn [mbind result_bind]. intros [= <-] g [-> | Hg]%elem_of_cons; [|by eapply IH].
  eapply parsed_texts; [|exact Ef]. intros l. apply split_pieces.
Qed.

Lemma feature_files_texts walk read root fs : ParseFeatureFiles quoted walk read root = Ok fs -> forall f, f ∈ fs -> texts_ok f.
Proof.
  unfold ParseFeatureFiles. destruct (paths_under _ _ _ _) as [paths|]; [|done]. cbn [mbind result_bind].
  destruct (parse_feature_files read paths) as [[|f more]|] eqn:E; [done| |done]. cbn [mbind result_bind].
  destruct (dedupe _ _); [|done]. intros [= <-]. by eapply parse_files_texts.
Qed.

Lemma last_value_fmap {X V W} (key : X -> string) (val : X -> V) (g : V -> W) xs k :
  last_value key (fun x => g (val x)) xs k = option_map g (last_value key val xs k).
Proof.
  unfold last_value. induction xs as [|x xs IH] using rev_ind; [done|]. rewrite !fold_left_app. cbn. rewrite IH. by destruct (String.eqb _ _).
Qed.

Lemma computed_features fs d name : dg_Features (fold_left (add_feature sha256) fs d) !! name =
  match header_of fs name with Some h => Some (digest sha256 h) | None => dg_Features d !! name end.
Proof.
  assert (dg_Features (fold_left (add_feature sha256) fs d) =
    fold_left (fun m f => <[Name f := digest sha256 (Header f)]> m) fs (dg_Features d)) as ->
    by (revert d; induction fs as [|f fs IH]; intros d; [done|]; cbn; by rewrite IH).
  rewrite index_lookup. unfold header_of. rewrite (last_value_fmap Name Header (digest sha256)). by destruct (last_value _ _ _ _).
Qed.

Lemma computed_scenarios fs d tag : dg_Scenarios (fold_left (add_feature sha256) fs d) !! tag =
  match lines_of fs tag with Some l => Some (digest sha256 l) | None => dg_Scenarios d !! tag end.
Proof.
  assert (dg_Scenarios (fold_left (add_feature sha256) fs d) =
    fold_left (fun m s => <[Tag s := digest sha256 (Lines s)]> m) (flat_map Scenarios fs) (dg_Scenarios d)) as ->
    by (revert d; induction fs as [|f fs IH]; intros d; [done|]; cbn; by rewrite fold_left_app, IH).
  rewrite index_lookup. unfold lines_of. rewrite (last_value_fmap Tag Lines (digest sha256)). by destruct (last_value _ _ _ _).
Qed.

Context (Hsha : forall a b, sha256 a = sha256 b -> a = b) (Hbytes : forall a, Forall (fun b => 0 <= b < 256) (sha256 a)).

Lemma digest_inj a b : Forall line_ok a -> Forall line_ok b -> digest sha256 a = digest sha256 b -> a = b.
Proof.
  intros Ha Hb E. apply join_lines_inj; [done..|]. apply Hsha. unfold digest in E. apply (f_equal hex_decode) in E.
  rewrite !hex_decode_encode in E by apply Hbytes. by injection E.
Qed.

Lemma header_of_ok fs name h : (forall f, f ∈ fs -> texts_ok f) -> header_of fs name = Some h -> Forall line_ok h.
Proof. intros H (f & Hf & _ & <-)%last_value_in. by apply H. Qed.
Lemma lines_of_ok fs tag l : (forall f, f ∈ fs -> texts_ok f) -> lines_of fs tag = Some l -> Forall line_ok l.
Proof.
  intros H (s & Hs & _ & <-)%last_value_in. apply list_elem_of_In, List.in_flat_map in Hs as (f & Hf%list_elem_of_In & Hs%list_elem_of_In).
  by apply (H f).
Qed.

Lemma digested_eq (x y : option (list string)) : (forall l, x = Some l -> Forall line_ok l) -> (forall l, y = Some l -> Forall line_ok l) ->
  option_map (digest sha256) x = option_map (digest sha256) y <-> x = y.
Proof.
  intros Hx Hy. split; [|by intros ->]. destruct x as [a|], y as [b|]; cbn; try done. intros [= E]. f_equal.
  apply digest_inj; auto.
Qed.

(** What the committed digests prove.  Unless SHA-256 collides, the check of
    the committed digests against those of the .feature files is silent exactly
    if every feature has the header, and every scenario tag the lines, it had
    when the digests were taken; of a tag that occurs twice only the last
    scenario is protected. *)
Theorem digests_faithful walk read root walk' read' root' blessed current :
  ParseFeatureFiles quoted walk read root = Ok blessed -> ParseFeatureFiles quoted walk' read' root' = Ok current ->
  CompareDigests (ComputeDigests sha256 blessed) (ComputeDigests sha256 current) = [] <->
  (forall name, header_of blessed name = header_of current name) /\ (forall tag, lines_of blessed tag = lines_of current tag).
Proof.
  intros Hb Hc. pose proof (feature_files_texts _ _ _ _ Hb). pose proof (feature_files_texts _ _ _ _ Hc). unfold CompareDigests, ComputeDigests. rewrite app_nil, !compareMaps_nil.
  assert (forall fs name, dg_Features (fold_left (add_feature sha256) fs {| dg_Features := ∅; dg_Scenarios := ∅ |}) !! name =
    option_map (digest sha256) (header_of fs name)) as Hf by (intros; rewrite computed_features; by destruct (header_of _ _)).
  assert (forall fs tag, dg_Scenarios (fold_left (add_feature sha256) fs {| dg_Features := ∅; dg_Scenarios := ∅ |}) !! tag =
    option_map (digest sha256) (lines_of fs tag)) as Hl by (intros; rewrite computed_scenarios; by destruct (lines_of _ _)).
  split.
  - intros [E1 E2]. split.
    + intros name. apply digested_eq; [intros l; by apply header_of_ok|intros l; by apply header_of_ok|]. by rewrite <-!Hf, E1.
    + intros tag. apply digested_eq; [intros l; by apply lines_of_ok|intros l; by apply lines_of_ok|]. by rewrite <-!Hl, E2.
  - intros [E1 E2]. split; apply map_eq; intros k; [by rewrite !Hf, E1|by rewrite !Hl, E2].
Qed.
End Faithful.

(** ** Artifacts, features and digests together *)
Definition feature_of : list Feature -> string -> option Feature := last_value Name id.
Definition agree (authored executable : Feature) : Prop :=
  Header authored = Header executable /\
  forall tag, last_value Tag Lines (Scenarios authored) tag = last_value Tag Lines (Scenarios executable) tag.

Lemma indexByTag_lines f tag : option_map Lines (indexByTag f !! tag) = last_value Tag Lines (Scenarios f) tag.
Proof.
  unfold indexByTag. rewrite (index_lookup Tag id). rewrite (last_value_fmap Tag id Lines). by destruct (last_value Tag id _ _).
Qed.

Lemma compareFeature_nil quoted a e : compareFeature quoted a e = [] <-> agree a e.
Proof.
  unfold compareFeature, agree. rewrite !app_nil, !flat_map_nil.
  assert ((match compareLines (Header a) (Header e) with
           | "" => []
           | difference => ["Funcionalidade " +:+ quoted (Name a) +:+ " header differs (" +:+ Origin a +:+ " vs " +:+
                            Origin e +:+ "): " +:+ difference]
           end) = [] <-> Header a = Header e) as ->.
  { rewrite <-(compareLines_nil (Header a) (Header e)). by destruct (compareLines _ _); split. }
  split.
  - intros (Hh & H1 & H2). split; [done|]. intros tag. rewrite <-!indexByTag_lines.
    destruct (indexByTag a !! tag) as [s|] eqn:Ea.
    + specialize (H1 tag (proj2 (sortedKeys_in _ tag) (ex_intro _ s Ea))). unfold scenario_difference in H1. rewrite Ea in H1.
      destruct (indexByTag e !! tag) as [s'|]; [|done]. cbn. f_equal. apply compareLines_nil. by destruct (compareLines _ _).
    + destruct (indexByTag e !! tag) as [s'|] eqn:Ee; [|done].
      specialize (H2 tag (proj2 (sortedKeys_in _ tag) (ex_intro _ s' Ee))). by rewrite Ea in H2.
  - intros [Hh H]. split; [done|].
    assert (forall tag, option_map Lines (indexByTag a !! tag) = option_map Lines (indexByTag e !! tag)) as Hl by (intros; by rewrite !indexByTag_lines).
    split; intros tag [s Hs]%sortedKeys_in; specialize (Hl tag); rewrite Hs in Hl; cbn in Hl.
    + unfold scenario_difference. rewrite Hs. destruct (indexByTag e !! tag) as [s'|]; [|done]. injection Hl as ->.
      by rewrite (proj2 (compareLines_nil _ _) eq_refl).
    + by destruct (indexByTag a !! tag).
Qed.

Lemma CompareFeatures_nil quoted artifacts features : CompareFeatures quoted artifacts features = [] <->
  forall name, match feature_of artifacts name, feature_of features name with
               | Some a, Some e => agree a e
               | None, None => True
               | _, _ => False
               end.
Proof.
  unfold CompareFeatures. rewrite app_nil, !flat_map_nil.
  assert (forall fs name, indexByName fs !! name = feature_of fs name) as Hi
    by (intros fs name; unfold indexByName, feature_of; rewrite (index_lookup Name id); by destruct (last_value _ _ _ _)).
  split.
  - intros [H1 H2] name. specialize (H1 name). specialize (H2 name). rewrite sortedKeys_in, !Hi in H1, H2.
    destruct (feature_of artifacts name) as [a|], (feature_of features name) as [e|]; [| | |done].
    + apply (compareFeature_nil quoted), H1. by eexists.
    + specialize (H1 ltac:(by eexists)). done.
    + specialize (H2 ltac:(by eexists)). done.
  - intros H. split; intros name Hk; rewrite sortedKeys_in, Hi in Hk; rewrite !Hi; specialize (H name);
      destruct (feature_of artifacts name) as [a|], (feature_of features name) as [e|]; try done. by apply compareFeature_nil.
Qed.

Lemma last_value_unique {X V} (key : X -> string) (val : X -> V) xs k v : base.NoDup (map key xs) ->
  last_value key val xs k = Some v <-> exists x, x ∈ xs /\ key x = k /\ val x = v.
Proof.
  intros Hn. split; [apply last_value_in|]. intros (x & Hx & <- & <-). unfold last_value. revert Hn Hx.
  induction xs as [|y xs IH] using rev_ind; [by intros _ ?%elem_of_nil|]. rewrite map_app, fold_left_app. cbn.
  intros (Hn & Hd & _)%list.NoDup_app [Hx|Hx%list_elem_of_singleton]%elem_of_app.
  - destruct (String.eqb_spec (key y) (key x)) as [E|_]; [|by apply IH]. exfalso. apply (Hd (key x)).
    + apply list_elem_of_In, List.in_map, list_elem_of_In, Hx.
    + rewrite E. by apply list_elem_of_singleton.
  - subst. by rewrite String.eqb_refl.
Qed.

(** Every scenario of a list of features has a tag of its own. *)
Definition unique_tags (fs : list Feature) : Prop := base.NoDup (map Tag (flat_map Scenarios fs)).

Lemma unique_in_feature fs f : unique_tags fs -> f ∈ fs -> base.NoDup (map Tag (Scenarios f)).
Proof.
  unfold unique_tags. intros H (l1 & l2 & ->)%list_elem_of_split. rewrite flat_map_app, map_app in H. cbn in H.
  rewrite map_app in H. apply list.NoDup_app in H as (_ & _ & H). by apply list.NoDup_app in H as (H & _ & _).
Qed.

Lemma agree_lines fs gs tag l : unique_tags fs -> unique_tags gs -> base.NoDup (map Name fs) ->
  (forall name a, feature_of fs name = Some a -> exists e, feature_of gs name = Some e /\ agree a e) ->
  lines_of fs tag = Some l -> lines_of gs tag = Some l.
Proof.
  intros Hf Hg Hn H Hl. unfold lines_of in *. apply (last_value_unique Tag Lines) in Hl as (s & Hs & Ht & Hv); [|exact Hf].
  apply list_elem_of_In, List.in_flat_map in Hs as (f & Hin%list_elem_of_In & Hs%list_elem_of_In).
  destruct (H (Name f) f) as (e & He & _ & Hag).
  { apply (last_value_unique Name id); [exact Hn|]. by exists f. }
  assert (last_value Tag Lines (Scenarios e) tag = Some l) as Hl.
  { rewrite <-Hag. apply last_value_unique; [exact (unique_in_feature fs f Hf Hin)|]. by exists s. }
  apply last_value_in in Hl as (s' & Hs' & Ht' & Hv'). apply last_value_in in He as (e' & He' & _ & <-).
  apply last_value_unique; [exact Hg|]. exists s'. split; [|done].
  apply list_elem_of_In, List.in_flat_map. exists e'. by split; apply list_elem_of_In.
Qed.

Lemma dedupe_names quoted fs seen : dedupe_from quoted seen fs = Ok tt ->
  base.NoDup (map Name fs) /\ forall f, f ∈ fs -> seen !! Name f = None.
Proof.
  revert seen. induction fs as [|f fs IH]; intros seen; cbn [dedupe_from map].
  - split; [constructor|by intros ? ?%elem_of_nil].
  - destruct (seen !! Name f) eqn:E; [done|]. intros [H1 H2]%IH. split.
    + constructor; [|done]. intros (g & Eg & Hg)%list_elem_of_fmap_1. specialize (H2 g Hg). by rewrite <-Eg, lookup_insert_eq in H2.
    + intros g [-> | Hg]%elem_of_cons; [done|]. specialize (H2 g Hg). by apply lookup_insert_None in H2 as [? _].
Qed.

Lemma parsed_names quoted fs : dedupe quoted fs = Ok tt -> base.NoDup (map Name fs).
Proof. intros H. by apply dedupe_names in H as [? _]. Qed.

Lemma agree_sym a e : agree a e -> agree e a.
Proof. intros [H1 H2]. by split. Qed.

Lemma artifacts_names quoted walk read root fs : ParseArtifacts quoted walk read root = Ok fs -> base.NoDup (map Name fs).
Proof.
  unfold ParseArtifacts. destruct (paths_under _ _ _ _); [|done]. cbn [mbind result_bind]. destruct (parse_artifact_files _ _) as [[|f l]|]; [done| |done].
  cbn [mbind result_bind]. destruct (dedupe quoted (f :: l)) as [[]|] eqn:E; [|done]. cbn [mbind result_bind]. intros [= <-]. by apply parsed_names in E.
Qed.
Lemma features_names quoted walk read root fs : ParseFeatureFiles quoted walk read root = Ok fs -> base.NoDup (map Name fs).
Proof.
  unfold ParseFeatureFiles. destruct (paths_under _ _ _ _); [|done]. cbn [mbind result_bind]. destruct (parse_feature_files _ _) as [[|f l]|]; [done| |done].
  cbn [mbind result_bind]. destruct (dedupe quoted (f :: l)) as [[]|] eqn:E; [|done]. cbn [mbind result_bind]. intros [= <-]. by apply parsed_names in E.
Qed.

Lemma compared_equal quoted artifacts features : base.NoDup (map Name artifacts) -> base.NoDup (map Name features) ->
  unique_tags artifacts -> unique_tags features -> CompareFeatures quoted artifacts features = [] ->
  (forall name, header_of artifacts name = header_of features name) /\ (forall tag, lines_of artifacts tag = lines_of features tag).
Proof.
  intros Na Nf Ua Uf H. pose proof (proj1 (CompareFeatures_nil quoted artifacts features) H) as Hc. split.
  - intros name. specialize (Hc name). unfold header_of.
    change (last_value Name Header) with (last_value Name (fun f : Feature => Header (id f))).
    rewrite !(last_value_fmap Name id Header). fold (feature_of artifacts name) (feature_of features name).
    destruct (feature_of artifacts name), (feature_of features name); try done. cbn. by destruct Hc as [-> _].
  - intros tag. apply option_eq. intros l. split.
    + apply agree_lines; try done. intros name a E. specialize (Hc name). rewrite E in Hc.
      destruct (feature_of features name) as [e|]; [|done]. by exists e.
    + apply agree_lines; try done. intros name e E. specialize (Hc name). rewrite E in Hc.
      destruct (feature_of artifacts name) as [a|]; [|done]. exists a. split; [done|by apply agree_sym].
Qed.

(** What the digests committed with a blessing prove.  The digests are those
    of .feature files that were compared with the planning artifacts without a
    difference.  Unless SHA-256 collides, the later check, which sees only the
    .feature files, is silent exactly if every feature still has the header and
    every scenario tag the lines of the artifacts, up to indentation and blank
    lines; the tags being unique, as the catalog demands. *)
Theorem bless_sound sha256 quoted walk_a read_a root_a walk read root walk' read' root' artifacts blessed current :
  (forall a b, sha256 a = sha256 b -> a = b) -> (forall a, Forall (fun b => 0 <= b < 256) (sha256 a)) ->
  ParseArtifacts quoted walk_a read_a root_a = Ok artifacts -> ParseFeatureFiles quoted walk read root = Ok blessed ->
  CompareFeatures quoted artifacts blessed = [] -> unique_tags artifacts -> unique_tags blessed ->
  ParseFeatureFiles quoted walk' read' root' = Ok current ->
  CompareDigests (ComputeDigests sha256 blessed) (ComputeDigests sha256 current) = [] <->
  (forall name, header_of artifacts name = header_of current name) /\ (forall tag, lines_of artifacts tag = lines_of current tag).
Proof.
  intros Hsha Hbytes Ha Hb Hcmp Ua Ub Hc.
  destruct (compared_equal quoted artifacts blessed) as [E1 E2]; [by eapply artifacts_names|by eapply features_names|done..|].
  rewrite (digests_faithful sha256 quoted Hsha Hbytes _ _ _ _ _ _ _ _ Hb Hc). split; intros [H1 H2]; split; intros k.
  - by rewrite E1.
  - by rewrite E2.
  - by rewrite <-E1.
  - by rewrite <-E2.
Qed.

(** ** The catalog of scenarios *)
Module Catalog.
Definition expectedScenarioCount : nat := 81.
Record Catalog : Type := { FeatureFiles : list string; ScenarioTags : list string; ImplementedScenarios : list string }.

(** The parts of a parsed document the catalog looks at. *)
Inductive child : Type := Rule (name : string) | ScenarioChild (name : string) (tags : list string) | OtherChild.

(** The lines of bufio.Scanner, until one does not fit its buffer. *)
Definition strip_cr (l : string) : string :=
  match String.length l with
  | O => l
  | S n => if String.eqb (String.substring n 1 l) (String (chr 13) "") then String.substring 0 n l else l
  end.
Fixpoint scan_pieces (pieces : list string) : list string * option error :=
  match pieces with
  | [] => ([], None)
  | [last] => if String.eqb last "" then ([], None)
              else if 65536 <=? slen last then ([], Some (EMsg "bufio.Scanner: token too long")) else ([strip_cr last], None)
  | piece :: rest =>
      if 65536 <=? slen piece then ([], Some (EMsg "bufio.Scanner: token too long"))
      else let '(lines, err) := scan_pieces rest in (strip_cr piece :: lines, err)
  end.
Definition scan_lines (contents : string) : list string * option error := scan_pieces (split newline contents).

Section Catalog.
Context (quoted : string -> string) (walk : string -> result (list (string * bool))) (read : string -> result string).
Context (gherkin : string -> result (option (list child))).

Fixpoint child_tags (path : string) (children : list child) : result (list string) :=
  match children with
  | [] => Ok []
  | Rule name :: _ => Err (EMsg (path +:+ " contains Regra: " +:+ quoted name +:+ "; Regra: is not supported by the flat scenario catalog"))
  | OtherChild :: rest => child_tags path rest
  | ScenarioChild name tags :: rest =>
      match List.filter (has_prefix scenarioTagMark) tags with
      | [tag] => more ← child_tags path rest; Ok (tag :: more)
      | found => Err (EMsg (path +:+ " scenario " +:+ quoted name +:+ " must have exactly one @SCN-* tag, found " +:+
                            fmt_d (Z.of_nat (length found))))
      end
  end.
Definition parseFeature (path : string) : result (list string) :=
  match read path with
  | Err err => Err (EWrap ("read " +:+ path) err)
  | Ok contents =>
      let '(firstLine, _, _) := cut newline contents in
      if negb (String.eqb firstLine "# language: pt") then Err (EMsg (path +:+ " must declare # language: pt on the first line"))
      else
        match gherkin contents with
        | Err err => Err (EWrap ("parse " +:+ path) err)
        | Ok None => Err (EMsg (path +:+ " must contain exactly one Funcionalidade"))
        | Ok (Some children) => child_tags path children
        end
  end.

(** [seen] maps a tag to the first file that has it. *)
Fixpoint add_tags (path : string) (fileTags : list string) (seen : gmap string string) : result (gmap string string) :=
  match fileTags with
  | [] => Ok seen
  | tag :: rest =>
      match seen !! tag with
      | Some firstPath => Err (EMsg ("duplicate scenario tag " +:+ tag +:+ " in " +:+ firstPath +:+ " and " +:+ path))
      | None => add_tags path rest (<[tag := path]> seen)
      end
  end.
Fixpoint load_features (paths : list string) (seen : gmap string string) (tags : list string) : result (gmap string string * list string) :=
  match paths with
  | [] => Ok (seen, tags)
  | path :: rest =>
      fileTags ← parseFeature path;
      seen ← add_tags path fileTags seen;
      load_features rest seen (tags ++ fileTags)%list
  end.

(** The manifest: [line] counts from 1. *)
Fixpoint manifest_lines (line : Z) (lines : list string) (known : gmap string string) (seen : gset string) : result (list string) :=
  match lines with
  | [] => Ok []
  | text :: rest =>
      let value := trim_space text in
      if String.eqb value "" || has_prefix "#" value then manifest_lines (line + 1) rest known seen
      else if negb (has_prefix scenarioTagMark value) || contains_sub " " value || contains_sub (String (chr 9) "") value
      then Err (EMsg ("manifest line " +:+ fmt_d line +:+ " must contain exactly one @SCN-* tag"))
      else
        match known !! value with
        | None => Err (EMsg ("manifest line " +:+ fmt_d line +:+ " references unknown tag " +:+ value))
        | Some _ =>
            if bool_decide (value ∈ seen) then Err (EMsg ("manifest line " +:+ fmt_d line +:+ " duplicates " +:+ value))
            else more ← manifest_lines (line + 1) rest known ({[value]} ∪ seen); Ok (value :: more)
        end
  end.
Definition loadManifest (path : string) (known : gmap string string) : result (list string) :=
  match read path with
  | Err err => Err (EWrap "open manifest" err)
  | Ok contents =>
      let '(lines, err) := scan_lines contents in
      implemented ← manifest_lines 1 lines known ∅;
      match err with
      | Some err => Err (EWrap "read manifest" err)
      | None => Ok (sort_strings implemented)
      end
  end.

Definition featurePaths (root : string) : result (list string) :=
  match walk root with
  | Err err => Err (EWrap "walk features" err)
  | Ok entries =>
      Ok (sort_strings (map fst (List.filter (fun e => negb (snd e) && String.eqb (filepath_Ext (fst e)) ".feature") entries)))
  end.

Definition Load (featuresDir manifestPath : string) : result Catalog :=
  paths ← featurePaths featuresDir;
  match paths with
  | [] => Err (EMsg ("no .feature files found in " +:+ featuresDir))
  | _ =>
      '(seen, tags) ← load_features paths ∅ [];
      if negb (length tags =? expectedScenarioCount)%nat
      then Err (EMsg ("expected 81 unique @SCN-* tags, found " +:+ fmt_d (Z.of_nat (length tags))))
      else
        implemented ← loadManifest manifestPath seen;
        Ok {| FeatureFiles := paths; ScenarioTags := sort_strings tags; ImplementedScenarios := implemented |}
  end.

Lemma add_tags_ok path fileTags seen seen' : add_tags path fileTags seen = Ok seen' ->
  base.NoDup fileTags /\ (forall t, t ∈ fileTags -> seen !! t = None) /\
  (forall t, is_Some (seen' !! t) <-> is_Some (seen !! t) \/ t ∈ fileTags).
Proof.
  revert seen. induction fileTags as [|tag rest IH]; intros seen; cbn [add_tags].
  - intros [= <-]. split; [constructor|]. split; [by intros ? ?%elem_of_nil|]. intros t. rewrite elem_of_nil. tauto.
  - destruct (seen !! tag) eqn:E; [done|]. intros (H1 & H2 & H3)%IH. split_and!.
    + constructor; [|done]. intros Hin. apply H2 in Hin. by rewrite lookup_insert_eq in Hin.
    + intros t [-> | Ht]%elem_of_cons; [done|]. by apply H2, lookup_insert_None in Ht as [? _].
    + intros t. rewrite H3, elem_of_cons. destruct (decide (tag = t)) as [-> | Hne].
      * rewrite lookup_insert_eq. split; [by right; left|left; by eexists].
      * rewrite lookup_insert_ne by done. split; [tauto|]. intros [?|[->|?]]; [by left|done|by right].
Qed.

Lemma load_features_ok paths seen tags seen' tags' :
  base.NoDup tags /\ (forall t, is_Some (seen !! t) <-> t ∈ tags) -> load_features paths seen tags = Ok (seen', tags') ->
  base.NoDup tags' /\ (forall t, is_Some (seen' !! t) <-> t ∈ tags').
Proof.
  revert seen tags. induction paths as [|path paths IH]; intros seen tags Hi; cbn [load_features]; [by intros [= <- <-]|].
  destruct (parseFeature path) as [fileTags|]; [|done]. cbn [mbind result_bind].
  destruct (add_tags path fileTags seen) as [seen1|] eqn:Ea; [|done]. cbn [mbind result_bind]. apply IH.
  apply add_tags_ok in Ea as (H1 & H2 & H3). destruct Hi as [I1 I2]. split.
  - apply list.NoDup_app. split_and!; [done| |done]. intros t Ht Hf. apply I2 in Ht as [v Hv]. by rewrite H2 in Hv.
  - intros t. by rewrite H3, I2, elem_of_app.
Qed.

Lemma manifest_ok line lines known seen implemented : manifest_lines line lines known seen = Ok implemented ->
  base.NoDup implemented /\ forall t, t ∈ implemented -> t ∉ seen /\ is_Some (known !! t).
Proof.
  revert line seen implemented. induction lines as [|text lines IH]; intros line seen implemented; cbn [manifest_lines].
  - intros [= <-]. split; [constructor|by intros ? ?%elem_of_nil].
  - destruct (_ || _); [apply IH|]. destruct (_ || _); [done|]. destruct (known !! trim_space text) eqn:Ek; [|done].
    case_bool_decide as Hs; [done|]. destruct (manifest_lines _ _ _ _) as [more|] eqn:Em; [|done]. intros [= <-].
    apply IH in Em as [H1 H2]. split.
    + constructor; [|done]. intros [Hn _]%H2. apply Hn, elem_of_union. left. by apply elem_of_singleton.
    + intros t [-> | Ht]%elem_of_cons; [split; [done|by eexists]|]. apply H2 in Ht as [Hn Hk]. split; [|done].
      intros Hin. apply Hn, elem_of_union. by right.
Qed.

(** A catalog that loads has 81 scenario tags, each once, and implements some
    of them, each listed once. *)
Theorem Load_sound featuresDir manifestPath c : Load featuresDir manifestPath = Ok c ->
  length (ScenarioTags c) = expectedScenarioCount /\ base.NoDup (ScenarioTags c) /\
  base.NoDup (ImplementedScenarios c) /\ forall t, t ∈ ImplementedScenarios c -> t ∈ ScenarioTags c.
Proof.
  unfold Load. destruct (featurePaths _) as [[|path paths]|]; [done| |done]. cbn [mbind result_bind].
  destruct (load_features _ _ _) as [[seen tags]|] eqn:El; [|done]. cbn [mbind result_bind].
  destruct (Nat.eqb_spec (length tags) expectedScenarioCount) as [En|]; [|done]. cbn [negb].
  unfold loadManifest. destruct (read manifestPath) as [contents|]; [|done]. destruct (scan_lines contents) as [lines err].
  destruct (manifest_lines _ _ _ _) as [implemented|] eqn:Em; [|done]. cbn [mbind result_bind]. destruct err; [done|]. intros [= <-]. cbn.
  apply load_features_ok in El as [H1 H2]; [|split; [constructor|]; intros t; rewrite lookup_empty, elem_of_nil; by split; [intros [? ?]|]].
  apply manifest_ok in Em as [H3 H4]. split_and!.
  - unfold sort_strings. by rewrite sort_by_length.
  - unfold sort_strings. by rewrite sort_by_perm.
  - unfold sort_strings. by rewrite sort_by_perm.
  - intros t. unfold sort_strings. rewrite !sort_by_in. intros [_ Hk]%H4. by apply H2.
Qed.

(** The exit code of bddcheck and what it prints: [encode] is the JSON of a
    catalog, or why writing it failed. *)
Definition bddcheck_exit (encode : Catalog -> result string) (features manifest : string) (jsonOutput : bool) : Z * string :=
  match Load features manifest with
  | Err _ => (1, "")
  | Ok catalog =>
      if jsonOutput then match encode catalog with Err _ => (1, "") | Ok text => (0, text) end
      else (0, "validated " +:+ fmt_d (Z.of_nat (length (FeatureFiles catalog))) +:+ " features, " +:+
               fmt_d (Z.of_nat (length (ScenarioTags catalog))) +:+ " unique scenarios, " +:+
               fmt_d (Z.of_nat (length (ImplementedScenarios catalog))) +:+ " implemented" +:+ String newline "")
  end.

(** The check passes only for a catalog that loads. *)
Lemma bddcheck_passes encode features manifest jsonOutput : fst (bddcheck_exit encode features manifest jsonOutput) = 0 ->
  is_ok (Load features manifest) = true.
Proof. unfold bddcheck_exit. by destruct (Load features manifest). Qed.
End Catalog.
End Catalog.

(** ** A blessing *)
Definition sample_sha (text : string) : list Z := map code (String.list_ascii_of_string text).
Definition sample_markdown : string :=
  "# Plan" +:+ String newline ("```gherkin" +:+ String newline ("  Funcionalidade: Saldo" +:+ String newline
  ("    @SCN-1 @evidencia" +:+ String newline ("    Cenario: um" +:+ String newline ("```" +:+ String newline ""))))).
Definition sample_feature_text : string :=
  "Funcionalidade: Saldo" +:+ String newline (String newline ("@SCN-1 @evidencia" +:+ String newline ("Cenario: um" +:+ String newline ""))).
Definition sample_walk (path : string) (_ : string) : result (list (string * bool)) := Ok [("dir", true); (path, false)].
Definition sample_read (text : string) (_ : string) : result string := Ok text.
Definition sample_feature (origin : string) : Feature :=
  {| Name := "Saldo"; Origin := origin; Header := ["Funcionalidade: Saldo"];
     Scenarios := [{| Tag := "@SCN-1"; Lines := ["@SCN-1 @evidencia"; "Cenario: um"] |}] |}.

Lemma parse_lossless_witness : feature_text (sample_feature "o") = meaningful (split newline sample_feature_text).
Proof. refine (proj1 (parse_lossless (split newline sample_feature_text) "o" (sample_feature "o") _)). vm_compute. reflexivity. Defined.

Lemma bless_sound_witness :
  lines_of [sample_feature "plan.md block 1"] "@SCN-1" = lines_of [sample_feature "b.feature"] "@SCN-1".
Proof.
  assert (base.NoDup ["@SCN-1"]) as Hn by (constructor; [by intros ?%elem_of_nil|constructor]).
  refine (proj2 (proj1 (bless_sound sample_sha (fun s => s) (sample_walk "plan.md") (sample_read sample_markdown) "docs"
    (sample_walk "a.feature") (sample_read sample_feature_text) "features" (sample_walk "b.feature") (sample_read sample_feature_text) "features"
    [sample_feature "plan.md block 1"] [sample_feature "a.feature"] [sample_feature "b.feature"] _ _ _ _ _ _ _ _) _) "@SCN-1").
  - intros a b E. unfold sample_sha in E. apply (f_equal (map chr)) in E. rewrite !map_map in E.
    rewrite !(map_ext (fun c => chr (code c)) id) in E by apply chr_code. rewrite !map_id in E.
    apply (f_equal String.string_of_list_ascii) in E. by rewrite !String.string_of_list_ascii_of_string in E.
  - intros a. apply list.Forall_forall. intros b Hb. apply list_elem_of_In, List.in_map_iff in Hb as (c & <- & _). apply code_range.
  - vm_compute. reflexivity.
  - vm_compute. reflexivity.
  - vm_compute. reflexivity.
  - exact Hn.
  - exact Hn.
  - vm_compute. reflexivity.
  - vm_compute. reflexivity.
Defined.
