(* ===== verification/RepositoryPolicy.v ===== *)
(** * The policies of the repository

    cmd/workflowpolicy: what a workflow of the continuous integration may say.
    cmd/securitypolicy: which findings of a vulnerability scan block it.
    internal/bddrunner: when a run of the acceptance suite counts.

    [open_yaml] is the file and what its decoder answers the two calls made of
    it, [stat] whether a path is a directory, [walk] the entries under one.  A
    mapping node of the decoder holds its keys and values in turn. *)

From S2P Require Import Prelude.
From S2P Require Import Sorting.
From S2P Require Import GoStrings.
From S2P Require Import GoDuration.
From S2P Require Import BddSource.
From Stdlib Require String.
From Stdlib Require Import ZArith Lia Ascii.
Open Scope string_scope.
Open Scope Z_scope.

(** ** Patterns *)
(** A letter of a case-insensitive pattern also matches its fold: the long s
    and the Kelvin sign. *)
Definition fold_rune (c : ascii) (s : string) : option (ascii * string) :=
  match s with
  | "" => None
  | String d r =>
      if Ascii.eqb (lower_ascii d) c then Some (d, r)
      else if Ascii.eqb c "s" && has_prefix (String (chr 197) (String (chr 191) "")) s then Some (chr 191, drop_chars 2 s)
      else if Ascii.eqb c "k" && has_prefix (String (chr 226) (String (chr 132) (String (chr 170) ""))) s then Some (chr 170, drop_chars 3 s)
      else None
  end.

(** Expressions under (?i), with \s and \b. *)
Inductive regex : Type := Lit (text : string) | Spaces (least : nat) | Bound | Cat (a b : regex) | Either (a b : regex).
(** A place in a text: the byte before it and the rest. *)
Definition place : Type := option ascii * string.
Definition is_pattern_space (c : ascii) : bool := existsb (Z.eqb (code c)) [9; 10; 12; 13; 32].
Definition is_word_char (c : ascii) : bool :=
  is_digit c || is_upper c || ((97 <=? code c) && (code c <=? 122)) || Ascii.eqb c "_".

Fixpoint match_lit (text : string) (p : place) : list place :=
  match text with
  | "" => [p]
  | String c text => match fold_rune c (snd p) with Some (d, r) => match_lit text (Some d, r) | None => [] end
  end.
Fixpoint match_spaces (least : nat) (prev : option ascii) (s : string) : list place :=
  ((match least with O => [(prev, s)] | S _ => [] end) ++
   match s with
   | String c r => if is_pattern_space c then match_spaces (pred least) (Some c) r else []
   | "" => []
   end)%list.
Definition word_before (p : place) : bool := match fst p with Some c => is_word_char c | None => false end.
Definition word_after (p : place) : bool := match snd p with String c _ => is_word_char c | "" => false end.
(** Every place a match that starts here can end. *)
Fixpoint match_at (r : regex) (p : place) : list place :=
  match r with
  | Lit text => match_lit text p
  | Spaces least => match_spaces least (fst p) (snd p)
  | Bound => if xorb (word_before p) (word_after p) then [p] else []
  | Cat a b => flat_map (match_at b) (match_at a p)
  | Either a b => (match_at a p ++ match_at b p)%list
  end.
Fixpoint found_from (r : regex) (prev : option ascii) (s : string) : bool :=
  match match_at r (prev, s) with
  | [] => match s with String c rest => found_from r (Some c) rest | "" => false end
  | _ => true
  end.
Definition found (r : regex) (s : string) : bool := found_from r None s.
(** strings.EqualFold with an ASCII word. *)
Definition folds_to (s word : string) : bool := existsb (fun p => String.eqb (snd p) "") (match_lit word (None, s)).

Fixpoint cats (l : list regex) : regex := match l with [] => Lit "" | [r] => r | r :: l => Cat r (cats l) end.
Definition secretContext : regex := cats [Bound; Lit "secrets"; Spaces 0; Either (Lit ".") (Lit "[")].
Definition forbiddenRun : regex :=
  Either (cats [Lit "docker"; Spaces 1; Lit "push"])
  (Either (cats [Lit "docker"; Spaces 1; Lit "stack"; Spaces 1; Lit "deploy"])
  (Either (cats [Bound; Lit "kubectl"; Bound])
  (Either (cats [Bound; Lit "helm"; Spaces 1; Either (Lit "install") (Lit "upgrade")])
  (Either (Lit "ghcr.io")
          (cats [Bound; Lit "aws"; Spaces 1; Either (Lit "ecs") (Either (Lit "eks") (Lit "deploy")); Bound]))))).

(** [^@[:space:]]+@ and a digest of [n] digits after [algorithm] *)
Definition pinned (algorithm : string) (n : nat) (s : string) : bool :=
  let '(name, digest, at_sign) := cut "@" s in
  at_sign && negb (String.eqb name "") && forall_chars (fun c => negb (is_ascii_space c)) name && has_prefix algorithm digest &&
  (let hex := drop_chars (String.length algorithm) digest in (String.length hex =? n)%nat && forall_chars is_lower_hex hex).
Definition fullSHA : string -> bool := pinned "" 40.
Definition dockerDigest (s : string) : bool := has_prefix "docker://" s && pinned "sha256:" 64 (drop_chars 9 s).
Definition hostedUbuntu (s : string) : bool :=
  has_prefix "ubuntu-" s &&
  (let v := drop_chars 7 s in
   String.eqb v "latest" ||
   match v with
   | String a (String b (String d (String e (String f "")))) => forallb is_digit [a; b; e; f] && Ascii.eqb d "."
   | _ => false
   end).
Definition immutableAction (reference : string) : bool := has_prefix "./" reference || fullSHA reference || dockerDigest reference.

(** ** Nodes *)
Inductive kind : Type := DocumentNode | SequenceNode | MappingNode | ScalarNode | AliasNode.
#[global] Instance kind_eq_dec : EqDecision kind. Proof. solve_decision. Defined.
Inductive node : Type := Node (k : kind) (tag value : string) (content : list node).
Definition Kind (n : node) : kind := match n with Node k _ _ _ => k end.
Definition NTag (n : node) : string := match n with Node _ t _ _ => t end.
Definition Value (n : node) : string := match n with Node _ _ v _ => v end.
Definition Content (n : node) : list node := match n with Node _ _ _ c => c end.
Definition is_kind (k : kind) (n : node) : bool := bool_decide (Kind n = k).

Fixpoint keys (content : list node) : list node :=
  match content with [] => [] | key :: [] => [key] | key :: _ :: rest => key :: keys rest end.
Fixpoint add_pairs (values : gmap string node) (content : list node) : gmap string node :=
  match content with
  | key :: value :: rest => add_pairs (<[Value key := value]> values) rest
  | _ => values
  end.
Definition mapping (n : node) : gmap string node := add_pairs ∅ (Content n).

(** The checks below give the message of the error, if there is one. *)
Fixpoint check_keys (quoted : string -> string) (seen : gset string) (ks : list node) : option string :=
  match ks with
  | [] => None
  | key :: rest =>
      if negb (is_kind ScalarNode key) || negb (String.eqb (NTag key) "!!str") then Some "mapping keys must be strings"
      else if String.eqb (Value key) "<<" then Some "YAML merge keys are forbidden"
      else if bool_decide (Value key ∈ seen) then Some ("duplicate YAML key " +:+ (quoted (Value key) +:+ " is forbidden"))
      else check_keys quoted ({[Value key]} ∪ seen) rest
  end.
(** The first message of a list of checks. *)
Fixpoint first_message {A} (check : A -> option string) (l : list A) : option string :=
  match l with [] => None | a :: l => match check a with Some m => Some m | None => first_message check l end end.

Definition node_shape (quoted : string -> string) (n : node) : option string :=
  if is_kind AliasNode n then Some "YAML aliases are forbidden"
  else if is_kind MappingNode n then check_keys quoted ∅ (keys (Content n)) else None.
Definition node_secret (n : node) : option string :=
  if is_kind ScalarNode n && (folds_to (Value n) "secrets" || found secretContext (Value n))
  then Some "secret context access is forbidden" else None.
(** A check of a node and then of its children, in order. *)
Fixpoint visit (check : node -> option string) (n : node) : option string :=
  match check n with
  | Some m => Some m
  | None => match n with Node _ _ _ content => first_message (visit check) content end
  end.
Definition validateYAMLShape (quoted : string -> string) : node -> option string := visit (node_shape quoted).
Definition rejectSecretContext : node -> option string := visit node_secret.

(** ** Workflows *)
Definition formatPermissions (values : gmap string string) : string :=
  join "," (map (fun key => key +:+ (":" +:+ default "" (values !! key))) (sortedKeys values)).
Definition permission_held (actual : gmap string node) (p : string * string) : bool :=
  match actual !! fst p with Some n => is_kind ScalarNode n && String.eqb (Value n) (snd p) | None => false end.
(** The range over [expected] only picks which entry is found wrong first. *)
Definition exactPermissions (n : option node) (expected : gmap string string) : option string :=
  match n with
  | Some n =>
      if negb (is_kind MappingNode n) then Some "must be an explicit mapping with least privilege"
      else if negb (size (mapping n) =? size expected)%nat || negb (forallb (permission_held (mapping n)) (map_to_list expected))
      then Some ("must be exactly " +:+ formatPermissions expected) else None
  | None => Some "must be an explicit mapping with least privilege"
  end.

Definition validateConcurrency (n : option node) : option string :=
  match n with
  | Some n =>
      if negb (is_kind MappingNode n) then Some "concurrency must be a mapping"
      else
        let values := mapping n in
        if negb (match values !! "group" with
                 | Some group => is_kind ScalarNode group && negb (String.eqb (trim_space (Value group)) "")
                 | None => false
                 end) then Some "concurrency.group is required"
        else if negb (match values !! "cancel-in-progress" with
                      | Some cancel => String.eqb (NTag cancel) "!!bool" && String.eqb (Value cancel) "true"
                      | None => false
                      end) then Some "concurrency.cancel-in-progress must be true"
        else None
  | None => Some "concurrency must be a mapping"
  end.

(** filepath.Base *)
Fixpoint last_element (acc s : string) : string :=
  match s with
  | "" => acc
  | String c r => if Ascii.eqb c "/" then last_element "" r else last_element (acc +:+ String c "") r
  end.
Fixpoint trim_slashes (s : string) : string :=
  match s with
  | "" => ""
  | String c r => let r := trim_slashes r in if Ascii.eqb c "/" && String.eqb r "" then "" else String c r
  end.
Definition filepath_Base (path : string) : string :=
  if String.eqb path "" then "." else let p := trim_slashes path in if String.eqb p "" then "/" else last_element "" p.

Definition contents_read : gmap string string := {["contents" := "read"]}.
Definition job_permissions (path jobID : string) : gmap string string :=
  let authorization := filepath_Base path +:+ ("/" +:+ jobID) in
  if String.eqb authorization "security.yml/sarif-upload" then <["actions" := "read"]> (<["security-events" := "write"]> contents_read)
  else if String.eqb authorization "codeql.yml/analyze" then <["security-events" := "write"]> contents_read
  else contents_read.

Definition validate_step (indexed : nat * node) : option string :=
  let '(index, stepNode) := indexed in
  let label := "step " +:+ fmt_d (Z.of_nat index + 1) in
  if negb (is_kind MappingNode stepNode) then Some (label +:+ " must be a mapping")
  else
    let step := mapping stepNode in
    match step !! "uses" with
    | Some uses => if negb (is_kind ScalarNode uses) || negb (immutableAction (Value uses))
                   then Some (label +:+ (" external action must use a full immutable digest/SHA: " +:+ Value uses))
                   else match step !! "run" with
                        | Some run => if is_kind ScalarNode run && found forbiddenRun (Value run)
                                      then Some (label +:+ " contains a publication or deployment command") else None
                        | None => None
                        end
    | None => match step !! "run" with
              | Some run => if is_kind ScalarNode run && found forbiddenRun (Value run)
                            then Some (label +:+ " contains a publication or deployment command") else None
              | None => None
              end
    end.

Definition validateJob (path jobID : string) (n : node) : option string :=
  if negb (is_kind MappingNode n) then Some "definition must be a mapping"
  else
    let job := mapping n in
    match job !! "environment" with
    | Some _ => Some "environment is forbidden in this phase"
    | None =>
        if negb (match job !! "runs-on" with Some runner => is_kind ScalarNode runner && hostedUbuntu (Value runner) | None => false end)
        then Some "runs-on must be an explicit GitHub-hosted Ubuntu label"
        else if negb (match job !! "timeout-minutes" with
                      | Some timeout => String.eqb (NTag timeout) "!!int" &&
                          match Atoi (Value timeout) with Ok minutes => 0 <? minutes | Err _ => false end
                      | None => false
                      end) then Some "timeout-minutes must be a positive integer"
        else
          match match job !! "permissions" with
                | Some permissionNode => exactPermissions (Some permissionNode) (job_permissions path jobID)
                | None => None
                end with
          | Some m => Some ("permissions " +:+ m)
          | None =>
              match job !! "steps" with
              | Some steps =>
                  if negb (is_kind SequenceNode steps) || (length (Content steps) =? 0)%nat then Some "steps must be a non-empty sequence"
                  else first_message validate_step (zip (seq 0 (length (Content steps))) (Content steps))
              | None => Some "steps must be a non-empty sequence"
              end
          end
    end.

(** The trigger that runs foreign code with the repository's rights. *)
Definition forbidden_trigger (top : gmap string node) : bool :=
  match top !! "on" with
  | Some trigger => is_kind MappingNode trigger && match mapping trigger !! "pull_request_target" with Some _ => true | None => false end
  | None => false
  end.

Section Workflow.
Context (quoted : string -> string) (error_text : error -> string).

Definition validate_root (path : string) (root : node) : option string :=
  match validateYAMLShape quoted root with
  | Some m => Some m
  | None =>
      match rejectSecretContext root with
      | Some m => Some m
      | None =>
          let top := mapping root in
          if forbidden_trigger top then Some "pull_request_target is forbidden"
          else
            match exactPermissions (top !! "permissions") contents_read with
            | Some m => Some ("top-level permissions " +:+ m)
            | None =>
                match validateConcurrency (top !! "concurrency") with
                | Some m => Some m
                | None =>
                    match top !! "jobs" with
                    | Some jobsNode =>
                        if negb (is_kind MappingNode jobsNode) || (length (Content jobsNode) =? 0)%nat
                        then Some "jobs must be a non-empty mapping"
                        else
                          let jobs := mapping jobsNode in
                          first_message (fun jobID =>
                            match jobs !! jobID with
                            | Some job => match validateJob path jobID job with
                                          | Some m => Some ("job " +:+ (jobID +:+ (": " +:+ m)))
                                          | None => None
                                          end
                            | None => None
                            end) (sortedKeys jobs)
                    | None => Some "jobs must be a non-empty mapping"
                    end
                end
            end
      end
  end.

(** A file the decoder has read: what its two calls answer; [None] is the end
    of the file. *)
Record yaml_file : Type := { first_document : result node; second_document : option (result unit) }.
Context (open_yaml : string -> result yaml_file).

Definition validateWorkflow (path : string) : result unit :=
  let violation message := Err (EMsg (path +:+ (": " +:+ message))) in
  match open_yaml path with
  | Err err => violation ("open workflow: " +:+ error_text err)
  | Ok file =>
      match first_document file with
      | Err err => violation ("parse YAML: " +:+ error_text err)
      | Ok document =>
          match second_document file with
          | Some (Ok _) => violation "multiple YAML documents are forbidden"
          | Some (Err err) => violation ("parse trailing YAML: " +:+ error_text err)
          | None =>
              match Content document with
              | [root] =>
                  if negb (is_kind MappingNode root) then violation "workflow root must be a mapping"
                  else match validate_root path root with Some m => violation m | None => Ok tt end
              | _ => violation "workflow root must be a mapping"
              end
          end
      end
  end.

(** ** The files, and the exit code *)
Context (stat : string -> result bool) (walk : string -> result (list (string * bool))).
Context (to_lower_text : string -> string).

Definition is_workflow_file (e : string * bool) : bool :=
  negb (snd e) && (let ext := to_lower_text (filepath_Ext (fst e)) in String.eqb ext ".yml" || String.eqb ext ".yaml").
(** [paths] holds each path once, in the order found. *)
Definition add_path (paths : list string) (path : string) : list string :=
  if bool_decide (path ∈ paths) then paths else (paths ++ [path])%list.
Fixpoint collect_files (inputs : list string) (paths : list string) : result (list string) :=
  match inputs with
  | [] => Ok paths
  | input :: rest =>
      match stat input with
      | Err err => Err (EWrap ("workflow input " +:+ input) err)
      | Ok false => collect_files rest (add_path paths input)
      | Ok true =>
          match walk input with
          | Err err => Err (EWrap ("walk workflow directory " +:+ input) err)
          | Ok entries => collect_files rest (fold_left add_path (map fst (List.filter is_workflow_file entries)) paths)
          end
      end
  end.
Definition workflowFiles (inputs : list string) : result (list string) :=
  match inputs with
  | [] => Err (EMsg "usage: workflowpolicy WORKFLOW_OR_DIRECTORY [...]")
  | _ => paths ← collect_files inputs []; Ok (sort_strings paths)
  end.
Definition flagArgs (args : list string) : list string :=
  match args with arg :: rest => if String.eqb arg "--" then rest else args | [] => [] end.
Definition workflow_exit (args : list string) : Z :=
  match workflowFiles (flagArgs args) with
  | Err _ => 2
  | Ok [] => 2
  | Ok paths => if forallb (fun path => is_ok (validateWorkflow path)) paths then 0 else 1
  end.
End Workflow.

(** ** The scan *)
Record vulnerability : Type := { v_ID : string; v_Package : string; v_Severity : string; FixedVersion : string }.
Record misconfiguration : Type := { m_ID : string; m_Title : string; m_Severity : string }.
Record scan_result : Type := { Target : string; Vulnerabilities : list vulnerability; Misconfigurations : list misconfiguration }.
Record report : Type := { SchemaVersion : Z; Results : list scan_result }.

(** strings.ToUpper, for comparing with HIGH and CRITICAL: the dotless i is the
    one rune beyond ASCII whose upper case is one of their letters. *)
Fixpoint upper_word (s : string) : string :=
  match s with
  | "" => ""
  | String a s' =>
      match s' with
      | String b r => if Ascii.eqb a (chr 196) && Ascii.eqb b (chr 177) then String "I" (upper_word r)
                      else String (upper_ascii a) (upper_word s')
      | "" => String (upper_ascii a) ""
      end
  end.
Definition vulnerability_blocks (requireFix : bool) (v : vulnerability) : bool :=
  let severity := upper_word (v_Severity v) in
  if negb (String.eqb severity "HIGH") && negb (String.eqb severity "CRITICAL") then false
  else negb (requireFix && String.eqb (FixedVersion v) "").
Definition misconfiguration_blocks (m : misconfiguration) : bool := String.eqb (upper_word (m_Severity m)) "CRITICAL".
Definition count_blocked (requireFix : bool) (blocked : nat) (r : scan_result) : nat :=
  (blocked + length (List.filter (vulnerability_blocks requireFix) (Vulnerabilities r)) +
   length (List.filter misconfiguration_blocks (Misconfigurations r)))%nat.

(** The exit code of securitypolicy: [read] is os.ReadFile, [parse] json.Unmarshal. *)
Definition security_exit (read : string -> result string) (parse : string -> result report) (reportPath : string) (requireFix : bool) : Z :=
  if String.eqb reportPath "" then 2
  else
    match (data ← read reportPath; parse data) with
    | Err _ => 2
    | Ok scan =>
        if SchemaVersion scan <=? 0 then 2
        else if (0 <? fold_left (count_blocked requireFix) (Results scan) 0)%nat then 1 else 0
    end.

(** ** The acceptance suite: internal/bddrunner *)
Inductive step_status : Type := StepPassed | StepFailed | StepSkipped | StepUndefined | StepPending | StepAmbiguous.
Definition violates (status : step_status) : bool := match status with StepPassed => false | _ => true end.
(** What the hooks of [Run] have counted. *)
Record observed : Type := { executed : nat; violations : nat }.
Definition before_scenario (o : observed) : observed := {| executed := S (executed o); violations := violations o |}.
Definition after_step (o : observed) (status : step_status) : observed :=
  if violates status then {| executed := executed o; violations := S (violations o) |} else o.
Definition observe_scenario (o : observed) (steps : list step_status) : observed := fold_left after_step steps (before_scenario o).

(** [suite] is what Godog runs for the tag expression: the statuses of the
    steps of each scenario, and the exit status.  The error of a rejected status
    also prints how often each occurred. *)
Definition Run (suite : string -> list (list step_status) * Z) (tags : list string) : result unit :=
  match tags with
  | [] => Err (EMsg "implemented scenario selection is empty")
  | _ =>
      let '(scenarios, status) := suite (join "," tags) in
      let o := fold_left observe_scenario scenarios {| executed := 0; violations := 0 |} in
      if (executed o =? 0)%nat then Err (EMsg "implemented manifest selected zero Godog scenarios")
      else if (0 <? violations o)%nat then Err (EMsg "Godog rejected step statuses")
      else if negb (status =? 0) then Err (EMsg ("Godog suite returned status " +:+ fmt_d status))
      else Ok tt
  end.

(** ** The checks of nodes *)
(** A node and everything under it. *)
Fixpoint nodes (n : node) : list node := n :: match n with Node _ _ _ content => flat_map nodes content end.

Section NodeInd.
Context (P : node -> Prop) (H : forall k tag value content, Forall P content -> P (Node k tag value content)).
Fixpoint node_ind' (n : node) : P n :=
  match n with
  | Node k tag value content =>
      H k tag value content ((fix go (l : list node) : Forall P l :=
        match l with [] => List.Forall_nil _ | x :: l => @List.Forall_cons _ P x l (node_ind' x) (go l) end) content)
  end.
End NodeInd.

Lemma first_message_None {A} (check : A -> option string) l : first_message check l = None <-> forall a, a ∈ l -> check a = None.
Proof.
  induction l as [|a l IH]; cbn; [split; [by intros _ ? ?%elem_of_nil|done]|]. destruct (check a) as [m|] eqn:E.
  - split; [done|]. intros H. rewrite H in E by left. done.
  - rewrite IH. split; [intros H b [-> | Hb]%elem_of_cons; auto|intros H b Hb; apply H; by right].
Qed.

Lemma visit_None check n : visit check n = None <-> forall m, m ∈ nodes n -> check m = None.
Proof.
  induction n as [k tag value content IH] using node_ind'. cbn [visit nodes]. rewrite list.Forall_forall in IH.
  destruct (check (Node k tag value content)) as [m|] eqn:E.
  - split; [done|]. intros H. rewrite H in E by left. done.
  - rewrite first_message_None. split.
    + intros H m [-> | Hm]%elem_of_cons; [done|]. apply list_elem_of_In, List.in_flat_map in Hm as (c & Hc & Hm).
      apply list_elem_of_In in Hc, Hm. by apply (IH c Hc); [apply H|].
    + intros H c Hc. apply IH; [done|]. intros m Hm. apply H. right. apply list_elem_of_In, List.in_flat_map. exists c.
      by rewrite <-!list_elem_of_In.
Qed.

Lemma check_keys_None quoted seen ks : check_keys quoted seen ks = None <->
  (forall k, k ∈ ks -> Kind k = ScalarNode /\ NTag k = "!!str" /\ Value k <> "<<" /\ Value k ∉ seen) /\ base.NoDup (map Value ks).
Proof.
  revert seen. induction ks as [|k ks IH]; intros seen; cbn [check_keys map].
  { split; [intros _; split; [by intros ? ?%elem_of_nil|constructor]|done]. }
  unfold is_kind. case_bool_decide as Ek; [|split; [done|intros [Hall _]; by destruct (Hall k) as [? _]; [left|]]].
  destruct (String.eqb_spec (NTag k) "!!str") as [Et|]; [|split; [done|intros [Hall _]; by destruct (Hall k) as (_ & ? & _); [left|]]]. cbn [negb orb].
  destruct (String.eqb_spec (Value k) "<<") as [E|Hne]; [split; [done|intros [Hall _]; by destruct (Hall k) as (_ & _ & ? & _); [left|]]|].
  case_bool_decide as Hs; [split; [done|intros [Hall _]; by destruct (Hall k) as (_ & _ & _ & ?); [left|]]|].
  rewrite IH. split.
  - intros [H1 H2]. split.
    + intros k' [-> | Hk]%elem_of_cons; [by split_and!|].
      destruct (H1 k' Hk) as (? & ? & ? & Hn). split_and!; try done. set_solver.
    + constructor; [|done]. intros Hin. apply list_elem_of_fmap_1 in Hin as (k' & E & Hk). destruct (H1 k' Hk) as (_ & _ & _ & Hn). set_solver.
  - intros [H1 H2]. inversion H2 as [|? ? Hnin Hnd]; subst. split; [|done]. intros k' Hk. destruct (H1 k') as (? & ? & ? & ?); [by right|].
    split_and!; try done. intros [Heq%elem_of_singleton|?]%elem_of_union; [|done]. apply Hnin. rewrite <-Heq. by apply (list_elem_of_fmap_2 Value).
Qed.

(** ** What an approved workflow is *)
Definition says (n : node) (key : string) (v : node) : Prop := mapping n !! key = Some v.
Definition keys_proper (content : list node) : Prop :=
  (forall k, k ∈ keys content -> Kind k = ScalarNode /\ NTag k = "!!str" /\ Value k <> "<<") /\ base.NoDup (map Value (keys content)).
Definition well_shaped (root : node) : Prop :=
  forall m, m ∈ nodes root -> Kind m <> AliasNode /\ (Kind m = MappingNode -> keys_proper (Content m)).
Definition secret_free (root : node) : Prop :=
  forall m, m ∈ nodes root -> Kind m = ScalarNode -> folds_to (Value m) "secrets" = false /\ found secretContext (Value m) = false.
(** A mapping with exactly these scalar entries. *)
Definition permits (n : node) (expected : gmap string string) : Prop :=
  Kind n = MappingNode /\ forall key, match mapping n !! key, expected !! key with
    | Some v, Some value => Kind v = ScalarNode /\ Value v = value | None, None => True | _, _ => False end.
Definition concurrency_held (n : node) : Prop :=
  Kind n = MappingNode /\ (exists group, says n "group" group /\ Kind group = ScalarNode /\ trim_space (Value group) <> "") /\
  exists cancel, says n "cancel-in-progress" cancel /\ NTag cancel = "!!bool" /\ Value cancel = "true".
Definition step_approved (step : node) : Prop :=
  Kind step = MappingNode /\
  (forall uses, says step "uses" uses -> Kind uses = ScalarNode /\ immutableAction (Value uses) = true) /\
  (forall run, says step "run" run -> Kind run = ScalarNode -> found forbiddenRun (Value run) = false).
Definition job_approved (path jobID : string) (job : node) : Prop :=
  Kind job = MappingNode /\ mapping job !! "environment" = None /\
  (exists runner, says job "runs-on" runner /\ Kind runner = ScalarNode /\ hostedUbuntu (Value runner) = true) /\
  (exists timeout minutes, says job "timeout-minutes" timeout /\ NTag timeout = "!!int" /\ Atoi (Value timeout) = Ok minutes /\ 0 < minutes) /\
  (forall p, says job "permissions" p -> permits p (job_permissions path jobID)) /\
  exists steps, says job "steps" steps /\ Kind steps = SequenceNode /\ Content steps <> [] /\ forall step, step ∈ Content steps -> step_approved step.
Definition root_approved (path : string) (root : node) : Prop :=
  Kind root = MappingNode /\ well_shaped root /\ secret_free root /\
  (forall trigger, says root "on" trigger -> Kind trigger = MappingNode -> mapping trigger !! "pull_request_target" = None) /\
  (exists p, says root "permissions" p /\ permits p contents_read) /\
  (exists c, says root "concurrency" c /\ concurrency_held c) /\
  exists jobs, says root "jobs" jobs /\ Kind jobs = MappingNode /\ Content jobs <> [] /\
    forall jobID job, says jobs jobID job -> job_approved path jobID job.

Lemma is_kind_true k n : is_kind k n = true <-> Kind n = k.
Proof. unfold is_kind. apply bool_decide_eq_true. Qed.
Lemma is_kind_false k n : is_kind k n = false <-> Kind n <> k.
Proof. unfold is_kind. apply bool_decide_eq_false. Qed.

Lemma shape_None quoted root : validateYAMLShape quoted root = None <-> well_shaped root.
Proof.
  unfold validateYAMLShape, well_shaped. rewrite visit_None. apply forall_proper. intros m. apply forall_proper. intros Hm. unfold node_shape.
  destruct (is_kind AliasNode m) eqn:Ea; [apply is_kind_true in Ea; split; [done|by intros [? _]]|]. apply is_kind_false in Ea.
  destruct (is_kind MappingNode m) eqn:Em.
  - apply is_kind_true in Em. rewrite check_keys_None. unfold keys_proper. split.
    + intros [H1 H2]. split; [done|]. intros _. split; [|done]. intros k Hk. destruct (H1 k Hk) as (? & ? & ? & _). done.
    + intros [_ H]. destruct (H Em) as [H1 H2]. split; [|done]. intros k Hk. destruct (H1 k Hk) as (? & ? & ?). by split_and!.
  - apply is_kind_false in Em. split; [by intros _|done].
Qed.

Lemma secret_None root : rejectSecretContext root = None <-> secret_free root.
Proof.
  unfold rejectSecretContext, secret_free. rewrite visit_None. apply forall_proper. intros m. apply forall_proper. intros Hm. unfold node_secret.
  destruct (is_kind ScalarNode m) eqn:Ek; cbn [andb].
  - apply is_kind_true in Ek. destruct (folds_to _ _), (found _ _); cbn; naive_solver.
  - apply is_kind_false in Ek. by split.
Qed.

Lemma permissions_None n expected : exactPermissions (Some n) expected = None <-> permits n expected.
Proof.
  unfold exactPermissions, permits. destruct (is_kind MappingNode n) eqn:Ek; cbn [negb].
  2:{ apply is_kind_false in Ek. by split; [|intros [? _]]. } apply is_kind_true in Ek.
  assert (forallb (permission_held (mapping n)) (map_to_list expected) = true <->
    forall key value, expected !! key = Some value -> exists v, mapping n !! key = Some v /\ Kind v = ScalarNode /\ Value v = value) as Hf.
  { rewrite forallb_forall. split.
    - intros H key value Hkv. specialize (H (key, value)). apply elem_of_map_to_list, list_elem_of_In, H in Hkv. unfold permission_held in Hkv.
      cbn [fst snd] in Hkv. destruct (mapping n !! key) as [v|]; [|done]. apply andb_true_iff in Hkv as [?%is_kind_true ?%String.eqb_eq]. by exists v.
    - intros H [key value] Hin. apply list_elem_of_In, elem_of_map_to_list, H in Hin as (v & Hv & Hk & <-). unfold permission_held. cbn [fst snd].
      rewrite Hv. by rewrite (proj2 (is_kind_true _ _) Hk), String.eqb_refl. }
  destruct (Nat.eqb_spec (size (mapping n)) (size expected)) as [Es|Es], (forallb _ _) eqn:Eb; cbn [negb orb];
    (split; [intros Hd; try done|intros [_ Hall]; try done]).
  - split; [done|]. pose proof (proj1 Hf eq_refl) as H. assert (dom expected = dom (mapping n)) as Hdom.
    { apply leibniz_equiv, set_subseteq_size_equiv; [|rewrite !size_dom; lia]. intros key [value Hv]%elem_of_dom.
      apply H in Hv as (v & Hv & _). apply elem_of_dom. by exists v. }
    intros key. destruct (mapping n !! key) as [v|] eqn:Ev, (expected !! key) as [value|] eqn:Ee; try done.
    + apply H in Ee as (w & Hw & ? & ?). rewrite Ev in Hw. by injection Hw as <-.
    + apply not_elem_of_dom in Ee. apply Ee. rewrite Hdom. apply elem_of_dom. by exists v.
    + apply H in Ee as (w & Hw & _). congruence.
  - exfalso. enough (false = true) by done. apply Hf. intros key value He. specialize (Hall key). rewrite He in Hall.
    destruct (mapping n !! key) as [v|]; [|done]. by exists v.
  - exfalso. apply Es. rewrite <-!size_dom. f_equal. apply set_eq. intros key. rewrite !elem_of_dom. specialize (Hall key).
    destruct (mapping n !! key), (expected !! key); try done; by split; intros [? ?].
  - exfalso. enough (false = true) by done. apply Hf. intros key value He. specialize (Hall key). rewrite He in Hall.
    destruct (mapping n !! key) as [v|]; [|done]. by exists v.
Qed.

(** Take apart the entry of a mapping that a check looks at. *)
Ltac entry n key :=
  let v := fresh "v" in let E := fresh "E" in
  destruct (mapping n !! key) as [v|] eqn:E; [|split; [done|intros Hok; exfalso; unfold says in Hok; rewrite E in Hok; naive_solver]].

Lemma concurrency_None n : validateConcurrency (Some n) = None <-> concurrency_held n.
Proof.
  unfold validateConcurrency, concurrency_held, says. destruct (is_kind MappingNode n) eqn:Ek; cbn [negb].
  2:{ apply is_kind_false in Ek. by split; [|intros [? _]]. } apply is_kind_true in Ek.
  destruct (mapping n !! "group") as [g|]; [|naive_solver]. destruct (is_kind ScalarNode g) eqn:Eg; [apply is_kind_true in Eg|apply is_kind_false in Eg; naive_solver].
  cbn [andb]. destruct (String.eqb_spec (trim_space (Value g)) "") as [Et|Et]; cbn [negb]; [naive_solver|].
  destruct (mapping n !! "cancel-in-progress") as [c|]; [|naive_solver].
  destruct (String.eqb_spec (NTag c) "!!bool"); cbn [andb negb]; [|naive_solver].
  destruct (String.eqb_spec (Value c) "true"); cbn [negb]; naive_solver.
Qed.

Lemma step_None index step : validate_step (index, step) = None <-> step_approved step.
Proof.
  unfold validate_step, step_approved, says. destruct (is_kind MappingNode step) eqn:Ek; cbn [negb].
  2:{ apply is_kind_false in Ek. by split; [|intros [? _]]. } apply is_kind_true in Ek.
  assert (match mapping step !! "run" with
    | Some run => if is_kind ScalarNode run && found forbiddenRun (Value run)
                  then Some ("step " +:+ fmt_d (Z.of_nat index + 1) +:+ " contains a publication or deployment command") else None
    | None => None end = None <-> forall run, mapping step !! "run" = Some run -> Kind run = ScalarNode -> found forbiddenRun (Value run) = false) as Hrun.
  { destruct (mapping step !! "run") as [run|]; [|naive_solver]. destruct (is_kind ScalarNode run) eqn:Er; cbn [andb].
    - apply is_kind_true in Er. destruct (found _ _) eqn:Ef; [split; [done|intros Hr; rewrite (Hr run) in Ef by done; done]|]. split; [intros _ ? [= <-] _; done|done].
    - apply is_kind_false in Er. naive_solver. }
  destruct (mapping step !! "uses") as [uses|]; [|rewrite Hrun; naive_solver].
  destruct (is_kind ScalarNode uses) eqn:Eu; [apply is_kind_true in Eu|apply is_kind_false in Eu; split; [done|intros (_ & Hu & _); by destruct (Hu uses)]].
  cbn [negb orb].
  destruct (immutableAction (Value uses)) eqn:Ei; cbn [negb]; [rewrite Hrun; naive_solver|].
  split; [done|intros (_ & Hu & _); destruct (Hu uses); congruence].
Qed.

Lemma steps_None l start : first_message validate_step (zip (seq start (length l)) l) = None <-> forall step, step ∈ l -> step_approved step.
Proof.
  revert start. induction l as [|step l IH]; intros start; [split; [by intros _ ? ?%elem_of_nil|done]|]. cbn [length seq zip zip_with first_message].
  destruct (validate_step (start, step)) as [m|] eqn:E.
  - split; [done|]. intros H. assert (validate_step (start, step) = None) as E' by (apply step_None, H; left). congruence.
  - apply step_None in E. rewrite IH. split; [intros H s [-> | Hs]%elem_of_cons; auto|intros H s Hs; apply H; by right].
Qed.

Lemma permissions_opt n e label : match match n with Some p => exactPermissions (Some p) e | None => None end with
  | Some m => Some (label +:+ m) | None => None end = None <-> forall p, n = Some p -> permits p e.
Proof.
  destruct n as [p|]; [|naive_solver]. destruct (exactPermissions (Some p) e) eqn:E.
  - split; [done|]. intros H. assert (exactPermissions (Some p) e = None) as E' by (by apply permissions_None, H). congruence.
  - apply permissions_None in E. naive_solver.
Qed.

Lemma job_None path jobID job : validateJob path jobID job = None <-> job_approved path jobID job.
Proof.
  unfold validateJob, job_approved, says. destruct (is_kind MappingNode job) eqn:Ek; cbn [negb].
  2:{ apply is_kind_false in Ek. by split; [|intros [? _]]. } apply is_kind_true in Ek.
  destruct (mapping job !! "environment"); [naive_solver|].
  destruct (mapping job !! "runs-on") as [runner|]; [|naive_solver].
  destruct (is_kind ScalarNode runner) eqn:Er; [apply is_kind_true in Er|apply is_kind_false in Er; split; [done|intros (_ & _ & (? & [= <-] & ? & _) & _); done]]. cbn [andb].
  destruct (hostedUbuntu (Value runner)) eqn:Eh; cbn [negb]; [|split; [done|intros (_ & _ & (? & [= <-] & _ & ?) & _); congruence]].
  destruct (mapping job !! "timeout-minutes") as [timeout|]; [|naive_solver].
  destruct (String.eqb_spec (NTag timeout) "!!int") as [Et|]; cbn [andb negb]; [|split; [done|intros (_ & _ & _ & (? & ? & [= <-] & ? & _) & _); done]].
  destruct (Atoi (Value timeout)) as [minutes|] eqn:Em; cbn [negb]; [|split; [done|intros (_ & _ & _ & (? & ? & [= <-] & _ & ? & _) & _); congruence]].
  destruct (Z.ltb_spec 0 minutes); cbn [negb]; [|split; [done|intros (_ & _ & _ & (? & ? & [= <-] & _ & Ha & ?) & _); rewrite Em in Ha; injection Ha as <-; lia]].
  pose proof (permissions_opt (mapping job !! "permissions") (job_permissions path jobID) "") as Hp.
  destruct (match mapping job !! "permissions" with Some p => exactPermissions (Some p) _ | None => None end) as [m|].
  { split; [done|]. intros (_ & _ & _ & _ & H5 & _). by apply Hp in H5. }
  pose proof (proj1 Hp eq_refl) as H5. clear Hp.
  destruct (mapping job !! "steps") as [steps|]; [|naive_solver].
  destruct (is_kind SequenceNode steps) eqn:Es; [apply is_kind_true in Es|apply is_kind_false in Es; split; [done|intros (_ & _ & _ & _ & _ & ? & [= <-] & ? & _); done]]. cbn [negb orb].
  destruct (Content steps) as [|s l] eqn:Ec; [split; [done|intros (_ & _ & _ & _ & _ & ? & [= <-] & _ & ? & _); congruence]|].
  pose proof (steps_None (s :: l) 0) as Hst. cbn [length Nat.eqb] in *. rewrite Hst. split.
  - intros Hs. split_and!; try done; [by exists runner|by exists timeout, minutes|]. exists steps. by rewrite Ec.
  - intros (_ & _ & _ & _ & _ & steps' & [= <-] & _ & _ & Hs). by rewrite Ec in Hs.
Qed.

Lemma jobs_None path (jobs : gmap string node) :
  first_message (fun jobID => match jobs !! jobID with
    | Some job => match validateJob path jobID job with Some m => Some ("job " +:+ (jobID +:+ (": " +:+ m))) | None => None end
    | None => None end) (sortedKeys jobs) = None <->
  forall jobID job, jobs !! jobID = Some job -> job_approved path jobID job.
Proof.
  rewrite first_message_None. split.
  - intros H jobID job Hj. assert (jobID ∈ sortedKeys jobs) as Hin by (apply sortedKeys_in; by exists job).
    specialize (H jobID Hin). cbn in H. rewrite Hj in H. apply job_None. by destruct (validateJob path jobID job).
  - intros H jobID _. destruct (jobs !! jobID) as [job|] eqn:Hj; [|done]. by rewrite (proj2 (job_None path jobID job) (H _ _ Hj)).
Qed.

Lemma trigger_false root : forbidden_trigger (mapping root) = false <->
  forall trigger, says root "on" trigger -> Kind trigger = MappingNode -> mapping trigger !! "pull_request_target" = None.
Proof.
  unfold forbidden_trigger, says. destruct (mapping root !! "on") as [trigger|]; [|naive_solver].
  destruct (is_kind MappingNode trigger) eqn:Ek; cbn [andb].
  - apply is_kind_true in Ek. destruct (mapping trigger !! "pull_request_target") eqn:E; [|naive_solver].
    split; [done|intros H; specialize (H trigger eq_refl Ek); congruence].
  - apply is_kind_false in Ek. naive_solver.
Qed.

Lemma root_None quoted path root : Kind root = MappingNode -> validate_root quoted path root = None <-> root_approved path root.
Proof.
  intros Hk. unfold validate_root, root_approved, says. destruct (validateYAMLShape quoted root) eqn:Es.
  { split; [done|intros (_ & H & _)]. apply (shape_None quoted) in H. congruence. } apply shape_None in Es.
  destruct (rejectSecretContext root) eqn:Er; [split; [done|intros (_ & _ & H & _)]; apply secret_None in H; congruence|]. apply secret_None in Er.
  destruct (forbidden_trigger (mapping root)) eqn:Et; [split; [done|intros (_ & _ & _ & H & _); apply trigger_false in H; congruence]|].
  pose proof (proj1 (trigger_false root) Et) as Ht. clear Et. unfold says in Ht.
  destruct (mapping root !! "permissions") as [p|]; [|split; [done|intros (_ & _ & _ & _ & (? & [=] & _) & _)]].
  destruct (exactPermissions (Some p) contents_read) eqn:Ep.
  { split; [done|intros (_ & _ & _ & _ & (? & [= <-] & H) & _)]. apply permissions_None in H. congruence. } apply permissions_None in Ep.
  destruct (mapping root !! "concurrency") as [c|]; [|split; [done|intros (_ & _ & _ & _ & _ & (? & [=] & _) & _)]].
  destruct (validateConcurrency (Some c)) eqn:Ec.
  { split; [done|intros (_ & _ & _ & _ & _ & (? & [= <-] & H) & _)]. apply concurrency_None in H. congruence. } apply concurrency_None in Ec.
  destruct (mapping root !! "jobs") as [jobs|]; [|split; [done|intros (_ & _ & _ & _ & _ & _ & ? & [=] & _)]].
  destruct (is_kind MappingNode jobs) eqn:Ej; [apply is_kind_true in Ej|apply is_kind_false in Ej; split; [done|intros (_ & _ & _ & _ & _ & _ & ? & [= <-] & ? & _); done]].
  cbn [negb orb]. destruct (Content jobs) as [|x l] eqn:El; [split; [done|intros (_ & _ & _ & _ & _ & _ & ? & [= <-] & _ & ? & _); congruence]|].
  cbn [length Nat.eqb]. rewrite jobs_None. split.
  - intros Hj. split_and!; try done; [by exists p|by exists c|]. exists jobs. by rewrite El.
  - intros (_ & _ & _ & _ & _ & _ & ? & [= <-] & _ & _ & Hj). exact Hj.
Qed.

(** A workflow passes exactly if its file holds one document, whose root is
    approved: no alias, merge key, repeated key or key that is not a string, and
    no scalar in which the secret context is accessed, anywhere in it; no
    mapping of triggers with pull_request_target; the permissions of the
    repository's contents read and nothing else, and for a job the ones its
    name is granted; a concurrency group that cancels; and jobs on hosted
    runners with a positive time limit whose steps use pinned actions and run
    no command that publishes or deploys. *)
Theorem workflow_approved quoted error_text open_yaml path :
  validateWorkflow quoted error_text open_yaml path = Ok tt <->
  exists file document root, open_yaml path = Ok file /\ first_document file = Ok document /\ second_document file = None /\
    Content document = [root] /\ root_approved path root.
Proof.
  unfold validateWorkflow. destruct (open_yaml path) as [file|]; [|split; [done|intros (? & ? & ? & [=] & _)]].
  destruct (first_document file) as [document|] eqn:E1; [|split; [done|intros (? & ? & ? & [= <-] & H & _); congruence]].
  destruct (second_document file) as [[]|] eqn:E2; [split; [done|intros (? & ? & ? & [= <-] & _ & H & _); congruence]..|].
  destruct (Content document) as [|root [|]] eqn:Ed;
    [split; [done|intros (? & ? & ? & [= <-] & H & _ & Hc & _); congruence]| |split; [done|intros (? & ? & ? & [= <-] & H & _ & Hc & _); congruence]].
  destruct (is_kind MappingNode root) eqn:Ek; cbn [negb].
  - apply is_kind_true in Ek. destruct (validate_root quoted path root) eqn:Ev.
    + split; [done|]. intros (? & ? & ? & [= <-] & H & _ & Hc & Hr). rewrite E1 in H. injection H as <-. rewrite Ed in Hc. injection Hc as <-.
      apply (root_None quoted) in Hr; [congruence|done].
    + apply root_None in Ev; [|done]. split; [intros _|done]. by exists file, document, root.
  - apply is_kind_false in Ek. split; [done|]. intros (? & ? & ? & [= <-] & H & _ & Hc & [Hr _]). congruence.
Qed.

(** The scan passes exactly if its report can be read, has a positive version
    and holds no finding that blocks. *)
Theorem scan_passes read parse reportPath requireFix : security_exit read parse reportPath requireFix = 0 <->
  exists data scan, reportPath <> "" /\ read reportPath = Ok data /\ parse data = Ok scan /\ 0 < SchemaVersion scan /\
    forall r, r ∈ Results scan -> (forall v, v ∈ Vulnerabilities r -> vulnerability_blocks requireFix v = false) /\
      forall m, m ∈ Misconfigurations r -> misconfiguration_blocks m = false.
Proof.
  assert (forall A (f : A -> bool) l, length (List.filter f l) = 0%nat <-> forall a, a ∈ l -> f a = false) as Hfilter.
  { intros A f l. induction l as [|a l IH]; cbn; [split; [by intros _ ? ?%elem_of_nil|done]|]. destruct (f a) eqn:Ef; cbn.
    - split; [done|intros H; rewrite H in Ef by left; done].
    - rewrite IH. split; [intros H b [-> | Hb]%elem_of_cons; auto|intros H b Hb; apply H; by right]. }
  assert (forall l n, fold_left (count_blocked requireFix) l n = 0%nat <-> n = 0%nat /\ forall r, r ∈ l ->
    (forall v, v ∈ Vulnerabilities r -> vulnerability_blocks requireFix v = false) /\
    forall m, m ∈ Misconfigurations r -> misconfiguration_blocks m = false) as Hfold.
  { induction l as [|r l IH]; intros n; cbn [fold_left]; [split; [intros ->; split; [done|by intros ? ?%elem_of_nil]|by intros [-> _]]|].
    rewrite IH. unfold count_blocked. split.
    - intros [H1 H2]. split; [lia|]. intros r' [-> | Hr]%elem_of_cons; [|by apply H2]. split; apply Hfilter; lia.
    - intros [-> H2]. split; [|intros r' Hr; apply H2; by right]. destruct (H2 r) as [H3%Hfilter H4%Hfilter]; [left|]. lia. }
  unfold security_exit. destruct (String.eqb_spec reportPath "") as [-> | Hp]; [split; [done|by intros (? & ? & Hp & _)]|].
  destruct (read reportPath) as [data|] eqn:Er; cbn [mbind result_bind]; [|split; [done|by intros (? & ? & _ & [=] & _)]].
  destruct (parse data) as [scan|] eqn:Es; [|split; [done|intros (? & ? & _ & [= <-] & H & _); congruence]].
  destruct (Z.leb_spec (SchemaVersion scan) 0) as [Hv|Hv].
  { split; [done|]. intros (? & ? & _ & [= <-] & Hs & Hpos & _). rewrite Es in Hs. injection Hs as <-. lia. }
  destruct (fold_left _ _ _) as [|n] eqn:Ef; cbn [Nat.ltb Nat.leb].
  - split; [intros _|done]. apply Hfold in Ef as [_ Ef]. by exists data, scan.
  - split; [done|]. intros (? & ? & _ & [= <-] & Hs & _ & Hall). rewrite Es in Hs. injection Hs as <-.
    assert (fold_left (count_blocked requireFix) (Results scan) 0%nat = 0%nat) as E0 by (by apply Hfold). congruence.
Qed.

Lemma observe_scenarios l o : let o' := fold_left observe_scenario l o in
  executed o' = (executed o + length l)%nat /\
  (violations o' = 0%nat <-> violations o = 0%nat /\ forall steps, steps ∈ l -> forall status, status ∈ steps -> status = StepPassed).
Proof.
  assert (forall steps o, executed (fold_left after_step steps o) = executed o /\
    (violations (fold_left after_step steps o) = 0%nat <-> violations o = 0%nat /\ forall status, status ∈ steps -> status = StepPassed)) as Hsteps.
  { induction steps as [|st steps IH]; intros o'; cbn [fold_left]; [split; [done|split; [intros ?; split; [done|by intros ? ?%elem_of_nil]|by intros [? _]]]|].
    destruct (IH (after_step o' st)) as [-> ->]. unfold after_step. split; [by destruct (violates st)|].
    destruct (violates st) eqn:Es; cbn [violations].
    - split; [by intros [? _]|]. intros [_ H2]. rewrite (H2 st) in Es by left. done.
    - assert (st = StepPassed) as -> by (by destruct st). split; (intros [H1 H2]; split; [done|]).
      + intros x [-> | Hx]%elem_of_cons; auto.
      + intros x Hx. apply H2. by right. }
  revert o. induction l as [|steps l IH]; intros o; cbn [fold_left length].
  { split; [lia|]. split; [intros ?; split; [done|by intros ? ?%elem_of_nil]|by intros [? _]]. }
  destruct (IH (observe_scenario o steps)) as [-> ->]. unfold observe_scenario. destruct (Hsteps steps (before_scenario o)) as [-> ->].
  cbn [before_scenario executed violations]. split; [lia|]. split.
  - intros [[H1 H2] H3]. split; [done|]. intros s [-> | Hs]%elem_of_cons; [done|by apply H3].
  - intros [H1 H2]. split; [split; [done|]; apply H2; left|]. intros s Hs. apply H2. by right.
Qed.

(** A run of the acceptance suite succeeds exactly if tags were selected, at
    least one scenario ran, every step of every scenario passed (a skipped one
    has not), and the suite reports success. *)
Theorem Run_not_vacuous suite tags : Run suite tags = Ok tt <->
  tags <> [] /\ fst (suite (join "," tags)) <> [] /\ snd (suite (join "," tags)) = 0 /\
  forall steps, steps ∈ fst (suite (join "," tags)) -> forall status, status ∈ steps -> status = StepPassed.
Proof.
  unfold Run. destruct tags as [|t tags]; [by split; [|intros [? _]]|]. destruct (suite _) as [scenarios status]. cbn [fst snd].
  destruct (observe_scenarios scenarios {| executed := 0; violations := 0 |}) as [He Hv]. cbn in He. rewrite He.
  destruct scenarios as [|x scenarios]; [by split; [|intros (_ & ? & _)]|]. cbn [length Nat.eqb].
  destruct (violations _) as [|n] eqn:Ev; cbn [Nat.ltb Nat.leb].
  - destruct (proj1 Hv eq_refl) as [_ Hall]. destruct (Z.eqb_spec status 0) as [-> | Hne]; cbn [negb]; [|by split; [|intros (_ & _ & ? & _)]].
    split; [intros _|done]. by split_and!.
  - split; [done|]. intros (_ & _ & _ & Hall). destruct Hv as [_ Hv]. discriminate Hv. by split.
Qed.

(** ** Workflows, approved and refused *)
Definition text_node (s : string) : node := Node ScalarNode "!!str" s [].
Definition map_node (entries : list (string * node)) : node :=
  Node MappingNode "!!map" "" (flat_map (fun e => [text_node (fst e); snd e]) entries).
Definition list_node (l : list node) : node := Node SequenceNode "!!seq" "" l.
Definition sample_workflow (trigger : node) (uses run : string) : node :=
  map_node [("on", trigger); ("permissions", map_node [("contents", text_node "read")]);
    ("concurrency", map_node [("group", text_node "ci"); ("cancel-in-progress", Node ScalarNode "!!bool" "true" [])]);
    ("jobs", map_node [("test", map_node [("runs-on", text_node "ubuntu-24.04"); ("timeout-minutes", Node ScalarNode "!!int" "10" []);
      ("steps", list_node [map_node [("uses", text_node uses)]; map_node [("run", text_node run)]])])])].
Definition sample_pin : string := "actions/checkout@0123456789abcdef0123456789abcdef01234567".
Definition passes (root : node) : bool :=
  is_ok (validateWorkflow (fun s => s) (fun _ => "") (fun _ => Ok {| first_document := Ok (Node DocumentNode "" "" [root]); second_document := None |})
    "w.yml").

Example workflow_runs :
  passes (sample_workflow (map_node [("push", text_node "")]) sample_pin "go test ./...") = true /\
  passes (sample_workflow (map_node [("push", text_node "")]) "actions/checkout@v4" "go test ./...") = false /\
  passes (sample_workflow (map_node [("push", text_node "")]) sample_pin "echo ${{ SECRETS.TOKEN }}") = false /\
  passes (sample_workflow (map_node [("push", text_node "")]) sample_pin "docker  push image") = false /\
  passes (sample_workflow (map_node [("pull_request_target", text_node "")]) sample_pin "go test ./...") = false.
Proof. vm_compute. repeat split. Qed.

(** The trigger is only looked for in a mapping, and the secrets only before a
    period or a bracket. *)
Example workflow_gaps :
  passes (sample_workflow (text_node "pull_request_target") sample_pin "go test ./...") = true /\
  passes (sample_workflow (list_node [text_node "pull_request_target"]) sample_pin "go test ./...") = true /\
  passes (sample_workflow (map_node [("push", text_node "")]) sample_pin "echo ${{ toJSON(secrets) }}") = true.
Proof. vm_compute. repeat split. Qed.
