(* ===== verification/GraphSearch.v ===== *)
(** * Depth-first search along the path being visited

    A search that refuses to re-enter a node it is already visiting, and
    forgets the node when it leaves it.  On a finite closed set of nodes named
    apart by their identities it finds exactly what can be reached, and fuel
    beyond the size of the set is enough. *)

From S2P Require Import Prelude.

Section Search.
Context {A K : Type} `{EqDecision K} (id : A -> K) (here : A -> bool) (succ : A -> list A).

Fixpoint search (fuel : nat) (visiting : list K) (a : A) : bool :=
  match fuel with
  | O => false
  | S n =>
      if bool_decide (id a ∈ visiting) then false
      else here a || existsb (search n (id a :: visiting)) (succ a)
  end.

Inductive reaches : A -> Prop :=
  | reaches_here a : here a = true -> reaches a
  | reaches_next a b : b ∈ succ a -> reaches b -> reaches a.

(** Reached in at most [n] steps. *)
Fixpoint within (n : nat) (a : A) : bool :=
  here a || match n with O => false | S m => existsb (within m) (succ a) end.

Lemma existsb_elem {B} (f : B -> bool) l : existsb f l = true <-> exists x, x ∈ l /\ f x = true.
Proof. rewrite existsb_exists. split; intros (x & Hx & Hf); exists x; by rewrite list_elem_of_In in *. Qed.

Lemma within_mono n m a : (n <= m)%nat -> within n a = true -> within m a = true.
Proof.
  revert m a. induction n as [|n IH]; intros m a Hle; cbn; [rewrite orb_false_r; intros H; destruct m; cbn; by rewrite H|].
  destruct m as [|m]; [lia|]. intros [H|H]%orb_true_iff; cbn; apply orb_true_iff; [by left|right].
  apply existsb_elem in H as (b & Hb & H). apply existsb_elem. exists b. split; [done|]. apply IH; [lia|done].
Qed.

Lemma reaches_within a : reaches a -> exists n, within n a = true.
Proof.
  induction 1 as [a H|a b Hb _ [n Hn]]; [exists O; cbn; by rewrite H|]. exists (S n). cbn. apply orb_true_iff. right.
  apply existsb_elem. eauto.
Qed.

(** The first number of steps that reaches. *)
Lemma within_first n a : within n a = true ->
  exists m, (m <= n)%nat /\ within m a = true /\ forall k, (k < m)%nat -> within k a = false.
Proof.
  induction n as [|n IH]; intros H; [exists O; splits; [lia|done|lia]|].
  destruct (within n a) eqn:E.
  - destruct (IH eq_refl) as (m & Hm & Hw & Hf). exists m. splits; [lia|done|done].
  - exists (S n). splits; [lia|done|]. intros k Hk. apply not_true_iff_false. intros Hk'.
    rewrite (within_mono k n a ltac:(lia) Hk') in E. done.
Qed.

Lemma search_sound fuel visiting a : search fuel visiting a = true -> reaches a.
Proof.
  revert visiting a. induction fuel as [|n IH]; intros visiting a; cbn; [done|]. case_bool_decide; [done|].
  intros [H'|H']%orb_true_iff; [by left|]. apply existsb_elem in H' as (b & Hb & H'). eapply reaches_next; eauto.
Qed.

Context (U : list A) (named_apart : base.NoDup (map id U)) (closed : forall a b, a ∈ U -> b ∈ succ a -> b ∈ U).

(** What is being visited when the search enters [a], [n] steps from the goal:
    nodes of [U], none of which is as near. *)
Lemma search_finds n a fuel visiting :
  a ∈ U -> within n a = true -> (forall k, (k < n)%nat -> within k a = false) ->
  (forall v, v ∈ U -> id v ∈ visiting -> within n v = false) ->
  base.NoDup visiting -> visiting ⊆ map id U -> (length U < fuel + length visiting)%nat ->
  search fuel visiting a = true.
Proof.
  revert a fuel visiting. induction n as [n IH] using lt_wf_ind. intros a fuel visiting Ha Hw Hfirst Hfar Hnd Hsub Hfuel.
  destruct fuel as [|fuel].
  { pose proof (NoDup_incl_length (l := visiting) (l' := map id U)) as Hlen. rewrite length_map in Hlen.
    exfalso. enough (length visiting <= length U)%nat by lia. apply Hlen; [by apply NoDup_ListNoDup|].
    intros x Hx. apply list_elem_of_In, Hsub. by apply list_elem_of_In. }
  cbn. rewrite bool_decide_false by (intros Hv; by rewrite (Hfar a Ha Hv) in Hw).
  apply orb_true_iff. destruct (here a) eqn:Eh; [by left|right].
  destruct n as [|n]; cbn in Hw; rewrite Eh in Hw; [done|]. cbn in Hw.
  apply existsb_elem in Hw as (b & Hb & Hw). destruct (within_first _ _ Hw) as (m & Hm & Hwm & Hmf).
  apply existsb_elem. exists b. split; [done|]. assert (base.NoDup (id a :: visiting)) as Hnd'.
  { apply list.NoDup_cons. split; [|done]. intros Hv. pose proof (Hfar a Ha Hv) as E. cbn in E. rewrite Eh in E. cbn in E.
    assert (existsb (within n) (succ a) = true) by (apply existsb_elem; eauto). congruence. }
  apply (IH m); [lia|eauto|done|done| |done| |cbn; lia].
  - intros v Hv [Hid|Hin]%elem_of_cons.
    + rewrite (NoDup_map_inj id U v a named_apart Hv Ha Hid). apply Hfirst. lia.
    + apply not_true_iff_false. intros E. pose proof (within_mono m (S n) v ltac:(lia) E). specialize (Hfar v Hv Hin). congruence.
  - intros x [-> | Hx]%elem_of_cons; [|by apply Hsub]. apply list_elem_of_In, List.in_map. by apply list_elem_of_In.
Qed.

(** The search is reachability. *)
Lemma search_reaches fuel a : a ∈ U -> (length U < fuel)%nat -> search fuel [] a = true <-> reaches a.
Proof.
  intros Ha Hfuel. split; [apply search_sound|]. intros [n Hn]%reaches_within.
  destruct (within_first _ _ Hn) as (m & _ & Hm & Hf). eapply (search_finds m); [done|done|done| | | |cbn; lia].
  - intros v _ H. by apply elem_of_nil in H.
  - apply list.NoDup_nil. done.
  - intros x H. by apply elem_of_nil in H.
Qed.
End Search.
