(* ===== verification/GoAst.v ===== *)
(** * Go syntax trees

    The part of go/ast, go/token and path/filepath that internal/bddguard
    uses: the nodes with their spans, identifiers with the object the parser
    resolved them to, the traversal of ast.Inspect, cleaned paths and
    filepath.WalkDir.  A pointer to an ast.Object is its name in a table, and
    a block is told from another by the position of its brace: a file set
    gives every file positions of its own. *)

From S2P Require Import Prelude.
From S2P Require Import GoStrings.
From Stdlib Require Import ZArith Lia Ascii.
Open Scope string_scope.
Open Scope Z_scope.

Definition Pos : Type := Z.
Definition Span : Type := Pos * Pos.
Definition ObjId : Type := Z.

Record Identifier : Type := { NamePos : Pos; Name : string; Obj : option ObjId }.

(** The structs of go/ast behind its Node, Expr, Stmt, Decl and Spec
    interfaces, each with the span its Pos and End methods report.  Comments
    are not parsed; tokens nothing looks at are left out. *)
Inductive Node : Type :=
  (* expressions *)
  | BadExpr (sp : Span)
  | Ident (i : Identifier)
  | Ellipsis (sp : Span) (Elt : option Node)
  | BasicLit (sp : Span) (Value : string)
  | FuncLit (sp : Span) (Type_ Body : Node)
  | CompositeLit (sp : Span) (Type_ : option Node) (Elts : list Node)
  | ParenExpr (sp : Span) (X : Node)
  | SelectorExpr (sp : Span) (X : Node) (Sel : Identifier)
  | IndexExpr (sp : Span) (X Index : Node)
  | IndexListExpr (sp : Span) (X : Node) (Indices : list Node)
  | SliceExpr (sp : Span) (X : Node) (Low High Max : option Node)
  | TypeAssertExpr (sp : Span) (X : Node) (Type_ : option Node)
  | CallExpr (sp : Span) (Fun : Node) (Args : list Node)
  | StarExpr (sp : Span) (X : Node)
  | UnaryExpr (sp : Span) (Op : string) (X : Node)
  | BinaryExpr (sp : Span) (X : Node) (Op : string) (Y : Node)
  | KeyValueExpr (sp : Span) (Key Value : Node)
  (* types *)
  | ArrayType (sp : Span) (Len : option Node) (Elt : Node)
  | StructType (sp : Span) (Fields : Node)
  | FuncType (sp : Span) (TypeParams : option Node) (Params : Node) (Results : option Node)
  | InterfaceType (sp : Span) (Methods : Node)
  | MapType (sp : Span) (Key Value : Node)
  | ChanType (sp : Span) (Value : Node)
  | Field (sp : Span) (Names : list Identifier) (Type_ : option Node) (Tag : option Node)
  | FieldList (sp : Span) (List : list Node)
  (* statements *)
  | BadStmt (sp : Span)
  | DeclStmt (sp : Span) (Decl : Node)
  | EmptyStmt (sp : Span)
  | LabeledStmt (sp : Span) (Label : Identifier) (Stmt : Node)
  | ExprStmt (sp : Span) (X : Node)
  | SendStmt (sp : Span) (Chan Value : Node)
  | IncDecStmt (sp : Span) (X : Node)
  | AssignStmt (sp : Span) (Lhs Rhs : list Node)
  | GoStmt (sp : Span) (Call : Node)
  | DeferStmt (sp : Span) (Call : Node)
  | ReturnStmt (sp : Span) (Results : list Node)
  | BranchStmt (sp : Span) (Label : option Identifier)
  | BlockStmt (sp : Span) (List : list Node)
  | IfStmt (sp : Span) (Init : option Node) (Cond Body : Node) (Else : option Node)
  | CaseClause (sp : Span) (List : list Node) (Body : list Node)
  | SwitchStmt (sp : Span) (Init Tag : option Node) (Body : Node)
  | TypeSwitchStmt (sp : Span) (Init : option Node) (Assign Body : Node)
  | CommClause (sp : Span) (Comm : option Node) (Body : list Node)
  | SelectStmt (sp : Span) (Body : Node)
  | ForStmt (sp : Span) (Init Cond Post : option Node) (Body : Node)
  | RangeStmt (sp : Span) (Key Value : option Node) (X Body : Node)
  (* declarations *)
  | ImportSpec (sp : Span) (Name : option Identifier) (Path : Node)
  | ValueSpec (sp : Span) (Names : list Identifier) (Type_ : option Node) (Values : list Node)
  | TypeSpec (sp : Span) (Name : Identifier) (TypeParams : option Node) (Type_ : Node)
  | BadDecl (sp : Span)
  | GenDecl (sp : Span) (Specs : list Node)
  | FuncDecl (sp : Span) (Recv : option Node) (Name : Identifier) (Type_ : Node) (Body : option Node)
  (* a file *)
  | File (sp : Span) (Name : Identifier) (Decls : list Node).

Definition span (n : Node) : Span :=
  match n with
  | Ident i => (NamePos i, NamePos i + slen (Name i))
  | BadExpr sp | Ellipsis sp _ | BasicLit sp _ | FuncLit sp _ _ | CompositeLit sp _ _ | ParenExpr sp _
  | SelectorExpr sp _ _ | IndexExpr sp _ _ | IndexListExpr sp _ _ | SliceExpr sp _ _ _ _ | TypeAssertExpr sp _ _
  | CallExpr sp _ _ | StarExpr sp _ | UnaryExpr sp _ _ | BinaryExpr sp _ _ _ | KeyValueExpr sp _ _
  | ArrayType sp _ _ | StructType sp _ | FuncType sp _ _ _ | InterfaceType sp _ | MapType sp _ _ | ChanType sp _
  | Field sp _ _ _ | FieldList sp _ | BadStmt sp | DeclStmt sp _ | EmptyStmt sp | LabeledStmt sp _ _ | ExprStmt sp _
  | SendStmt sp _ _ | IncDecStmt sp _ | AssignStmt sp _ _ | GoStmt sp _ | DeferStmt sp _ | ReturnStmt sp _
  | BranchStmt sp _ | BlockStmt sp _ | IfStmt sp _ _ _ _ | CaseClause sp _ _ | SwitchStmt sp _ _ _
  | TypeSwitchStmt sp _ _ _ | CommClause sp _ _ | SelectStmt sp _ | ForStmt sp _ _ _ _ | RangeStmt sp _ _ _ _
  | ImportSpec sp _ _ | ValueSpec sp _ _ _ | TypeSpec sp _ _ _ | BadDecl sp | GenDecl sp _ | FuncDecl sp _ _ _ _
  | File sp _ _ => sp
  end.
Definition node_pos (n : Node) : Pos := fst (span n).
Definition node_end (n : Node) : Pos := snd (span n).

(** ast.Object: what an identifier was resolved to inside its file. *)
Inductive ObjKind : Type := Bad | Pkg | Con | Typ | Var | Fun_ | Lbl.
#[global] Instance ObjKind_eq_dec : EqDecision ObjKind.
Proof. solve_decision. Defined.
Record Object : Type := { Kind : ObjKind; Decl : option Node }.

(** ** ast.Inspect

    [f] sees a node and says whether to go into it; the children follow in the
    order of ast.Walk.  The state is what [f] closes over. *)
Section Inspect.
Context {S : Type} (f : S -> Node -> S * bool).

(** A leaf of the tree that is not walked into: an identifier. *)
Definition visit_ident (s : S) (i : Identifier) : S := fst (f s (Ident i)).

Definition visit_option {B} (visit : S -> B -> S) (s : S) (o : option B) : S :=
  match o with Some b => visit s b | None => s end.

(** ast.Walk into the children of [n]. *)
Definition into (walk : S -> Node -> S) (s : S) (n : Node) : S :=
  let all l s := fold_left walk l s in
  let opt := visit_option walk in
  let opt_ident := visit_option visit_ident in
  let idents l s := fold_left visit_ident l s in
  match n with
  | BadExpr _ | Ident _ | BasicLit _ _ | BadStmt _ | EmptyStmt _ | BadDecl _ => s
  | Ellipsis _ e => opt s e
  | FuncLit _ t b => walk (walk s t) b
  | CompositeLit _ t es => all es (opt s t)
  | ParenExpr _ x | StarExpr _ x | UnaryExpr _ _ x => walk s x
  | SelectorExpr _ x sel => visit_ident (walk s x) sel
  | IndexExpr _ x i => walk (walk s x) i
  | IndexListExpr _ x ix => all ix (walk s x)
  | SliceExpr _ x l h m => opt (opt (opt (walk s x) l) h) m
  | TypeAssertExpr _ x t => opt (walk s x) t
  | CallExpr _ g args => all args (walk s g)
  | BinaryExpr _ x _ y => walk (walk s x) y
  | KeyValueExpr _ k v => walk (walk s k) v
  | ArrayType _ l e => walk (opt s l) e
  | StructType _ c | InterfaceType _ c | ChanType _ c => walk s c
  | FuncType _ tp ps rs => opt (walk (opt s tp) ps) rs
  | MapType _ k v => walk (walk s k) v
  | Field _ names t tag => opt (opt (idents names s) t) tag
  | FieldList _ l => all l s
  | DeclStmt _ d => walk s d
  | LabeledStmt _ l st => walk (visit_ident s l) st
  | ExprStmt _ x | IncDecStmt _ x | GoStmt _ x | DeferStmt _ x => walk s x
  | SendStmt _ c v => walk (walk s c) v
  | AssignStmt _ l r => all r (all l s)
  | ReturnStmt _ rs => all rs s
  | BranchStmt _ l => opt_ident s l
  | BlockStmt _ l => all l s
  | IfStmt _ i c b e => opt (walk (walk (opt s i) c) b) e
  | CaseClause _ l b => all b (all l s)
  | SwitchStmt _ i t b => walk (opt (opt s i) t) b
  | TypeSwitchStmt _ i a b => walk (walk (opt s i) a) b
  | CommClause _ c b => all b (opt s c)
  | SelectStmt _ b => walk s b
  | ForStmt _ i c p b => walk (opt (opt (opt s i) c) p) b
  | RangeStmt _ k v x b => walk (walk (opt (opt s k) v) x) b
  | ImportSpec _ name path => walk (opt_ident s name) path
  | ValueSpec _ names t vs => all vs (opt (idents names s) t)
  | TypeSpec _ name tp t => walk (opt (visit_ident s name) tp) t
  | GenDecl _ specs => all specs s
  | FuncDecl _ r name t b => opt (walk (visit_ident (opt s r) name) t) b
  | File _ name ds => all ds (visit_ident s name)
  end.

Fixpoint Inspect (s : S) (n : Node) {struct n} : S :=
  let '(s, enter) := f s n in if negb enter then s else into Inspect s n.
End Inspect.

(** ** Children and induction *)
Definition option_list {A} (o : option A) : list A := match o with Some a => [a] | None => [] end.

Definition kids (n : Node) : list Node :=
  match n with
  | BadExpr _ | Ident _ | BasicLit _ _ | BadStmt _ | EmptyStmt _ | BadDecl _ | BranchStmt _ _ => []
  | Ellipsis _ e => option_list e
  | FuncLit _ t b => [t; b]
  | CompositeLit _ t es => option_list t ++ es
  | ParenExpr _ x | StarExpr _ x | UnaryExpr _ _ x | SelectorExpr _ x _ => [x]
  | IndexExpr _ x i => [x; i]
  | IndexListExpr _ x ix => x :: ix
  | SliceExpr _ x l h m => x :: option_list l ++ option_list h ++ option_list m
  | TypeAssertExpr _ x t => x :: option_list t
  | CallExpr _ g args => g :: args
  | BinaryExpr _ x _ y => [x; y]
  | KeyValueExpr _ k v | MapType _ k v => [k; v]
  | ArrayType _ l e => option_list l ++ [e]
  | StructType _ c | InterfaceType _ c | ChanType _ c => [c]
  | FuncType _ tp ps rs => option_list tp ++ [ps] ++ option_list rs
  | Field _ _ t tag => option_list t ++ option_list tag
  | FieldList _ l => l
  | DeclStmt _ d => [d]
  | LabeledStmt _ _ st => [st]
  | ExprStmt _ x | IncDecStmt _ x | GoStmt _ x | DeferStmt _ x => [x]
  | SendStmt _ c v => [c; v]
  | AssignStmt _ l r => l ++ r
  | ReturnStmt _ rs => rs
  | BlockStmt _ l => l
  | IfStmt _ i c b e => option_list i ++ [c; b] ++ option_list e
  | CaseClause _ l b => l ++ b
  | SwitchStmt _ i t b => option_list i ++ option_list t ++ [b]
  | TypeSwitchStmt _ i a b => option_list i ++ [a; b]
  | CommClause _ c b => option_list c ++ b
  | SelectStmt _ b => [b]
  | ForStmt _ i c p b => option_list i ++ option_list c ++ option_list p ++ [b]
  | RangeStmt _ k v x b => option_list k ++ option_list v ++ [x; b]
  | ImportSpec _ _ path => [path]
  | ValueSpec _ _ t vs => option_list t ++ vs
  | TypeSpec _ _ tp t => option_list tp ++ [t]
  | GenDecl _ specs => specs
  | FuncDecl _ r _ t b => option_list r ++ [t] ++ option_list b
  | File _ _ ds => ds
  end%list.

Section Induction.
Context (P : Node -> Prop).

Definition all_list (f : forall n, P n) : forall l, Forall P l :=
  fix go l := match l with [] => List.Forall_nil P | n :: l => @List.Forall_cons _ P n l (f n) (go l) end.
Definition all_option (f : forall n, P n) (o : option Node) : Forall P (option_list o) :=
  match o with Some n => @List.Forall_cons _ P n [] (f n) (List.Forall_nil P) | None => List.Forall_nil P end.

Lemma node_induction : (forall n, Forall P (kids n) -> P n) -> forall n, P n.
Proof.
  intros H. fix IH 1. intros n. apply H.
  destruct n; cbn [kids];
    repeat lazymatch goal with
    | |- Forall _ (_ ++ _) => apply Forall_app_2
    | |- Forall _ (_ :: _) => refine (@List.Forall_cons _ _ _ _ (IH _) _)
    | |- Forall _ [] => apply List.Forall_nil
    | |- Forall _ (option_list _) => exact (all_option IH _)
    | |- _ => exact (all_list IH _)
    end.
Qed.
End Induction.

(** ** Nodes below a node *)
Inductive subnode (m : Node) : Node -> Prop :=
  | subnode_refl : subnode m m
  | subnode_kid c n : c ∈ kids n -> subnode m c -> subnode m n.

Lemma subnode_trans a b c : subnode a b -> subnode b c -> subnode a c.
Proof. intros Hab. induction 1; [done|]. eapply subnode_kid; eauto. Qed.

Lemma kid_subnode c n : c ∈ kids n -> subnode c n.
Proof. intros H. eapply subnode_kid; [done|constructor]. Qed.

(** A visit that ignores identifiers walks the children in order. *)
Lemma into_kids {S} (f : S -> Node -> S * bool) (walk : S -> Node -> S) s n :
  (forall s i, visit_ident f s i = s) -> into f walk s n = fold_left walk (kids n) s.
Proof.
  intros Hf. assert (forall l s, fold_left (visit_ident f) l s = s) as Hl.
  { induction l as [|i l IH]; intros t; cbn; [done|]. by rewrite Hf. }
  destruct n; cbn [into kids];
    repeat match goal with o : option _ |- _ => destruct o end;
    cbn [visit_option option_list]; rewrite ?Hl, ?Hf, ?fold_left_app; cbn [fold_left app]; by rewrite ?fold_left_app.
Qed.

(** What a walk of the children keeps true. *)
Lemma into_keeps {S} (f : S -> Node -> S * bool) (walk : S -> Node -> S) (I : S -> Prop) n :
  (forall s i, I s -> I (visit_ident f s i)) -> Forall (fun c => forall s, I s -> I (walk s c)) (kids n) ->
  forall s, I s -> I (into f walk s n).
Proof.
  intros Hf Hk. assert (forall l s, I s -> I (fold_left (visit_ident f) l s)) as Hl.
  { induction l as [|i l IH]; intros t Ht; cbn; [done|]. auto. }
  assert (forall l, Forall (fun c => forall s, I s -> I (walk s c)) l -> forall s, I s -> I (fold_left walk l s)) as Ha.
  { induction 1 as [|c l Hc _ IH]; intros t Ht; cbn; auto. }
  destruct n; cbn [into kids] in *;
    repeat match goal with
    | o : option _ |- _ => destruct o; cbn [visit_option option_list] in *
    | H : Forall _ (_ ++ _) |- _ => apply Forall_app in H as [? ?]
    | H : Forall _ (_ :: _) |- _ => apply List.Forall_cons_iff in H as [? ?]
    end; intros s Hs;
    repeat lazymatch goal with
    | |- I s => exact Hs
    | |- I (fold_left (visit_ident f) _ _) => apply Hl
    | |- I (fold_left walk _ _) => apply Ha; [assumption|]
    | |- I (visit_ident _ _ _) => apply Hf
    | H : forall s, I s -> I (walk s ?c) |- I (walk _ ?c) => apply H
    end.
Qed.

(** The nodes in the order [Inspect] meets them. *)
Definition nodes (n : Node) : list Node := Inspect (fun l n => ((l ++ [n])%list, true)) [] n.

(** ** A visitor that stops at the first failure *)
Section Stopping.
Context {E : Type} (check : Node -> option E).

Definition stopping (failed : option E) (n : Node) : option E * bool :=
  match failed with
  | Some e => (Some e, false)
  | None => match check n with Some e => (Some e, false) | None => (None, true) end
  end.

Fixpoint first_failure (l : list Node) : option E :=
  match l with [] => None | n :: l => match check n with Some e => Some e | None => first_failure l end end.
Definition scan (failed : option E) (l : list Node) : option E :=
  match failed with Some e => Some e | None => first_failure l end.

Lemma scan_app failed l k : scan failed (l ++ k) = scan (scan failed l) k.
Proof. destruct failed; [done|]. induction l as [|n l IH]; cbn; [done|]. by destruct (check n). Qed.

Lemma first_failure_none l : first_failure l = None <-> forall n, n ∈ l -> check n = None.
Proof.
  induction l as [|n l IH]; cbn; [split; [by intros _ ? ?%elem_of_nil|done]|]. destruct (check n) eqn:En.
  - split; [done|]. intros H. by rewrite (H n ltac:(left)) in En.
  - rewrite IH. split; [|intros H m Hm; apply H; by right]. by intros H m [-> | Hm]%elem_of_cons; [|apply H].
Qed.

(** [F] on the failure and [G] on the list of nodes walk the same nodes. *)
Definition walks (F : option E -> option E) (G : list Node -> list Node) : Prop :=
  exists l, (forall acc, G acc = (acc ++ l)%list) /\ forall s, F s = scan s l.

Definition collect (l : list Node) (n : Node) : list Node * bool := ((l ++ [n])%list, true).

Lemma walks_id : walks (fun s => s) (fun l => l).
Proof. exists []. split; [intros acc; by rewrite app_nil_r|by intros []]. Qed.

Lemma walks_then F G F' G' : walks F G -> walks F' G' -> walks (fun s => F' (F s)) (fun l => G' (G l)).
Proof.
  intros (l & HG & HF) (k & HG' & HF'). exists (l ++ k)%list. split.
  - intros acc. by rewrite HG, HG', app_assoc.
  - intros s. by rewrite HF, HF', scan_app.
Qed.

Lemma walks_node n F G : walks F G ->
  walks (fun s => let '(s, enter) := stopping s n in if negb enter then s else F s)
        (fun l => let '(l, enter) := collect l n in if negb enter then l else G l).
Proof.
  intros (l & HG & HF). exists (n :: l). split; [intros acc; cbn; rewrite HG; by rewrite <- app_assoc|].
  intros [e|]; cbn; [done|]. destruct (check n); cbn; [done|apply HF].
Qed.

Lemma walks_ident i : walks (fun s => visit_ident stopping s i) (fun l => visit_ident collect l i).
Proof. exists [Ident i]. split; [done|]. intros [e|]; cbn; [done|]. unfold visit_ident. cbn. by destruct (check _). Qed.

Lemma walks_list {B} (f : option E -> B -> option E) (g : list Node -> B -> list Node) (l : list B) :
  Forall (fun b => walks (fun s => f s b) (fun acc => g acc b)) l ->
  walks (fun s => fold_left f l s) (fun acc => fold_left g l acc).
Proof. induction 1 as [|b l Hb _ IH]; cbn; [apply walks_id|]. apply (walks_then _ _ _ _ Hb IH). Qed.

Lemma walks_idents l : walks (fun s => fold_left (visit_ident stopping) l s) (fun acc => fold_left (visit_ident collect) l acc).
Proof. apply walks_list, Forall_true. apply walks_ident. Qed.

Lemma walks_option o :
  Forall (fun n => walks (fun s => Inspect stopping s n) (fun l => Inspect collect l n)) (option_list o) ->
  walks (fun s => visit_option (Inspect stopping) s o) (fun l => visit_option (Inspect collect) l o).
Proof. destruct o; intros H; [by apply (Forall_inv H)|apply walks_id]. Qed.

Lemma walks_option_ident o :
  walks (fun s => visit_option (visit_ident stopping) s o) (fun l => visit_option (visit_ident collect) l o).
Proof. destruct o; [apply walks_ident|apply walks_id]. Qed.

Lemma Inspect_eq {S} (f : S -> Node -> S * bool) s n :
  Inspect f s n = let '(s, enter) := f s n in if negb enter then s else into f (Inspect f) s n.
Proof. by destruct n. Qed.

(** Split the walks of the children, the last of them outermost. *)
Ltac walk_kids :=
  repeat match goal with
  | H : Forall _ (_ ++ _) |- _ => apply Forall_app in H as [? ?]
  | H : Forall _ (_ :: _) |- _ => apply List.Forall_cons_iff in H as [? ?]
  end;
  repeat lazymatch goal with
  | |- walks (fun s => Inspect _ s _) _ => eassumption
  | |- walks (fun s => Inspect _ (@?F s) ?n) (fun l => Inspect _ (@?G l) _) =>
      apply (walks_then F G (fun s => Inspect stopping s n) (fun l => Inspect collect l n)); [|eassumption]
  | |- walks (fun s => visit_ident _ (@?F s) ?i) (fun l => visit_ident _ (@?G l) _) =>
      apply (walks_then F G (fun s => visit_ident stopping s i) (fun l => visit_ident collect l i)); [|apply walks_ident]
  | |- walks (fun s => fold_left ?v ?k (@?F s)) (fun l => fold_left ?w _ (@?G l)) =>
      apply (walks_then F G (fun s => fold_left v k s) (fun l => fold_left w k l)); [|first [apply walks_idents | apply walks_list; assumption]]
  | |- walks (fun s => visit_option ?v (@?F s) ?o) (fun l => visit_option ?w (@?G l) _) =>
      apply (walks_then F G (fun s => visit_option v s o) (fun l => visit_option w l o)); [|first [apply walks_option_ident | apply walks_option; assumption]]
  | |- walks (fun s => s) _ => apply walks_id
  end.

Lemma Inspect_walks n : walks (fun s => Inspect stopping s n) (fun l => Inspect collect l n).
Proof.
  induction n as [n IH] using node_induction.
  enough (walks (fun s => into stopping (Inspect stopping) s n) (fun l => into collect (Inspect collect) l n)) as H.
  { destruct (walks_node n _ _ H) as (l & HG & HF). exists l. split; intros; rewrite Inspect_eq; [apply HG|apply HF]. }
  destruct n; cbn [kids] in IH; cbn [into]; walk_kids.
Qed.

(** The traversal reports the first failure among the nodes. *)
Lemma Inspect_stopping n : Inspect stopping None n = first_failure (nodes n).
Proof. destruct (Inspect_walks n) as (l & HG & HF). rewrite HF. cbn. f_equal. symmetry. apply HG. Qed.
End Stopping.

(** The blocks of a tree. *)
Definition is_block (n : Node) : bool := match n with BlockStmt _ _ => true | _ => false end.
Fixpoint blocks (n : Node) : list Node :=
  ((if is_block n then [n] else []) ++ into (fun l _ => (l, false)) (fun l c => l ++ blocks c)%list [] n)%list.

Lemma fold_left_flat_map {A B} (f : A -> list B) l acc : fold_left (fun acc a => acc ++ f a)%list l acc = (acc ++ flat_map f l)%list.
Proof. revert acc. induction l as [|a l IH]; intros acc; cbn; [by rewrite app_nil_r|]. by rewrite IH, app_assoc. Qed.

Lemma blocks_eq n : blocks n = ((if is_block n then [n] else []) ++ flat_map blocks (kids n))%list.
Proof.
  assert (forall f, into (fun (l : list Node) _ => (l, false)) (fun l c => l ++ f c)%list [] n = flat_map f (kids n)) as H.
  { intros f. rewrite into_kids by done. by rewrite fold_left_flat_map. }
  rewrite <- H. by destruct n.
Qed.

(** What [Inspect] meets is an identifier or a node of the tree. *)
Lemma nodes_subnode m n : m ∈ nodes n -> (exists i, m = Ident i) \/ subnode m n.
Proof.
  assert (forall s, m ∈ Inspect collect s n -> m ∈ s \/ (exists i, m = Ident i) \/ subnode m n) as H.
  { induction n as [n IH] using node_induction. intros s. rewrite Inspect_eq. cbn [collect negb].
    apply (into_keeps _ _ (fun t => m ∈ t -> m ∈ s \/ (exists i, m = Ident i) \/ subnode m n)).
    - intros t i Ht [Hm|Hm]%elem_of_app; [auto|]. apply list_elem_of_singleton in Hm. eauto.
    - rewrite Forall_forall in *. intros c Hc t Ht Hm. destruct (IH c Hc t Hm) as [?|[?|?]]; [auto|auto|].
      right. right. apply (subnode_kid _ c); [by apply list_elem_of_In|done].
    - intros [?|Hm]%elem_of_app; [by left|]. apply list_elem_of_singleton in Hm. subst. right. right. constructor. }
  intros Hm. destruct (H [] Hm) as [E|?]; [by apply elem_of_nil in E|done].
Qed.

(** ** Paths

    filepath.Clean on Unix: empty and [.] elements go, [..] takes the element
    before it with it. *)
Definition push_element (rooted : bool) (stack : list string) (element : string) : list string :=
  if String.eqb element "" || String.eqb element "." then stack
  else if String.eqb element ".." then
    match stack with
    | top :: rest => if String.eqb top ".." then element :: stack else rest
    | [] => if rooted then [] else [element]
    end
  else element :: stack.
Definition filepath_Clean (path : string) : string :=
  let rooted := has_prefix "/" path in
  let elements := rev (fold_left (push_element rooted) (split "/" path) []) in
  if rooted then String "/" (join "/" elements)
  else match elements with [] => "." | _ => join "/" elements end.
Definition filepath_Join (directory name : string) : string :=
  if String.eqb directory "" then filepath_Clean name else filepath_Clean (directory +:+ String "/" name).
(** filepath.Dir: what is before the last element, cleaned. *)
Definition filepath_Dir (path : string) : string :=
  filepath_Clean (join "/" (removelast (split "/" path)) +:+ (if Nat.eqb (length (split "/" path)) 1 then "" else "/")).

Example clean_paths : map filepath_Clean [""; "a/./b//c"; "a/../.."; "/../x"; "steps/"; "/"] = ["."; "a/b/c"; ".."; "/x"; "steps"; "/"].
Proof. reflexivity. Qed.
Example dir_paths : map filepath_Dir ["steps/a.go"; "a.go"; "/a.go"; "x/y/"] = ["steps"; "."; "/"; "x/y"].
Proof. reflexivity. Qed.

(** ** filepath.WalkDir

    A directory lists its entries by name, or cannot be read. *)
Inductive Tree : Type :=
  | Leaf (name : string)
  | Directory (name : string) (entries : result (list Tree)).
Definition entry_name (t : Tree) : string := match t with Leaf name | Directory name _ => name end.

(** What a callback answers: go on, leave this directory, or fail. *)
Inductive verdict : Type := Continue | SkipDir | Stop (err : error).

Section WalkDir.
Context {S : Type}.
(** The callback of a path and its entry, and of a directory it could not read. *)
Context (fn : S -> string -> Tree -> S * verdict) (unreadable : S -> string -> error -> S * verdict).

(** The result tells whether the rest of the directory is skipped. *)
Fixpoint walk_dir (s : S) (path : string) (t : Tree) {struct t} : S * verdict :=
  match fn s path t with
  | (s, Continue) =>
      match t with
      | Leaf _ => (s, Continue)
      | Directory _ (Err err) =>
          match unreadable s path err with (s, SkipDir) => (s, Continue) | answer => answer end
      | Directory _ (Ok entries) =>
          (fix go s entries :=
             match entries with
             | [] => (s, Continue)
             | e :: rest =>
                 match walk_dir s (filepath_Join path (entry_name e)) e with
                 | (s, Continue) => go s rest
                 | (s, SkipDir) => (s, Continue)
                 | stop => stop
                 end
             end) s entries
      end
  | (s, SkipDir) => (s, match t with Directory _ _ => Continue | Leaf _ => SkipDir end)
  | stop => stop
  end.
End WalkDir.
