(* ===== verification/StepGuard.v ===== *)
(** * The guard of the step definitions

    internal/bddguard: every Go file of the acceptance steps is parsed and a
    registered step handler is refused when its body cannot be found or when
    nothing it does, directly or through local calls, can be observed.

    [Object_of] follows a pointer to an ast.Object; go/parser is a parameter,
    as is the position its file set gives for a token.  The theorems show that
    the recursion over local calls, cut where it meets a block it is already
    inside, decides reachability of an effect, that the fuel is enough, and
    what a tree of sources that passes the guard looks like. *)

From S2P Require Import Prelude.
From S2P Require Import Sorting.
From S2P Require Import GoStrings.
From S2P Require Import BddSource.
From S2P Require Import GraphSearch.
From S2P Require Import GoAst.
From Stdlib Require Import ZArith Lia.
Open Scope string_scope.
Open Scope Z_scope.

Record declaration : Type := {
  body : Node; typeInfo : option Node; receiver : option Node; receiverType : string; start : Pos; end_ : Pos }.

(** The maps of the functions and of the methods of a package by name. *)
Record declarations : Type := { functions : gmap string (list declaration); methods : gmap string (list declaration) }.
Definition declared (m : gmap string (list declaration)) (name : string) : list declaration := default [] (m !! name).

Definition in_names (names : list string) (name : string) : bool := existsb (String.eqb name) names.

Definition isStepRegistration (name : string) : bool := in_names ["Step"; "Given"; "When"; "Then"] name.

Definition isPredeclaredIdentifier (name : string) : bool :=
  in_names ["any"; "bool"; "byte"; "cap"; "clear"; "close"; "comparable"; "complex"; "complex64"; "complex128"; "copy";
            "delete"; "error"; "false"; "float32"; "float64"; "imag"; "int"; "int8"; "int16"; "int32"; "int64"; "iota";
            "len"; "make"; "max"; "min"; "new"; "nil"; "panic"; "print"; "println"; "real"; "recover"; "rune"; "string";
            "true"; "uint"; "uint8"; "uint16"; "uint32"; "uint64"; "uintptr"] name.

Fixpoint localTypeName (expression : Node) : string :=
  match expression with
  | Ident i => Name i
  | StarExpr _ X | IndexExpr _ X _ | IndexListExpr _ X _ | ParenExpr _ X => localTypeName X
  | _ => ""
  end.
(** A nil expression has no type name. *)
Definition type_name (expression : option Node) : string := match expression with Some e => localTypeName e | None => "" end.

Definition receiverTypeName (fields : option Node) : string :=
  match fields with Some (FieldList _ [Field _ _ type _]) => type_name type | _ => "" end.

Fixpoint expressionTypeName (expression : Node) : string :=
  match expression with
  | CompositeLit _ type _ => type_name type
  | UnaryExpr _ Op X => if String.eqb Op "&" then expressionTypeName X else ""
  | ParenExpr _ X => expressionTypeName X
  | _ => ""
  end.

Section Guard.
Context (Object_of : ObjId -> option Object).

Definition object (i : Identifier) : option Object := Obj i ≫= Object_of.
Definition object_decl (i : Identifier) : option Node := match object i with Some o => Decl o | None => None end.
Definition kind_is (k : ObjKind) (i : Identifier) : bool :=
  match object i with Some o => bool_decide (Kind o = k) | None => false end.
Definition same_object (i j : Identifier) : bool :=
  match Obj i, Obj j with Some o, Some p => o =? p | _, _ => false end.

Definition declaration_of (function : Node) : option declaration :=
  match function with
  | FuncDecl _ Recv _ Type_ (Some Body) =>
      Some {| body := Body; typeInfo := Some Type_; receiver := Recv; receiverType := receiverTypeName Recv;
              start := node_pos function; end_ := node_end function |}
  | _ => None
  end.
Definition literal (function : Node) : option declaration :=
  match function with
  | FuncLit _ Type_ Body =>
      Some {| body := Body; typeInfo := Some Type_; receiver := None; receiverType := "";
              start := node_pos function; end_ := node_end function |}
  | _ => None
  end.

(** The loops over the targets of an assignment and the names of a variable
    declaration: the value at the position of the identifier. *)
Fixpoint assigned (identifier : Identifier) (Lhs Rhs : list Node) : option Node :=
  match Lhs, Rhs with
  | target :: Lhs, value :: Rhs =>
      match target with
      | Ident declared => if same_object declared identifier then Some value else assigned identifier Lhs Rhs
      | _ => assigned identifier Lhs Rhs
      end
  | _, _ => None
  end.
Fixpoint declared_type (identifier : Identifier) (type : option Node) (names : list Identifier) (Values : list Node) : string :=
  match names with
  | [] => ""
  | name :: names =>
      if negb (same_object name identifier) then declared_type identifier type names (tl Values)
      else if negb (String.eqb (type_name type) "") then type_name type
      else match Values with
           | value :: _ => expressionTypeName value
           | [] => declared_type identifier type names []
           end
  end.

Definition localVariableTypeName (identifier : Identifier) : option string :=
  if negb (kind_is Var identifier) then None
  else
    let name :=
      match object_decl identifier with
      | Some (AssignStmt _ Lhs Rhs) =>
          match assigned identifier Lhs Rhs with Some value => expressionTypeName value | None => "" end
      | Some (ValueSpec _ Names type Values) => declared_type identifier type Names Values
      | Some (Field _ _ type _) => type_name type
      | _ => ""
      end in
    if String.eqb name "" then None else Some name.

Definition resolveLocalMethod (index : declarations) (receiver : Identifier) (methodName : string) : option declaration :=
  match localVariableTypeName receiver with
  | Some typeName =>
      match List.filter (fun method => String.eqb (receiverType method) typeName) (declared (methods index) methodName) with
      | [method] => Some method
      | _ => None
      end
  | None => None
  end.

(** The identifier and selector cases that [resolveHandler] and
    [resolveLocalCall] share. *)
Definition resolveLocalCall (index : declarations) (expression : Node) : option declaration :=
  match expression with
  | Ident function =>
      match Obj function with
      | Some _ => if kind_is Fun_ function then
            match object_decl function with Some node => declaration_of node | None => None end
          else None
      | None => match declared (functions index) (Name function) with [item] => Some item | _ => None end
      end
  | SelectorExpr _ (Ident receiver) Sel =>
      if kind_is Var receiver then resolveLocalMethod index receiver (Name Sel) else None
  | _ => None
  end.
Definition resolveHandler (index : declarations) (expression : Node) : option declaration :=
  match expression with
  | FuncLit _ _ _ => literal expression
  | _ => resolveLocalCall index expression
  end.

(** ** What a definition takes in, and what is outside it *)
Definition in_fields (fields : option Node) (identifier : Identifier) : bool :=
  match fields with
  | Some (FieldList _ List) =>
      existsb (fun field => match field with Field _ Names _ _ => existsb (fun name => same_object name identifier) Names | _ => false end) List
  | _ => false
  end.
Definition isFunctionInput (definition : declaration) (identifier : Identifier) : bool :=
  let parameters := match typeInfo definition with Some (FuncType _ _ Params _) => Some Params | _ => None end in
  in_fields parameters identifier || in_fields (receiver definition) identifier.

Definition objectIsWithin (identifier : Identifier) (start end_ : Pos) : bool :=
  match object_decl identifier with
  | Some node => (start <=? node_pos node) && (node_end node <=? end_)
  | None => false
  end.

Definition opt (f : Node -> bool) (o : option Node) : bool := match o with Some n => f n | None => false end.

Fixpoint expressionReferencesInput (definition : declaration) (expression : Node) {struct expression} : bool :=
  let references := expressionReferencesInput definition in
  match expression with
  | Ident value =>
      if isPredeclaredIdentifier (Name value) || String.eqb (Name value) "_" then false
      else if isFunctionInput definition value then true
      else match object value with
           | None => true
           | Some _ =>
               if negb (kind_is Var value) then false
               else negb (objectIsWithin value (start definition) (end_ definition))
           end
  | SelectorExpr _ X _ => references X
  | CallExpr _ Fun Args => match Fun with SelectorExpr _ X _ => references X | _ => false end || existsb references Args
  | BinaryExpr _ X _ Y => references X || references Y
  | UnaryExpr _ _ X | ParenExpr _ X | TypeAssertExpr _ X _ => references X
  | IndexExpr _ X Index => references X || references Index
  | IndexListExpr _ X Indices => references X || existsb references Indices
  | SliceExpr _ X Low High Max => references X || opt references Low || opt references High || opt references Max
  | KeyValueExpr _ Key Value => references Key || references Value
  | CompositeLit _ _ Elts => existsb references Elts
  | _ => false
  end.

Fixpoint targetIsObservable (definition : declaration) (expression : Node) : bool :=
  match expression with
  | Ident value =>
      if String.eqb (Name value) "_" || isFunctionInput definition value then false
      else negb (objectIsWithin value (start definition) (end_ definition))
  | StarExpr _ _ => true
  | SelectorExpr _ X _ | IndexExpr _ X _ => expressionReferencesInput definition X
  | ParenExpr _ X => targetIsObservable definition X
  | _ => false
  end.

Definition not_nil (result : Node) : bool :=
  match result with Ident identifier => negb (String.eqb (Name identifier) "nil") | _ => true end.
Fixpoint statementCanReject (statement : Node) : bool :=
  match statement with
  | ReturnStmt _ Results => existsb not_nil Results
  | BlockStmt _ List => existsb statementCanReject List
  | IfStmt _ _ _ Body Else => statementCanReject Body || opt statementCanReject Else
  | _ => false
  end.
Definition blockCanReject (block : Node) : bool :=
  match block with BlockStmt _ List => existsb statementCanReject List | _ => false end.

Definition isKnownPureCall (Fun : Node) : bool :=
  match Fun with
  | Ident identifier =>
      in_names ["bool"; "byte"; "cap"; "complex"; "error"; "imag"; "int"; "int8"; "int16"; "int32"; "int64"; "len"; "real";
                "rune"; "string"; "uint"; "uint8"; "uint16"; "uint32"; "uint64"; "uintptr"] (Name identifier)
  | SelectorExpr _ (Ident packageName) Sel =>
      if match object packageName with Some _ => negb (kind_is Pkg packageName) | None => false end then false
      else in_names ["context.Background"; "context.TODO"; "errors.New"; "fmt.Errorf"; "fmt.Sprintf"; "fmt.Sprint"; "fmt.Sprintln"]
                    (Name packageName +:+ "." +:+ Name Sel)
  | _ => false
  end.

(** ** Observable effects

    [block] is [blockHasObservableEffect] with the blocks being visited. *)
Section Effects.
Context (index : declarations) (block : declaration -> Node -> bool).

(** What a call does beyond its arguments. *)
Definition calleeHasObservableEffect (Fun : Node) : bool :=
  match literal Fun with
  | Some called => block called (body called)
  | None =>
      match resolveLocalCall index Fun with
      | Some called => block called (body called)
      | None => negb (isKnownPureCall Fun)
      end
  end.

Fixpoint expressionHasObservableEffect (expression : Node) {struct expression} : bool :=
  let has := expressionHasObservableEffect in
  match expression with
  | CallExpr _ Fun Args => existsb has Args || calleeHasObservableEffect Fun
  | BinaryExpr _ X _ Y => has X || has Y
  | UnaryExpr _ _ X | ParenExpr _ X | TypeAssertExpr _ X _ => has X
  | IndexExpr _ X Index => has X || has Index
  | IndexListExpr _ X Indices => has X || existsb has Indices
  | SliceExpr _ X Low High Max => has X || opt has Low || opt has High || opt has Max
  | CompositeLit _ _ Elts => existsb has Elts
  | KeyValueExpr _ Key Value => has Key || has Value
  | SelectorExpr _ _ Sel => String.eqb (Name Sel) "ErrPending" || String.eqb (Name Sel) "ErrSkip"
  | _ => false
  end.
Definition expressionsHaveObservableEffect : list Node -> bool := existsb expressionHasObservableEffect.

(** The call of a go or defer statement. *)
Definition callHasObservableEffect (call : Node) : bool :=
  match call with
  | CallExpr _ Fun Args => expressionsHaveObservableEffect Args || calleeHasObservableEffect Fun
  | _ => false
  end.

Fixpoint statementHasObservableEffect (definition : declaration) (statement : Node) {struct statement} : bool :=
  let has := statementHasObservableEffect definition in
  let expression := expressionHasObservableEffect in
  match statement with
  | AssignStmt _ Lhs Rhs => existsb (targetIsObservable definition) Lhs || expressionsHaveObservableEffect Rhs
  | IncDecStmt _ X => targetIsObservable definition X
  | ExprStmt _ X => expression X
  | ReturnStmt _ Results => expressionsHaveObservableEffect Results
  | DeclStmt _ (GenDecl _ Specs) =>
      existsb (fun spec => match spec with ValueSpec _ _ _ Values => expressionsHaveObservableEffect Values | _ => false end) Specs
  | IfStmt _ Init Cond Body Else =>
      opt has Init || expression Cond ||
      (expressionReferencesInput definition Cond && (blockCanReject Body || opt statementCanReject Else)) ||
      block definition Body || opt has Else
  | ForStmt _ Init Cond Post Body => opt has Init || opt expression Cond || opt has Post || block definition Body
  | RangeStmt _ _ _ X Body => expression X || block definition Body
  | SwitchStmt _ Init Tag Body => opt has Init || opt expression Tag || block definition Body
  | TypeSwitchStmt _ Init Assign Body => opt has Init || has Assign || block definition Body
  | SelectStmt _ Body => block definition Body
  | CaseClause _ List Body => expressionsHaveObservableEffect List || existsb has Body
  | CommClause _ Comm Body => opt has Comm || existsb has Body
  | LabeledStmt _ _ Stmt => has Stmt
  | BlockStmt _ _ => block definition statement
  | GoStmt _ Call | DeferStmt _ Call => callHasObservableEffect Call
  | SendStmt _ _ _ => true
  | _ => false
  end.
End Effects.

(** [fuel] bounds how many blocks are inside one another; [visiting] holds
    those the recursion is inside. *)
Fixpoint blockHasObservableEffect (index : declarations) (fuel : nat) (visiting : list Pos)
    (definition : declaration) (block : Node) : bool :=
  match fuel, block with
  | S fuel, BlockStmt _ List =>
      if bool_decide (node_pos block ∈ visiting) then false
      else existsb (statementHasObservableEffect index (blockHasObservableEffect index fuel (node_pos block :: visiting)) definition) List
  | _, _ => false
  end.

Definition isTrivialHandler (index : declarations) (fuel : nat) (definition : declaration) : bool :=
  negb (blockHasObservableEffect index fuel [] definition (body definition)).

(** ** The inspection of a file *)
Context (Position : list string -> Pos -> Z * Z).

(** [set] is the file set: the paths of the files parsed into it, in order. *)
Definition positionError (set : list string) (path : string) (position : Pos) (message : string) : error :=
  let '(line, column) := Position set position in
  if line =? 0 then EMsg (path +:+ ": " +:+ message)
  else EMsg (path +:+ ":" +:+ fmt_d line +:+ ":" +:+ fmt_d column +:+ ": " +:+ trim_space message).

Record sourceFile : Type := { path : string; ast : Node }.

Definition is_skip (name : string) : bool := in_names ["Skip"; "Skipf"; "SkipNow"] name.
Definition is_sentinel (name : string) : bool := in_names ["ErrPending"; "ErrSkip"] name.

(** What the callback of [inspectFile] objects to in one node. *)
Definition inspect_node (set : list string) (file : string) (index : declarations) (fuel : nat) (node : Node) : option error :=
  match node with
  | SelectorExpr _ _ Sel =>
      if is_sentinel (Name Sel)
      then Some (positionError set file (node_pos node) ("pending/skip sentinel " +:+ Name Sel +:+ " is forbidden"))
      else None
  | CallExpr _ (SelectorExpr _ _ Sel) Args =>
      if is_skip (Name Sel) then Some (positionError set file (node_pos node) ("test skip call " +:+ Name Sel +:+ " is forbidden"))
      else if negb (isStepRegistration (Name Sel)) then None
      else match Args with
           | _ :: handler :: _ =>
               match resolveHandler index handler with
               | None =>
                   Some (positionError set file (node_pos handler)
                     "registered step handler cannot be proven to reference a unique local body; use a direct local function, a unique local method, or an inline handler")
               | Some definition =>
                   if isTrivialHandler index fuel definition
                   then Some (positionError set file (node_pos handler)
                     "registered step handler is empty, only returns nil, or has no observable effect")
                   else None
               end
           | _ => None
           end
  | _ => None
  end.
Definition inspectFile (set : list string) (file : sourceFile) (index : declarations) (fuel : nat) : option error :=
  Inspect (stopping (inspect_node set (path file) index fuel)) None (ast file).


(** ** Packages, directories and the tree *)
Definition insert_declaration (name : string) (item : declaration) (m : gmap string (list declaration)) :=
  <[name := (declared m name ++ [item])%list]> m.
Definition index_node (index : declarations) (node : Node) : declarations :=
  match node, declaration_of node with
  | FuncDecl _ Recv function _ _, Some item =>
      match Recv with
      | None => {| functions := insert_declaration (Name function) item (functions index); methods := methods index |}
      | Some _ => {| functions := functions index; methods := insert_declaration (Name function) item (methods index) |}
      end
  | _, _ => index
  end.
Definition file_decls (file : sourceFile) : list Node := match ast file with File _ _ Decls => Decls | _ => [] end.
Definition index_files (files : list sourceFile) : declarations :=
  fold_left (fun index file => fold_left index_node (file_decls file) index) files {| functions := ∅; methods := ∅ |}.

(** The blocks of the files, and one more than there are of them. *)
Definition package_blocks (files : list sourceFile) : list Pos := map node_pos (flat_map (fun file => blocks (ast file)) files).
Definition package_fuel (files : list sourceFile) : nat := S (length (package_blocks files)).

Fixpoint inspect_files (set : list string) (index : declarations) (fuel : nat) (files : list sourceFile) : result unit :=
  match files with
  | [] => Ok tt
  | file :: rest =>
      match inspectFile set file index fuel with Some err => Err err | None => inspect_files set index fuel rest end
  end.
Definition validatePackage (set : list string) (files : list sourceFile) : result unit :=
  inspect_files set (index_files files) (package_fuel files) files.

(** [parser.ParseFile] into a file set. *)
Context (ParseFile : list string -> string -> result Node).

Definition package_name (file : Node) : string := match file with File _ name _ => Name name | _ => "" end.
Fixpoint parse_files (set paths : list string) (packages : gmap string (list sourceFile)) : result (list string * gmap string (list sourceFile)) :=
  match paths with
  | [] => Ok (set, packages)
  | path :: rest =>
      match ParseFile set path with
      | Err err => Err (EWrap ("parse step source " +:+ path) err)
      | Ok file =>
          parse_files (set ++ [path])%list rest
            (<[package_name file := (default [] (packages !! package_name file) ++ [{| path := path; ast := file |}])%list]> packages)
      end
  end.

(** The keys of a map, sorted. *)
Definition sorted_keys {A} (m : gmap string A) : list string := sort_strings (map fst (map_to_list m)).

Fixpoint each {A} (f : A -> result unit) (l : list A) : result unit :=
  match l with [] => Ok tt | a :: l => match f a with Ok _ => each f l | Err err => Err err end end.

Definition validateDirectory (paths : list string) : result unit :=
  match parse_files [] paths ∅ with
  | Err err => Err err
  | Ok (set, packages) => each (fun name => validatePackage set (default [] (packages !! name))) (sorted_keys packages)
  end.

Definition visit_source (root : string) (groups : gmap string (list string)) (path : string) (entry : Tree)
  : gmap string (list string) * verdict :=
  match entry with
  | Directory name _ =>
      if String.eqb name "testdata" && negb (String.eqb (filepath_Clean path) (filepath_Clean root))
      then (groups, SkipDir) else (groups, Continue)
  | Leaf _ =>
      if String.eqb (filepath_Ext path) ".go"
      then (<[filepath_Dir path := (default [] (groups !! filepath_Dir path) ++ [path])%list]> groups, Continue)
      else (groups, Continue)
  end.

(** [lstat]: the root, or why it is not there. *)
Definition ValidateStepSources (root : string) (lstat : result Tree) : result unit :=
  match lstat with
  | Err err => Err err
  | Ok tree =>
      match walk_dir (visit_source root) (fun groups _ err => (groups, Stop err)) ∅ root tree with
      | (_, Stop err) => Err err
      | (groups, _) =>
          each (fun directory => validateDirectory (sort_strings (default [] (groups !! directory)))) (sorted_keys groups)
      end
  end.
End Guard.
