(* ===== verification/StepGuardSound.v ===== *)
(** * What the guard of the step definitions decides

    [actions]: what the statements of one block do on their own, without going
    into the blocks below it or into called functions.  A definition has an
    [observable] effect when a block with an effect is reached from its body
    through nested blocks, called literals and resolved local calls.  The
    recursion of the guard, which answers false at a block it is already
    inside, decides exactly that. *)

From S2P Require Import Prelude.
From S2P Require Import Sorting.
From S2P Require Import GoStrings.
From S2P Require Import BddSource.
From S2P Require Import GraphSearch.
From S2P Require Import GoAst.
From S2P Require Import StepGuard.
From Stdlib Require Import ZArith Lia.
Open Scope string_scope.
Open Scope Z_scope.

Inductive action : Type := Effect | Enter (definition : declaration) (block : Node).
Definition effect (b : bool) : list action := if b then [Effect] else [].
Definition enter (definition : declaration) (block : Node) : list action := if is_block block then [Enter definition block] else [].
Definition opt_actions (f : Node -> list action) (o : option Node) : list action := match o with Some n => f n | None => [] end.

Section Actions.
Context (Object_of : ObjId -> option Object) (index : declarations).

Definition callee_actions (Fun : Node) : list action :=
  match literal Fun with
  | Some called => enter called (body called)
  | None =>
      match resolveLocalCall Object_of index Fun with
      | Some called => enter called (body called)
      | None => effect (negb (isKnownPureCall Object_of Fun))
      end
  end.

Fixpoint expression_actions (expression : Node) {struct expression} : list action :=
  let has := expression_actions in
  match expression with
  | CallExpr _ Fun Args => flat_map has Args ++ callee_actions Fun
  | BinaryExpr _ X _ Y => has X ++ has Y
  | UnaryExpr _ _ X | ParenExpr _ X | TypeAssertExpr _ X _ => has X
  | IndexExpr _ X Index => has X ++ has Index
  | IndexListExpr _ X Indices => has X ++ flat_map has Indices
  | SliceExpr _ X Low High Max => has X ++ opt_actions has Low ++ opt_actions has High ++ opt_actions has Max
  | CompositeLit _ _ Elts => flat_map has Elts
  | KeyValueExpr _ Key Value => has Key ++ has Value
  | SelectorExpr _ _ Sel => effect (String.eqb (Name Sel) "ErrPending" || String.eqb (Name Sel) "ErrSkip")
  | _ => []
  end%list.

Definition call_actions (call : Node) : list action :=
  match call with CallExpr _ Fun Args => flat_map expression_actions Args ++ callee_actions Fun | _ => [] end%list.

Fixpoint statement_actions (definition : declaration) (statement : Node) {struct statement} : list action :=
  let has := statement_actions definition in
  let targets Lhs := effect (existsb (targetIsObservable Object_of definition) Lhs) in
  match statement with
  | AssignStmt _ Lhs Rhs => targets Lhs ++ flat_map expression_actions Rhs
  | IncDecStmt _ X => targets [X]
  | ExprStmt _ X => expression_actions X
  | ReturnStmt _ Results => flat_map expression_actions Results
  | DeclStmt _ (GenDecl _ Specs) =>
      flat_map (fun spec => match spec with ValueSpec _ _ _ Values => flat_map expression_actions Values | _ => [] end) Specs
  | IfStmt _ Init Cond Body Else =>
      opt_actions has Init ++ expression_actions Cond ++
      effect (expressionReferencesInput Object_of definition Cond && (blockCanReject Body || opt statementCanReject Else)) ++
      enter definition Body ++ opt_actions has Else
  | ForStmt _ Init Cond Post Body =>
      opt_actions has Init ++ opt_actions expression_actions Cond ++ opt_actions has Post ++ enter definition Body
  | RangeStmt _ _ _ X Body => expression_actions X ++ enter definition Body
  | SwitchStmt _ Init Tag Body => opt_actions has Init ++ opt_actions expression_actions Tag ++ enter definition Body
  | TypeSwitchStmt _ Init Assign Body => opt_actions has Init ++ has Assign ++ enter definition Body
  | SelectStmt _ Body => enter definition Body
  | CaseClause _ List Body => flat_map expression_actions List ++ flat_map has Body
  | CommClause _ Comm Body => opt_actions has Comm ++ flat_map has Body
  | LabeledStmt _ _ Stmt => has Stmt
  | BlockStmt _ _ => enter definition statement
  | GoStmt _ Call | DeferStmt _ Call => call_actions Call
  | SendStmt _ _ _ => [Effect]
  | _ => []
  end%list.

Definition actions (at_block : declaration * Node) : list action :=
  match snd at_block with BlockStmt _ List => flat_map (statement_actions (fst at_block)) List | _ => [] end.

Definition effective (at_block : declaration * Node) : bool := existsb (fun a => match a with Effect => true | _ => false end) (actions at_block).
Definition entered (at_block : declaration * Node) : list (declaration * Node) :=
  flat_map (fun a => match a with Enter definition block => [(definition, block)] | Effect => [] end) (actions at_block).
Definition block_pos (at_block : declaration * Node) : Pos := node_pos (snd at_block).

Definition observable (definition : declaration) : Prop := reaches effective entered (definition, body definition).
End Actions.

(** ** The guard's booleans are the actions, run *)
Section Run.
Context (Object_of : ObjId -> option Object) (index : declarations) (block : declaration -> Node -> bool).
Context (block_only : forall D b, is_block b = false -> block D b = false).

Definition run (a : action) : bool := match a with Effect => true | Enter definition b => block definition b end.

Lemma run_effect b : existsb run (effect b) = b.
Proof. by destruct b. Qed.
Lemma run_enter D b : existsb run (enter D b) = block D b.
Proof. unfold enter. destruct (is_block b) eqn:E; cbn; [by rewrite orb_false_r|by rewrite block_only]. Qed.
Lemma run_flat_map {A} (f : A -> bool) (g : A -> list action) l :
  Forall (fun x => f x = existsb run (g x)) l -> existsb f l = existsb run (flat_map g l).
Proof. induction 1 as [|x l Hx _ IH]; cbn; [done|]. by rewrite existsb_app, Hx, IH. Qed.
Lemma run_opt f g o : Forall (fun x => f x = existsb run (g x)) (option_list o) -> opt f o = existsb run (opt_actions g o).
Proof. destruct o; intros H; [by apply (Forall_inv H)|done]. Qed.

Lemma run_callee Fun : calleeHasObservableEffect Object_of index block Fun = existsb run (callee_actions Object_of index Fun).
Proof.
  unfold calleeHasObservableEffect, callee_actions. destruct (literal Fun); [by rewrite run_enter|].
  destruct (resolveLocalCall _ _ _); [by rewrite run_enter|by rewrite run_effect].
Qed.

(** Split the hypothesis on the children along the goal's disjunction. *)
Ltac run_kids :=
  repeat match goal with
  | H : Forall _ (_ ++ _) |- _ => apply Forall_app in H as [? ?]
  | H : Forall _ (_ :: _) |- _ => apply List.Forall_cons_iff in H as [? ?]
  end;
  rewrite ?existsb_app, ?run_enter, ?run_effect, ?run_callee, ?orb_assoc;
  repeat match goal with |- _ || _ = _ || _ => f_equal end;
  try assumption; try (by apply run_opt); try (by apply run_flat_map); try done.

Lemma run_expression e :
  expressionHasObservableEffect Object_of index block e = existsb run (expression_actions Object_of index e).
Proof. induction e as [e IH] using node_induction. destruct e; cbn [kids] in IH; cbn; run_kids. Qed.

Lemma run_expressions l :
  expressionsHaveObservableEffect Object_of index block l = existsb run (flat_map (expression_actions Object_of index) l).
Proof. apply run_flat_map, Forall_true, run_expression. Qed.
Lemma run_call c : callHasObservableEffect Object_of index block c = existsb run (call_actions Object_of index c).
Proof. destruct c; cbn; [..|done]; try done. by rewrite existsb_app, run_expressions, run_callee. Qed.

Lemma run_opt_expression o :
  opt (expressionHasObservableEffect Object_of index block) o = existsb run (opt_actions (expression_actions Object_of index) o).
Proof. apply run_opt, Forall_true, run_expression. Qed.
Lemma run_specs l :
  existsb (fun spec => match spec with
                       | ValueSpec _ _ _ Values => expressionsHaveObservableEffect Object_of index block Values | _ => false end) l =
  existsb run (flat_map (fun spec => match spec with
                                     | ValueSpec _ _ _ Values => flat_map (expression_actions Object_of index) Values | _ => [] end) l).
Proof. apply run_flat_map, Forall_true. intros spec. destruct spec; try done. apply run_expressions. Qed.

Lemma run_statement D s :
  statementHasObservableEffect Object_of index block D s = existsb run (statement_actions Object_of index D s).
Proof.
  induction s as [s IH] using node_induction.
  destruct s; cbn [kids] in IH; cbn; rewrite ?run_expression, ?run_expressions, ?run_call, ?run_opt_expression; run_kids;
    rewrite ?orb_false_r; try done.
  match goal with |- match ?d with _ => _ end = _ => destruct d; try done end. apply run_specs.
Qed.

Lemma run_actions D b : existsb run (actions Object_of index (D, b)) =
  effective Object_of index (D, b) || existsb (fun at_block => block (fst at_block) (snd at_block)) (entered Object_of index (D, b)).
Proof.
  unfold effective, entered. induction (actions Object_of index (D, b)) as [|[|D' b'] l IH]; cbn; [done|done|].
  rewrite IH, !orb_assoc. f_equal. apply orb_comm.
Qed.
End Run.

Section Decides.
Context (Object_of : ObjId -> option Object) (index : declarations).

Lemma is_block_shape b : is_block b = true -> exists sp List, b = BlockStmt sp List.
Proof. destruct b; try done. eauto. Qed.

Lemma non_block_search fuel visiting D b : is_block b = false ->
  blockHasObservableEffect Object_of index fuel visiting D b = false.
Proof. destruct fuel, b; done. Qed.

(** The guard's recursion is a search of the graph of blocks. *)
Lemma block_search fuel visiting D b :
  blockHasObservableEffect Object_of index fuel visiting D b =
  search block_pos (effective Object_of index) (entered Object_of index) fuel visiting (D, b).
Proof.
  revert visiting D b. induction fuel as [|fuel IH]; intros visiting D b; [by destruct b|].
  destruct (is_block b) eqn:Eb.
  - apply is_block_shape in Eb as (sp & List & ->). cbn [blockHasObservableEffect search].
    change (block_pos (D, BlockStmt sp List)) with (node_pos (BlockStmt sp List)). case_bool_decide; [done|].
    set (go := blockHasObservableEffect Object_of index fuel _).
    rewrite (run_flat_map go _ (statement_actions Object_of index D)).
    + change (flat_map (statement_actions Object_of index D) List) with (actions Object_of index (D, BlockStmt sp List)).
      rewrite run_actions. f_equal. unfold go. induction (entered _ _ _) as [|[D' b'] l IHl]; cbn; [done|]. by rewrite IH, IHl.
    + apply Forall_true. intros s. apply run_statement. intros. by apply non_block_search.
  - rewrite non_block_search by done. cbn. case_bool_decide; [done|]. by destruct b.
Qed.
End Decides.

(** ** Every block has one definition

    [owned]: the blocks of a tree, each with the definition, declared function
    or literal, whose statements it holds. *)
Definition scope (D : declaration) (n : Node) : declaration :=
  match literal n with Some d => d | None => match declaration_of n with Some d => d | None => D end end.
Fixpoint owned (D : declaration) (n : Node) {struct n} : list (declaration * Node) :=
  ((if is_block n then [(D, n)] else []) ++ into (fun l _ => (l, false)) (fun l c => l ++ owned (scope D n) c)%list [] n)%list.

Lemma owned_eq D n : owned D n = ((if is_block n then [(D, n)] else []) ++ flat_map (owned (scope D n)) (kids n))%list.
Proof.
  assert (forall f, into (fun (l : list (declaration * Node)) _ => (l, false)) (fun l c => l ++ f c)%list [] n = flat_map f (kids n)) as H.
  { intros f. rewrite into_kids by done. by rewrite fold_left_flat_map. }
  rewrite <- H. by destruct n.
Qed.

Lemma flat_map_elem {A B} (f : A -> list B) l b : b ∈ flat_map f l <-> exists a, a ∈ l /\ b ∈ f a.
Proof. rewrite list_elem_of_In, in_flat_map. split; intros (a & Ha & Hb); exists a; by rewrite !list_elem_of_In in *. Qed.

Lemma owned_blocks D n : map snd (owned D n) = blocks n.
Proof.
  revert D. induction n as [n IH] using node_induction. intros D. rewrite owned_eq, blocks_eq, map_app. f_equal; [by destruct (is_block n)|].
  induction IH as [|c l Hc _ IHl]; cbn; [done|]. by rewrite map_app, Hc, IHl.
Qed.

Lemma owned_kid D c n x : c ∈ kids n -> x ∈ owned (scope D n) c -> x ∈ owned D n.
Proof. intros Hc Hx. rewrite owned_eq. apply elem_of_app. right. apply flat_map_elem. eauto. Qed.

Lemma owned_below m n D : subnode m n -> exists D', forall x, x ∈ owned D' m -> x ∈ owned D n.
Proof.
  intros H. revert D. induction H as [|c n Hc _ IH]; intros D; [by exists D|]. destruct (IH (scope D n)) as [D' HD'].
  exists D'. intros x Hx. eapply owned_kid; eauto.
Qed.

Lemma scope_block D b : is_block b = true -> scope D b = D.
Proof. by destruct b. Qed.

(** The blocks below an owned block are owned with it. *)
Lemma owned_inside D n D' b : (D', b) ∈ owned D n ->
  is_block b = true /\ subnode b n /\ forall c x, c ∈ kids b -> x ∈ owned D' c -> x ∈ owned D n.
Proof.
  revert D. induction n as [n IH] using node_induction. intros D Hb. rewrite owned_eq in Hb.
  apply elem_of_app in Hb as [Hb|Hb].
  - destruct (is_block n) eqn:En; [|by apply elem_of_nil in Hb]. apply list_elem_of_singleton in Hb as [= -> ->].
    splits; [done|constructor|]. intros c x Hc Hx. apply (owned_kid D c n x Hc). by rewrite scope_block.
  - apply flat_map_elem in Hb as (c & Hc & Hb). rewrite Forall_forall in IH.
    destruct (IH c ltac:(by apply list_elem_of_In) _ Hb) as (H1 & H2 & H3). splits; [done|by apply (subnode_kid _ c)|].
    intros k x Hk Hx. eapply owned_kid; eauto.
Qed.

(** ** Where the blocks an action enters come from *)
Section Sources.
Context (Object_of : ObjId -> option Object) (index : declarations).

Definition called_below (n : Node) (x : declaration * Node) : Prop :=
  exists Fun, subnode Fun n /\ resolveLocalCall Object_of index Fun = Some (fst x) /\ snd x = body (fst x).
Definition source (D : declaration) (n : Node) (x : declaration * Node) : Prop :=
  is_block (snd x) = true /\ (x ∈ owned D n \/ called_below n x).

Lemma source_kid D c n x : c ∈ kids n -> source (scope D n) c x -> source D n x.
Proof.
  intros Hc [Hx [H|(Fun & HF & H)]]; split; try done; [left; by apply (owned_kid D c)|right].
  exists Fun. split; [by apply (subnode_kid _ c)|done].
Qed.

Lemma enter_elem a D b : a ∈ enter D b -> a = Enter D b /\ is_block b = true.
Proof. unfold enter. destruct (is_block b); [by intros ->%list_elem_of_singleton|by intros ?%elem_of_nil]. Qed.
Lemma effect_elem D b c : Enter D b ∈ effect c -> False.
Proof. destruct c; [by intros ?%list_elem_of_singleton|by intros ?%elem_of_nil]. Qed.
Lemma opt_elem f o a : a ∈ opt_actions f o -> exists n, n ∈ option_list o /\ a ∈ f n.
Proof. destruct o; [exists n; by split; [left|]|by intros ?%elem_of_nil]. Qed.

Lemma enter_source D n b : b ∈ kids n -> scope D n = D -> forall x, Enter (fst x) (snd x) ∈ enter D b -> source D n x.
Proof.
  intros Hb HD [D1 b1] [[= -> ->] Hblock]%enter_elem. apply (source_kid D b n _ Hb). rewrite HD. split; [done|left].
  rewrite owned_eq. cbn. rewrite Hblock. by left.
Qed.

Lemma callee_source D sp Fun Args x : Enter (fst x) (snd x) ∈ callee_actions Object_of index Fun -> source D (CallExpr sp Fun Args) x.
Proof.
  unfold callee_actions. intros H. apply (source_kid D Fun); [by left|]. change (scope D (CallExpr sp Fun Args)) with D.
  destruct (literal Fun) as [lit|] eqn:El.
  - apply enter_elem in H as [E Hb]. injection E as E1 E2. destruct x as [D1 b1]; cbn in E1, E2; subst. split; [done|left].
    rewrite owned_eq. apply elem_of_app. right. apply flat_map_elem. unfold scope. rewrite El.
    destruct Fun; try done. injection El as <-. cbn in *. exists Fun2. split; [right; by left|]. rewrite owned_eq, Hb. by left.
  - destruct (resolveLocalCall _ _ _) as [d|] eqn:Er; [|by apply effect_elem in H].
    apply enter_elem in H as [E Hb]. injection E as E1 E2. destruct x as [D1 b1]; cbn in E1, E2; subst. split; [done|right].
    exists Fun. splits; [constructor|done|done].
Qed.

Definition sourced (f : Node -> list action) (D : declaration) (n : Node) : Prop :=
  forall x, Enter (fst x) (snd x) ∈ f n -> source D n x.

Lemma sourced_list f D n l : Forall (sourced f D) l -> l ⊆ kids n -> scope D n = D ->
  forall x, Enter (fst x) (snd x) ∈ flat_map f l -> source D n x.
Proof.
  intros Hf Hl HD x (c & Hc & Hx)%flat_map_elem. apply (source_kid D c); [by apply Hl|]. rewrite HD.
  rewrite Forall_forall in Hf. apply Hf; [by apply list_elem_of_In|done].
Qed.
Lemma sourced_one f D n c : sourced f D c -> c ∈ kids n -> scope D n = D -> forall x, Enter (fst x) (snd x) ∈ f c -> source D n x.
Proof. intros Hf Hc HD x Hx. apply (source_kid D c); [done|]. rewrite HD. by apply Hf. Qed.
Lemma sourced_opt f D n o : Forall (sourced f D) (option_list o) -> option_list o ⊆ kids n -> scope D n = D ->
  forall x, Enter (fst x) (snd x) ∈ opt_actions f o -> source D n x.
Proof.
  intros Hf Hl HD x (c & Hc & Hx)%opt_elem. apply (source_kid D c); [by apply Hl|]. rewrite HD.
  rewrite Forall_forall in Hf. apply Hf; [by apply list_elem_of_In|done].
Qed.

(** Take a list of actions apart and trace each part to a child. *)
Ltac child := cbn [kids]; intros; set_solver.
Ltac split_actions :=
  repeat match goal with
  | H : Forall _ (_ ++ _) |- _ => apply Forall_app in H as [? ?]
  | H : Forall _ (_ :: _) |- _ => apply List.Forall_cons_iff in H as [? ?]
  end;
  repeat match goal with H : Enter _ _ ∈ (_ ++ _)%list |- _ => apply elem_of_app in H as [H|H] end.
Ltac trace :=
  match goal with
  | H : Enter _ _ ∈ [] |- _ => by apply elem_of_nil in H
  | H : Enter _ _ ∈ [Effect] |- _ => by apply list_elem_of_singleton in H
  | H : Enter _ _ ∈ effect _ |- _ => by apply effect_elem in H
  | H : Enter _ _ ∈ callee_actions _ _ _ |- _ => by apply callee_source
  | H : Enter _ _ ∈ enter ?D ?b |- _ => apply (enter_source D _ b); [child|done|exact H]
  | H : Enter _ _ ∈ flat_map _ ?l, K : Forall _ ?l |- _ => refine (sourced_list _ _ _ l K _ _ _ H); [child|done]
  | H : Enter _ _ ∈ opt_actions _ ?o, K : Forall _ (option_list ?o) |- _ => refine (sourced_opt _ _ _ o K _ _ _ H); [child|done]
  | H : Enter _ _ ∈ _ ?c, K : sourced _ _ ?c |- _ => refine (sourced_one _ _ _ c K _ _ _ H); [child|done]
  end.

Lemma expression_source D e : sourced (expression_actions Object_of index) D e.
Proof.
  induction e as [e IH] using node_induction. intros x Hx. destruct e; cbn [kids] in IH; cbn in Hx; split_actions; trace.
Qed.

Lemma call_source D c : sourced (call_actions Object_of index) D c.
Proof.
  intros x Hx. destruct c; cbn in Hx; try (split_actions; trace). apply elem_of_app in Hx as [Hx|Hx]; [|by apply callee_source].
  apply (sourced_list (expression_actions Object_of index) D _ Args); [|child|done|done].
  apply Forall_true. apply expression_source.
Qed.

Lemma spec_source D specs : Forall (sourced (fun spec => match spec with
    | ValueSpec _ _ _ Values => flat_map (expression_actions Object_of index) Values | _ => [] end) D) specs.
Proof.
  apply Forall_true. intros spec x Hx. destruct spec; cbn in Hx; try (split_actions; trace).
  apply (sourced_list (expression_actions Object_of index) D _ Values); [|child|done|done].
  apply Forall_true. apply expression_source.
Qed.

(** The parts of a statement that are expressions or calls. *)
Ltac trace_parts D :=
  match goal with
  | H : Enter _ _ ∈ expression_actions _ _ ?c |- _ =>
      refine (sourced_one _ _ _ c (expression_source D c) _ _ _ H); [child|done]
  | H : Enter _ _ ∈ call_actions _ _ ?c |- _ => refine (sourced_one _ _ _ c (call_source D c) _ _ _ H); [child|done]
  | H : Enter _ _ ∈ flat_map (expression_actions _ _) ?l |- _ =>
      refine (sourced_list _ _ _ l (Forall_true _ l (expression_source D)) _ _ _ H); [child|done]
  | H : Enter _ _ ∈ opt_actions (expression_actions _ _) ?o |- _ =>
      refine (sourced_opt _ _ _ o (Forall_true _ (option_list o) (expression_source D)) _ _ _ H); [child|done]
  end.

Lemma statement_source D s : sourced (statement_actions Object_of index D) D s.
Proof.
  induction s as [s IH] using node_induction. intros x Hx.
  destruct s; cbn [kids] in IH; cbn in Hx; try (split_actions; first [trace | trace_parts D]).
  - destruct s; try (split_actions; trace). apply (source_kid D (GenDecl sp0 Specs)); [by left|].
    apply (sourced_list _ D _ Specs (spec_source D Specs)); [child|done|done].
  - apply list_elem_of_singleton in Hx as [= E1 E2]. destruct x as [D1 b]; cbn in E1, E2; subst. split; [done|left].
    rewrite owned_eq. by left.
Qed.
End Sources.

(** ** A package as go/parser gives it *)
Definition no_definition : declaration :=
  {| body := BadStmt (0, 0); typeInfo := None; receiver := None; receiverType := ""; start := 0; end_ := 0 |}.
Definition package_owned (files : list sourceFile) : list (declaration * Node) := flat_map (fun file => owned no_definition (ast file)) files.

(** Blocks have positions of their own, and the function an identifier is
    resolved to is declared in the identifier's file. *)
Record parsed (Object_of : ObjId -> option Object) (files : list sourceFile) : Prop := {
  blocks_apart : base.NoDup (package_blocks files);
  functions_declared : forall file i node, file ∈ files -> subnode (Ident i) (ast file) ->
    kind_is Object_of Fun_ i = true -> object_decl Object_of i = Some node -> subnode node (ast file) }.

Section Package.
Context (Object_of : ObjId -> option Object) (files : list sourceFile) (Hparsed : parsed Object_of files).

Definition in_package (node : Node) : Prop := exists file, file ∈ files /\ subnode node (ast file).
Definition declared_here (D : declaration) : Prop := exists node, in_package node /\ declaration_of node = Some D.

Lemma in_package_below m n : subnode m n -> in_package n -> in_package m.
Proof. intros H (file & Hf & Hn). exists file. split; [done|]. by eapply subnode_trans. Qed.

Lemma declared_in (m : gmap string (list declaration)) name item name' x :
  x ∈ declared (insert_declaration name item m) name' -> x = item \/ exists k, x ∈ declared m k.
Proof.
  unfold declared at 1, insert_declaration. destruct (decide (name = name')) as [->|Hn].
  - rewrite lookup_insert_eq. cbn. intros [H|H%list_elem_of_singleton]%elem_of_app; [right; by exists name'|by left].
  - rewrite lookup_insert_ne by done. intros H. right. by exists name'.
Qed.

Definition sound_index (index : declarations) : Prop :=
  forall name x, x ∈ declared (functions index) name \/ x ∈ declared (methods index) name -> declared_here x.

Lemma index_node_sound index node : sound_index index -> in_package node -> sound_index (index_node index node).
Proof.
  intros Hs Hp. unfold index_node. destruct node as [| | | | | | | | | | | | | | | | | | | | | | | | | | | | | | | | | | | | | | | | | | | | | | | | | | |sp Recv function Type_ Body|];
    try done. destruct (declaration_of _) as [item|] eqn:E; [|done].
  assert (declared_here item) as Hi by (eexists; eauto).
  destruct Recv; intros name x [H|H]; cbn in H; try (by apply (Hs name x); auto);
    (apply declared_in in H as [-> | (k & H)]; [done|apply (Hs k x); auto]).
Qed.

Lemma index_files_sound : sound_index (index_files files).
Proof.
  unfold index_files. assert (sound_index {| functions := ∅; methods := ∅ |}) as H0.
  { intros name x [H|H]; unfold declared in H; cbn in H; rewrite lookup_empty in H; by apply elem_of_nil in H. }
  assert (forall l index, l ⊆ files -> sound_index index ->
    sound_index (fold_left (fun index file => fold_left index_node (file_decls file) index) l index)) as H; [|by apply H].
  induction l as [|file l IH]; intros index Hl Hs; cbn; [done|]. apply IH; [set_solver|].
  assert (forall k index, (forall n, n ∈ k -> in_package n) -> sound_index index -> sound_index (fold_left index_node k index)) as Hk.
  { induction k as [|n k IHk]; intros ix Hn Hix; cbn; [done|]. apply IHk; [set_solver|]. apply index_node_sound; [done|]. apply Hn. by left. }
  apply Hk; [|done]. intros n Hn. exists file. split; [apply Hl; by left|]. unfold file_decls in Hn.
  destruct (ast file) eqn:Ea; try by apply elem_of_nil in Hn. by apply kid_subnode.
Qed.

(** A resolved call is of a function declared in the package. *)
Lemma resolved_here Fun D : in_package Fun -> resolveLocalCall Object_of (index_files files) Fun = Some D -> declared_here D.
Proof.
  intros HF. unfold resolveLocalCall. destruct Fun; try done.
  - destruct (Obj i) as [o|] eqn:Eo.
    + destruct (kind_is Object_of Fun_ i) eqn:Ek; [|done]. destruct (object_decl Object_of i) as [node|] eqn:Ed; [|done].
      intros HD. destruct HF as (file & Hf & Hi). exists node. split; [|done]. exists file. split; [done|].
      by apply (functions_declared _ _ Hparsed file i).
    + destruct (declared _ _) as [|item []] eqn:E; [done| |done]. intros [= <-]. apply (index_files_sound (Name i)). left.
      rewrite E. by left.
  - destruct Fun; try done. destruct (kind_is _ _ _); [|done]. unfold resolveLocalMethod.
    destruct (localVariableTypeName _ _); [|done]. destruct (List.filter _ _) as [|item []] eqn:E; [done| |done].
    intros [= <-]. apply (index_files_sound (Name Sel)). right.
    assert (item ∈ [item]) as Hin by (by left). rewrite <- E in Hin. by apply in_filter_iff in Hin as [? _].
Qed.

Lemma kid_owned n D b : in_package n -> b ∈ kids n -> is_block b = true -> (forall D0, scope D0 n = D) -> (D, b) ∈ package_owned files.
Proof.
  intros (file & Hf & Hn) Hb Hblock HD. apply flat_map_elem. exists file. split; [done|].
  destruct (owned_below n (ast file) no_definition Hn) as [D' HD']. apply HD'. apply (owned_kid D' b); [done|].
  rewrite HD, owned_eq, Hblock. by left.
Qed.

Lemma declared_owned D : declared_here D -> is_block (body D) = true -> (D, body D) ∈ package_owned files.
Proof.
  intros (node & Hn & HD) Hb. apply (kid_owned node); [done| |done|intros D0; unfold scope; destruct node; try done; by rewrite HD].
  destruct node; try done. destruct Body as [b|]; [|done]. injection HD as <-. cbn. set_solver.
Qed.

Lemma literal_owned node D : in_package node -> literal node = Some D -> is_block (body D) = true -> (D, body D) ∈ package_owned files.
Proof.
  intros Hn HD Hb. apply (kid_owned node); [done| |done|intros D0; unfold scope; by rewrite HD].
  destruct node; try done. injection HD as <-. cbn. set_solver.
Qed.

(** The blocks of the package are closed under what a block enters. *)
Lemma package_closed a b : a ∈ package_owned files -> b ∈ entered Object_of (index_files files) a -> b ∈ package_owned files.
Proof.
  destruct a as [D blk]. intros (file & Hf & Ha)%flat_map_elem (act & Hact & Hb)%flat_map_elem.
  destruct act as [|D' b']; [by apply elem_of_nil in Hb|]. apply list_elem_of_singleton in Hb as ->.
  destruct (owned_inside _ _ _ _ Ha) as (Hblock & Hsub & Hin). apply is_block_shape in Hblock as (sp & List & ->).
  apply flat_map_elem in Hact as (s & Hs & Hact).
  destruct (statement_source Object_of (index_files files) D s (D', b') Hact) as [Hb' [Ho|(Fun & HF & HR & Hbody)]].
  - apply flat_map_elem. exists file. split; [done|]. by apply (Hin s).
  - cbn in Hbody, Hb'. subst b'. apply declared_owned; [|done]. eapply resolved_here; [|done].
    exists file. split; [done|]. apply (subnode_trans _ s); [done|].
    apply (subnode_trans _ (BlockStmt sp List)); [by apply kid_subnode|done].
Qed.

Lemma package_positions : map block_pos (package_owned files) = package_blocks files.
Proof.
  unfold package_owned, package_blocks, block_pos. rewrite <- map_map. f_equal.
  clear Hparsed. induction files as [|file l IH]; cbn; [done|]. by rewrite map_app, owned_blocks, IH.
Qed.

(** The answer about a handler found in the package is right. *)
Lemma trivial_handler handler D : in_package handler -> resolveHandler Object_of (index_files files) handler = Some D ->
  isTrivialHandler Object_of (index_files files) (package_fuel files) D = false <-> observable Object_of (index_files files) D.
Proof.
  intros Hh HR. unfold isTrivialHandler, observable. rewrite negb_false_iff. destruct (is_block (body D)) eqn:Eb.
  - rewrite block_search. apply (search_reaches _ _ _ (package_owned files)).
    + rewrite package_positions. apply Hparsed.
    + apply package_closed.
    + destruct handler; try (by eapply declared_owned; [eapply resolved_here|]). by eapply literal_owned.
    + unfold package_fuel. rewrite <- package_positions, length_map. lia.
  - rewrite non_block_search by done. split; [done|].
    assert (actions Object_of (index_files files) (D, body D) = []) as E by (unfold actions; cbn; by destruct (body D)).
    intros HO. inversion HO as [a H|a b H]; subst; unfold effective, entered in H; rewrite E in H; [done|by apply elem_of_nil in H].
Qed.
End Package.

(** ** What an accepted tree of sources looks like *)
Definition forbidden (node : Node) : bool :=
  match node with
  | SelectorExpr _ _ Sel => is_sentinel (Name Sel)
  | CallExpr _ (SelectorExpr _ _ Sel) _ => is_skip (Name Sel)
  | _ => false
  end.
Definition registered (node : Node) : option Node :=
  match node with
  | CallExpr _ (SelectorExpr _ _ Sel) (_ :: handler :: _) => if isStepRegistration (Name Sel) then Some handler else None
  | _ => None
  end.
Definition acceptable (Object_of : ObjId -> option Object) (index : declarations) (node : Node) : Prop :=
  forbidden node = false /\
  forall handler, registered node = Some handler ->
    exists D, resolveHandler Object_of index handler = Some D /\ observable Object_of index D.

(** The Go files a walk visits, and whether it can read its directories. *)
Definition skipped (root path name : string) : bool :=
  String.eqb name "testdata" && negb (String.eqb (filepath_Clean path) (filepath_Clean root)).
Fixpoint sources (root path : string) (t : Tree) : list string :=
  match t with
  | Leaf _ => if String.eqb (filepath_Ext path) ".go" then [path] else []
  | Directory name entries =>
      if skipped root path name then [] else
      match entries with Ok es => flat_map (fun e => sources root (filepath_Join path (entry_name e)) e) es | Err _ => [] end
  end.
Fixpoint readable (root path : string) (t : Tree) : bool :=
  match t with
  | Leaf _ => true
  | Directory name entries =>
      skipped root path name ||
      match entries with Ok es => forallb (fun e => readable root (filepath_Join path (entry_name e)) e) es | Err _ => false end
  end.
(** The sources of one directory, as they are parsed. *)
Definition directory_sources (root : string) (tree : Tree) (directory : string) : list string :=
  sort_strings (List.filter (fun path => String.eqb (filepath_Dir path) directory) (sources root root tree)).

Section Accepted.
Context (Object_of : ObjId -> option Object) (Position : list string -> Pos -> Z * Z).
Context (ParseFile : list string -> string -> result Node).

Lemma inspect_node_none set file files node : parsed Object_of files -> in_package files node ->
  inspect_node Object_of Position set file (index_files files) (package_fuel files) node = None <->
  acceptable Object_of (index_files files) node.
Proof.
  intros Hp Hn. unfold acceptable. destruct node; try (by split); cbn [inspect_node forbidden registered].
  - destruct (is_sentinel (Name Sel)); [split; [done|by intros [? _]]|by split].
  - destruct node; try (by split). destruct (is_skip (Name Sel)); [split; [done|by intros [? _]]|].
    destruct (isStepRegistration (Name Sel)) eqn:Er; cbn; [|split; [|done]; split; [done|]; by destruct Args as [|? [|]]].
    destruct Args as [|a [|handler rest]]; [by split|by split|].
    assert (in_package files handler) as Hh.
    { eapply in_package_below; [|exact Hn]. apply kid_subnode. right. right. left. }
    destruct (resolveHandler _ _ handler) as [D|] eqn:ER.
    + pose proof (trivial_handler Object_of files Hp handler D Hh ER) as HT.
      destruct (isTrivialHandler _ _ _ D); split; try done.
      * intros [_ H]. destruct (H handler eq_refl) as (D' & ED & HO). rewrite ER in ED. injection ED as <-. by apply HT in HO.
      * intros _. split; [done|]. intros h [= <-]. exists D. split; [done|]. by apply HT.
    + split; [done|]. intros [_ H]. destruct (H handler eq_refl) as (D' & ED & _). by rewrite ER in ED.
Qed.


Lemma inspect_files_ok set index fuel l : inspect_files Object_of Position set index fuel l = Ok tt <->
  forall file, file ∈ l -> inspectFile Object_of Position set file index fuel = None.
Proof.
  induction l as [|file l IH]; cbn; [split; [by intros _ ? ?%elem_of_nil|done]|].
  destruct (inspectFile _ _ _ file _ _) eqn:E; [split; [done|intros H; by rewrite (H file) in E by left]|].
  rewrite IH. split; [|intros H f Hf; apply H; by right]. by intros H f [-> | Hf]%elem_of_cons; [|apply H].
Qed.

Lemma validatePackage_ok set files : parsed Object_of files ->
  validatePackage Object_of Position set files = Ok tt <->
  forall file node, file ∈ files -> node ∈ nodes (ast file) -> acceptable Object_of (index_files files) node.
Proof.
  intros Hp. unfold validatePackage. rewrite inspect_files_ok.
  assert (forall file node, file ∈ files -> node ∈ nodes (ast file) ->
    inspect_node Object_of Position set (path file) (index_files files) (package_fuel files) node = None <->
    acceptable Object_of (index_files files) node) as H.
  { intros file node Hf [[i ->]|Hs]%nodes_subnode; [by split|]. apply inspect_node_none; [done|by exists file]. }
  unfold inspectFile. setoid_rewrite Inspect_stopping. setoid_rewrite first_failure_none.
  split; intros Ha file; [intros node Hf Hn|intros Hf node Hn]; apply (H file node Hf Hn); eauto.
Qed.

Lemma each_ok {A} (f : A -> result unit) l : each f l = Ok tt <-> forall a, a ∈ l -> f a = Ok tt.
Proof.
  induction l as [|a l IH]; cbn; [split; [by intros _ ? ?%elem_of_nil|done]|].
  destruct (f a) as [[]|] eqn:E; [|split; [done|intros H; by rewrite (H a) in E by left]].
  rewrite IH. split; [|intros H b Hb; apply H; by right]. by intros H b [-> | Hb]%elem_of_cons; [|apply H].
Qed.

Lemma sorted_keys_elem {A} (m : gmap string A) k : k ∈ sorted_keys m <-> is_Some (m !! k).
Proof.
  unfold sorted_keys, sort_strings. rewrite sort_by_in, list_elem_of_In, in_map_iff. split.
  - intros ([k' a] & <- & H%list_elem_of_In%elem_of_map_to_list). cbn. eauto.
  - intros [a Ha]. exists (k, a). split; [done|]. by apply list_elem_of_In, elem_of_map_to_list.
Qed.

Lemma validateDirectory_ok paths : validateDirectory Object_of Position ParseFile paths = Ok tt <->
  exists set packages, parse_files ParseFile [] paths ∅ = Ok (set, packages) /\
    forall name files, packages !! name = Some files -> validatePackage Object_of Position set files = Ok tt.
Proof.
  unfold validateDirectory. destruct (parse_files _ _ _ _) as [[set packages]|err].
  - rewrite each_ok. split.
    + intros H. exists set, packages. split; [done|]. intros name files Hn. specialize (H name). rewrite Hn in H. apply H.
      apply sorted_keys_elem. eauto.
    + intros (set' & packages' & [= <- <-] & H) name [files Hn]%sorted_keys_elem. rewrite Hn. cbn. eauto.
  - split; [done|]. by intros (? & ? & ? & _).
Qed.

(** *** The walk *)
Definition add_source (groups : gmap string (list string)) (path : string) : gmap string (list string) :=
  <[filepath_Dir path := (default [] (groups !! filepath_Dir path) ++ [path])%list]> groups.

Lemma add_sources_group l groups d :
  default [] (fold_left add_source l groups !! d) =
  (default [] (groups !! d) ++ List.filter (fun path => String.eqb (filepath_Dir path) d) l)%list.
Proof.
  revert groups. induction l as [|p l IH]; intros groups; cbn; [by rewrite app_nil_r|]. rewrite IH. unfold add_source.
  destruct (String.eqb_spec (filepath_Dir p) d) as [->|Hn].
  - rewrite lookup_insert_eq. cbn. by rewrite <- app_assoc.
  - by rewrite lookup_insert_ne.
Qed.

Definition stop_unreadable (groups : gmap string (list string)) (_ : string) (err : error) : gmap string (list string) * verdict :=
  (groups, Stop err).

Section TreeInduction.
Context (P : Tree -> Prop) (on_leaf : forall name, P (Leaf name))
  (on_directory : forall name es, Forall P es -> P (Directory name (Ok es)))
  (on_failure : forall name err, P (Directory name (Err err))).
Fixpoint tree_induction (t : Tree) : P t :=
  match t with
  | Leaf name => on_leaf name
  | Directory name (Err err) => on_failure name err
  | Directory name (Ok es) =>
      on_directory name es
        ((fix go l : Forall P l := match l with [] => List.Forall_nil P | e :: l => @List.Forall_cons _ P e l (tree_induction e) (go l) end) es)
  end.
End TreeInduction.

Lemma walk_sources root t : forall groups path,
  let answer := walk_dir (visit_source root) stop_unreadable groups path t in
  if readable root path t then answer = (fold_left add_source (sources root path t) groups, Continue)
  else exists err, snd answer = Stop err.
Proof.
  induction t as [name|name es IH|name err] using tree_induction; intros groups path; cbn.
  - by destruct (String.eqb (filepath_Ext path) ".go").
  - fold (skipped root path name). destruct (skipped root path name); cbn; [done|]. revert groups.
    induction IH as [|e es He _ IHes]; intros groups; cbn; [done|].
    specialize (He groups (filepath_Join path (entry_name e))). cbn in He.
    destruct (readable root _ e); cbn.
    + rewrite He, fold_left_app. apply IHes.
    + destruct He as [err He]. destruct (walk_dir _ _ _ _ e) as [g v]. cbn in He. subst. by exists err.
  - fold (skipped root path name). destruct (skipped root path name); cbn; [done|]. by exists err.
Qed.

(** C35: the guard accepts exactly the trees of sources whose steps all do
    something.  [ValidateStepSources] answers nil if and only if every
    directory outside a nested testdata can be read, every Go file of a
    directory parses, and in the packages they form no node is a pending or
    skip sentinel or a test skip, and each registered handler resolves to one
    definition of its own package from whose body an observable effect is
    reached, through nested blocks, literals and any chain of local calls,
    cyclic ones included. *)
Theorem ValidateStepSources_accepts root tree :
  (forall directory set packages name files,
     parse_files ParseFile [] (directory_sources root tree directory) ∅ = Ok (set, packages) ->
     packages !! name = Some files -> parsed Object_of files) ->
  ValidateStepSources Object_of Position ParseFile root (Ok tree) = Ok tt <->
  readable root root tree = true /\
  forall directory, exists set packages,
    parse_files ParseFile [] (directory_sources root tree directory) ∅ = Ok (set, packages) /\
    forall name files file node, packages !! name = Some files -> file ∈ files -> node ∈ nodes (ast file) ->
      acceptable Object_of (index_files files) node.
Proof.
  intros Hp. unfold ValidateStepSources. pose proof (walk_sources root tree ∅ root) as Hw. cbn zeta in Hw.
  change (fun groups _ err => (groups, Stop err)) with stop_unreadable.
  destruct (readable root root tree).
  2:{ destruct Hw as [err Hw]. destruct (walk_dir _ _ _ _ tree) as [g v]. cbn in Hw. subst. by split; [|intros [? _]]. }
  rewrite Hw, each_ok.
  assert (forall d, default [] (fold_left add_source (sources root root tree) ∅ !! d) =
    List.filter (fun path => String.eqb (filepath_Dir path) d) (sources root root tree)) as Hg.
  { intros d. by rewrite add_sources_group, lookup_empty. }
  transitivity (forall d, validateDirectory Object_of Position ParseFile (directory_sources root tree d) = Ok tt).
  - unfold directory_sources. setoid_rewrite Hg. split; [|auto]. intros H d.
    destruct (fold_left add_source (sources root root tree) ∅ !! d) eqn:E; [apply H, sorted_keys_elem; eauto|].
    specialize (Hg d). rewrite E in Hg. cbn in Hg. by rewrite <- Hg.
  - setoid_rewrite validateDirectory_ok. split; [intros H; split; [done|]; intros d|intros [_ H] d]; destruct (H d) as (set & ps & E & Hf);
      exists set, ps; (split; [done|]).
    + intros name files file node Hn. pose proof (Hp d _ _ _ _ E Hn) as Hpk. revert file node. apply (validatePackage_ok set); eauto.
    + intros name files Hn. apply validatePackage_ok; [eapply Hp; eauto|]. eauto.
Qed.
End Accepted.

(** ** A sample package

    [register] registers [handler]; [handler] calls [pong], which calls
    [handler] back and writes the package variable [state]. *)
Module Sample.
Definition id (pos : Pos) (name : string) (obj : option ObjId) : Node := Ident {| NamePos := pos; Name := name; Obj := obj |}.
Definition ident (pos : Pos) (name : string) (obj : option ObjId) : Identifier := {| NamePos := pos; Name := name; Obj := obj |}.
Definition signature (pos : Pos) (params : list Node) : Node := FuncType (pos, pos + 2) None (FieldList (pos, pos + 2) params) None.
Definition call (pos : Pos) (f : Node) (args : list Node) : Node := ExprStmt (pos, pos + 9) (CallExpr (pos, pos + 9) f args).

Definition state_spec : Node := ValueSpec (10, 19) [ident 10 "state" (Some 3)] (Some (id 16 "int" None)) [].
Definition state_decl : Node := GenDecl (6, 19) [state_spec].
Definition handler_decl : Node :=
  FuncDecl (20, 39) None (ident 25 "handler" (Some 1)) (signature 28 []) (Some (BlockStmt (30, 39) [call 31 (id 31 "pong" (Some 2)) []])).
Definition pong_decl : Node :=
  FuncDecl (40, 69) None (ident 45 "pong" (Some 2)) (signature 48 [])
    (Some (BlockStmt (50, 69) [call 51 (id 51 "handler" (Some 1)) [];
                               AssignStmt (61, 68) [id 61 "state" (Some 3)] [BasicLit (67, 68) "1"]])).
Definition ctx_field : Node := Field (79, 83) [ident 79 "ctx" (Some 4)] (Some (id 82 "T" None)) None.
Definition step (handler : Node) : Node :=
  CallExpr (91, 99) (SelectorExpr (91, 95) (id 91 "ctx" (Some 4)) (ident 93 "Step" None)) [BasicLit (96, 97) "^x$"; handler].
Definition register_decl (handler : Node) : Node :=
  FuncDecl (70, 100) None (ident 75 "register" (Some 5)) (signature 78 [ctx_field])
    (Some (BlockStmt (90, 100) [ExprStmt (91, 99) (step handler)])).
Definition file_of (handler : Node) : Node :=
  File (1, 100) (ident 1 "steps" None) [state_decl; handler_decl; pong_decl; register_decl handler].

Definition objects (o : ObjId) : option Object :=
  if o =? 1 then Some {| Kind := Fun_; Decl := Some handler_decl |}
  else if o =? 2 then Some {| Kind := Fun_; Decl := Some pong_decl |}
  else if o =? 3 then Some {| Kind := Var; Decl := Some state_spec |}
  else if o =? 4 then Some {| Kind := Var; Decl := Some ctx_field |}
  else None.
Definition handler_ident : Node := id 98 "handler" (Some 1).
Definition parse (handler : Node) (_ : list string) (_ : string) : result Node := Ok (file_of handler).
Definition position (_ : list string) (p : Pos) : Z * Z := (1, p).

(** The testdata below the root is never read. *)
Definition tree : Tree :=
  Directory "steps" (Ok [Leaf "notes.md"; Leaf "steps.go"; Directory "testdata" (Err (EMsg "permission denied"))]).
Definition validate (handler : Node) : result unit := ValidateStepSources objects position (parse handler) "steps" (Ok tree).

(** The cycle reaches the write of [state]. *)
Example cycle_with_effect : validate handler_ident = Ok tt.
Proof. vm_compute. reflexivity. Qed.

(** An inline handler that only calls the cycle's like, or returns nil. *)
Definition inline (statements : list Node) : Node := FuncLit (98, 99) (signature 98 []) (BlockStmt (98, 99) statements).
Definition vacuous : result unit :=
  Err (EMsg "steps/steps.go:1:98: registered step handler is empty, only returns nil, or has no observable effect").
Example returns_nil : validate (inline [ReturnStmt (98, 99) [id 98 "nil" None]]) = vacuous.
Proof. vm_compute. reflexivity. Qed.
Example pure_call : validate (inline [ReturnStmt (98, 99) [CallExpr (98, 99) (id 98 "error" None) [id 98 "nil" None]]]) = vacuous.
Proof. vm_compute. reflexivity. Qed.
Example skips : validate (inline [ExprStmt (98, 99) (SelectorExpr (98, 99) (id 98 "godog" None) (ident 98 "ErrPending" None))]) =
  Err (EMsg "steps/steps.go:1:98: pending/skip sentinel ErrPending is forbidden").
Proof. vm_compute. reflexivity. Qed.

(** A literal that does nothing, called through a variable, passes: only
    declared functions are followed. *)
Example local_literal_passes :
  validate (inline [AssignStmt (98, 99) [id 98 "noop" None] [inline []]; call 98 (id 98 "noop" (Some 4)) []; ReturnStmt (98, 99) [id 98 "nil" None]]) = Ok tt.
Proof. vm_compute. reflexivity. Qed.

Lemma sample_parsed path : parsed objects [{| path := path; ast := file_of handler_ident |}].
Proof.
  split.
  - apply (bool_decide_unpack _). vm_compute. done.
  - intros file i node ->%list_elem_of_singleton _ Hk Hd. unfold kind_is, object_decl, object in *. cbn [ast].
    destruct (Obj i) as [o|]; cbn in Hk, Hd; [|done]. unfold objects in *.
    assert (node = handler_decl \/ node = pong_decl) as [-> | ->];
      [|by apply kid_subnode; right; left|by apply kid_subnode; right; right; left].
    repeat match type of Hd with context [if ?b then _ else _] => destruct b end; try done; injection Hd as <-; auto.
Qed.

Lemma sample_package directory set packages name files :
  parse_files (parse handler_ident) [] (directory_sources "steps" tree directory) ∅ = Ok (set, packages) ->
  packages !! name = Some files -> parsed objects files.
Proof.
  unfold directory_sources. change (sources "steps" "steps" tree) with ["steps/steps.go"]. cbn [List.filter].
  destruct (String.eqb _ directory); cbn.
  - intros [= <- <-]. destruct (decide (name = "steps")) as [->|Hn].
    + rewrite lookup_insert_eq, lookup_empty. intros [= <-]. apply sample_parsed.
    + by rewrite lookup_insert_ne, lookup_empty.
  - intros [= <- <-]. by rewrite lookup_empty.
Qed.
End Sample.

(** The sample passes, and its registration is acceptable for it. *)
Lemma ValidateStepSources_accepts_witness :
  exists set packages, parse_files (Sample.parse Sample.handler_ident) [] (directory_sources "steps" Sample.tree "steps") ∅ = Ok (set, packages) /\
    forall name files file node, packages !! name = Some files -> file ∈ files -> node ∈ nodes (ast file) ->
      acceptable Sample.objects (index_files files) node.
Proof.
  exact (proj2 (proj1 (ValidateStepSources_accepts Sample.objects Sample.position (Sample.parse Sample.handler_ident) "steps" Sample.tree
    Sample.sample_package) Sample.cycle_with_effect) "steps").
Defined.
