(* ===== verification/Exposition.v ===== *)
(** * The metrics the processes expose

    The Prometheus text of services/ledger/internal/outbox/metrics.go,
    services/ledger/internal/observability/metrics.go,
    services/consolidation/internal/adapters/inbound/rabbitmq/metrics.go,
    services/consolidation/internal/reconciliation/metrics.go and
    internal/platform/runtimeobs/observability.go, and the management
    listeners that serve it.

    [format_float] is the %v text of a float64, which is the one of
    strconv.FormatFloat for the bounds of the histogram, and [quoted] the %q text of a
    string.  [scrape] reads an exposition the way Prometheus does, as far as
    these texts need it; the theorems show that a scrape gives back every
    sample under its name. *)

From S2P Require Import Prelude.
From S2P Require Import GoStrings.
From S2P Require Import GoTime.
From S2P Require Import LedgerServer.
From S2P Require Import Outbox.
From S2P Require Import Consumer.
From S2P Require Import Reconciliation.
From S2P Require Import HttpSurface.
From Stdlib Require Import ZArith Lia Ascii SpecFloat.
Open Scope string_scope.
Open Scope Z_scope.

Definition newline : ascii := chr 10.
Definition nl : string := String newline "".

(** A value printed with %v: an integer, or a float64. *)
Inductive value : Type := Integer (z : Z) | Float (f : spec_float).
Record line : Type := { name : string; help : string; kind : string; sample : value }.

(** [float64(nanos) / float64(time.Second)] *)
Definition in_seconds (nanos : Z) : value := Float (Obs.ratio nanos second).

Section Text.
Context (format_float : spec_float -> string) (quoted : string -> string).

Definition value_text (v : value) : string := match v with Integer z => fmt_d z | Float f => format_float f end.
Definition sample_text (metric : string) (v : value) : string := metric +:+ " " +:+ value_text v +:+ nl.
Definition line_text (l : line) : string :=
  "# HELP " +:+ name l +:+ " " +:+ help l +:+ nl +:+ "# TYPE " +:+ name l +:+ " " +:+ kind l +:+ nl +:+ sample_text (name l) (sample l).

(** The loop of every [WritePrometheus]: what reached the writer, and the error
    of the first write that failed; [accepts n] is the answer of the n-th. *)
Fixpoint write_lines (accepts : nat -> result unit) (n : nat) (lines : list line) : string * result unit :=
  match lines with
  | [] => ("", Ok tt)
  | l :: rest =>
      match accepts n with
      | Err err => ("", Err err)
      | Ok _ => let '(text, r) := write_lines accepts (S n) rest in (line_text l +:+ text, r)
      end
  end.

(** ** The exporters *)
Definition counter (n h : string) (z : Z) : line := {| name := n; help := h; kind := "counter"; sample := Integer z |}.
Definition gauge (n h : string) (v : value) : line := {| name := n; help := h; kind := "gauge"; sample := v |}.

Definition outbox_lines (m : Outbox.Metrics) : list line :=
  [ gauge "outbox_pending" "Pending unpublished Ledger outbox events." (Integer (Outbox.pending m));
    gauge "outbox_oldest_age_seconds" "Age in seconds of the oldest pending event." (in_seconds (oldestAgeNanos m));
    counter "outbox_publish_confirms_total" "RabbitMQ publisher confirms persisted by the worker." (confirms m);
    counter "outbox_publish_errors_total" "Outbox publish or persistence errors." (errors m);
    counter "outbox_publish_attempts_total" "Database-recorded attempts for confirmed events." (attempts m);
    {| name := "outbox_publish_confirm_duration_seconds_total"; help := "Total time waiting for confirmed publications.";
       kind := "counter"; sample := in_seconds (confirmNanos m) |} ].

Definition ledger_lines (m : Metrics.metrics) : list line :=
  [ counter "ledger_mutation_commits_total" "Ledger entry creations and reversals committed successfully." (Metrics.commits m);
    counter "ledger_mutation_idempotency_conflicts_total" "Mutations rejected as an idempotency key or reversal conflict." (Metrics.conflicts m);
    counter "ledger_mutation_failures_total" "Mutations that failed for a reason other than a validation or conflict rejection." (Metrics.failures m);
    {| name := "ledger_mutation_commit_duration_seconds_total"; help := "Total time spent committing successful mutations.";
       kind := "counter"; sample := in_seconds (Metrics.commitNanos m) |} ].

Definition consumer_lines (m : Consumer.Metrics) : list line :=
  let '(retry, dlq, gaps, recomputes) := backlog m in
  [ counter "consolidation_consumer_applied_total" "Ledger events successfully applied (including idempotent duplicates)." (applied_total m);
    counter "consolidation_consumer_duplicate_total" "Deliveries that were already applied and produced no new financial effect." (duplicates_total m);
    counter "consolidation_consumer_retry_total" "Deliveries requeued after a transient failure." (retries_total m);
    counter "consolidation_consumer_dead_letter_total" "Deliveries isolated to the DLQ after a persistent or exhausted-retry failure." (deadLettered_total m);
    counter "consolidation_consumer_connection_errors_total" "RabbitMQ connection/channel failures observed by the consumer." (connectionErrors_total m);
    {| name := "consolidation_consumer_applied_duration_seconds_total"; help := "Total time spent applying successfully processed deliveries.";
       kind := "counter"; sample := in_seconds (appliedNanos_total m) |};
    gauge "consolidation_consumer_pending_retry" "Events currently pending in transient retry state." (Integer retry);
    gauge "consolidation_consumer_pending_dlq" "Events currently isolated in DLQ pending state; a non-zero value should page." (Integer dlq);
    gauge "consolidation_consumer_gaps" "Merchants with missing position sequences." (Integer gaps);
    gauge "consolidation_consumer_recomputes" "Active or failed recomputes." (Integer recomputes) ].

(** [time.Since(time.Unix(0, last))] in nanoseconds, at the clock [now]. *)
Definition since (now last : Z) : Z := Z.max int64_min (Z.min int64_max (now - last)).
Definition seconds_since_last_run (now : Z) (m : run_metrics) : value :=
  if lastRunUnixNano m =? 0 then Float (Obs.float (-1)) else Float (Obs.Seconds (since now (lastRunUnixNano m))).
Definition reconciliation_lines (now : Z) (m : run_metrics) : list line :=
  [ counter "reconciliation_runs_total" "Reconciliation runs attempted." (runs_total m);
    counter "reconciliation_skipped_total" "Reconciliation runs skipped because an equal-or-newer cut was already persisted." (skipped_total m);
    counter "reconciliation_errors_total" "Reconciliation runs that failed (stream never recovered, or persistence failed)." (errors_total m);
    gauge "reconciliation_last_run_source_position_cut" "Source position cut of the most recently completed reconciliation run." (Integer (lastCut m));
    gauge "reconciliation_last_run_missing_entries" "Entries present on the Ledger but not the Consolidated projection in the most recent run." (Integer (lastMissing m));
    gauge "reconciliation_last_run_extra_entries" "Entries present on the Consolidated projection but not the Ledger in the most recent run." (Integer (lastExtra m));
    gauge "reconciliation_last_run_duplicated_entries" "Duplicated projection entries found in the most recent run." (Integer (lastDuplicated m));
    gauge "reconciliation_last_run_financial_difference_minor" "Absolute financial divergence, in minor currency units, found in the most recent run." (Integer (lastFinancial m));
    gauge "reconciliation_last_run_duration_seconds" "Duration of the most recently completed reconciliation run." (in_seconds (lastDurationNano m));
    gauge "reconciliation_seconds_since_last_run" "Seconds since the last completed reconciliation run; -1 if none has completed yet. A large value means the watermark is not being verified." (seconds_since_last_run now m) ].

Definition WritePrometheus (accepts : nat -> result unit) (lines : list line) : string * result unit := write_lines accepts 0 lines.

(** ** The counters and the histogram of an HTTP adapter *)
Definition labelled (metric service : string) : string := metric +:+ "{service=" +:+ quoted service +:+ "}".
Definition bucket_name (service le : string) : string :=
  "cashflow_http_request_duration_seconds_bucket{service=" +:+ quoted service +:+ ",le=" +:+ le +:+ "}".
Definition http_samples (service : string) (m : Obs.Metrics) : list (string * value) :=
  [ (labelled "cashflow_http_entrypoint_total" service, Integer (Obs.entrypoint m));
    (labelled "cashflow_http_requests_total" service, Integer (Obs.requests m));
    (labelled "cashflow_http_rejections_total" service, Integer (Obs.rejections m));
    (labelled "cashflow_http_failures_total" service, Integer (Obs.failures m));
    (labelled "cashflow_http_idempotency_header_total" service, Integer (Obs.idempotencyHeaders m));
    (labelled "cashflow_http_trace_header_total" service, Integer (Obs.traceHeaders m)) ].
Definition bucket_hits (m : Obs.Metrics) (i : nat) : Z := default 0 (Obs.hits m !! i).
Fixpoint bucket_samples (service : string) (m : Obs.Metrics) (i : nat) (bounds : list spec_float) : list (string * value) :=
  match bounds with
  | [] => []
  | bound :: rest => (bucket_name service (quoted (format_float bound)), Integer (bucket_hits m i)) :: bucket_samples service m (S i) rest
  end.
Definition histogram_samples (service : string) (m : Obs.Metrics) : list (string * value) :=
  let all := Integer (bucket_hits m (length Obs.durationBuckets)) in
  (bucket_samples service m 0 Obs.durationBuckets ++
   [ (bucket_name service (quoted "+Inf"), all);
     (labelled "cashflow_http_request_duration_seconds_sum" service, in_seconds (Obs.durationSumNanos m));
     (labelled "cashflow_http_request_duration_seconds_count" service, all) ])%list.
Definition samples_text (l : list (string * value)) : string :=
  fold_right (fun s text => sample_text (fst s) (snd s) +:+ text) "" l.
Definition histogram_help : string :=
  "# HELP cashflow_http_request_duration_seconds HTTP request duration in seconds." +:+ nl +:+
  "# TYPE cashflow_http_request_duration_seconds histogram" +:+ nl.
Definition writeDurationHistogram (service : string) (m : Obs.Metrics) : string :=
  histogram_help +:+ samples_text (histogram_samples service m).
(** [Metrics.Handler]: the body of a scrape of an adapter. *)
Definition metrics_body (service : string) (m : Obs.Metrics) : string :=
  samples_text (http_samples service m) +:+ writeDurationHistogram service m.

(** ** A scrape

    Comments and empty lines aside, a line is the name of a series, its labels
    included, and after the last space its value. *)
Definition is_sample (text : string) : bool := match text with "" => false | String c _ => negb (Ascii.eqb c "#") end.
Definition read_sample (text : string) : string * string :=
  let words := split " " text in (join " " (removelast words), List.last words "").
Definition scrape (text : string) : list (string * string) := map read_sample (List.filter is_sample (split newline text)).

Definition one_line (s : string) : bool := forall_chars (fun c => negb (Ascii.eqb c newline)) s.
Definition one_word (s : string) : bool := forall_chars (fun c => negb (Ascii.eqb c " ")) s.
(** What a series may be called. *)
Definition series (s : string) : bool := one_line s && is_sample s.

Lemma one_line_app s t : one_line (s +:+ t) = one_line s && one_line t.
Proof. apply forall_chars_app. Qed.

Lemma scrape_line text rest : one_line text = true ->
  scrape (text +:+ (nl +:+ rest)) = ((if is_sample text then [read_sample text] else []) ++ scrape rest)%list.
Proof.
  intros H. unfold scrape. change (text +:+ (nl +:+ rest)) with (text +:+ String newline rest). rewrite split_app by done.
  cbn [List.filter]. by destruct (is_sample text).
Qed.

Lemma split_snoc sep s t : split sep (s +:+ String sep t) = (split sep s ++ split sep t)%list.
Proof.
  induction s as [|c s IH]; cbn; [by rewrite Ascii.eqb_refl|]. rewrite IH. destruct (Ascii.eqb c sep); [done|].
  pose proof (split_nonempty sep s) as Hn. by destruct (split sep s).
Qed.

Lemma read_sample_of metric v : one_word v = true -> read_sample (metric +:+ (" " +:+ v)) = (metric, v).
Proof.
  intros Hv. unfold read_sample. change (metric +:+ (" " +:+ v)) with (metric +:+ String " " v).
  rewrite split_snoc, (split_no_sep " " v) by done. by rewrite removelast_last, List.last_last, join_split.
Qed.

Lemma digits_one_word s : forall_chars is_digit s = true -> one_word s = true /\ one_line s = true.
Proof. intros H. split; refine (forall_chars_impl _ _ _ _ H); intros c Hc; apply negb_true_iff, Ascii.eqb_neq; by intros ->. Qed.
Lemma fmt_d_clean z : one_word (fmt_d z) = true /\ one_line (fmt_d z) = true.
Proof.
  assert (forall n, 0 <= n -> one_word (fmt_nat n) = true /\ one_line (fmt_nat n) = true) as H.
  { intros n Hn. apply digits_one_word. by eapply digits_val_digits, fmt_nat_val. }
  unfold fmt_d. destruct (Z.ltb_spec z 0); [|by apply H]. destruct (H (- z) ltac:(lia)) as [H1 H2]. by split; cbn; rewrite ?H1, ?H2.
Qed.

Section Clean.
Context (float_clean : forall f, one_word (format_float f) = true /\ one_line (format_float f) = true)
        (quoted_clean : forall s, one_line (quoted s) = true).

Lemma value_clean v : one_word (value_text v) = true /\ one_line (value_text v) = true.
Proof. destruct v; [apply fmt_d_clean|apply float_clean]. Qed.

Lemma is_sample_app s t : is_sample s = true -> is_sample (s +:+ t) = true.
Proof. by destruct s. Qed.

Lemma scrape_sample metric v rest : series metric = true ->
  scrape (sample_text metric v +:+ rest) = (metric, value_text v) :: scrape rest.
Proof.
  intros [Hl Hs]%andb_true_iff. destruct (value_clean v) as [Hw Hv]. unfold sample_text. rewrite !string_app_assoc.
  rewrite <- (string_app_assoc " "), <- (string_app_assoc metric). rewrite scrape_line.
  - rewrite is_sample_app by done. by rewrite read_sample_of.
  - by rewrite !one_line_app, Hl, Hv.
Qed.

Lemma scrape_comment text rest : one_line text = true -> scrape ("# " +:+ (text +:+ (nl +:+ rest))) = scrape rest.
Proof.
  intros H. change ("# " +:+ (text +:+ (nl +:+ rest))) with (("# " +:+ text) +:+ (nl +:+ rest)).
  rewrite scrape_line; [done|]. by rewrite one_line_app, H.
Qed.

Definition plain (l : line) : bool := series (name l) && one_line (help l) && one_line (kind l).
Definition read_line (l : line) : string * string := (name l, value_text (sample l)).

Lemma scrape_one_line l rest : plain l = true -> scrape (line_text l +:+ rest) = read_line l :: scrape rest.
Proof.
  unfold plain, series. intros H. bool_to_prop. unfold line_text.
  change ("# HELP " +:+ ?x) with ("# " +:+ ("HELP " +:+ x)). change ("# TYPE " +:+ ?x) with ("# " +:+ ("TYPE " +:+ x)).
  rewrite !string_app_assoc.
  transitivity (scrape ("# " +:+ (("HELP " +:+ name l +:+ " " +:+ help l) +:+ (nl +:+
    ("# " +:+ (("TYPE " +:+ name l +:+ " " +:+ kind l) +:+ (nl +:+ (sample_text (name l) (sample l) +:+ rest)))))))).
  { by rewrite !string_app_assoc. }
  rewrite !scrape_comment, scrape_sample by (unfold series; rewrite ?one_line_app, ?andb_true_iff; done). done.
Qed.

(** Whatever the writer does, what reached it is read as the first lines. *)
Lemma scrape_written accepts lines n text r : forallb plain lines = true -> write_lines accepts n lines = (text, r) ->
  exists k, (forall rest, scrape (text +:+ rest) = (map read_line (firstn k lines) ++ scrape rest)%list) /\
            (r = Ok tt -> k = length lines).
Proof.
  revert n text r. induction lines as [|l lines IH]; intros n text r; cbn [write_lines forallb].
  - intros _ [= <- <-]. exists O. split; [done|done].
  - intros [Hl Hp]%andb_true_iff. destruct (accepts n); [|intros [= <- <-]; exists O; split; [done|done]].
    destruct (write_lines accepts (S n) lines) as [t q] eqn:E. intros [<- <-]%pair_equal_spec.
    destruct (IH (S n) t q Hp E) as (k & Hk & Hq). exists (S k). split.
    + intros rest. rewrite string_app_assoc, scrape_one_line by done. by rewrite Hk.
    + intros Hr. cbn. by rewrite (Hq Hr).
Qed.

Lemma scrape_samples l rest : forallb (fun s => series (fst s)) l = true ->
  scrape (samples_text l +:+ rest) = (map (fun s => (fst s, value_text (snd s))) l ++ scrape rest)%list.
Proof.
  induction l as [|[metric v] l IH]; [done|]. cbn [forallb fst]. intros [Hs Hl]%andb_true_iff.
  change (samples_text ((metric, v) :: l)) with (sample_text metric v +:+ samples_text l).
  rewrite string_app_assoc, scrape_sample, IH by done. done.
Qed.

Lemma labelled_series metric service : series metric = true -> series (labelled metric service) = true.
Proof.
  unfold series, labelled. intros [Hl Hs]%andb_true_iff. rewrite !one_line_app, Hl, quoted_clean, is_sample_app; done.
Qed.
Lemma bucket_series service le : one_line le = true -> series (bucket_name service le) = true.
Proof.
  unfold series, bucket_name. intros Hl. rewrite !one_line_app, Hl, quoted_clean, is_sample_app; done.
Qed.

(** What a process exposes is what a scrape reads: of the four exporters, up
    to the write that failed, and of an adapter's counters and histogram. *)
Theorem scrape_reads accepts lines text r now om lm cm rm service m :
  lines = outbox_lines om \/ lines = ledger_lines lm \/ lines = consumer_lines cm \/ lines = reconciliation_lines now rm ->
  WritePrometheus accepts lines = (text, r) ->
  (exists k, scrape text = map read_line (firstn k lines) /\ (r = Ok tt -> scrape text = map read_line lines)) /\
  scrape (metrics_body service m) =
    map (fun s => (fst s, value_text (snd s))) (http_samples service m ++ histogram_samples service m)%list.
Proof.
  intros Hlines Hw. split.
  - assert (forallb plain lines = true) as Hp.
    { destruct Hlines as [-> | [-> | [-> | ->]]]; try reflexivity. unfold consumer_lines. by destruct (backlog cm) as [[[? ?] ?] ?]. }
    destruct (scrape_written accepts lines 0 text r Hp Hw) as (k & Hk & Hr). specialize (Hk "").
    rewrite string_app_nil_r in Hk. cbn in Hk. rewrite app_nil_r in Hk. exists k. split; [done|].
    intros Hok. by rewrite Hk, (Hr Hok), firstn_all.
  - unfold metrics_body, writeDurationHistogram. rewrite scrape_samples, map_app.
    + f_equal. unfold histogram_help. rewrite !string_app_assoc.
      change ("# HELP cashflow_http_request_duration_seconds HTTP request duration in seconds." +:+ ?x)
        with ("# " +:+ ("HELP cashflow_http_request_duration_seconds HTTP request duration in seconds." +:+ x)).
      change ("# TYPE cashflow_http_request_duration_seconds histogram" +:+ ?x)
        with ("# " +:+ ("TYPE cashflow_http_request_duration_seconds histogram" +:+ x)).
      rewrite !scrape_comment by done. rewrite <- (string_app_nil_r (samples_text _)), scrape_samples; [by rewrite app_nil_r|].
      unfold histogram_samples, Obs.durationBuckets. cbn [bucket_samples forallb app fst].
      by rewrite !bucket_series, !labelled_series by (done || apply quoted_clean).
    + unfold http_samples. cbn [forallb fst]. by rewrite !labelled_series.
Qed.
End Clean.
End Text.

(** ** The management listeners

    A reply: its status, content type and body.  The mux answers a GET pattern
    for HEAD too. *)
Record reply : Type := { status : Z; content_type : string; reply_body : string }.
Definition no_content : reply := {| status := 204; content_type := ""; reply_body := "" |}.
Definition http_Error (text : string) (code : Z) : reply :=
  {| status := code; content_type := "text/plain; charset=utf-8"; reply_body := text +:+ nl |}.
(** A probe that answers a status and a text. *)
Definition probe (answer : Z * string) : reply :=
  if fst answer =? 204 then no_content else http_Error (snd answer) (fst answer).

Definition mux {S} (handlers : list (string * (S -> reply * S))) (method path : string) (s : S) : reply * S :=
  match List.find (fun h => String.eqb path (fst h)) handlers with
  | None => (http_Error "404 page not found" 404, s)
  | Some h =>
      if String.eqb method "GET" || String.eqb method "HEAD" then snd h s else (http_Error "Method Not Allowed" 405, s)
  end.

(** The budgets of an http.Server, in nanoseconds; zero is none. *)
Record budgets : Type := { ReadHeaderTimeout : Z; ReadTimeout : Z; WriteTimeout : Z; IdleTimeout : Z }.
Definition publicReadTimeout : Z := 5 * second.
Definition publicWriteTimeout : Z := 5 * second.
Definition publicIdleTimeout : Z := 30 * second.
Definition HTTPServer : budgets :=
  {| ReadHeaderTimeout := 2 * second; ReadTimeout := publicReadTimeout; WriteTimeout := publicWriteTimeout; IdleTimeout := publicIdleTimeout |}.
Definition operations_budgets : budgets :=
  {| ReadHeaderTimeout := 3 * second; ReadTimeout := 5 * second; WriteTimeout := 5 * second; IdleTimeout := 30 * second |}.

Section Management.
Context (format_float : spec_float -> string) (quoted : string -> string) (accepts : nat -> result unit).

Definition ManagementHandler (service : string) (ready : result unit) (m : Obs.Metrics) (method path : string) : reply :=
  fst (mux [ ("/health/live", fun s => (no_content, s));
             ("/health/ready", fun s => (probe (Obs.health_ready ready), s));
             ("/metrics", fun s => ({| status := 200; content_type := "text/plain; version=0.0.4; charset=utf-8";
                                       reply_body := metrics_body format_float quoted service m |}, s)) ] method path tt).

(** The error of the writer is dropped. *)
Definition appendDomainMetrics (base : string -> string -> reply) (domain : list line) (method path : string) : reply :=
  let r := base method path in
  if String.eqb method "GET" && String.eqb path "/metrics"
  then {| status := status r; content_type := content_type r;
          reply_body := reply_body r +:+ fst (WritePrometheus format_float accepts domain) |}
  else r.

(** GET /metrics of the message processes: fresh figures from the store, or 503. *)
Definition refreshed {M A} (figures : result A) (update : A -> M -> M) (lines : M -> list line) (m : M) : reply * M :=
  match figures with
  | Err _ => (http_Error "metrics unavailable" 503, m)
  | Ok a => let m := update a m in
      ({| status := 200; content_type := "text/plain; version=0.0.4"; reply_body := fst (WritePrometheus format_float accepts (lines m)) |}, m)
  end.

Definition publisher_operations (store : result unit) (brokers : list (result unit)) (stats : result Stats)
  : string -> string -> Outbox.Metrics -> reply * Outbox.Metrics :=
  mux [ ("/livez", fun m => (no_content, m));
        ("/readyz", fun m => (probe (Startup.Publisher.readyz store brokers), m));
        ("/metrics", refreshed stats UpdateStats outbox_lines) ].

(** The backlog and the system figures, in this order. *)
Definition consumer_figures (backlog : result (Z * Z)) (system : result (Z * Z)) : result (Z * Z * Z * Z) :=
  '(retry, dlq) ← backlog; '(gaps, recomputes) ← system; Ok (retry, dlq, gaps, recomputes).
Definition consumer_operations (store : result unit) (consumers : list (result unit)) (backlog system : result (Z * Z))
  : string -> string -> Consumer.Metrics -> reply * Consumer.Metrics :=
  mux [ ("/livez", fun m => (no_content, m));
        ("/readyz", fun m => (probe (Startup.ConsumerMain.readyz store consumers), m));
        ("/metrics", refreshed (consumer_figures backlog system) UpdateBacklog consumer_lines) ].

Context (float_clean : forall f, one_word (format_float f) = true /\ one_line (format_float f) = true)
        (quoted_clean : forall s, one_line (quoted s) = true).

(** The publisher's scrape shows the backlog the store reports, the oldest age
    never negative, and fails when the store does. *)
Lemma publisher_scrape store brokers stats m r m' : (forall n, accepts n = Ok tt) ->
  publisher_operations store brokers stats "GET" "/metrics" m = (r, m') ->
  match stats with
  | Err _ => status r = 503 /\ m' = m
  | Ok s => status r = 200 /\ scrape (reply_body r) = map (read_line format_float) (outbox_lines m') /\
            Outbox.pending m' = Pending s /\ oldestAgeNanos m' = Z.max (OldestAge s) 0 /\ confirms m' = confirms m
  end.
Proof.
  intros Ha. destruct stats as [s|]; intros [<- <-]%pair_equal_spec; [|done]. splits; try done. cbn [reply_body].
  destruct (WritePrometheus format_float accepts (outbox_lines (UpdateStats s m))) as [text w] eqn:E.
  destruct (scrape_written format_float float_clean accepts (outbox_lines (UpdateStats s m)) 0 text w eq_refl E) as (k & Hk & Hw). cbn [fst].
  specialize (Hk ""). rewrite string_app_nil_r, app_nil_r in Hk. rewrite Hk.
  assert (forall n lines, snd (write_lines format_float accepts n lines) = Ok tt) as Hok.
  { intros n lines. revert n. induction lines as [|l lines IH]; intros n; cbn; [done|]. rewrite Ha. specialize (IH (S n)).
    by destruct (write_lines format_float accepts (S n) lines). }
  specialize (Hok O (outbox_lines (UpdateStats s m))). unfold WritePrometheus in E. rewrite E in Hok. cbn in Hok.
  rewrite (Hw Hok). by rewrite firstn_all.
Qed.
End Management.
