(* ===== verification/HttpTrace.v ===== *)
(** * Spans and log lines of the HTTP adapters

    [Middleware] of internal/platform/runtimeobs/observability.go around an
    exchange, and the tracer provider of tracing.go.  The OpenTelemetry SDK is
    an argument: its identifier parsers, the span it starts below a parent, and
    the exporter and resource it builds. *)

From S2P Require Import Prelude.
From S2P Require Import GoStrings.
From S2P Require Import GoTime.
From S2P Require Import TraceContext.
From S2P Require Import Auth.
From S2P Require Import HttpSurface.
From Stdlib Require Import ZArith Lia.
Open Scope string_scope.
Open Scope Z_scope.

Section Provider.
(** What the SDK makes of an endpoint, and of a service name. *)
Context {E R : Type} (new_exporter : string -> result E) (new_resource : string -> result R).

(** sdktrace.NewTracerProvider with its options; durations in nanoseconds. *)
Record tracer_provider : Type := {
  tp_exporter : E; tp_resource : R; tp_sample_roots : bool; tp_follow_parent : bool; BatchTimeout : Z; ExportTimeout : Z }.
Definition NewTracerProvider (service endpoint : string) : result tracer_provider :=
  if String.eqb (trim_space service) "" || String.eqb (trim_space endpoint) ""
  then Err (EMsg "runtimeobs: service and OTLP endpoint are required")
  else
    match new_exporter endpoint with
    | Err _ => Err (EMsg "runtimeobs: initialize OTLP exporter")
    | Ok exporter =>
        match new_resource service with
        | Err _ => Err (EMsg "runtimeobs: initialize trace resource")
        | Ok resources =>
            Ok {| tp_exporter := exporter; tp_resource := resources; tp_sample_roots := true; tp_follow_parent := true;
                  BatchTimeout := 200 * millisecond; ExportTimeout := 3 * second |}
        end
    end.

(** Without an endpoint there is no provider: tracing is never silently off. *)
Lemma no_silent_tracing service endpoint tp : NewTracerProvider service endpoint = Ok tp ->
  trim_space endpoint <> "" /\ new_exporter endpoint = Ok (tp_exporter tp).
Proof.
  unfold NewTracerProvider. destruct (_ || _) eqn:Eb; [done|]. apply orb_false_iff in Eb as [_ Eb%String.eqb_neq].
  destruct (new_exporter endpoint) as [x|]; [|done]. destruct (new_resource service); [|done]. by intros [= <-].
Qed.
End Provider.

Definition ErrorClass (_ : error) : string := "runtime_failure".

(** ** The middleware *)
Inductive log_value : Type := LString (s : string) | LInt (z : Z) | LDuration (d : Z).

Section Middleware.
Context (trace_id span_id trace_state : string -> result string).
(** The span the tracer starts below the context's, its name and attributes. *)
Context (start : option Edge.otel_span -> string -> list (string * string) -> option Edge.otel_span).

(** What the middleware sees of a request: method, path, headers, and in its
    context the carrier and the active span. *)
Record traced : Type := {
  t_method : string; t_path : string; t_request : Http.request;
  t_carrier : option Edge.carrier; t_active : option Edge.otel_span }.

Definition trace_state_of (t : traced) : string := Edge.SanitizeTraceState (Http.Get (Http.Header (t_request t)) Http.TraceStateHeader).
Definition traceparent_of (t : traced) : result Edge.SpanContext := Edge.ParseTraceParent (Http.Get (Http.Header (t_request t)) Http.TraceParentHeader).

(** The parent of the server's span. *)
Definition parent (t : traced) : option Edge.otel_span :=
  match Edge.FromContext (t_carrier t) with
  | Some (carrier, _) => Edge.WithRemoteParent trace_id span_id trace_state (t_active t) carrier (trace_state_of t)
  | None =>
      match traceparent_of t with
      | Ok carrier => Edge.WithRemoteParent trace_id span_id trace_state (t_active t) carrier (trace_state_of t)
      | Err _ => t_active t
      end
  end.

Record span_end : Type := { s_name : string; s_attributes : list (string * string); s_status_code : Z; s_error : option string }.
Definition span_name (t : traced) : string := t_method t +:+ " " +:+ t_path t.
Definition span_attributes (service : string) (t : traced) : list (string * string) :=
  [("http.request.method", t_method t); ("url.path", t_path t); ("service.name", service)].

(** The carrier the next handler finds in its context. *)
Definition next_carrier (service : string) (t : traced) : option Edge.carrier :=
  Edge.WithCurrentSpan (start (parent t) (span_name t) (span_attributes service t)) (t_carrier t) (trace_state_of t).

Definition log_trace (carrier : option Edge.carrier) (t : traced) : list (string * log_value) :=
  match Edge.FromContext carrier with
  | Some (span, _) => [("trace_id", LString (Edge.TraceID span))]
  | None => match traceparent_of t with Ok span => [("trace_id", LString (Edge.TraceID span))] | Err _ => [] end
  end.

(** [started] to the two reads of the clock: [observed], [logged].  The handler
    is given the carrier and answers with its writes. *)
Definition Middleware (service : string) (next : option Edge.carrier -> list Obs.write) (observed logged : Z) (t : traced) (m : Obs.Metrics)
    : span_end * list (string * log_value) * Obs.Metrics :=
  let carrier := next_carrier service t in
  let status := Obs.recorded_status (next carrier) in
  ({| s_name := span_name t; s_attributes := span_attributes service t; s_status_code := status;
      s_error := if 500 <=? status then Some "server_error" else None |},
   [("service", LString service); ("method", LString (t_method t)); ("path", LString (t_path t));
    ("status", LInt status); ("duration", LDuration logged)] ++ log_trace carrier t,
   Obs.Observe (t_request t) status observed m)%list.

(** The SDK as documented: it parses what [ParseTraceParent] accepts, a started
    span is in the trace of a remote parent, and its identifiers are valid. *)
Context (sdk_trace : forall x, slen x = 32 -> forall_chars is_lower_hex x = true -> Edge.isAllZero x = false -> trace_id x = Ok x)
        (sdk_span : forall x, slen x = 16 -> forall_chars is_lower_hex x = true -> Edge.isAllZero x = false -> span_id x = Ok x)
        (sdk_state : trace_state "" = Ok "" /\ trace_state Edge.PublicTraceState = Ok Edge.PublicTraceState)
        (sdk_start : forall p name attributes, exists s, start p name attributes = Some s /\
           wf_span {| Edge.TraceID := Edge.o_trace s; Edge.SpanID := Edge.o_span s; Edge.Flags := if Edge.o_sampled s then "01" else "00" |} /\
           match p with Some q => Edge.o_remote q = true -> Edge.o_trace s = Edge.o_trace q | None => True end).

Lemma sanitized_state v : trace_state (Edge.SanitizeTraceState (Edge.SanitizeTraceState v)) = Ok (Edge.SanitizeTraceState v).
Proof.
  unfold Edge.SanitizeTraceState at 2 3. destruct (String.eqb (trim_space v) Edge.PublicTraceState); [|apply sdk_state].
  apply sdk_state.
Qed.

Lemma remote_parent active span t : wf_span span ->
  Edge.WithRemoteParent trace_id span_id trace_state active span (trace_state_of t) =
  Some {| Edge.o_trace := Edge.TraceID span; Edge.o_span := Edge.SpanID span; Edge.o_sampled := Edge.Sampled span;
          Edge.o_state := trace_state_of t; Edge.o_remote := true |}.
Proof.
  intros [(H1 & H2 & H3) (H4 & H5 & H6) _]. unfold Edge.WithRemoteParent, trace_state_of.
  by rewrite sdk_trace, sdk_span, sanitized_state.
Qed.

(** The log line of an exchange names the trace of its caller: the one of the
    carrier if the context has one, else of a well-formed traceparent.  It
    holds five fields and the trace, nothing of the headers or the bodies. *)
Theorem logged_trace service next observed logged t m span : t_active t = None ->
  match Edge.FromContext (t_carrier t) with Some (c, _) => c = span /\ wf_span span | None => traceparent_of t = Ok span end ->
  let '(_, fields, _) := Middleware service next observed logged t m in
  fields = [("service", LString service); ("method", LString (t_method t)); ("path", LString (t_path t));
            ("status", LInt (Obs.recorded_status (next (next_carrier service t)))); ("duration", LDuration logged);
            ("trace_id", LString (Edge.TraceID span))].
Proof.
  intros Ha Hs. cbn [Middleware]. assert (wf_span span /\ parent t = Some {| Edge.o_trace := Edge.TraceID span;
    Edge.o_span := Edge.SpanID span; Edge.o_sampled := Edge.Sampled span; Edge.o_state := trace_state_of t; Edge.o_remote := true |})
    as [Hw Hp].
  { unfold parent. destruct (Edge.FromContext (t_carrier t)) as [[c st]|].
    - destruct Hs as [-> Hw]. split; [done|]. by apply remote_parent.
    - rewrite Hs. apply parse_traceparent_inv in Hs as [Hw _]. split; [done|]. by apply remote_parent. }
  unfold log_trace. set (carrier := next_carrier service t).
  destruct (sdk_start (parent t) (span_name t) (span_attributes service t)) as (s & Es & Hws & Ht).
  assert (Edge.FromContext carrier = Some ({| Edge.TraceID := Edge.o_trace s; Edge.SpanID := Edge.o_span s;
    Edge.Flags := if Edge.o_sampled s then "01" else "00" |}, Edge.SanitizeTraceState (trace_state_of t))) as ->.
  { unfold carrier, next_carrier. rewrite Es. unfold Edge.WithCurrentSpan, Edge.WithCarrier, Edge.FromContext. cbn [Edge.c_span Edge.c_state].
    by rewrite parse_span_string. }
  rewrite Hp in Ht. cbn in Ht. cbn [Edge.TraceID]. by rewrite Ht.
Qed.
End Middleware.
