(* ===== verification/TestIssuer.v ===== *)
(** * The issuer of the tests

    internal/platform/auth/authtest: tokens minted with real signatures against
    an issuer of their own, and the key set it publishes.  The theorems tie it
    to the verifier and to the key cache: what it mints is accepted as the
    identity asked for, a forged or unsigned token is not, and the document it
    serves is read as the key it signs with.

    [marshal] is json.Marshal of a document, [rsa_sign] the signature of a
    digest; a private key is its public part and a secret. *)

From S2P Require Import Prelude.
From S2P Require Import GoStrings.
From S2P Require Import GoTime.
From S2P Require Import Json.
From S2P Require Import Cursor.
From S2P Require Import Auth.
From S2P Require Import Jwks.
From Stdlib Require String.
From Stdlib Require Import ZArith Lia Ascii.
Open Scope string_scope.
Open Scope Z_scope.

(** A Go map of claims: its keys in the order json.Marshal writes them. *)
Definition claims_map : Type := list (string * json).
Fixpoint put (k : string) (v : json) (m : claims_map) : claims_map :=
  match m with
  | [] => [(k, v)]
  | (k', v') :: rest =>
      if String.eqb k k' then (k, v) :: rest
      else if String.ltb k k' then (k, v) :: m
      else (k', v') :: put k v rest
  end.
Definition put_if (b : bool) (k : string) (v : json) (m : claims_map) : claims_map := if b then put k v m else m.

(** big.Int.Bytes of a natural number. *)
Fixpoint be_from (fuel : nat) (n : Z) (acc : string) : string :=
  match fuel with
  | O => acc
  | S k => if n =? 0 then acc else be_from k (n / 256) (String (chr (n mod 256)) acc)
  end.
Definition be_bytes (n : Z) : string := be_from (S (Z.to_nat (Z.log2 n))) n "".

Record private_key : Type := { pk_N : Z; pk_E : Z; pk_secret : Z }.
Definition public_part (k : private_key) : public_key := RSAKey (pk_N k) (pk_E k).

Record Issuer_ : Type := { URL : string; KeyID_ : string; signing : private_key; unpublished : private_key }.
Definition keyBits : Z := 2048.
Definition algorithmHashes (name : string) : option crypto_hash := supportedAlgorithms name.

(** [generate] gives the keys of the two calls of rsa.GenerateKey. *)
Definition NewIssuer (url : string) (first second : result private_key) : result Issuer_ :=
  signing ← first; unpublished ← second;
  Ok {| URL := url; KeyID_ := "test-signing-key"; signing := signing; unpublished := unpublished |}.

(** [StaticKeys.VerificationKey] *)
Definition StaticKeys : Type := gmap string public_key.
Definition VerificationKey (quoted : string -> string) (s : StaticKeys) (keyID : string) : result public_key :=
  match s !! keyID with
  | Some key => Ok key
  | None => Err (EMsg ("auth: key id " +:+ quoted keyID +:+ " is unknown"))
  end.
Definition Keys (i : Issuer_) : StaticKeys := {[ KeyID_ i := public_part (signing i) ]}.

Record TokenOptions : Type := {
  o_Subject : string; o_MerchantID : string; o_Audience : option json; o_Scopes : list string; o_Issuer : string;
  o_KeyID : string; o_Algorithm : string; o_IssuedAt : Z; o_ExpiresAt : Z; OmitExpiry : bool; ForgeSignature : bool;
  ExtraClaims : list (string * json) }.

(** [time.Time.Unix] of an instant in nanoseconds. *)
Definition Unix (t : Z) : Z := (t - unix_epoch) / second.
Definition or_else (s fallback : string) : string := if String.eqb s "" then fallback else s.

Section Mint.
Context (marshal : json -> result string) (digest : crypto_hash -> string -> string).
Context (rsa_sign : private_key -> crypto_hash -> string -> result string).

Definition encodeSegment (m : claims_map) : result string := encoded ← marshal (JObj m); Ok (b64_encode encoded).

Definition token_header (i : Issuer_) (o : TokenOptions) (algorithm : string) : claims_map :=
  put_if (negb (String.eqb algorithm "none")) "kid" (JStr (or_else (o_KeyID o) (KeyID_ i)))
    (put "typ" (JStr "JWT") (put "alg" (JStr algorithm) [])).

(** [now] is the clock read when no issue time is given. *)
Definition issued_at (o : TokenOptions) (now : Z) : Z := if o_IssuedAt o =? 0 then now else o_IssuedAt o.
Definition expires_at (o : TokenOptions) (now : Z) : Z := if o_ExpiresAt o =? 0 then issued_at o now + 300 * second else o_ExpiresAt o.
Definition subject_of (o : TokenOptions) : string := or_else (o_Subject o) "test-subject".
Definition token_claims (i : Issuer_) (o : TokenOptions) (now : Z) : claims_map :=
  let claims := put "jti" (JStr ("test-" +:+ subject_of o)) (put "iat" (JInt (Unix (issued_at o now)))
    (put "sub" (JStr (subject_of o)) (put "iss" (JStr (or_else (o_Issuer o) (URL i))) []))) in
  let claims := put_if (negb (OmitExpiry o)) "exp" (JInt (Unix (expires_at o now))) claims in
  let claims := match o_Audience o with Some audience => put "aud" audience claims | None => claims end in
  let claims := put_if (negb (String.eqb (o_MerchantID o) "")) "merchant_id" (JStr (o_MerchantID o)) claims in
  let claims := put_if (match o_Scopes o with [] => false | _ => true end) "scope" (JStr (join " " (o_Scopes o))) claims in
  fold_left (fun m claim => put (fst claim) (snd claim) m) (ExtraClaims o) claims.

Definition Mint (i : Issuer_) (o : TokenOptions) (now : Z) : result string :=
  let algorithm := or_else (o_Algorithm o) "RS256" in
  match algorithmHashes algorithm with
  | None =>
      if negb (String.eqb algorithm "none") then Err (EMsg ("authtest: unsupported algorithm " +:+ algorithm))
      else
        headerSegment ← encodeSegment (token_header i o algorithm);
        claimsSegment ← encodeSegment (token_claims i o now);
        Ok (headerSegment +:+ String "." (claimsSegment +:+ String "." ""))
  | Some hash =>
      headerSegment ← encodeSegment (token_header i o algorithm);
      claimsSegment ← encodeSegment (token_claims i o now);
      let signingInput := headerSegment +:+ String "." claimsSegment in
      let key := if ForgeSignature o then unpublished i else signing i in
      signature ← rsa_sign key hash (digest hash signingInput);
      Ok (signingInput +:+ String "." (b64_encode signature))
  end.

(** [JWKSHandler]: a 200, with the document and a line break if it encodes. *)
Definition jwk_document (i : Issuer_) : json :=
  JObj [("keys", JArr [JObj [
    ("alg", JStr "RS256"); ("e", JStr (b64_encode (be_bytes (pk_E (signing i))))); ("kid", JStr (KeyID_ i)); ("kty", JStr "RSA");
    ("n", JStr (b64_encode (be_bytes (pk_N (signing i))))); ("use", JStr "sig")]])].
Definition JWKSHandler (i : Issuer_) : result (Z * result string) := Ok (200, Ok (match marshal (jwk_document i) with Ok text => text +:+ String (chr 10) "" | Err _ => "" end)).

(** ** What is minted is accepted *)
Context (json_parse : string -> result json) (float_time : json -> result Z) (quoted : string -> string).
Context (rsa_verify : Z -> Z -> crypto_hash -> string -> string -> bool).

(** A document whose strings are valid UTF-8: json.Marshal writes it as it is. *)
Fixpoint valid_json (j : json) : bool :=
  match j with
  | JStr s => String.eqb (to_valid s) s
  | JArr items => forallb valid_json items
  | JObj fields => forallb (fun f => String.eqb (to_valid (fst f)) (fst f) && valid_json (snd f)) fields
  | _ => true
  end.
Context (parse_marshal : forall j text, valid_json j = true -> marshal j = Ok text ->
          json_parse text = Ok j /\ json_parse (text +:+ String (chr 10) "") = Ok j)
        (verify_signed : forall k h d s, rsa_sign k h d = Ok s -> rsa_verify (pk_N k) (pk_E k) h d s = true).

(** The options of an ordinary token, for a verifier that trusts the issuer. *)
Record ordinary (i : Issuer_) (o : TokenOptions) (issuing : Z) (v : Verifier) (hash : crypto_hash) : Prop := {
  or_algorithm : algorithmHashes (or_else (o_Algorithm o) "RS256") = Some hash /\
                 v_algorithms v !! or_else (o_Algorithm o) "RS256" = Some hash;
  or_keys : v_keys v = VerificationKey quoted (Keys i) /\ or_else (o_KeyID o) (KeyID_ i) = KeyID_ i /\
            minRSAModulusBits <= bit_length (pk_N (signing i));
  or_issuer : v_issuer v = or_else (o_Issuer o) (URL i);
  or_audience : o_Audience o = Some (JStr (v_audience v));
  or_claim_names : v_merchantClaim v = defaultMerchantClaim /\ v_scopeClaim v = defaultScopeClaim;
  or_nothing_odd : OmitExpiry o = false /\ ExtraClaims o = [];
  or_merchant : o_MerchantID o = "" <-> v_merchant v = MerchantForbidden;
  or_valid : valid_json (JObj (token_header i o (or_else (o_Algorithm o) "RS256"))) = true /\
             valid_json (JObj (token_claims i o issuing)) = true;
  or_times : Z.abs (Unix (issued_at o issuing)) <= 9007199254740992 /\ Z.abs (Unix (expires_at o issuing)) <= 9007199254740992 }.

Definition at_second (t : Z) : Z := unix_epoch + Unix t * second.
Definition minted_identity (i : Issuer_) (o : TokenOptions) (issuing : Z) (v : Verifier) : Identity :=
  {| Subject := subject_of o; MerchantID := o_MerchantID o; ClientID := ""; Scopes := ParseScopes (join " " (o_Scopes o));
     Issuer := v_issuer v; Audience := [v_audience v]; TokenID := "test-" +:+ subject_of o;
     IssuedAt := at_second (issued_at o issuing); ExpiresAt := at_second (expires_at o issuing) |}.

Lemma ordinary_claims i o issuing v hash : ordinary i o issuing v hash ->
  exists fields, token_claims i o issuing = fields /\
    jfield "iss" fields = Some (JStr (v_issuer v)) /\ jfield "sub" fields = Some (JStr (subject_of o)) /\
    jfield "aud" fields = Some (JStr (v_audience v)) /\ jfield "exp" fields = Some (JInt (Unix (expires_at o issuing))) /\
    jfield "nbf" fields = None /\ jfield "iat" fields = Some (JInt (Unix (issued_at o issuing))) /\
    jfield "jti" fields = Some (JStr ("test-" +:+ subject_of o)) /\ jfield "azp" fields = None /\
    jraw "merchant_id" fields = (if String.eqb (o_MerchantID o) "" then None else Some (JStr (o_MerchantID o))) /\
    jraw "scope" fields = match o_Scopes o with [] => None | _ => Some (JStr (join " " (o_Scopes o))) end.
Proof.
  intros [_ _ Hi Ha _ [He Hx] _ _ _]. eexists. split; [reflexivity|]. unfold token_claims. rewrite He, Ha, Hx, <- Hi.
  cbn [negb]. destruct (String.eqb (o_MerchantID o) ""), (o_Scopes o); repeat split; reflexivity.
Qed.

Lemma small_date z : Z.abs z <= 9007199254740992 -> numericDate float_time (Some (JInt z)) = Ok (Some (unix_epoch + z * second)).
Proof. intros H. cbn. by rewrite (proj2 (Z.leb_le _ _)), (proj2 (Z.leb_le _ _)) by lia. Qed.

Lemma b64_no_space s : forall_chars no_space (b64_encode s) = true.
Proof.
  assert (forall d, 0 <= d < 64 -> no_space (b64_chr d) = true) as H by (apply (below_forall 64); reflexivity).
  induction s as [|a|a b|a b c s IH] using string_ind3; cbn [b64_encode]; [done|..];
    try pose proof (code_range a); try pose proof (code_range b); try pose proof (code_range c);
    cbn [forall_chars]; rewrite !H by dlia; rewrite ?IH; done.
Qed.

(** The identity of an ordinary claims segment. *)
Lemma ordinary_payload i o issuing v hash text now : ordinary i o issuing v hash ->
  marshal (JObj (token_claims i o issuing)) = Ok text -> now <= at_second (expires_at o issuing) + v_leeway v ->
  identityFromPayload json_parse float_time v now text = Ok (minted_identity i o issuing v).
Proof.
  intros Ho Hm Hn. destruct (ordinary_claims _ _ _ _ _ Ho) as (fields & Ef & H1 & H2 & H3 & H4 & H5 & H6 & H7 & H8 & H9 & H10).
  destruct Ho as [_ _ _ _ [Hmc Hsc] _ Hmer [_ Hv] [Hiat Hexp]].
  apply (stringClaim_payload json_parse float_time). eexists _, fields, _, (at_second (expires_at o issuing)), (o_MerchantID o), (join " " (o_Scopes o)).
  split; [by apply (parse_marshal _ _ Hv)|]. rewrite Ef. split; [done|]. split.
  { unfold unmarshal_claims. cbn [object_fields mbind result_bind]. rewrite H1, H2, H3, H4, H5, H6, H7, H8, !small_date by done. reflexivity. }
  cbn [rc_iss rc_aud rc_sub rc_exp rc_nbf rc_azp rc_jti rc_iat]. splits; try done.
  - by left.
  - unfold subject_of, or_else. destruct (String.eqb_spec (o_Subject o) ""); done.
  - unfold stringClaim. rewrite Hmc. unfold defaultMerchantClaim. rewrite H9. by destruct (String.eqb_spec (o_MerchantID o) "") as [->|].
  - unfold stringClaim. rewrite Hsc. unfold defaultScopeClaim. rewrite H10. by destruct (o_Scopes o).
Qed.

Lemma header_of i o algorithm hash : algorithmHashes algorithm = Some hash ->
  unmarshal_header (JObj (token_header i o algorithm)) =
  Ok {| Algorithm := algorithm; KeyID := or_else (o_KeyID o) (KeyID_ i); Type_ := "JWT" |}.
Proof.
  intros H. unfold token_header. destruct (String.eqb_spec algorithm "none") as [->|]; [done|]. reflexivity.
Qed.

Lemma published_key i : Keys i !! KeyID_ i = Some (public_part (signing i)).
Proof. apply (lookup_singleton_eq (M := gmap string)). Qed.

(** The three segments of a signed token, and what the verifier asks of them. *)
Lemma signed_token i o issuing v hash token : ordinary i o issuing v hash ->
  Mint i o issuing = Ok token -> slen token <= maxTokenBytes ->
  exists text key signature input, marshal (JObj (token_claims i o issuing)) = Ok text /\
    key = (if ForgeSignature o then unpublished i else signing i) /\ rsa_sign key hash (digest hash input) = Ok signature /\
    forall now, Verify json_parse float_time digest rsa_verify v now token =
      if rsa_verify (pk_N (signing i)) (pk_E (signing i)) hash (digest hash input) signature
      then identityFromPayload json_parse float_time v now text else Err ErrSignatureInvalid.
Proof.
  intros Ho Hm Hlen. pose proof Ho as [[Ha Hva] (Hk & Hkid & Hbits) _ _ _ _ _ [Hvh Hvc] _].
  unfold Mint in Hm. rewrite Ha in Hm. unfold encodeSegment in Hm. set (algorithm := or_else (o_Algorithm o) "RS256") in *.
  destruct (marshal (JObj (token_header i o algorithm))) as [ht|] eqn:Eh; [|done].
  destruct (marshal (JObj (token_claims i o issuing))) as [ct|] eqn:Ec; [|done]. cbn in Hm.
  destruct (rsa_sign _ hash _) as [signature|] eqn:Es; [|done]. cbn in Hm. injection Hm as <-.
  eexists ct, _, signature, _. split; [done|]. split; [done|]. split; [exact Es|]. intros now. unfold Verify.
  set (h := b64_encode ht) in *. set (c := b64_encode ct) in *. set (g := b64_encode signature) in *.
  rewrite string_app_assoc in *. cbn [String.append] in *.
  assert (forall x, forall_chars (fun ch => negb (Ascii.eqb ch ".")) (b64_encode x) = true) as Hd by (intros x; apply b64_no_breaks).
  rewrite trim_space_id by (unfold h, c, g; rewrite forall_chars_app; cbn; rewrite forall_chars_app; cbn; by rewrite !b64_no_space).
  destruct (String.eqb_spec (h +:+ String "." (c +:+ String "." g)) "") as [E|_]; [by destruct h|].
  rewrite (proj2 (Z.ltb_ge _ _)) by done.
  rewrite !split_app, split_no_sep by apply Hd. unfold decodeSegment. unfold h at 1. rewrite b64_roundtrip.
  unfold mbind, result_bind. rewrite (proj1 (parse_marshal _ _ Hvh Eh)), (header_of i o algorithm hash Ha).
  cbn [Type_ Algorithm KeyID]. change (negb _ && negb _ && negb _) with false. cbv iota. rewrite Hva. unfold c at 1, g at 1. rewrite !b64_roundtrip.
  rewrite Hk, Hkid. unfold VerificationKey. rewrite published_key. unfold public_part.
  rewrite (proj2 (Z.ltb_ge _ _)) by done. by destruct (rsa_verify _ _ _ _ _).
Qed.

(** An ordinary token verifies as the identity that was asked for, until its
    expiry; signed with the unpublished key it does not. *)
Theorem Mint_verifies i o issuing v hash token now : ordinary i o issuing v hash ->
  Mint i o issuing = Ok token -> slen token <= maxTokenBytes -> now <= at_second (expires_at o issuing) + v_leeway v ->
  (forall h d s, rsa_sign (unpublished i) h d = Ok s -> rsa_verify (pk_N (signing i)) (pk_E (signing i)) h d s = false) ->
  Verify json_parse float_time digest rsa_verify v now token =
  if ForgeSignature o then Err ErrSignatureInvalid else Ok (minted_identity i o issuing v).
Proof.
  intros Ho Hm Hlen Hn Hf. destruct (signed_token i o issuing v hash token Ho Hm Hlen) as (text & key & sg & input & Et & -> & Es & ->).
  destruct (ForgeSignature o); [by rewrite (Hf _ _ _ Es)|]. rewrite (verify_signed _ _ _ _ Es). by eapply ordinary_payload.
Qed.

(** ** The published key set is the signing key *)
Lemma set_bytes_be fuel n acc : 0 <= n < 2 ^ Z.of_nat fuel -> set_bytes 0 (be_from fuel n acc) = set_bytes n acc.
Proof.
  revert n acc. induction fuel as [|k IH]; intros n acc Hn; cbn [be_from]; [by replace n with 0 by (cbn in Hn; lia)|].
  destruct (Z.eqb_spec n 0) as [->|Hz]; [done|]. rewrite Nat2Z.inj_succ, Z.pow_succ_r in Hn by lia.
  rewrite IH by (split; [apply Z.div_pos; lia|apply Z.div_lt_upper_bound; lia]). cbn [set_bytes].
  rewrite code_chr by (apply Z.mod_pos_bound; lia). f_equal. pose proof (Z.div_mod n 256). lia.
Qed.
Lemma be_bytes_read n : 0 < n -> set_bytes 0 (be_bytes n) = n.
Proof.
  intros Hn. unfold be_bytes. rewrite set_bytes_be; [done|]. pose proof (Z.log2_spec n Hn). pose proof (Z.log2_nonneg n).
  rewrite Nat2Z.inj_succ, Z2Nat.id by lia. lia.
Qed.

Definition published_jwk (i : Issuer_) : jwk :=
  {| KeyType := "RSA"; jk_KeyID := KeyID_ i; Use := "sig"; jk_Algorithm := "RS256";
     Modulus := b64_encode (be_bytes (pk_N (signing i))); Exponent := b64_encode (be_bytes (pk_E (signing i))) |}.
Lemma document_read i : unmarshal_document (jwk_document i) = Ok [published_jwk i].
Proof. reflexivity. Qed.

Lemma published_entry i : KeyID_ i <> "" -> 0 < pk_N (signing i) -> minRSAModulusBits <= bit_length (pk_N (signing i)) ->
  3 <= pk_E (signing i) <= int64_max -> 0 < slen (be_bytes (pk_E (signing i))) <= 8 ->
  add_key ∅ (published_jwk i) = <[KeyID_ i := public_part (signing i)]> ∅.
Proof.
  intros Hid Hn Hbits He Hel. unfold add_key. assert (usable (published_jwk i) = true) as ->.
  { unfold usable. cbn [KeyType jk_KeyID Use jk_Algorithm published_jwk]. by rewrite (proj2 (String.eqb_neq _ _) Hid). }
  cbn [Modulus Exponent published_jwk jk_KeyID]. unfold rsaKeyFromJWK. rewrite !b64_roundtrip.
  rewrite (proj2 (Z.eqb_neq _ _)), (proj2 (Z.ltb_ge _ _)) by lia. cbn [orb]. rewrite !be_bytes_read by lia.
  rewrite wrap64_id by (unfold int64_min in *; lia). rewrite !(proj2 (Z.ltb_ge _ _)) by lia. done.
Qed.

(** The key cache reads the issuer's document as [Keys]. *)
Theorem JWKSHandler_published i text : marshal (jwk_document i) = Ok text -> valid_json (jwk_document i) = true ->
  slen text < maxJWKSBytes -> KeyID_ i <> "" -> 0 < pk_N (signing i) -> minRSAModulusBits <= bit_length (pk_N (signing i)) ->
  3 <= pk_E (signing i) <= int64_max -> 0 < slen (be_bytes (pk_E (signing i))) <= 8 ->
  fetch json_parse (JWKSHandler i) = Ok (Keys i).
Proof.
  intros Hm Hv Hlen Hid Hn Hbits He Hel. unfold fetch, JWKSHandler. rewrite Hm. cbn [mbind result_bind fst snd].
  change (negb (200 =? 200)) with false. cbv iota. destruct (parse_marshal _ _ Hv Hm) as [_ Hp].
  rewrite substring_all by (rewrite string_length_app; cbn [String.length]; unfold slen in Hlen; lia).
  rewrite Hp. cbn [mbind result_bind]. rewrite document_read. cbn [fold_left]. rewrite published_entry by done.
  rewrite bool_decide_false; [done|]. intros E. pose proof (lookup_insert_eq (M := gmap string) ∅ (KeyID_ i) (public_part (signing i))) as Hl.
  by rewrite E, lookup_empty in Hl.
Qed.
End Mint.
