(* ===== verification/Fixture.v ===== *)
(** * The fixture of the consolidation's acceptance scenarios

    services/consolidation/acceptance/fixture.go drives the real store and
    projector over a database of its own.  The theorems show that what it sets
    up is a state the service itself can reach or record: its operations keep
    the invariants of the projection and of the pending tables, and what it
    records is what it reports.

    [uuid_in] and [date_in] are PostgreSQL's input conversions of a parameter. *)

From S2P Require Import Prelude.
From S2P Require Import GoStrings.
From S2P Require Import GoTime.
From S2P Require Import Json.
From S2P Require Import LedgerDomain.
From S2P Require Import ConsolidationDomain.
From S2P Require Import Projection.
From S2P Require Import ProjectionInvariant.
From S2P Require Import PendingStore.
From S2P Require Import Query.
From Stdlib Require String.
From Stdlib Require Import ZArith Lia Ascii.
Open Scope string_scope.
Open Scope Z_scope.

Module Fixture.
(** The tables the fixture works on. *)
Record tables : Type := { projected : cdb; parked : pending_db }.
Definition empty_tables : tables := {| projected := empty_cdb; parked := empty_pending |}.

Record Projection : Type := {
  Duplicate_ : bool; SourcePosition_ : Z; AppliedPosition_ : Z; FirstGap_ : option Z; RecomputePending_ : bool }.
Record Balance_ : Type := { Found : bool; Credits_ : Z; Debits_ : Z; Net_ : Z; Count_ : Z; Closing_ : Z }.
Definition no_balance : Balance_ := {| Found := false; Credits_ := 0; Debits_ := 0; Net_ := 0; Count_ := 0; Closing_ := 0 |}.
Record Progress_ : Type := { p_Source : Z; p_Applied : Z; p_FirstGap : option Z; p_RecomputePending : bool; p_DLQPending : bool }.

(** [Open]: the answer, and whether a pool is left open. *)
Definition Open (pool migrated store projector : result unit) : result unit * bool :=
  match pool with
  | Err e => (Err (EWrap "open acceptance PostgreSQL pool" e), false)
  | Ok _ =>
      match (_ ← migrated; _ ← store; projector) with
      | Err e => (Err e, false)
      | Ok _ => (Ok tt, true)
      end
  end.

Lemma Open_leaves_nothing pool migrated store projector :
  let '(r, left_open) := Open pool migrated store projector in left_open = is_ok r.
Proof. unfold Open. destruct pool, migrated, store, projector; done. Qed.

(** TRUNCATE ... RESTART IDENTITY of every table above. *)
Definition Reset (fault : option error) (t : tables) : result unit * tables :=
  match fault with
  | Some e => (Err (EWrap "reset acceptance projection" e), t)
  | None => (Ok tt, empty_tables)
  end.

Section Operations.
Context (sha256 : string -> list Z) (decode_stream : string -> result (json * trailing)).
Context (json_valid : string -> bool) (uuid_in : string -> result string) (date_in : string -> result Z).

Definition ApplyPayload (env : tx_env) (payload : string) (t : tables) : result Projection * tables :=
  let '(r, db) := Projection.ApplyPayload sha256 decode_stream env payload (projected t) in
  (result ← r;
   Ok {| Duplicate_ := Duplicate result; SourcePosition_ := r_SourcePosition result; AppliedPosition_ := r_AppliedPosition result;
         FirstGap_ := r_FirstGap result; RecomputePending_ := RecomputePending result |},
   {| projected := db; parked := parked t |}).

Definition Resume (env : tx_env) (merchantID : string) (t : tables) : result (bool * bool) * tables :=
  let '(r, db) := ResumeRecompute env merchantID (projected t) in
  (result ← r; Ok (Processed result, rr_Pending result), {| projected := db; parked := parked t |}).

(** A day the store has no row for is not an error. *)
Definition Balance (fault : option error) (merchantID date : string) (t : tables) : result Balance_ :=
  businessDate ← parse_date date;
  match on_rows uuid_in "read daily balance" fault merchantID (fun u => Projection.Balance u businessDate (projected t)) with
  | Err err => if errors_is err "pgx.ErrNoRows" then Ok no_balance else Err err
  | Ok value =>
      Ok {| Found := true; Credits_ := CreditsMinor value; Debits_ := DebitsMinor value; Net_ := NetMinor value;
            Count_ := EntryCount value; Closing_ := ClosingBalanceMinor value |}
  end.

Definition dlq_of (u : string) (r : pending_row) : bool :=
  match pn_merchant r with Some m => String.eqb m u | None => false end && String.eqb (pn_class r) "dlq".
Definition Progress (f1 f2 f3 : option error) (merchantID : string) (t : tables) : result Progress_ :=
  value ← query_Progress uuid_in f1 merchantID (projected t);
  recomputePending ← query_HasPendingRecompute uuid_in f2 merchantID (projected t);
  dlqPending ← match f3 with
               | Some e => Err e
               | None => u ← uuid_in merchantID; Ok (existsb (dlq_of u) (pendings (parked t)))
               end;
  Ok {| p_Source := SourcePosition value; p_Applied := AppliedPosition value; p_FirstGap := FirstGap value;
        p_RecomputePending := recomputePending; p_DLQPending := dlqPending |}.

(** One statement: the pending row, unless its key is taken, and the dead
    letter it returns. *)
Definition insert_parked (clk : Z) (id m : string) (d : Z) (payload : string) (db : pending_db) : result pending_db :=
  if existsb (about id) (pendings db) then Err (EPg "23505" "event_pending_pkey")
  else
    Ok {| pendings := (pendings db ++
            [{| pn_event := id; pn_merchant := Some m; pn_date := Some d; pn_class := "dlq"; pn_attempts := 1;
                pn_first := truncate_us clk; pn_last := truncate_us clk; pn_next := None; pn_code := "fixture_persistent_failure" |}])%list;
          dead_letters := (dead_letters db ++
            [{| dl_id := next_dead db; dl_event := Some id; dl_merchant := Some m; dl_date := Some d;
                dl_type := "ledger.entry.confirmed.v1"; dl_payload := payload; dl_code := "fixture_persistent_failure";
                dl_at := truncate_us clk |}])%list;
          next_dead := next_dead db + 1 |}.
Definition RecordDLQ (env : op_env) (eventID merchantID businessDate payload : string) (t : tables) : result unit * tables :=
  if negb (json_valid payload) then (Err (EMsg "DLQ fixture payload must be valid JSON"), t)
  else
    match (match op_fault env with
           | Some e => Err e
           | None => id ← uuid_in eventID; m ← uuid_in merchantID; d ← date_in businessDate;
                     insert_parked (op_clock env) id m d payload (parked t)
           end) with
    | Err err => (Err (EWrap "record acceptance DLQ state" err), t)
    | Ok db => (Ok tt, {| projected := projected t; parked := db |})
    end.

(** ** What the scenarios can set up *)
Inductive op (t t' : tables) : Prop :=
  | op_reset fault r : Reset fault t = (r, t') -> op t t'
  | op_apply env payload r : ApplyPayload env payload t = (r, t') -> op t t'
  | op_resume env m r : Resume env m t = (r, t') -> op t t'
  | op_dlq env id m d payload r : RecordDLQ env id m d payload t = (r, t') -> op t t'.

Lemma insert_parked_inv clk id m d payload db db' : insert_parked clk id m d payload db = Ok db' ->
  pending_inv db -> pending_inv db'.
Proof.
  unfold insert_parked. destruct (existsb _ _) eqn:E; [done|]. intros [= <-] [U A C]. split; cbn [pendings].
  - rewrite map_app. apply NoDup_snoc; [done|]. intros (r & Hr & Hin)%list_elem_of_fmap.
    apply (existsb_false_forall _ _ E) in Hin. unfold about in Hin. cbn in Hr. by rewrite <- Hr, String.eqb_refl in Hin.
  - intros r [Hr|Hr%list_elem_of_singleton]%elem_of_app; [by apply A|]. subst r. cbn. unfold int4_max. lia.
  - intros r [Hr|Hr%list_elem_of_singleton]%elem_of_app; [by apply C|]. subst r. by right.
Qed.

Lemma op_keeps t t' : op t t' -> steps (proj_step sha256) empty_cdb (projected t) -> pending_inv (parked t) ->
  steps (proj_step sha256) empty_cdb (projected t') /\ pending_inv (parked t').
Proof.
  intros [fault r H|env payload r H|env m r H|env id m d payload r H] Hs Hp.
  - unfold Reset in H. destruct fault; injection H as _ <-; [done|]. split; [apply steps_refl|]. split; cbn; [apply NoDup_nil_2|set_solver..].
  - unfold ApplyPayload in H. destruct (Projection.ApplyPayload _ _ _ _ _) as [q db] eqn:E. injection H as _ <-. split; [|done].
    unfold Projection.ApplyPayload in E. destruct (ParseEntryConfirmed _ _); [|by injection E as _ <-].
    eapply steps_snoc; [done|]. by eapply step_apply.
  - unfold Resume in H. destruct (ResumeRecompute env m (projected t)) as [q db] eqn:E. injection H as _ <-. split; [|done].
    eapply steps_snoc; [done|]. by eapply step_resume.
  - unfold RecordDLQ in H. destruct (negb _); [by injection H as _ <-|]. destruct (op_fault env); [by injection H as _ <-|].
    destruct (uuid_in id); [|by injection H as _ <-]. destruct (uuid_in m); [|by injection H as _ <-].
    destruct (date_in d); [|by injection H as _ <-]. cbn [mbind result_bind] in H.
    destruct (insert_parked _ _ _ _ _ _) eqn:E; injection H as _ <-; [|done]. split; [done|]. by eapply insert_parked_inv.
Qed.

(** Whatever a scenario does with the fixture, the projection is one its
    service reaches, and so is what the pending tables hold. *)
Theorem scenario_states t : steps op empty_tables t -> proj_inv (projected t) /\ pending_inv (parked t).
Proof.
  intros H. enough (steps (proj_step sha256) empty_cdb (projected t) /\ pending_inv (parked t)) as [Hs Hp]
    by (split; [by eapply proj_reachable|done]).
  refine (steps_invariant op (fun t => steps (proj_step sha256) empty_cdb (projected t) /\ pending_inv (parked t)) _ _ _ _ H).
  - intros s s' [Hs Hp] Ho. by eapply op_keeps.
  - split; [apply steps_refl|]. split; cbn; [apply NoDup_nil_2|set_solver..].
Qed.

(** A recorded dead letter is what [Progress] reports and the reprocessing
    finds, and a second one for the same event is refused. *)
Lemma recorded_dlq env id m d payload t t' u : RecordDLQ env id m d payload t = (Ok tt, t') -> uuid_in m = Ok u ->
  (forall p, Progress None None None m t' = Ok p -> p_DLQPending p = true) /\
  (exists l, l ∈ dead_letters (parked t') /\ dl_merchant l = Some u /\ dl_payload l = payload) /\
  (forall env' m' d' payload', is_ok (fst (RecordDLQ env' id m' d' payload' t')) = false).
Proof.
  unfold RecordDLQ. intros H Hu. destruct (negb (json_valid payload)); [done|]. destruct (op_fault env); [done|].
  destruct (uuid_in id) as [v|] eqn:Ev; [|done]. rewrite Hu in H. destruct (date_in d) as [k|]; [|done]. cbn [mbind result_bind] in H.
  unfold insert_parked in H. destruct (existsb _ _); [done|]. injection H as <-. cbn [parked projected]. splits.
  - intros p. unfold Progress. rewrite Hu. destruct (query_Progress _ _ _ _); [|done]. cbn [mbind result_bind].
    destruct (query_HasPendingRecompute _ _ _ _); [|done]. cbn [mbind result_bind parked pendings]. intros [= <-].
    cbn [p_DLQPending]. rewrite existsb_app. cbn [existsb]. unfold dlq_of at 2. cbn [pn_merchant pn_class].
    by rewrite !String.eqb_refl, orb_true_r.
  - eexists. cbn [dead_letters]. split; [apply elem_of_app; right; by apply list_elem_of_singleton|done].
  - intros env' m' d' payload'. destruct (negb (json_valid payload')); [done|]. destruct (op_fault env'); [done|].
    cbn [mbind result_bind]. destruct (uuid_in m') as [m2|]; [|done]. destruct (date_in d'); [|done]. cbn [mbind result_bind parked].
    unfold insert_parked. cbn [pendings]. rewrite existsb_app. cbn [existsb]. unfold about at 2. cbn [pn_event]. by rewrite String.eqb_refl, orb_true_r.
Qed.
End Operations.
End Fixture.
