(* ===== verification/NoRedirect.v ===== *)
(** * The edge's client that follows no redirect

    deploy/edge/krakend/plugins/no-redirect: the HTTP client KrakenD uses for
    the browser's login.  The identity provider's redirect has to reach the
    browser; followed inside the gateway it would hand the callback, and the
    code in it, to the backend's client.

    [transport] is one exchange with the backend, [next] the request net/http
    builds from a redirect. *)

From S2P Require Import Prelude.
From S2P Require Import GoStrings.
From S2P Require Import Json.
From S2P Require Import Auth.
From Stdlib Require Import ZArith Lia.
Open Scope string_scope.
Open Scope Z_scope.

Module NoRedirect.
Record request : Type := { url : string; RequestURI : string; sent_headers : list (string * list string) }.
Record response : Type := { status : Z; headers : list (string * list string); body : string }.

(** ** net/http: Client.Do *)
Inductive redirect_decision : Type := Follow | UseLastResponse | Refuse (e : error).
Definition redirects (r : response) : bool :=
  (existsb (Z.eqb (status r)) [301; 302; 303; 307; 308]) &&
  match List.find (fun h => String.eqb (fst h) "Location") (headers r) with Some (_, v :: _) => negb (String.eqb v "") | _ => false end.

Section Client.
Context (transport : request -> result response) (next : request -> response -> request).
Context (CheckRedirect : list request -> redirect_decision).

(** The response, and what was sent, the last request first. *)
Fixpoint follow (fuel : nat) (via : list request) (req : request) : result response * list request :=
  let sent := req :: via in
  match transport req with
  | Err e => (Err e, sent)
  | Ok r =>
      if redirects r then
        match CheckRedirect sent with
        | UseLastResponse => (Ok r, sent)
        | Refuse e => (Err e, sent)
        | Follow => match fuel with O => (Err (EMsg "stopped after 10 redirects"), sent) | S k => follow k sent (next req r) end
        end
      else (Ok r, sent)
  end.
Definition Do (req : request) : result response * list request :=
  if negb (String.eqb (RequestURI req) "") then (Err (EMsg "http: Request.RequestURI can't be set in client requests"), [])
  else follow 10 [] req.
End Client.

(** ** The plugin *)
Definition pluginName : string := "cashflow-no-redirect".
Definition RegisterClients {A} (register : string -> A) : A := register pluginName.

Definition check_redirect (_ : list request) : redirect_decision := UseLastResponse.

(** [Header.Add], on names as the response has them. *)
Definition Add (name value : string) (h : gmap string (list string)) : gmap string (list string) :=
  <[name := (default [] (h !! name) ++ [value])%list]> h.
Definition add_all (h : gmap string (list string)) (name : string) (values : list string) : gmap string (list string) :=
  fold_left (fun h v => Add name v h) values h.
Definition copy_headers (from : list (string * list string)) (h : gmap string (list string)) : gmap string (list string) :=
  fold_left (fun h entry => add_all h (fst entry) (snd entry)) from h.

Record written : Type := { w_status : Z; w_headers : gmap string (list string); w_body : string }.

Section Plugin.
Context (transport : request -> result response) (next : request -> response -> request).

Definition outbound (req : request) : request := {| url := url req; RequestURI := ""; sent_headers := sent_headers req |}.
Definition serve (h : gmap string (list string)) (req : request) : written * list request :=
  match Do transport next check_redirect (outbound req) with
  | (Err _, sent) => ({| w_status := 502; w_headers := h; w_body := "Bad Gateway" |}, sent)
  | (Ok r, sent) => ({| w_status := status r; w_headers := copy_headers (headers r) h; w_body := body r |}, sent)
  end.
Definition newClient (config : list (string * json)) : result (gmap string (list string) -> request -> written * list request) :=
  match jraw "name" config with
  | Some (JStr name) => if String.eqb name pluginName then Ok serve else Err (EMsg "unexpected HTTP client plugin")
  | _ => Err (EMsg "unexpected HTTP client plugin")
  end.

Lemma add_all_lookup values h name x : add_all h name values !! x =
  if String.eqb x name then match values with [] => h !! name | _ => Some (default [] (h !! name) ++ values)%list end else h !! x.
Proof.
  revert h. induction values as [|v values IH]; intros h; cbn [add_all fold_left].
  - destruct (String.eqb_spec x name); by subst.
  - fold (add_all (Add name v h) name values). rewrite IH. unfold Add. rewrite lookup_insert_eq.
    destruct (String.eqb_spec x name) as [Hx|Hn]; [|by rewrite lookup_insert_ne].
    destruct values; [done|]. cbn. by rewrite <- (app_assoc _ [v]).
Qed.

(** Every header the backend sent is written, whatever order the map gave them in. *)
Lemma copied from h name values : NoDup (map fst from) -> (name, values) ∈ from -> values <> [] ->
  copy_headers from h !! name = Some (default [] (h !! name) ++ values)%list.
Proof.
  revert h. induction from as [|[n vs] from IH]; intros h Hd Hin Hv; [by apply elem_of_nil in Hin|].
  cbn [map fst] in Hd. apply list.NoDup_cons in Hd as [Hn Hd]. cbn [copy_headers fold_left fst snd].
  fold (copy_headers from (add_all h n vs)). apply elem_of_cons in Hin as [[= -> ->]|Hin].
  - assert (forall h', copy_headers from h' !! n = h' !! n) as ->.
    { clear IH Hd. induction from as [|[m ws] from IH]; intros h'; [done|]. cbn [copy_headers fold_left fst snd].
      fold (copy_headers from (add_all h' m ws)). cbn [map fst] in Hn. rewrite IH by (intros H; apply Hn; by right). rewrite add_all_lookup.
      destruct (String.eqb_spec n m) as [->|]; [|done]. destruct Hn. by left. }
    rewrite add_all_lookup, String.eqb_refl. by destruct vs.
  - rewrite IH by done. rewrite add_all_lookup. destruct (String.eqb_spec name n) as [->|]; [|done].
    destruct Hn. apply list_elem_of_fmap. by exists (n, values).
Qed.

(** The browser gets the backend's own answer, a redirect included: the
    gateway sends exactly one request, and not to where a redirect points. *)
Theorem redirect_reaches_browser config handler h req : newClient config = Ok handler ->
  let '(answer, sent) := handler h req in
  sent = [outbound req] /\
  match transport (outbound req) with
  | Err _ => w_status answer = 502 /\ w_headers answer = h
  | Ok r => w_status answer = status r /\ w_body answer = body r /\
      (NoDup (map fst (headers r)) -> forall name values, (name, values) ∈ headers r -> values <> [] ->
         w_headers answer !! name = Some (default [] (h !! name) ++ values)%list)
  end.
Proof.
  unfold newClient. destruct (jraw "name" config) as [[]|]; try done. destruct (String.eqb s pluginName); [|done]. intros [= <-].
  unfold serve, Do. cbn [RequestURI outbound String.eqb negb follow]. fold (outbound req).
  destruct (transport (outbound req)) as [r|]; [|done]. destruct (redirects r); cbn [check_redirect]; splits; try done;
    intros Hd name values; by apply copied.
Qed.
End Plugin.
End NoRedirect.
